(** * The dependency engine of memorysafety.cpp

    A shallow embedding of the runtime in [memorysafety.cpp]: the registry
    ([std::unordered_map<const void*, Object>]), the intrusive [Dependency]
    nodes (a search tree per source and a doubly linked list per target and
    kind), the invalidation cascade and the five entry points.

    Memory is explicit.  [Object]s and [Dependency]s live in two stores indexed
    by the address the allocator handed out; a pointer whose cell has been
    released is absent from its store and dereferencing it is undefined
    behaviour.  Loops and the recursion of the cascade are driven by a step
    budget, so that a computation may return, be undefined, or not finish.

    The embedding comes first, then the vocabulary in which the properties
    are stated (well-formed memories, what a cascade may change, sequences of
    calls), then the properties: the entry points one by one, the total
    correctness of the invalidation cascade on well-formed memories, and the
    invariants that the entry points keep along sequences of calls. *)

From stdpp Require Import gmap list.
From Stdlib Require Import ZArith Lia.

Set Default Proof Using "Type".
Set Warnings "-clear-no-such-hyp".

(** ** Data *)

(** [struct Object]: the root of the lookup tree of its own dependencies, the
    two heads [incoming[0]] (existence) and [incoming[1]] (content), and the
    validity flag.  A null pointer is [None]. *)
Record Object := mkObject {
  dependencies : option positive;
  incoming0 : option positive;
  incoming1 : option positive;
  isValid : bool
}.

(** [Object() noexcept = default] with the member initialisers. *)
Definition Object_default : Object :=
  {| dependencies := None; incoming0 := None; incoming1 := None; isValid := true |}.

(** [incoming[content]], the array indexed by a [bool]. *)
Definition incoming (o : Object) (content : bool) : option positive :=
  if content then incoming1 o else incoming0 o.

Definition set_incoming (content : bool) (v : option positive) (o : Object) : Object :=
  if content
  then {| dependencies := dependencies o; incoming0 := incoming0 o; incoming1 := v; isValid := isValid o |}
  else {| dependencies := dependencies o; incoming0 := v; incoming1 := incoming1 o; isValid := isValid o |}.

Definition set_dependencies (v : option positive) (o : Object) : Object :=
  {| dependencies := v; incoming0 := incoming0 o; incoming1 := incoming1 o; isValid := isValid o |}.

Definition set_isValid (v : bool) (o : Object) : Object :=
  {| dependencies := dependencies o; incoming0 := incoming0 o; incoming1 := incoming1 o; isValid := v |}.

(** [struct Dependency]: [A] depends on [B]; [A] and [B] are [Object*]. *)
Record Dependency := mkDependency {
  A : positive;
  B : positive;
  content : bool;
  parent : option positive;
  left : option positive;
  right : option positive;
  prev : option positive;
  next : option positive
}.

Definition set_content (v : bool) (d : Dependency) : Dependency :=
  {| A := A d; B := B d; content := v; parent := parent d; left := left d;
     right := right d; prev := prev d; next := next d |}.

Definition set_parent (v : option positive) (d : Dependency) : Dependency :=
  {| A := A d; B := B d; content := content d; parent := v; left := left d;
     right := right d; prev := prev d; next := next d |}.

Definition set_left (v : option positive) (d : Dependency) : Dependency :=
  {| A := A d; B := B d; content := content d; parent := parent d; left := v;
     right := right d; prev := prev d; next := next d |}.

Definition set_right (v : option positive) (d : Dependency) : Dependency :=
  {| A := A d; B := B d; content := content d; parent := parent d; left := left d;
     right := v; prev := prev d; next := next d |}.

Definition set_prev (v : option positive) (d : Dependency) : Dependency :=
  {| A := A d; B := B d; content := content d; parent := parent d; left := left d;
     right := right d; prev := v; next := next d |}.

Definition set_next (v : option positive) (d : Dependency) : Dependency :=
  {| A := A d; B := B d; content := content d; parent := parent d; left := left d;
     right := right d; prev := prev d; next := v |}.

(** [class MemorySafety]: the members [lookup] and [initialized], together with
    the memory the class owns: [objs] holds the [Object] stored in each map
    node, [deps] the [Dependency] nodes obtained from [new], and [top] is the
    next address the allocator hands out (addresses are never handed out
    twice, so a released cell stays absent). *)
Record MemorySafety := mkMemorySafety {
  lookup : gmap Z positive;
  objs : gmap positive Object;
  deps : gmap positive Dependency;
  top : positive;
  initialized : bool
}.

(** ** Computations *)

Inductive outcome (T : Type) : Type :=
  | Ret (x : T) (s : MemorySafety)   (* returned [x], memory is now [s] *)
  | Undefined                         (* dereferenced a null or released pointer *)
  | Timeout.                          (* the step budget ran out *)
Arguments Ret {T} x s.
Arguments Undefined {T}.
Arguments Timeout {T}.

Definition M (T : Type) : Type := MemorySafety -> outcome T.

Definition ret {T} (x : T) : M T := fun s => Ret x s.

Definition bind {T U} (m : M T) (k : T -> M U) : M U :=
  fun s => match m s with
           | Ret x s' => k x s'
           | Undefined => Undefined
           | Timeout => Timeout
           end.

Definition undefined {T} : M T := fun _ => Undefined.
Definition timeout {T} : M T := fun _ => Timeout.

Declare Scope ms_scope.
Delimit Scope ms_scope with ms.
Notation "x <- m ;; k" := (bind m (fun x => k))
  (at level 100, m at next level, right associativity) : ms_scope.
Notation "m ;; k" := (bind m (fun _ => k))
  (at level 100, right associativity) : ms_scope.
Open Scope ms_scope.

(** [*p] for an [Object*]. *)
Definition getObj (p : positive) : M Object :=
  fun s => match objs s !! p with
           | Some o => Ret o s
           | None => Undefined
           end.

(** A store through an [Object*]. *)
Definition modObj (p : positive) (f : Object -> Object) : M unit :=
  fun s => match objs s !! p with
           | Some o => Ret tt {| lookup := lookup s; objs := <[p := f o]> (objs s);
                                 deps := deps s; top := top s; initialized := initialized s |}
           | None => Undefined
           end.

(** [*d] for a [Dependency*]. *)
Definition getDep (d : positive) : M Dependency :=
  fun s => match deps s !! d with
           | Some x => Ret x s
           | None => Undefined
           end.

(** A store through a [Dependency*]. *)
Definition modDep (d : positive) (f : Dependency -> Dependency) : M unit :=
  fun s => match deps s !! d with
           | Some x => Ret tt {| lookup := lookup s; objs := objs s;
                                 deps := <[d := f x]> (deps s); top := top s;
                                 initialized := initialized s |}
           | None => Undefined
           end.

(** Dereferencing a nullable pointer. *)
Definition nonnull (p : option positive) : M positive :=
  match p with
  | Some q => ret q
  | None => undefined
  end.

(** [new Dependency()] followed by the stores that fill it in. *)
Definition newDep (x : Dependency) : M positive :=
  fun s => Ret (top s) {| lookup := lookup s; objs := objs s;
                          deps := <[top s := x]> (deps s); top := Pos.succ (top s);
                          initialized := initialized s |}.

(** [delete n]. *)
Definition deleteDep (d : positive) : M unit :=
  fun s => match deps s !! d with
           | Some _ => Ret tt {| lookup := lookup s; objs := objs s;
                                 deps := delete d (deps s); top := top s;
                                 initialized := initialized s |}
           | None => Undefined
           end.

(** ** [Dependency::link] and [Dependency::unlink] *)

Module Dependency.

(** Add to dependency chain: prepend [this] to [B->incoming[content]]. *)
Definition link (this : positive) : M unit :=
  modDep this (set_prev None);;
  d <- getDep this;;
  b <- getObj (B d);;
  modDep this (set_next (incoming b (content d)));;
  d <- getDep this;;
  match next d with
  | Some n => modDep n (set_prev (Some this))
  | None => ret tt
  end;;
  d <- getDep this;;
  modObj (B d) (set_incoming (content d) (Some this)).

(** Remove from dependency chain. *)
Definition unlink (this : positive) : M unit :=
  d <- getDep this;;
  match prev d with
  | Some p => modDep p (set_next (next d))
  | None => modObj (B d) (set_incoming (content d) (next d))
  end;;
  d <- getDep this;;
  match next d with
  | Some n => modDep n (set_prev (prev d))
  | None => ret tt
  end;;
  modDep this (set_prev None);;
  modDep this (set_next None).

End Dependency.

(** ** The member functions of [Object] *)

Module Object.

(** The loop [while (d) { ... }] at the end of [invalidate]: the tree is
    flattened by rotating left children up, and every node without a left
    child is unlinked from its chain and deleted. *)
Fixpoint invalidate_drop (fuel : nat) (d : option positive) : M unit :=
  match fuel with
  | O => timeout
  | S fuel' =>
      match d with
      | None => ret tt
      | Some dp =>
          x <- getDep dp;;
          match left x with
          | Some n =>
              y <- getDep n;;
              modDep dp (set_left (right y));;
              modDep n (set_right (Some dp));;
              invalidate_drop fuel' (Some n)
          | None =>
              let d' := right x in
              Dependency.unlink dp;;
              deleteDep dp;;
              invalidate_drop fuel' d'
          end
      end
  end.

(** [invalidate], [invalidateIncoming] and the loop
    [while (incoming[k]) incoming[k]->A->invalidate();] of the latter. *)
Fixpoint invalidate (fuel : nat) (this : positive) {struct fuel} : M unit :=
  match fuel with
  | O => timeout
  | S fuel' =>
      o <- getObj this;;
      (if isValid o
       then modObj this (set_isValid false);;
            invalidateIncoming fuel' this true
       else ret tt);;
      o <- getObj this;;
      let d := dependencies o in
      modObj this (set_dependencies None);;
      invalidate_drop fuel' d
  end
with invalidateIncoming (fuel : nat) (this : positive) (contentOnly : bool)
       {struct fuel} : M unit :=
  match fuel with
  | O => timeout
  | S fuel' =>
      invalidateIncoming_while fuel' this true;;
      if negb contentOnly
      then invalidateIncoming_while fuel' this false
      else ret tt
  end
with invalidateIncoming_while (fuel : nat) (this : positive) (k : bool)
       {struct fuel} : M unit :=
  match fuel with
  | O => timeout
  | S fuel' =>
      o <- getObj this;;
      match incoming o k with
      | None => ret tt
      | Some e =>
          d <- getDep e;;
          invalidate fuel' (A d);;
          invalidateIncoming_while fuel' this k
      end
  end.

(** Splay rotation. *)
Definition leftRotate (this : positive) (dep : positive) : M unit :=
  d <- getDep dep;;
  let o := right d in
  match o with
  | Some op =>
      x <- getDep op;;
      modDep dep (set_right (left x));;
      x <- getDep op;;
      match left x with
      | Some l => modDep l (set_parent (Some dep))
      | None => ret tt
      end;;
      d <- getDep dep;;
      modDep op (set_parent (parent d))
  | None => ret tt
  end;;
  d <- getDep dep;;
  match parent d with
  | None => modObj this (set_dependencies o)
  | Some p =>
      x <- getDep p;;
      if bool_decide (Some dep = left x)
      then modDep p (set_left o)
      else modDep p (set_right o)
  end;;
  match o with
  | Some op => modDep op (set_left (Some dep))
  | None => ret tt
  end;;
  modDep dep (set_parent o).

(** Splay rotation. *)
Definition rightRotate (this : positive) (dep : positive) : M unit :=
  d <- getDep dep;;
  let o := left d in
  match o with
  | Some op =>
      x <- getDep op;;
      modDep dep (set_left (right x));;
      x <- getDep op;;
      match right x with
      | Some r => modDep r (set_parent (Some dep))
      | None => ret tt
      end;;
      d <- getDep dep;;
      modDep op (set_parent (parent d))
  | None => ret tt
  end;;
  d <- getDep dep;;
  match parent d with
  | None => modObj this (set_dependencies o)
  | Some p =>
      x <- getDep p;;
      if bool_decide (Some dep = left x)
      then modDep p (set_left o)
      else modDep p (set_right o)
  end;;
  match o with
  | Some op => modDep op (set_right (Some dep))
  | None => ret tt
  end;;
  modDep dep (set_parent o).

(** [dep->parent], which the callers of the rotations dereference. *)
Definition parent_of (dep : positive) : M positive :=
  d <- getDep dep;;
  nonnull (parent d).

(** [dep->parent->parent]. *)
Definition grandparent_of (dep : positive) : M positive :=
  p <- parent_of dep;;
  parent_of p.

(** [dep->parent->left == dep] and [dep->parent->right == dep]. *)
Definition is_left (dep : positive) : M bool :=
  p <- parent_of dep;;
  x <- getDep p;;
  ret (bool_decide (left x = Some dep)).

Definition is_right (dep : positive) : M bool :=
  p <- parent_of dep;;
  x <- getDep p;;
  ret (bool_decide (right x = Some dep)).

(** [dep->parent->parent->left == dep->parent] and the same for [right]. *)
Definition parent_is_left (dep : positive) : M bool :=
  p <- parent_of dep;;
  g <- parent_of p;;
  y <- getDep g;;
  ret (bool_decide (left y = Some p)).

Definition parent_is_right (dep : positive) : M bool :=
  p <- parent_of dep;;
  g <- parent_of p;;
  y <- getDep g;;
  ret (bool_decide (right y = Some p)).

(** [a && b]: [b] is evaluated only when [a] holds. *)
Definition and_then (a b : M bool) : M bool :=
  x <- a;;
  if x : bool then b else ret false.

(** Splay a dependency node. *)
Fixpoint splay (fuel : nat) (this : positive) (dep : positive) : M unit :=
  match fuel with
  | O => timeout
  | S fuel' =>
      d <- getDep dep;;
      match parent d with
      | None => ret tt
      | Some p =>
          x <- getDep p;;
          match parent x with
          | None =>
              c <- is_left dep;;
              if c : bool
              then (pp <- parent_of dep;; rightRotate this pp)
              else (pp <- parent_of dep;; leftRotate this pp)
          | Some _ =>
              c1 <- and_then (is_left dep) (parent_is_left dep);;
              if c1 : bool then
                (gp <- grandparent_of dep;; rightRotate this gp);;
                (pp <- parent_of dep;; rightRotate this pp)
              else
                c2 <- and_then (is_right dep) (parent_is_right dep);;
                if c2 : bool then
                  (gp <- grandparent_of dep;; leftRotate this gp);;
                  (pp <- parent_of dep;; leftRotate this pp)
                else
                  c3 <- and_then (is_left dep) (parent_is_right dep);;
                  if c3 : bool then
                    (pp <- parent_of dep;; rightRotate this pp);;
                    (pp <- parent_of dep;; leftRotate this pp)
                  else
                    (pp <- parent_of dep;; leftRotate this pp);;
                    (pp <- parent_of dep;; rightRotate this pp)
          end;;
          splay fuel' this dep
      end
  end.

(** The result of the search loop of [addDependency]: either the function
    returned from inside the loop, or the loop ended with this [parent]. *)
Inductive searched :=
  | Returned
  | Fell (parent : option positive).

(** The loop [while (iter) { parent = iter; ... }] of [addDependency].  The
    two branches for [target < iter->B] and [target > iter->B] have empty
    bodies, so [iter] is the same pointer in the next iteration. *)
Fixpoint addDependency_while (fuel : nat) (this target : positive) (content' : bool)
    (iter parent' : option positive) : M searched :=
  match fuel with
  | O => timeout
  | S fuel' =>
      match iter with
      | None => ret (Fell parent')
      | Some it =>
          let parent' := Some it in
          x <- getDep it;;
          if (target <? B x)%positive then
            addDependency_while fuel' this target content' iter parent'
          else if (B x <? target)%positive then
            addDependency_while fuel' this target content' iter parent'
          else
            (* Existing dependency found, upgrade if needed *)
            (if content' && negb (content x)
             then Dependency.unlink it;;
                  modDep it (set_content true);;
                  Dependency.link it
             else ret tt);;
            splay fuel' this it;;
            ret Returned
      end
  end.

(** Add a dependency. *)
Definition addDependency (fuel : nat) (this target : positive) (content' : bool) : M unit :=
  o <- getObj this;;
  r <- addDependency_while fuel this target content' (dependencies o) None;;
  match r with
  | Returned => ret tt
  | Fell parent' =>
      (* Create a new dependency *)
      d <- newDep {| A := this; B := target; content := content';
                     parent := parent'; left := None; right := None;
                     prev := None; next := None |};;
      (* Add to tree *)
      match parent' with
      | None => modObj this (set_dependencies (Some d))
      | Some p =>
          x <- getDep p;;
          if (target <? B x)%positive
          then modDep p (set_left (Some d))
          else modDep p (set_right (Some d))
      end;;
      (* Add to dependency chain *)
      Dependency.link d;;
      splay fuel this d
  end.

End Object.

(** ** The member functions of [MemorySafety] *)

Module MemorySafety.

(** [lookup[K]]: the address of the [Object] stored under [K], inserting a
    default-constructed one in a new node when the key is absent. *)
Definition subscript (K : Z) : M positive :=
  fun s => match lookup s !! K with
           | Some p => Ret p s
           | None =>
               Ret (top s) {| lookup := <[K := top s]> (lookup s);
                              objs := <[top s := Object_default]> (objs s);
                              deps := deps s; top := Pos.succ (top s);
                              initialized := initialized s |}
           end.

(** [lookup.erase(iter)] for the node of key [K] holding the object at [p]. *)
Definition erase (K : Z) (p : positive) : M unit :=
  fun s => Ret tt {| lookup := delete K (lookup s); objs := delete p (objs s);
                     deps := deps s; top := top s; initialized := initialized s |}.

(** [lookup.find(K)]; [None] is [lookup.end()]. *)
Definition find (K : Z) : M (option positive) :=
  fun s => Ret (lookup s !! K) s.

(** Validate an object.  The value returned is the list of the arguments with
    which [violationHandler] was called. *)
Definition validate (A' : Z) : M (list Z) :=
  iter <- find A';;
  match iter with
  | Some p =>
      o <- getObj p;;
      if negb (isValid o) then ret [A'] else ret []
  | None => ret []
  end.

(** Add a dependency on the existence of B. *)
Definition addDependency (fuel : nat) (A' B' : Z) : M unit :=
  a <- subscript A';;
  (* Stop operating in invalid objects *)
  o <- getObj a;;
  if negb (isValid o) then ret tt else
  b <- subscript B';;
  Object.addDependency fuel a b false.

(** Add a dependency on the content of B. *)
Definition addContentDependency (fuel : nat) (A' B' : Z) : M unit :=
  a <- subscript A';;
  (* Stop operating in invalid objects *)
  o <- getObj a;;
  if negb (isValid o) then ret tt else
  b <- subscript B';;
  (* Is B invalid? Than we are immediately invalid, too *)
  ob <- getObj b;;
  if negb (isValid ob) then Object.invalidate fuel a else
  Object.addDependency fuel a b true.

(** Mark an object as modified. *)
Definition markModified (fuel : nat) (B' : Z) : M unit :=
  iter <- find B';;
  match iter with
  | Some p =>
      (* Invalidate everything that depends on the content *)
      Object.invalidateIncoming fuel p true
  | None => ret tt
  end.

(** Mark an object as destroyed. *)
Definition markDestroyed (fuel : nat) (B' : Z) : M unit :=
  iter <- find B';;
  match iter with
  | Some p =>
      (* Invalidate all dependencies *)
      Object.invalidateIncoming fuel p false;;
      erase B' p
  | None => ret tt
  end.

(** The loop [for (auto& e : lookup) e.second.invalidate();] of the
    destructor.  The order in which an [unordered_map] is traversed is not
    specified: [order] lists its nodes in the order of the traversal. *)
Fixpoint invalidate_each (fuel : nat) (order : list (Z * positive)) : M unit :=
  match order with
  | [] => ret tt
  | e :: order' => Object.invalidate fuel e.2;; invalidate_each fuel order'
  end.

(** [lookup.clear()]: every node is released, with the [Object] it holds. *)
Definition clear : M unit :=
  fun s => Ret tt {| lookup := ∅;
                     objs := filter (fun po => po.1 ∉ (map_img (lookup s) : gset positive))
                               (objs s);
                     deps := deps s; top := top s; initialized := initialized s |}.

(** [initialized = false]. *)
Definition set_initialized (v : bool) : M unit :=
  fun s => Ret tt {| lookup := lookup s; objs := objs s; deps := deps s; top := top s;
                     initialized := v |}.

(** The destructor, for a traversal of the map in the given order. *)
Definition destructor (fuel : nat) (order : list (Z * positive)) : M unit :=
  (* Release all remaining dependencies *)
  invalidate_each fuel order;;
  clear;;
  set_initialized false.

End MemorySafety.

(** ** The entry points of the namespace *)

(** [static MemorySafety logic] once its constructor has run: an empty map
    and [initialized = true]. *)
Definition logic : MemorySafety :=
  {| lookup := ∅; objs := ∅; deps := ∅; top := 1%positive; initialized := true |}.

(** [isAvailable()]. *)
Definition isAvailable : M bool := fun s => Ret (initialized s) s.

Definition validate (A' : Z) : M (list Z) :=
  ok <- isAvailable;;
  if ok then MemorySafety.validate A' else ret [].

Definition add_dependency (fuel : nat) (A' B' : Z) : M unit :=
  ok <- isAvailable;;
  if ok then MemorySafety.addDependency fuel A' B' else ret tt.

Definition add_content_dependency (fuel : nat) (A' B' : Z) : M unit :=
  ok <- isAvailable;;
  if ok then MemorySafety.addContentDependency fuel A' B' else ret tt.

Definition mark_modified (fuel : nat) (B' : Z) : M unit :=
  ok <- isAvailable;;
  if ok then MemorySafety.markModified fuel B' else ret tt.

Definition mark_destroyed (fuel : nat) (B' : Z) : M unit :=
  ok <- isAvailable;;
  if ok then MemorySafety.markDestroyed fuel B' else ret tt.

(** * The vocabulary of the specification *)

(** ** Records and calls *)

(** An address has a record when the map has a node for it. *)
Definition registered (s : MemorySafety) (K : Z) : Prop :=
  exists p o, lookup s !! K = Some p /\ objs s !! p = Some o.

(** The record of an address, when it has one. *)
Definition record (s : MemorySafety) (K : Z) : option Object :=
  match lookup s !! K with
  | Some p => objs s !! p
  | None => None
  end.

(** The calls of the five entry points. *)
Inductive call : Type :=
  | Validate (K : Z)
  | AddDependency (K1 K2 : Z)
  | AddContentDependency (K1 K2 : Z)
  | MarkModified (K : Z)
  | MarkDestroyed (K : Z).

(** Performing a call; what [validate] reported is dropped. *)
Definition perform (fuel : nat) (c : call) : M unit :=
  match c with
  | Validate K => validate K;; ret tt
  | AddDependency K1 K2 => add_dependency fuel K1 K2
  | AddContentDependency K1 K2 => add_content_dependency fuel K1 K2
  | MarkModified K => mark_modified fuel K
  | MarkDestroyed K => mark_destroyed fuel K
  end.

(** [calls s s']: some sequence of calls, each of which returns, leads from
    [s] to [s']. *)
Inductive calls : MemorySafety -> MemorySafety -> Prop :=
  | calls_nil s : calls s s
  | calls_cons s c fuel s1 s2 :
      perform fuel c s = Ret tt s1 -> calls s1 s2 -> calls s s2.

(** Performing a list of calls, each with its own budget. *)
Fixpoint perform_all (l : list (nat * call)) : M unit :=
  match l with
  | [] => ret tt
  | (fuel, c) :: l' => perform fuel c;; perform_all l'
  end.

(** A call is safe when it does not destroy a record that is the source of
    an edge. *)
Definition safe (c : call) (s : MemorySafety) : Prop :=
  match c with
  | MarkDestroyed K =>
      forall p o, lookup s !! K = Some p -> objs s !! p = Some o -> dependencies o = None
  | _ => True
  end.

(** [safe_calls s s']: a sequence of safe calls, each of which returns, leads
    from [s] to [s']. *)
Inductive safe_calls : MemorySafety -> MemorySafety -> Prop :=
  | safe_calls_nil s : safe_calls s s
  | safe_calls_cons s c fuel s1 s2 :
      safe c s -> perform fuel c s = Ret tt s1 -> safe_calls s1 s2 -> safe_calls s s2.

(** ** Chains as lists *)

(** The successor and the predecessor of [e] in a duplicate-free list. *)
Fixpoint after (l : list positive) (e : positive) : option positive :=
  match l with
  | [] => None
  | a :: l' => if decide (a = e) then head l' else after l' e
  end.

(** [before_from pv l e]: the predecessor of [e] in [l], where [pv] precedes
    the head of [l]. *)
Fixpoint before_from (pv : option positive) (l : list positive) (e : positive)
    : option positive :=
  match l with
  | [] => None
  | a :: l' => if decide (a = e) then pv else before_from (Some a) l' e
  end.

(** The predecessor of [e] in a list that starts a chain. *)
Definition before (l : list positive) (e : positive) : option positive :=
  before_from None l e.

(** The last element of [l], or [pv] when [l] is empty. *)
Definition last_or (pv : option positive) (l : list positive) : option positive :=
  match last l with
  | Some a => Some a
  | None => pv
  end.

(** ** Well-formed memories *)

(** The memory with its objects, respectively its nodes, replaced. *)
Definition with_objs (om : gmap positive Object) (s : MemorySafety) : MemorySafety :=
  {| lookup := lookup s; objs := om; deps := deps s; top := top s;
     initialized := initialized s |}.

Definition with_deps (dm : gmap positive Dependency) (s : MemorySafety) : MemorySafety :=
  {| lookup := lookup s; objs := objs s; deps := dm; top := top s;
     initialized := initialized s |}.

(** What the chain of target [p] and kind [k] sees of the node at [e]: its
    two chain links, when the node is allocated and carries that label. *)
Definition cv (dm : gmap positive Dependency) (p : positive) (k : bool) (e : positive)
    : option (option positive * option positive) :=
  match dm !! e with
  | Some x => if decide (B x = p /\ content x = k) then Some (prev x, next x) else None
  | None => None
  end.

(** The chain with head [hd] is a duplicate-free list of exactly the nodes
    labelled [(p, k)], each linked to its neighbours in the list. *)
Definition chain_ok (dm : gmap positive Dependency) (p : positive) (k : bool)
    (hd : option positive) : Prop :=
  exists l, NoDup l /\ hd = head l /\
    forall e, cv dm p k e = if decide (e ∈ l) then Some (before l e, after l e) else None.

(** The chain with head [hd] is the list [l], from the head on. *)
Definition chain_is (dm : gmap positive Dependency) (p : positive) (k : bool)
    (hd : option positive) (l : list positive) : Prop :=
  NoDup l /\ hd = head l /\
  forall e, cv dm p k e = if decide (e ∈ l) then Some (before l e, after l e) else None.

(** The shape of a binary tree of nodes, and its nodes from left to right. *)
Inductive tree : Type :=
  | Leaf
  | Node (l : tree) (e : positive) (r : tree).

Fixpoint nodes (t : tree) : list positive :=
  match t with
  | Leaf => []
  | Node l e r => nodes l ++ e :: nodes r
  end.

(** What the tree of source [p] sees of the node at [e]: its two children. *)
Definition tv (dm : gmap positive Dependency) (p : positive) (e : positive)
    : option (option positive * option positive) :=
  match dm !! e with
  | Some x => if decide (A x = p) then Some (left x, right x) else None
  | None => None
  end.

Fixpoint shape (f : positive -> option (option positive * option positive))
    (root : option positive) (t : tree) : Prop :=
  match t with
  | Leaf => root = None
  | Node l e r =>
      root = Some e /\
      exists a b, f e = Some (a, b) /\ shape f a l /\ shape f b r
  end.

(** The tree under [root] consists of exactly the nodes with source [p]. *)
Definition tree_ok (dm : gmap positive Dependency) (p : positive)
    (root : option positive) : Prop :=
  exists t, NoDup (nodes t) /\ shape (tv dm p) root t /\
    forall e, e ∉ nodes t -> tv dm p e = None.

(** Nothing is allocated at or above [top]. *)
Definition alloc_ok (s : MemorySafety) : Prop :=
  forall p, (top s <= p)%positive -> objs s !! p = None /\ deps s !! p = None.

(** Well-formedness, relative to where the root of each tree is found. *)
Definition wf_with (root : positive -> Object -> option positive) (s : MemorySafety) : Prop :=
  alloc_ok s /\
  (forall e x, deps s !! e = Some x ->
     is_Some (objs s !! A x) /\ is_Some (objs s !! B x)) /\
  (forall p o, objs s !! p = Some o ->
     (forall k, chain_ok (deps s) p k (incoming o k)) /\
     tree_ok (deps s) p (root p o)).

(** A memory is well formed when nothing lies beyond [top], the ends of every
    node are allocated objects, the chain under each head consists of exactly
    the nodes with that target and kind, and the tree under [dependencies]
    of exactly the nodes with that source. *)
Definition wf (s : MemorySafety) : Prop :=
  wf_with (fun _ o => dependencies o) s.

(** During the loop that drops the tree of [X], the rest of that tree hangs
    from the local variable [d]. *)
Definition root_at (X : positive) (d : option positive) : positive -> Object -> option positive :=
  fun p o => if decide (p = X) then d else dependencies o.

(** The root of a tree has no parent. *)
Definition roots_ok (s : MemorySafety) : Prop :=
  forall p o r x, objs s !! p = Some o -> dependencies o = Some r ->
    deps s !! r = Some x -> parent x = None.

(** The nodes of the map hold distinct, allocated objects. *)
Definition lookup_ok (s : MemorySafety) : Prop :=
  (forall K p, lookup s !! K = Some p -> is_Some (objs s !! p)) /\
  (forall K K' p, lookup s !! K = Some p -> lookup s !! K' = Some p -> K = K').

(** An invalid object has no dependencies. *)
Definition invalid_ok (s : MemorySafety) : Prop :=
  forall p o, objs s !! p = Some o -> isValid o = false -> dependencies o = None.

(** What every memory reached by the entry points satisfies, as long as no
    record is destroyed that is the source of an edge. *)
Definition consistent (s : MemorySafety) : Prop :=
  wf s /\ roots_ok s /\ lookup_ok s /\ invalid_ok s.

(** Every edge is the root of the tree of its source. *)
Definition single_edges (s : MemorySafety) : Prop :=
  forall p o e x, objs s !! p = Some o -> deps s !! e = Some x -> A x = p ->
    dependencies o = Some e.

(** ** The map and the objects it holds *)

(** Every object is held by a node of the map. *)
Definition held (s : MemorySafety) : Prop :=
  forall p, is_Some (objs s !! p) -> exists K, lookup s !! K = Some p.

(** No [Object] is allocated at or above [top]. *)
Definition alloc_objs (s : MemorySafety) : Prop :=
  forall p, (top s <= p)%positive -> objs s !! p = None.

Definition registry_ok (s : MemorySafety) : Prop :=
  lookup_ok s /\ held s /\ alloc_objs s.

(** ** The memories between the stores of a member function *)

(** [alt o f m] alters the cell under a nullable pointer. *)
Definition alt (o : option positive) (f : Dependency -> Dependency)
    (m : gmap positive Dependency) : gmap positive Dependency :=
  match o with
  | Some a => alter f a m
  | None => m
  end.

(** The memory after [unlink] of the node [e0], whose contents were [x0] and
    whose target has the record [ob]. *)
Definition unlinked (e0 : positive) (x0 : Dependency) (ob : Object) (s : MemorySafety)
    : MemorySafety :=
  {| lookup := lookup s;
     objs := match prev x0 with
             | Some _ => objs s
             | None => <[B x0 := set_incoming (content x0) (next x0) ob]> (objs s)
             end;
     deps := alter (set_next None) e0 (alter (set_prev None) e0
               (alt (next x0) (set_prev (prev x0))
                  (alt (prev x0) (set_next (next x0)) (deps s))));
     top := top s;
     initialized := initialized s |}.

(** The memory after [unlink] and [delete]. *)
Definition released (e0 : positive) (x0 : Dependency) (ob : Object) (s : MemorySafety)
    : MemorySafety :=
  {| lookup := lookup s;
     objs := match prev x0 with
             | Some _ => objs s
             | None => <[B x0 := set_incoming (content x0) (next x0) ob]> (objs s)
             end;
     deps := delete e0 (alt (next x0) (set_prev (prev x0))
                            (alt (prev x0) (set_next (next x0)) (deps s)));
     top := top s;
     initialized := initialized s |}.

(** The memory after one rotation of the loop: [dp->left = n->right;
    n->right = dp]. *)
Definition rotated (dp nn : positive) (y : Dependency) (s : MemorySafety) : MemorySafety :=
  with_deps (alter (set_right (Some dp)) nn (alter (set_left (right y)) dp (deps s))) s.

(** The memory after [link] of the node [d], whose contents were [x] and
    whose target has the record [ob]. *)
Definition linked (d : positive) (x : Dependency) (ob : Object) (s : MemorySafety)
    : MemorySafety :=
  {| lookup := lookup s;
     objs := <[B x := set_incoming (content x) (Some d) ob]> (objs s);
     deps := alt (incoming ob (content x)) (set_prev (Some d))
               (alter (set_next (incoming ob (content x))) d
                  (alter (set_prev None) d (deps s)));
     top := top s;
     initialized := initialized s |}.

(** The memory after [new Dependency()] and the store to [dependencies]. *)
Definition created (a b : positive) (c : bool) (oa : Object) (s : MemorySafety)
    : MemorySafety :=
  {| lookup := lookup s;
     objs := <[a := set_dependencies (Some (top s)) oa]> (objs s);
     deps := <[top s := {| A := a; B := b; content := c; parent := None;
                           left := None; right := None;
                           prev := None; next := None |}]> (deps s);
     top := Pos.succ (top s);
     initialized := initialized s |}.

(** The memory after [unlink] and [content = true]. *)
Definition relabelled (r : positive) (x : Dependency) (ob : Object) (s : MemorySafety)
    : MemorySafety :=
  with_deps (<[r := set_content true (set_next None (set_prev None x))]>
               (deps (released r x ob s)))
            (released r x ob s).

(** ** What a cascade changes *)

(** [frame T s s']: from [s] to [s'] nothing is allocated, no object is
    released and none becomes valid; a node that is still there has its ends
    and its kind; the objects outside [T] keep their flag and their root, and
    their nodes stay, with the same place in the tree. *)
Definition frame (T : gset positive) (s s' : MemorySafety) : Prop :=
  lookup s' = lookup s /\ top s' = top s /\ initialized s' = initialized s /\
  (forall p, objs s !! p = None -> objs s' !! p = None) /\
  (forall p o, objs s !! p = Some o ->
     exists o', objs s' !! p = Some o' /\
       (isValid o = false -> isValid o' = false) /\
       (p ∉ T -> isValid o' = isValid o /\ dependencies o' = dependencies o)) /\
  (forall e, deps s !! e = None -> deps s' !! e = None) /\
  (forall e x x', deps s !! e = Some x -> deps s' !! e = Some x' ->
     A x' = A x /\ B x' = B x /\ content x' = content x) /\
  (forall e x, deps s !! e = Some x -> A x ∉ T ->
     exists x', deps s' !! e = Some x' /\
       parent x' = parent x /\ left x' = left x /\ right x' = right x).

(** An object is dead when its flag is false and it is the source of no edge. *)
Definition dead (s : MemorySafety) (p : positive) : Prop :=
  (exists o, objs s !! p = Some o /\ isValid o = false) /\
  (forall e x, deps s !! e = Some x -> A x <> p).

(** From [s] to [s'] every object keeps its root and its flag. *)
Definition same_flags (s s' : MemorySafety) : Prop :=
  forall p o, objs s !! p = Some o ->
    exists o', objs s' !! p = Some o' /\
      dependencies o' = dependencies o /\ isValid o' = isValid o.

(** The number of iterations the loop needs to drop the tree [t]: a node is
    rotated up once for every node of its left spine, then released. *)
Fixpoint mu (t : tree) : nat :=
  match t with
  | Leaf => 0
  | Node l _ r => 2 * mu l + 1 + mu r
  end.

(** The state of the loop: the rest [t] of the tree of [X] hangs from [d]. *)
Definition dropping (X : positive) (d : option positive) (t : tree) (s : MemorySafety)
    : Prop :=
  wf_with (root_at X d) s /\ is_Some (objs s !! X) /\
  NoDup (nodes t) /\ shape (tv (deps s) X) d t /\
  (forall e, e ∉ nodes t -> tv (deps s) X e = None).

(** The objects whose flag is set. *)
Definition valid_set (s : MemorySafety) : gset positive :=
  dom (filter (fun po => isValid po.2 = true) (objs s)).

(** [Y] depends on the content of the valid object [Z]. *)
Definition cedge (s : MemorySafety) (Y Z : positive) : Prop :=
  exists e x o, deps s !! e = Some x /\ A x = Y /\ B x = Z /\ content x = true /\
                objs s !! Z = Some o /\ isValid o = true.

(** [Y] depends on [X] through a chain of content dependencies on valid
    objects. *)
Definition reach (s : MemorySafety) (Y X : positive) : Prop := rtc (cedge s) Y X.

(** What a cascade over the objects [T] leaves behind. *)
Definition cascaded (s : MemorySafety) (T : gset positive) (s' : MemorySafety) : Prop :=
  wf s' /\ frame T s s' /\ forall p, p ∈ T -> dead s' p.

(** [T] contains, with every object that was valid, the sources of the
    content edges into it. *)
Definition closed_under_content (s : MemorySafety) (T : gset positive) : Prop :=
  forall Z o e x, Z ∈ T -> objs s !! Z = Some o -> isValid o = true ->
    deps s !! e = Some x -> B x = Z -> content x = true -> A x ∈ T.

(** The statement proved of [invalidate], for memories with at most [n] valid
    objects. *)
Definition invalidate_spec (n : nat) : Prop :=
  forall s X, size (valid_set s) <= n -> wf s -> is_Some (objs s !! X) ->
  exists N s' T,
    (forall fuel, N <= fuel -> Object.invalidate fuel X s = Ret tt s') /\
    cascaded s T s' /\ X ∈ T /\
    (forall Y, Y ∈ T -> reach s Y X) /\
    closed_under_content s T.

(** The statement proved of the loops of [invalidateIncoming]. *)
Definition while_spec (n : nat) (k : bool) : Prop :=
  forall s X, size (valid_set s) <= n -> wf s -> is_Some (objs s !! X) ->
  exists N s' T,
    (forall fuel, N <= fuel -> Object.invalidateIncoming_while fuel X k s = Ret tt s') /\
    cascaded s T s' /\
    (forall Y, Y ∈ T ->
       exists e x, deps s !! e = Some x /\ B x = X /\ content x = k /\ reach s Y (A x)) /\
    (forall e x, deps s !! e = Some x -> B x = X -> content x = k -> A x ∈ T) /\
    closed_under_content s T.

(** [B] depends on its own content: an edge into [B] whose source is reached
    from [B] by content dependencies. *)
Definition self_dependent (s : MemorySafety) (b : positive) : Prop :=
  exists e x, deps s !! e = Some x /\ B x = b /\ content x = true /\ reach s b (A x).

(** [e] is an edge of [s] that [s'] still has, with the same ends, kind and
    place in the tree of its source. *)
Definition edge_kept (s s' : MemorySafety) (e : positive) : Prop :=
  exists x x', deps s !! e = Some x /\ deps s' !! e = Some x' /\
    A x' = A x /\ B x' = B x /\ content x' = content x /\
    parent x' = parent x /\ left x' = left x /\ right x' = right x.

(** ** Relations between the memory before and after a computation *)

(** A store to a [Dependency] is mild when it leaves the ends of the edge
    alone and does not turn a content edge into an existence edge. *)
Definition mild (f : Dependency -> Dependency) : Prop :=
  forall x, A (f x) = A x /\ B (f x) = B x /\ (content x = true -> content (f x) = true).

(** The map is the same. *)
Definition same_lookup (s s' : MemorySafety) : Prop := lookup s' = lookup s.



(** [s'] has the objects of [s], with the same flags and roots, the same map
    and the same parent pointers. *)
Definition same_trees (s s' : MemorySafety) : Prop :=
  lookup s' = lookup s /\
  (forall p o', objs s' !! p = Some o' ->
     exists o, objs s !! p = Some o /\ dependencies o' = dependencies o /\
               isValid o' = isValid o) /\
  (forall p o, objs s !! p = Some o -> is_Some (objs s' !! p)) /\
  (forall e x', deps s' !! e = Some x' ->
     exists x, deps s !! e = Some x /\ parent x' = parent x).

(** What a call that adds or upgrades an edge keeps of the memory. *)
Definition kept (s s' : MemorySafety) : Prop :=
  initialized s' = initialized s /\
  (forall K p, lookup s !! K = Some p -> lookup s' !! K = Some p) /\
  (forall p o, objs s !! p = Some o ->
     exists o', objs s' !! p = Some o' /\ isValid o' = isValid o) /\
  (forall e x, deps s !! e = Some x ->
     exists x', deps s' !! e = Some x' /\ A x' = A x /\ B x' = B x /\
                (content x = true -> content x' = true)).

(** [below m m']: whenever [m] returns, [m'] returns the same. *)
Definition below {T} (m m' : M T) : Prop :=
  forall s x s', m s = Ret x s' -> m' s = Ret x s'.

(** From [s] to [s'] the map is the same and the same objects are allocated. *)
Definition registry_kept (s s' : MemorySafety) : Prop :=
  lookup s' = lookup s /\ (top s <= top s')%positive /\
  forall p, objs s' !! p = None <-> objs s !! p = None.

(** From [s] to [s'] no node of the map and no object is released, the nodes
    and objects that are new lie at or above the old [top], every object has
    the flag it had and the new ones are valid. *)
Definition flags_kept (s s' : MemorySafety) : Prop :=
  alloc_objs s ->
  alloc_objs s' /\ (top s <= top s')%positive /\ initialized s' = initialized s /\
  (forall K p, lookup s !! K = Some p -> lookup s' !! K = Some p) /\
  (forall K p, lookup s' !! K = Some p ->
     lookup s !! K = Some p \/ (lookup s !! K = None /\ (top s <= p)%positive)) /\
  (forall p o, objs s !! p = Some o ->
     exists o', objs s' !! p = Some o' /\ isValid o' = isValid o) /\
  (forall p o', objs s' !! p = Some o' -> objs s !! p = None -> isValid o' = true).

(** From [s] to [s'] no released object comes back and no flag is set again. *)
Definition flags_fall (s s' : MemorySafety) : Prop :=
  alloc_objs s ->
  alloc_objs s' /\ (top s <= top s')%positive /\
  (forall p, (p < top s)%positive -> objs s !! p = None -> objs s' !! p = None) /\
  (forall p o o', objs s !! p = Some o -> objs s' !! p = Some o' ->
     isValid o = false -> isValid o' = false).

(** The map loses a node only to [markDestroyed] on its key. *)
Definition nodes_stay (s s' : MemorySafety) : Prop :=
  forall K p, lookup s !! K = Some p -> lookup s' !! K = Some p.

(** ** Trees with a context *)

(** The cell of the parent after [parent->left = o] or [parent->right = o]. *)
Definition relink (dep : positive) (o : option positive) (xp : Dependency) : Dependency :=
  if bool_decide (Some dep = left xp) then set_left o xp else set_right o xp.

(** A tree with a hole: the path from the root to the hole, outermost node
    first, with the subtree on the other side of each node. *)
Inductive hole : Type :=
  | InLeft (p : positive) (r : tree)
  | InRight (l : tree) (p : positive).

Definition fill (f : hole) (t : tree) : tree :=
  match f with
  | InLeft p r => Node t p r
  | InRight l p => Node l p t
  end.

Fixpoint plug (C : list hole) (t : tree) : tree :=
  match C with
  | [] => t
  | f :: C' => fill f (plug C' t)
  end.

Definition hole_node (f : hole) : positive :=
  match f with
  | InLeft p _ => p
  | InRight _ p => p
  end.

(** The parent of the root of the subtree in the hole. *)
Fixpoint holepar (C : list hole) (par : option positive) : option positive :=
  match C with
  | [] => par
  | f :: C' => holepar C' (Some (hole_node f))
  end.

(** The nodes under [root] form the tree [t]: the children are as in [t] and
    every node points back at its parent; the parent of the root is [par]. *)
Fixpoint ptree (dm : gmap positive Dependency) (par root : option positive) (t : tree)
    : Prop :=
  match t with
  | Leaf => root = None
  | Node l e r =>
      root = Some e /\
      exists x, dm !! e = Some x /\ parent x = par /\
                ptree dm (Some e) (left x) l /\ ptree dm (Some e) (right x) r
  end.

(** The only differences between [s] and [s'] are the root of the tree of
    [this] and the fields [parent], [left] and [right] of the nodes. *)
Definition links_only (this : positive) (s s' : MemorySafety) : Prop :=
  lookup s' = lookup s /\ top s' = top s /\ initialized s' = initialized s /\
  (forall q, q <> this -> objs s' !! q = objs s !! q) /\
  (forall o, objs s !! this = Some o ->
     exists r, objs s' !! this = Some (set_dependencies r o)) /\
  (forall e, deps s !! e = None -> deps s' !! e = None) /\
  (forall e x, deps s !! e = Some x ->
     exists x', deps s' !! e = Some x' /\ A x' = A x /\ B x' = B x /\
       content x' = content x /\ prev x' = prev x /\ next x' = next x).

(** The tree of [this] is [T]. *)
Definition tree_at (this : positive) (s : MemorySafety) (T : tree) : Prop :=
  exists ot, objs s !! this = Some ot /\ NoDup (nodes T) /\
             ptree (deps s) None (dependencies ot) T.

Definition root_of (t : tree) : option positive :=
  match t with
  | Leaf => None
  | Node _ e _ => Some e
  end.

(** From [s] with the tree [T] to [s'] with the tree [T']: the same nodes in
    the same order, and only tree pointers have changed. *)
Definition rotated_to (this : positive) (s : MemorySafety) (T : tree)
    (s' : MemorySafety) (T' : tree) : Prop :=
  links_only this s s' /\ tree_at this s' T' /\ nodes T' = nodes T /\
  forall e, e ∉ nodes T -> deps s' !! e = deps s !! e.

(** ** Example memories *)

(** The memory after [add_dependency(100, 200)] on a fresh registry. *)
Definition after_first_edge : MemorySafety :=
  {| lookup := <[200%Z := 2%positive]> (<[100%Z := 1%positive]> ∅);
     objs := <[2%positive := {| dependencies := None; incoming0 := Some 3%positive;
                                incoming1 := None; isValid := true |}]>
             (<[1%positive := {| dependencies := Some 3%positive; incoming0 := None;
                                 incoming1 := None; isValid := true |}]> ∅);
     deps := <[3%positive := {| A := 1; B := 2; content := false; parent := None;
                                left := None; right := None;
                                prev := None; next := None |}]> ∅;
     top := 4%positive;
     initialized := true |}.

(** The memory after [mark_destroyed(100)] on [after_first_edge]: the record
    of 100 is gone, its edge to 200 is still allocated and still heads the
    existence chain of 200. *)
Definition after_source_destroyed : MemorySafety :=
  {| lookup := <[200%Z := 2%positive]> ∅;
     objs := <[2%positive := {| dependencies := None; incoming0 := Some 3%positive;
                                incoming1 := None; isValid := true |}]> ∅;
     deps := <[3%positive := {| A := 1; B := 2; content := false; parent := None;
                                left := None; right := None;
                                prev := None; next := None |}]> ∅;
     top := 4%positive;
     initialized := true |}.

(** The memory after [mark_destroyed(200)] on [after_first_edge]. *)
Definition after_target_destroyed : MemorySafety :=
  {| lookup := <[100%Z := 1%positive]> ∅;
     objs := <[1%positive := {| dependencies := None; incoming0 := None;
                                incoming1 := None; isValid := false |}]> ∅;
     deps := ∅;
     top := 4%positive;
     initialized := true |}.

(** A memory with three records: 200 is invalid, 400 depends on the content
    of 100.  It is what [add_dependency(200, 300); mark_destroyed(300);
    add_content_dependency(400, 100)] leave of a fresh registry. *)
Definition three_records : MemorySafety :=
  {| lookup := <[100%Z := 5%positive]> (<[400%Z := 4%positive]>
                 (<[200%Z := 1%positive]> ∅));
     objs := <[5%positive := {| dependencies := None; incoming0 := None;
                                incoming1 := Some 6%positive; isValid := true |}]>
             (<[4%positive := {| dependencies := Some 6%positive; incoming0 := None;
                                 incoming1 := None; isValid := true |}]>
             (<[1%positive := {| dependencies := None; incoming0 := None;
                                 incoming1 := None; isValid := false |}]> ∅));
     deps := <[6%positive := {| A := 4; B := 5; content := true; parent := None;
                                left := None; right := None;
                                prev := None; next := None |}]> ∅;
     top := 7%positive;
     initialized := true |}.

(** The memory left by [add_content_dependency(10, 20)], [mark_destroyed(10)],
    [add_dependency(30, 40)] and [mark_destroyed(40)]: the record of 30 is
    invalid, the record of 20 is valid, and the content chain of 20 still
    holds the edge 3, whose source, the record of 10, has been released. *)
Definition after_leaked_edge : MemorySafety :=
  {| lookup := <[30%Z := 4%positive]> (<[20%Z := 2%positive]> ∅);
     objs := <[4%positive := {| dependencies := None; incoming0 := None;
                                incoming1 := None; isValid := false |}]>
             (<[2%positive := {| dependencies := None; incoming0 := None;
                                 incoming1 := Some 3%positive; isValid := true |}]> ∅);
     deps := <[3%positive := {| A := 1; B := 2; content := true; parent := None;
                                left := None; right := None;
                                prev := None; next := None |}]> ∅;
     top := 7%positive; initialized := true |}.

(** A record with three edges in one tree: the root 12, its left child 11 and
    the left child 10 of that one. *)
Definition three_edges : MemorySafety :=
  {| lookup := <[400%Z := 4%positive]> (<[300%Z := 3%positive]>
                 (<[200%Z := 2%positive]> (<[100%Z := 1%positive]> ∅)));
     objs := <[4%positive := {| dependencies := None; incoming0 := Some 12%positive;
                                incoming1 := None; isValid := true |}]>
             (<[3%positive := {| dependencies := None; incoming0 := Some 11%positive;
                                 incoming1 := None; isValid := true |}]>
             (<[2%positive := {| dependencies := None; incoming0 := Some 10%positive;
                                 incoming1 := None; isValid := true |}]>
             (<[1%positive := {| dependencies := Some 12%positive; incoming0 := None;
                                 incoming1 := None; isValid := true |}]> ∅)));
     deps := <[12%positive := {| A := 1; B := 4; content := false; parent := None;
                                 left := Some 11%positive; right := None;
                                 prev := None; next := None |}]>
             (<[11%positive := {| A := 1; B := 3; content := false;
                                  parent := Some 12%positive;
                                  left := Some 10%positive; right := None;
                                  prev := None; next := None |}]>
             (<[10%positive := {| A := 1; B := 2; content := false;
                                  parent := Some 11%positive;
                                  left := None; right := None;
                                  prev := None; next := None |}]> ∅));
     top := 13%positive; initialized := true |}.

(** The same record after a right rotation at 12: the root 11 with the
    children 10 and 12. *)
Definition three_edges_balanced : MemorySafety :=
  {| lookup := <[400%Z := 4%positive]> (<[300%Z := 3%positive]>
                 (<[200%Z := 2%positive]> (<[100%Z := 1%positive]> ∅)));
     objs := <[4%positive := {| dependencies := None; incoming0 := Some 12%positive;
                                incoming1 := None; isValid := true |}]>
             (<[3%positive := {| dependencies := None; incoming0 := Some 11%positive;
                                 incoming1 := None; isValid := true |}]>
             (<[2%positive := {| dependencies := None; incoming0 := Some 10%positive;
                                 incoming1 := None; isValid := true |}]>
             (<[1%positive := {| dependencies := Some 11%positive; incoming0 := None;
                                 incoming1 := None; isValid := true |}]> ∅)));
     deps := <[12%positive := {| A := 1; B := 4; content := false;
                                 parent := Some 11%positive;
                                 left := None; right := None;
                                 prev := None; next := None |}]>
             (<[11%positive := {| A := 1; B := 3; content := false;
                                  parent := None;
                                  left := Some 10%positive; right := Some 12%positive;
                                  prev := None; next := None |}]>
             (<[10%positive := {| A := 1; B := 2; content := false;
                                  parent := Some 11%positive;
                                  left := None; right := None;
                                  prev := None; next := None |}]> ∅));
     top := 13%positive; initialized := true |}.

(** * Reasoning about computations *)

(** ** Running a computation one step at a time *)

Lemma run_bind {T U} (m : M T) (k : T -> M U) s x s1 r :
  m s = Ret x s1 -> k x s1 = r -> bind m k s = r.
Proof. unfold bind. intros ->. done. Qed.

Lemma run_getObj p s o : objs s !! p = Some o -> getObj p s = Ret o s.
Proof. unfold getObj. intros ->. done. Qed.

Lemma run_getDep e s x : deps s !! e = Some x -> getDep e s = Ret x s.
Proof. unfold getDep. intros ->. done. Qed.

Lemma run_modObj p f s o :
  objs s !! p = Some o ->
  modObj p f s = Ret tt {| lookup := lookup s; objs := <[p := f o]> (objs s);
                           deps := deps s; top := top s; initialized := initialized s |}.
Proof. unfold modObj. intros ->. done. Qed.

Lemma run_modDep e f s x :
  deps s !! e = Some x ->
  modDep e f s = Ret tt {| lookup := lookup s; objs := objs s;
                           deps := <[e := f x]> (deps s); top := top s;
                           initialized := initialized s |}.
Proof. unfold modDep. intros ->. done. Qed.

Lemma run_deleteDep e s x :
  deps s !! e = Some x ->
  deleteDep e s = Ret tt {| lookup := lookup s; objs := objs s;
                            deps := delete e (deps s); top := top s;
                            initialized := initialized s |}.
Proof. unfold deleteDep. intros ->. done. Qed.

Lemma run_find K s v : lookup s !! K = v -> MemorySafety.find K s = Ret v s.
Proof. unfold MemorySafety.find. intros ->. done. Qed.

Lemma run_subscript_Some K s p :
  lookup s !! K = Some p -> MemorySafety.subscript K s = Ret p s.
Proof. unfold MemorySafety.subscript. intros ->. done. Qed.

Lemma run_subscript_None K s :
  lookup s !! K = None ->
  MemorySafety.subscript K s =
    Ret (top s) {| lookup := <[K := top s]> (lookup s);
                   objs := <[top s := Object_default]> (objs s);
                   deps := deps s; top := Pos.succ (top s);
                   initialized := initialized s |}.
Proof. unfold MemorySafety.subscript. intros ->. done. Qed.

(** ** The equations of the loops *)

Lemma invalidate_drop_S fuel d :
  Object.invalidate_drop (S fuel) d =
    match d with
    | None => ret tt
    | Some dp =>
        x <- getDep dp;;
        match left x with
        | Some n =>
            y <- getDep n;;
            modDep dp (set_left (right y));;
            modDep n (set_right (Some dp));;
            Object.invalidate_drop fuel (Some n)
        | None =>
            Dependency.unlink dp;;
            deleteDep dp;;
            Object.invalidate_drop fuel (right x)
        end
    end.
Proof. reflexivity. Qed.

Lemma invalidate_S fuel this :
  Object.invalidate (S fuel) this =
    (o <- getObj this;;
     (if isValid o
      then modObj this (set_isValid false);;
           Object.invalidateIncoming fuel this true
      else ret tt);;
     o <- getObj this;;
     modObj this (set_dependencies None);;
     Object.invalidate_drop fuel (dependencies o)).
Proof. reflexivity. Qed.

Lemma invalidateIncoming_S fuel this contentOnly :
  Object.invalidateIncoming (S fuel) this contentOnly =
    (Object.invalidateIncoming_while fuel this true;;
     if negb contentOnly
     then Object.invalidateIncoming_while fuel this false
     else ret tt).
Proof. reflexivity. Qed.

Lemma invalidateIncoming_while_S fuel this k :
  Object.invalidateIncoming_while (S fuel) this k =
    (o <- getObj this;;
     match incoming o k with
     | None => ret tt
     | Some e =>
         d <- getDep e;;
         Object.invalidate fuel (A d);;
         Object.invalidateIncoming_while fuel this k
     end).
Proof. reflexivity. Qed.

Lemma addDependency_while_S fuel this target c iter parent' :
  Object.addDependency_while (S fuel) this target c iter parent' =
    match iter with
    | None => ret (Object.Fell parent')
    | Some it =>
        x <- getDep it;;
        if (target <? B x)%positive then
          Object.addDependency_while fuel this target c iter (Some it)
        else if (B x <? target)%positive then
          Object.addDependency_while fuel this target c iter (Some it)
        else
          (if c && negb (content x)
           then Dependency.unlink it;;
                modDep it (set_content true);;
                Dependency.link it
           else ret tt);;
          Object.splay fuel this it;;
          ret Object.Returned
    end.
Proof. reflexivity. Qed.

Lemma splay_root fuel this dep s x :
  deps s !! dep = Some x -> parent x = None ->
  Object.splay (S fuel) this dep s = Ret tt s.
Proof.
  intros Hx Hp. simpl. unfold bind. rewrite (run_getDep _ _ _ Hx), Hp. done.
Qed.

Lemma splay_S fuel this dep :
  Object.splay (S fuel) this dep =
    (d <- getDep dep;;
     match parent d with
     | None => ret tt
     | Some p =>
         x <- getDep p;;
         match parent x with
         | None =>
             c <- Object.is_left dep;;
             if c : bool
             then (pp <- Object.parent_of dep;; Object.rightRotate this pp)
             else (pp <- Object.parent_of dep;; Object.leftRotate this pp)
         | Some _ =>
             c1 <- Object.and_then (Object.is_left dep) (Object.parent_is_left dep);;
             if c1 : bool then
               (gp <- Object.grandparent_of dep;; Object.rightRotate this gp);;
               (pp <- Object.parent_of dep;; Object.rightRotate this pp)
             else
               c2 <- Object.and_then (Object.is_right dep) (Object.parent_is_right dep);;
               if c2 : bool then
                 (gp <- Object.grandparent_of dep;; Object.leftRotate this gp);;
                 (pp <- Object.parent_of dep;; Object.leftRotate this pp)
               else
                 c3 <- Object.and_then (Object.is_left dep) (Object.parent_is_right dep);;
                 if c3 : bool then
                   (pp <- Object.parent_of dep;; Object.rightRotate this pp);;
                   (pp <- Object.parent_of dep;; Object.leftRotate this pp)
                 else
                   (pp <- Object.parent_of dep;; Object.leftRotate this pp);;
                   (pp <- Object.parent_of dep;; Object.rightRotate this pp)
         end;;
         Object.splay fuel this dep
     end).
Proof. reflexivity. Qed.

(** ** A tactic that runs a computation on a given memory *)

Ltac ms_norm :=
  cbn [lookup objs deps top initialized
       dependencies incoming0 incoming1 isValid incoming
       set_incoming set_dependencies set_isValid Object_default
       A B content parent left right prev next
       set_content set_parent set_left set_right set_prev set_next
       Pos.succ negb andb orb Nat.add].

Ltac ms_ne := first [ done | lia | congruence ].

Ltac ms_lookup :=
  ms_norm;
  repeat first
    [ rewrite lookup_insert_eq
    | rewrite lookup_insert_ne by ms_ne
    | rewrite lookup_delete_eq
    | rewrite lookup_delete_ne by ms_ne
    | rewrite lookup_empty ];
  first [ reflexivity | eassumption ].

Ltac ms_cond c :=
  let c' := eval vm_compute in c in
  lazymatch c' with
  | true => change c with true
  | false => change c with false
  end.

Ltac run :=
  ms_norm;
  lazymatch goal with
  | |- bind _ _ _ = _ => eapply run_bind; [ run | run ]
  | |- ret _ _ = _ => reflexivity
  | |- getObj _ _ = _ => eapply run_getObj; ms_lookup
  | |- getDep _ _ = _ => eapply run_getDep; ms_lookup
  | |- modObj _ _ _ = _ => eapply run_modObj; ms_lookup
  | |- modDep _ _ _ = _ => eapply run_modDep; ms_lookup
  | |- deleteDep _ _ = _ => eapply run_deleteDep; ms_lookup
  | |- newDep _ _ = _ => reflexivity
  | |- isAvailable _ = _ => reflexivity
  | |- MemorySafety.erase _ _ _ = _ => reflexivity
  | |- MemorySafety.find _ _ = _ => eapply run_find; ms_lookup
  | |- MemorySafety.subscript _ _ = _ =>
      first [ eapply run_subscript_Some; ms_lookup
            | etrans; [ eapply run_subscript_None; ms_lookup | reflexivity ] ]
  | |- (if ?c then _ else _) _ = _ => ms_cond c; cbv iota; run
  | |- Object.invalidate_drop (S _) _ _ = _ => rewrite invalidate_drop_S; run
  | |- Object.invalidate (S _) _ _ = _ => rewrite invalidate_S; run
  | |- Object.invalidateIncoming (S _) _ _ _ = _ => rewrite invalidateIncoming_S; run
  | |- Object.invalidateIncoming_while (S _) _ _ _ = _ =>
      rewrite invalidateIncoming_while_S; run
  | |- Object.addDependency_while (S _) _ _ _ _ _ _ = _ =>
      rewrite addDependency_while_S; run
  | |- Object.splay (S _) _ _ _ = _ => rewrite splay_S; run
  | |- Dependency.link _ _ = _ => unfold Dependency.link; run
  | |- Dependency.unlink _ _ = _ => unfold Dependency.unlink; run
  | |- Object.addDependency _ _ _ _ _ = _ => unfold Object.addDependency; run
  | |- Object.leftRotate _ _ _ = _ => unfold Object.leftRotate; run
  | |- Object.rightRotate _ _ _ = _ => unfold Object.rightRotate; run
  | |- Object.parent_of _ _ = _ => unfold Object.parent_of; run
  | |- Object.grandparent_of _ _ = _ => unfold Object.grandparent_of; run
  | |- Object.is_left _ _ = _ => unfold Object.is_left; run
  | |- Object.is_right _ _ = _ => unfold Object.is_right; run
  | |- Object.parent_is_left _ _ = _ => unfold Object.parent_is_left; run
  | |- Object.parent_is_right _ _ = _ => unfold Object.parent_is_right; run
  | |- Object.and_then _ _ _ = _ => unfold Object.and_then; run
  | |- nonnull _ _ = _ => unfold nonnull; run
  | |- MemorySafety.validate _ _ = _ => unfold MemorySafety.validate; run
  | |- MemorySafety.addDependency _ _ _ _ = _ => unfold MemorySafety.addDependency; run
  | |- MemorySafety.addContentDependency _ _ _ _ = _ =>
      unfold MemorySafety.addContentDependency; run
  | |- MemorySafety.markModified _ _ _ = _ => unfold MemorySafety.markModified; run
  | |- MemorySafety.markDestroyed _ _ _ = _ => unfold MemorySafety.markDestroyed; run
  | |- validate _ _ = _ => unfold validate; run
  | |- add_dependency _ _ _ _ = _ => unfold add_dependency; run
  | |- add_content_dependency _ _ _ _ = _ => unfold add_content_dependency; run
  | |- mark_modified _ _ _ = _ => unfold mark_modified; run
  | |- mark_destroyed _ _ _ = _ => unfold mark_destroyed; run
  end.

(** * Properties of the entry points *)

(** ** [validate] *)

Lemma validate_eq s K :
  MemorySafety.validate K s =
    match lookup s !! K with
    | None => Ret [] s
    | Some p =>
        match objs s !! p with
        | Some o => Ret (if isValid o then [] else [K]) s
        | None => Undefined
        end
    end.
Proof.
  unfold MemorySafety.validate, bind, MemorySafety.find, getObj.
  destruct (lookup s !! K) as [p|]; [|done].
  destruct (objs s !! p) as [o|]; [|done].
  by destruct (isValid o).
Qed.

(** The three outcomes of [MemorySafety::validate], by the record found. *)
Lemma validate_cases (s : MemorySafety) (K : Z) :
  (MemorySafety.validate K s = Ret [K] s <->
     exists p o, lookup s !! K = Some p /\ objs s !! p = Some o /\ isValid o = false) /\
  (MemorySafety.validate K s = Ret [] s <->
     lookup s !! K = None \/
     exists p o, lookup s !! K = Some p /\ objs s !! p = Some o /\ isValid o = true) /\
  (forall r s', MemorySafety.validate K s = Ret r s' -> r = [K] \/ r = []).
Proof.
  rewrite validate_eq.
  destruct (lookup s !! K) as [p|] eqn:Hl.
  - destruct (objs s !! p) as [o|] eqn:Ho.
    + destruct (isValid o) eqn:Hv.
      * split; [|split].
        -- split; [intros [=]|]. intros (?&?&[= <-]&?&?). congruence.
        -- split; [right; eauto|done].
        -- intros ?? [= <- _]. eauto.
      * split; [|split].
        -- split; [eauto|done].
        -- split; [intros [=]|]. intros [[=]|(?&?&[= <-]&?&?)]. congruence.
        -- intros ?? [= <- _]. eauto.
    + split; [|split].
      * split; [done|]. intros (?&?&[= <-]&?&?). congruence.
      * split; [done|]. intros [[=]|(?&?&[= <-]&?&?)]. congruence.
      * done.
  - split; [|split].
    + split; [intros [=]|]. intros (?&?&[=]&_).
    + split; eauto.
    + intros ?? [= <- _]. eauto.
Qed.

(** C4: the handler is called, once and with the address passed, exactly when
    the address has a record whose flag is false; there is no call exactly
    when the address has no record or a valid one.  The exported [validate]
    is this function once the registry is initialised, and reports nothing
    before. *)
Theorem validate_reports_iff_invalid (s : MemorySafety) (K : Z) :
  (MemorySafety.validate K s = Ret [K] s <->
     exists p o, lookup s !! K = Some p /\ objs s !! p = Some o /\ isValid o = false) /\
  (MemorySafety.validate K s = Ret [] s <->
     lookup s !! K = None \/
     exists p o, lookup s !! K = Some p /\ objs s !! p = Some o /\ isValid o = true) /\
  (forall r s', MemorySafety.validate K s = Ret r s' -> r = [K] \/ r = []) /\
  validate K s = (if initialized s then MemorySafety.validate K s else Ret [] s).
Proof.
  destruct (validate_cases s K) as (H1 & H2 & H3).
  split_and!; [done..|].
  unfold validate, bind, isAvailable. by destruct (initialized s).
Qed.

(** C10: [validate] returns with the memory it was given; the only other
    outcome is that of a map node without an object, which cannot be as the
    map stores the objects in its nodes: when every node holds an allocated
    object, [validate] returns, with that memory. *)
Theorem validate_leaves_state (s : MemorySafety) (K : Z) :
  match MemorySafety.validate K s with
  | Ret _ s' => s' = s
  | Undefined => exists p, lookup s !! K = Some p /\ objs s !! p = None
  | Timeout => False
  end /\
  match validate K s with
  | Ret _ s' => s' = s
  | Undefined => exists p, lookup s !! K = Some p /\ objs s !! p = None
  | Timeout => False
  end /\
  (lookup_ok s ->
   exists r, MemorySafety.validate K s = Ret r s /\
             validate K s = Ret (if initialized s then r else []) s).
Proof.
  assert (Hm : match MemorySafety.validate K s with
               | Ret _ s' => s' = s
               | Undefined => exists p, lookup s !! K = Some p /\ objs s !! p = None
               | Timeout => False
               end).
  { rewrite validate_eq.
    destruct (lookup s !! K) as [p|]; [|done].
    destruct (objs s !! p) eqn:?; eauto. }
  split; [done|]. split.
  - unfold validate, bind, isAvailable. by destruct (initialized s).
  - intros [Hl _]. unfold validate, bind, isAvailable.
    destruct (initialized s); rewrite ?validate_eq;
      (destruct (lookup s !! K) as [p|] eqn:HK;
       [destruct (Hl _ _ HK) as [o ->]|]; eexists; split; reflexivity).
Qed.

(** ** Records are created by the edge operations only *)

Lemma markModified_unregistered fuel (K : Z) s :
  lookup s !! K = None -> MemorySafety.markModified fuel K s = Ret tt s.
Proof. intros H. unfold MemorySafety.markModified, bind, MemorySafety.find. by rewrite H. Qed.

Lemma markDestroyed_unregistered fuel (K : Z) s :
  lookup s !! K = None -> MemorySafety.markDestroyed fuel K s = Ret tt s.
Proof. intros H. unfold MemorySafety.markDestroyed, bind, MemorySafety.find. by rewrite H. Qed.

Ltac ms_registered :=
  unfold registered; eexists; eexists; split; [ ms_lookup | ms_lookup ].

Lemma addDependency_unregistered fuel (K1 K2 : Z) (c : bool) s :
  lookup s !! K1 = None -> lookup s !! K2 = None ->
  exists s',
    (if c then MemorySafety.addContentDependency (S fuel) K1 K2 s
     else MemorySafety.addDependency (S fuel) K1 K2 s) = Ret tt s' /\
    registered s' K1 /\ registered s' K2.
Proof.
  intros H1 H2. destruct s as [lk ob dp tp ini]; simpl in *.
  destruct (decide (K1 = K2)) as [->|Hne]; destruct c.
  - eexists; split; [run|].
    split; ms_registered.
  - eexists; split; [run|].
    split; ms_registered.
  - eexists; split; [run|].
    split; ms_registered.
  - eexists; split; [run|].
    split; ms_registered.
Qed.

(** C3, as the code has it: [markModified] on an address without a record
    creates none and leaves the memory as it is; [addDependency] and
    [addContentDependency] on two addresses without records return and
    leave a record for each. *)
Theorem records_created_by_edges_only (s : MemorySafety) (X K1 K2 : Z) (fuel : nat) :
  (lookup s !! X = None -> MemorySafety.markModified fuel X s = Ret tt s) /\
  (lookup s !! K1 = None -> lookup s !! K2 = None ->
   (exists s', MemorySafety.addDependency (S fuel) K1 K2 s = Ret tt s' /\
               registered s' K1 /\ registered s' K2) /\
   (exists s', MemorySafety.addContentDependency (S fuel) K1 K2 s = Ret tt s' /\
               registered s' K1 /\ registered s' K2)).
Proof.
  split; [apply markModified_unregistered|].
  intros H1 H2. split.
  - apply (addDependency_unregistered fuel K1 K2 false s H1 H2).
  - apply (addDependency_unregistered fuel K1 K2 true s H1 H2).
Qed.

Lemma records_created_by_edges_only_witness :
  (MemorySafety.markModified 5 7 logic = Ret tt logic) /\
  (exists s', MemorySafety.addDependency 1 100 200 logic = Ret tt s' /\
              registered s' 100 /\ registered s' 200).
Proof.
  destruct (records_created_by_edges_only logic 7 100 200 0) as [H1 H2].
  split.
  - apply (records_created_by_edges_only logic 7 100 200 5). reflexivity.
  - apply H2; reflexivity.
Defined.

(** C3 as stated fails: after [mark_modified] on a fresh registry the address
    still has no record. *)
Lemma mark_modified_creates_no_record :
  exists s', mark_modified 5 7 logic = Ret tt s' /\ ~ registered s' 7.
Proof.
  exists logic. split; [reflexivity|].
  intros (p & o & Hl & _). vm_compute in Hl. discriminate.
Qed.

(** ** The search loop of [Object::addDependency] *)

Lemma run_bind_timeout {T U} (m : M T) (k : T -> M U) s :
  m s = Timeout -> bind m k s = Timeout.
Proof. unfold bind. by intros ->. Qed.

Lemma run_bind_undefined {T U} (m : M T) (k : T -> M U) s :
  m s = Undefined -> bind m k s = Undefined.
Proof. unfold bind. by intros ->. Qed.

(** When the node under [iter] has another target than the one searched for,
    the loop keeps looking at that node: no budget is enough. *)
Lemma addDependency_while_spins fuel this target c it par s x :
  deps s !! it = Some x -> B x <> target ->
  Object.addDependency_while fuel this target c (Some it) par s = Timeout.
Proof.
  intros Hx Hne. revert par.
  induction fuel as [|fuel IH]; intros par; [done|].
  rewrite addDependency_while_S. unfold bind at 1.
  rewrite (run_getDep _ _ _ Hx).
  destruct (target <? B x)%positive eqn:H1; [apply IH|].
  destruct (B x <? target)%positive eqn:H2; [apply IH|].
  apply Pos.ltb_ge in H1, H2. lia.
Qed.

(** Hence [addDependency] does not return for a source whose tree has a root
    with another target. *)
Lemma Object_addDependency_diverges fuel this target c s o r x :
  objs s !! this = Some o -> dependencies o = Some r ->
  deps s !! r = Some x -> B x <> target ->
  Object.addDependency fuel this target c s = Timeout.
Proof.
  intros Ho Hr Hx Hne. unfold Object.addDependency.
  unfold bind at 1. rewrite (run_getObj _ _ _ Ho), Hr.
  apply run_bind_timeout. by eapply addDependency_while_spins.
Qed.

Lemma addDependency_diverges fuel (K1 K2 : Z) s a b o r x :
  lookup s !! K1 = Some a -> lookup s !! K2 = Some b ->
  objs s !! a = Some o -> isValid o = true -> dependencies o = Some r ->
  deps s !! r = Some x -> B x <> b ->
  MemorySafety.addDependency fuel K1 K2 s = Timeout /\
  (forall ob, objs s !! b = Some ob -> isValid ob = true ->
     MemorySafety.addContentDependency fuel K1 K2 s = Timeout).
Proof.
  intros Ha Hb Ho Hv Hr Hx Hne. split.
  - unfold MemorySafety.addDependency.
    unfold bind at 1. rewrite (run_subscript_Some _ _ _ Ha).
    unfold bind at 1. rewrite (run_getObj _ _ _ Ho), Hv. simpl.
    unfold bind at 1. rewrite (run_subscript_Some _ _ _ Hb).
    by eapply Object_addDependency_diverges.
  - intros ob Hob Hvb. unfold MemorySafety.addContentDependency.
    unfold bind at 1. rewrite (run_subscript_Some _ _ _ Ha).
    unfold bind at 1. rewrite (run_getObj _ _ _ Ho), Hv. simpl.
    unfold bind at 1. rewrite (run_subscript_Some _ _ _ Hb).
    unfold bind at 1. rewrite (run_getObj _ _ _ Hob), Hvb. simpl.
    by eapply Object_addDependency_diverges.
Qed.

Lemma add_dependency_first_edge fuel :
  add_dependency (S fuel) 100 200 logic = Ret tt after_first_edge.
Proof.
  etrans; [unfold logic; run|]. by vm_compute.
Qed.

(** C1: on the memory left by [add_dependency(100, 200)], registering a second
    target for 100 does not return, whatever the budget: the search loop
    never leaves the root of the tree. *)
Theorem add_dependency_second_target_spins :
  (forall fuel, add_dependency (S fuel) 100 200 logic = Ret tt after_first_edge) /\
  (forall fuel, add_dependency fuel 100 300 after_first_edge = Timeout) /\
  (forall fuel, add_content_dependency fuel 100 300 after_first_edge = Timeout).
Proof.
  split; [apply add_dependency_first_edge|].
  split; intros fuel.
  - unfold add_dependency. eapply run_bind; [by vm_compute|]. cbv iota.
    unfold MemorySafety.addDependency.
    eapply run_bind; [by vm_compute|].
    eapply run_bind; [by vm_compute|]. cbn [isValid negb].
    eapply run_bind; [by vm_compute|].
    eapply (Object_addDependency_diverges fuel 1 4 false _ _ 3); by vm_compute.
  - unfold add_content_dependency. eapply run_bind; [by vm_compute|]. cbv iota.
    unfold MemorySafety.addContentDependency.
    eapply run_bind; [by vm_compute|].
    eapply run_bind; [by vm_compute|]. cbn [isValid negb].
    eapply run_bind; [by vm_compute|].
    eapply run_bind; [by vm_compute|]. cbn [isValid negb Object_default].
    eapply (Object_addDependency_diverges fuel 1 4 true _ _ 3); by vm_compute.
Qed.

(** C2: [mark_destroyed] on the source of an edge removes the record of the
    source and keeps the edge on the chain of its target, with [A] pointing at
    the released record; destroying or modifying the target afterwards
    dereferences that pointer. *)
Theorem mark_destroyed_keeps_outgoing_edge :
  (forall fuel, mark_destroyed (S (S fuel)) 100 after_first_edge
                = Ret tt after_source_destroyed) /\
  (exists o e x,
     record after_source_destroyed 200 = Some o /\
     incoming o false = Some e /\
     deps after_source_destroyed !! e = Some x /\
     objs after_source_destroyed !! A x = None) /\
  (forall fuel, mark_destroyed (S (S (S fuel))) 200 after_source_destroyed = Undefined).
Proof.
  split; [|split].
  - intros fuel. etrans; [unfold after_first_edge; run|]. by vm_compute.
  - do 3 eexists. repeat split; by vm_compute.
  - intros fuel. by vm_compute.
Qed.

Lemma last_or_cons pv a l : last_or pv (a :: l) = last_or (Some a) l.
Proof.
  unfold last_or. destruct l as [|b l]; [done|].
  rewrite last_cons_cons. by destruct (last (b :: l)) eqn:E; [|by apply last_None in E].
Qed.

Lemma after_middle l1 e0 l2 :
  e0 ∉ l1 -> after (l1 ++ e0 :: l2) e0 = head l2.
Proof.
  induction l1 as [|a l1 IH]; simpl; intros Hn.
  - by rewrite decide_True.
  - rewrite decide_False by set_solver. apply IH. set_solver.
Qed.

Lemma before_middle pv l1 e0 l2 :
  e0 ∉ l1 -> before_from pv (l1 ++ e0 :: l2) e0 = last_or pv l1.
Proof.
  revert pv. induction l1 as [|a l1 IH]; simpl; intros pv Hn.
  - by rewrite decide_True.
  - rewrite decide_False by set_solver. rewrite last_or_cons. apply IH. set_solver.
Qed.

Lemma after_not_in l e : e ∉ l -> after l e = None.
Proof.
  induction l as [|a l IH]; simpl; [done|]. intros Hn.
  rewrite decide_False by set_solver. apply IH. set_solver.
Qed.

Lemma before_not_in pv l e : e ∉ l -> before_from pv l e = None.
Proof.
  revert pv. induction l as [|a l IH]; simpl; [done|]. intros pv Hn.
  rewrite decide_False by set_solver. apply IH. set_solver.
Qed.

Lemma after_remove l1 e0 l2 e :
  NoDup (l1 ++ e0 :: l2) -> e <> e0 ->
  after (l1 ++ l2) e =
    if decide (last l1 = Some e) then head l2 else after (l1 ++ e0 :: l2) e.
Proof.
  intros Hnd Hne. induction l1 as [|a l1 IH].
  - simpl. destruct (decide (None = Some e)); [done|].
    by destruct (decide (e0 = e)); [congruence|].
  - simpl in Hnd. apply NoDup_cons in Hnd as [Ha Hnd].
    cbn [app after]. destruct (decide (a = e)) as [->|Hae].
    + destruct l1 as [|b l1].
      * simpl. by destruct (decide (Some e = Some e)).
      * rewrite last_cons_cons. simpl.
        destruct (decide (last (b :: l1) = Some e)) as [Hl|]; [|done].
        apply last_Some_elem_of in Hl. set_solver.
    + rewrite (IH Hnd). destruct l1 as [|b l1].
      * simpl. destruct (decide (None = Some e)); [done|].
        destruct (decide (Some a = Some e)); [congruence|].
        by destruct (decide (e0 = e)); [congruence|].
      * by rewrite last_cons_cons.
Qed.

Lemma before_remove pv l1 e0 l2 e :
  NoDup (l1 ++ e0 :: l2) -> e <> e0 ->
  before_from pv (l1 ++ l2) e =
    if decide (head l2 = Some e) then
      (if decide (e ∈ l1) then before_from pv (l1 ++ e0 :: l2) e else last_or pv l1)
    else before_from pv (l1 ++ e0 :: l2) e.
Proof.
  revert pv. induction l1 as [|a l1 IH]; intros pv Hnd Hne.
  - cbn [app before_from]. destruct (decide (e0 = e)); [congruence|].
    destruct (decide (e ∈ [])); [set_solver|].
    destruct l2 as [|b l2]; cbn [head before_from].
    + by destruct (decide (None = Some e)).
    + destruct (decide (b = e)) as [->|Hb].
      * by destruct (decide (Some e = Some e)).
      * by destruct (decide (Some b = Some e)); [congruence|].
  - apply NoDup_cons in Hnd as [Ha Hnd]. cbn [app before_from].
    destruct (decide (a = e)) as [->|Hae].
    + destruct (decide (e ∈ e :: l1)); [|set_solver]. by destruct (decide _).
    + rewrite (IH (Some a) Hnd Hne). rewrite last_or_cons.
      destruct (decide (head l2 = Some e)); [|done].
      destruct (decide (e ∈ l1)).
      * by destruct (decide (e ∈ a :: l1)); [|set_solver].
      * by destruct (decide (e ∈ a :: l1)); [set_solver|].
Qed.

Lemma last_or_None l : last_or None l = last l.
Proof. unfold last_or. by destruct (last l). Qed.

Lemma before_remove_nodup l1 e0 l2 e :
  NoDup (l1 ++ e0 :: l2) -> e <> e0 ->
  before (l1 ++ l2) e =
    if decide (head l2 = Some e) then last l1 else before (l1 ++ e0 :: l2) e.
Proof.
  intros Hnd Hne. unfold before. rewrite (before_remove None l1 e0 l2 e Hnd Hne).
  destruct (decide (head l2 = Some e)) as [Hh|]; [|done].
  destruct (decide (e ∈ l1)) as [Hin|]; [|apply last_or_None].
  apply NoDup_app in Hnd as (_ & Hd & _). destruct l2 as [|b l2]; [done|].
  simpl in Hh. injection Hh as ->. exfalso. apply (Hd e Hin). set_solver.
Qed.

Lemma before_middle_nodup l1 e0 l2 :
  NoDup (l1 ++ e0 :: l2) -> before (l1 ++ e0 :: l2) e0 = last l1.
Proof.
  intros Hnd. unfold before. rewrite before_middle, last_or_None; [done|].
  apply NoDup_app in Hnd as (_ & Hd & _). intros Hin. apply (Hd e0 Hin). set_solver.
Qed.

Lemma after_middle_nodup l1 e0 l2 :
  NoDup (l1 ++ e0 :: l2) -> after (l1 ++ e0 :: l2) e0 = head l2.
Proof.
  intros Hnd. apply after_middle.
  apply NoDup_app in Hnd as (_ & Hd & _). intros Hin. apply (Hd e0 Hin). set_solver.
Qed.

(** ** Well-formed memories *)

Lemma lookup_alt o f (m : gmap positive Dependency) e :
  alt o f m !! e = if decide (o = Some e) then f <$> m !! e else m !! e.
Proof.
  destruct o as [a|]; simpl.
  - rewrite lookup_alter. destruct (decide (a = e)) as [->|].
    + by destruct (decide (Some e = Some e)).
    + by destruct (decide (Some a = Some e)); [congruence|].
  - by destruct (decide (None = Some e)).
Qed.

Lemma alter_present (m : gmap positive Dependency) e x f :
  m !! e = Some x -> <[e := f x]> m = alter f e m.
Proof.
  intros H. apply map_eq. intros i. rewrite lookup_alter, lookup_insert.
  destruct (decide (e = i)) as [->|]; [by rewrite H|done].
Qed.

Lemma run_modDep_alter e f s x :
  deps s !! e = Some x -> modDep e f s = Ret tt (with_deps (alter f e (deps s)) s).
Proof.
  intros H. rewrite (run_modDep _ _ _ _ H). unfold with_deps. by rewrite (alter_present _ _ _ _ H).
Qed.

Lemma unlink_run s e0 x0 ob :
  deps s !! e0 = Some x0 -> objs s !! B x0 = Some ob ->
  (forall a, prev x0 = Some a -> a <> e0 /\ is_Some (deps s !! a)) ->
  (forall n, next x0 = Some n -> n <> e0 /\ is_Some (deps s !! n)) ->
  Dependency.unlink e0 s = Ret tt (unlinked e0 x0 ob s).
Proof.
  intros He Hb Hp Hn. unfold Dependency.unlink.
  set (dm1 := alt (prev x0) (set_next (next x0)) (deps s)).
  set (om1 := match prev x0 with
              | Some _ => objs s
              | None => <[B x0 := set_incoming (content x0) (next x0) ob]> (objs s)
              end).
  set (s1 := {| lookup := lookup s; objs := om1; deps := dm1; top := top s;
                initialized := initialized s |}).
  assert (H0 : dm1 !! e0 = Some x0).
  { unfold dm1. rewrite lookup_alt. destruct (decide (prev x0 = Some e0)) as [E|]; [|done].
    by destruct (Hp _ E). }
  set (dm2 := alt (next x0) (set_prev (prev x0)) dm1).
  assert (H1 : dm2 !! e0 = Some x0).
  { unfold dm2. rewrite lookup_alt. destruct (decide (next x0 = Some e0)) as [E|]; [|done].
    by destruct (Hn _ E). }
  eapply run_bind; [by apply run_getDep|].
  eapply (run_bind _ _ _ tt s1).
  { unfold s1, om1, dm1. destruct (prev x0) as [a|] eqn:Ep.
    - destruct (Hp a eq_refl) as [Hne [xa Hxa]].
      by rewrite (run_modDep_alter _ _ _ _ Hxa).
    - by rewrite (run_modObj _ _ _ _ Hb). }
  eapply run_bind; [by apply run_getDep|].
  eapply (run_bind _ _ _ tt (with_deps dm2 s1)).
  { unfold dm2. destruct (next x0) as [n|] eqn:En.
    - destruct (Hn n eq_refl) as [Hne [xn Hxn]].
      assert (is_Some (dm1 !! n)) as [xn' Hxn'].
      { unfold dm1. rewrite lookup_alt. destruct (decide _); rewrite Hxn; eauto. }
      by rewrite (run_modDep_alter _ _ s1 _ Hxn').
    - done. }
  eapply run_bind; [by eapply run_modDep_alter|].
  erewrite run_modDep_alter; [done|].
  simpl. by rewrite lookup_alter_eq, H1.
Qed.

Lemma unlink_delete_run s e0 x0 ob :
  deps s !! e0 = Some x0 -> objs s !! B x0 = Some ob ->
  (forall a, prev x0 = Some a -> a <> e0 /\ is_Some (deps s !! a)) ->
  (forall n, next x0 = Some n -> n <> e0 /\ is_Some (deps s !! n)) ->
  (Dependency.unlink e0;; deleteDep e0) s = Ret tt (released e0 x0 ob s).
Proof.
  intros He Hb Hp Hn.
  eapply run_bind; [by apply unlink_run|].
  assert (is_Some (deps (unlinked e0 x0 ob s) !! e0)) as [x Hx].
  { simpl. rewrite !lookup_alter_eq, !lookup_alt.
    destruct (decide _) as [E|]; [by destruct (Hn _ E)|].
    destruct (decide _) as [E|]; [by destruct (Hp _ E)|].
    rewrite He. eauto. }
  rewrite (run_deleteDep _ _ _ Hx). unfold released. simpl.
  by rewrite !delete_alter_eq.
Qed.

(** ** The chains after [unlink] and [delete] *)

Lemma chain_split dm p k hd e0 x0 :
  chain_ok dm p k hd -> dm !! e0 = Some x0 -> B x0 = p -> content x0 = k ->
  exists l1 l2,
    NoDup (l1 ++ e0 :: l2) /\ hd = head (l1 ++ e0 :: l2) /\
    prev x0 = last l1 /\ next x0 = head l2 /\
    forall e, cv dm p k e =
      if decide (e ∈ l1 ++ e0 :: l2)
      then Some (before (l1 ++ e0 :: l2) e, after (l1 ++ e0 :: l2) e) else None.
Proof.
  intros (l & Hnd & Hhd & Hcv) He Hp Hk.
  pose proof (Hcv e0) as H0. unfold cv in H0. rewrite He in H0.
  destruct (decide (B x0 = p /\ content x0 = k)) as [_|[]]; [|done].
  destruct (decide (e0 ∈ l)) as [Hin|]; [|done].
  apply list_elem_of_split in Hin as (l1 & l2 & ->).
  exists l1, l2. repeat split; try done.
  - injection H0 as H0 _. by rewrite H0, before_middle_nodup.
  - injection H0 as _ H0. by rewrite H0, after_middle_nodup.
Qed.

Lemma cv_Some dm p k e v :
  cv dm p k e = Some v ->
  exists x, dm !! e = Some x /\ B x = p /\ content x = k /\ v = (prev x, next x).
Proof.
  unfold cv. destruct (dm !! e) as [x|]; [|done].
  destruct (decide _) as [[??]|]; [|done]. intros [= <-]. eauto.
Qed.

Lemma chain_elem dm p k l e :
  (forall e, cv dm p k e = if decide (e ∈ l) then Some (before l e, after l e) else None) ->
  e ∈ l ->
  exists x, dm !! e = Some x /\ B x = p /\ content x = k /\
            prev x = before l e /\ next x = after l e.
Proof.
  intros Hcv Hin. pose proof (Hcv e) as H.
  destruct (decide (e ∈ l)); [|done].
  apply cv_Some in H as (x & ? & ? & ? & [= ??]). eauto 10.
Qed.

Section Released.
Context (s : MemorySafety) (e0 : positive) (x0 : Dependency) (ob : Object).
Context (hd : option positive).
Hypothesis He : deps s !! e0 = Some x0.
Hypothesis Hch : chain_ok (deps s) (B x0) (content x0) hd.

Lemma released_side :
  (forall a, prev x0 = Some a -> a <> e0 /\ is_Some (deps s !! a)) /\
  (forall n, next x0 = Some n -> n <> e0 /\ is_Some (deps s !! n)).
Proof using He Hch.
  destruct (chain_split _ _ _ _ _ _ Hch He eq_refl eq_refl)
    as (l1 & l2 & Hnd & Hhd & Hpv & Hnx & Hcv).
  pose proof Hnd as Hnd'. apply NoDup_app in Hnd' as (_ & Hd & Hnd2).
  apply NoDup_cons in Hnd2 as [Hn2 _].
  split.
  - intros a Ha. rewrite Hpv in Ha. apply last_Some_elem_of in Ha.
    split; [intros ->; apply (Hd e0 Ha); set_solver|].
    destruct (chain_elem _ _ _ _ a Hcv) as (x & -> & _); [set_solver|eauto].
  - intros n Hn. rewrite Hnx in Hn. apply head_Some_elem_of in Hn.
    split; [intros ->; done|].
    destruct (chain_elem _ _ _ _ n Hcv) as (x & -> & _); [set_solver|eauto].
Qed.

Lemma released_lookup e :
  deps (released e0 x0 ob s) !! e =
    if decide (e = e0) then None
    else (if decide (next x0 = Some e) then set_prev (prev x0) else id) <$>
         ((if decide (prev x0 = Some e) then set_next (next x0) else id) <$>
          deps s !! e).
Proof using Type.
  simpl. destruct (decide (e = e0)) as [->|Hne]; [by rewrite lookup_delete_eq|].
  rewrite lookup_delete_ne by done. rewrite !lookup_alt.
  destruct (decide (next x0 = Some e)), (decide (prev x0 = Some e));
    destruct (deps s !! e); done.
Qed.

Lemma released_chain_list l1 l2 :
  chain_is (deps s) (B x0) (content x0) hd (l1 ++ e0 :: l2) ->
  prev x0 = last l1 /\ next x0 = head l2 /\
  chain_is (deps (released e0 x0 ob s)) (B x0) (content x0)
    (match prev x0 with Some _ => hd | None => next x0 end) (l1 ++ l2).
Proof using He.
  clear Hch. intros (Hnd & Hhd & Hcv).
  assert (Hpn : prev x0 = last l1 /\ next x0 = head l2).
  { pose proof (Hcv e0) as H0. unfold cv in H0. rewrite He in H0.
    destruct (decide (B x0 = B x0 /\ content x0 = content x0)) as [_|[]]; [|done].
    destruct (decide (e0 ∈ l1 ++ e0 :: l2)) as [_|[]]; [|set_solver].
    injection H0 as H1 H2. split.
    - by rewrite H1, before_middle_nodup.
    - by rewrite H2, after_middle_nodup. }
  destruct Hpn as [Hpv Hnx]. split; [done|]. split; [done|].
  split; [|split].
  - apply NoDup_app in Hnd as (H1 & H2 & H3). apply NoDup_cons in H3 as [H3 H4].
    apply NoDup_app. split; [done|]. split; [|done].
    intros e Hin1 Hin2. apply (H2 e Hin1). set_solver.
  - rewrite Hpv, Hnx, Hhd. destruct l1 as [|a l1]; [done|].
    by destruct (last (a :: l1)) eqn:E; [|apply last_None in E].
  - intros e. unfold cv. rewrite released_lookup.
    destruct (decide (e = e0)) as [->|Hne].
    { destruct (decide (e0 ∈ l1 ++ l2)) as [Hin|]; [|done].
      exfalso. apply NoDup_app in Hnd as (_ & H2 & H3).
      apply NoDup_cons in H3 as [H3 _].
      apply elem_of_app in Hin as [Hin|Hin]; [|done]. apply (H2 e0 Hin). set_solver. }
    pose proof (Hcv e) as Hc. unfold cv in Hc.
    destruct (deps s !! e) as [x|] eqn:Hx.
    2:{ simpl. destruct (decide (e ∈ l1 ++ e0 :: l2)) as [|Hn]; [done|].
        destruct (decide (e ∈ l1 ++ l2)); [|done]. exfalso. apply Hn. set_solver. }
    assert (Hlbl : forall g1 g2 : Dependency -> Dependency,
              (forall y, B (g1 y) = B y /\ content (g1 y) = content y) ->
              (forall y, B (g2 y) = B y /\ content (g2 y) = content y) ->
              B (g2 (g1 x)) = B x /\ content (g2 (g1 x)) = content x).
    { intros g1 g2 H1 H2. destruct (H2 (g1 x)) as [-> ->]. apply H1. }
    simpl.
    set (g1 := if decide (prev x0 = Some e) then set_next (next x0) else id).
    set (g2 := if decide (next x0 = Some e) then set_prev (prev x0) else id).
    assert (Hl : B (g2 (g1 x)) = B x /\ content (g2 (g1 x)) = content x).
    { apply Hlbl; intros y; unfold g1, g2; by repeat destruct (decide _). }
    destruct Hl as [Hl1 Hl2]. rewrite Hl1, Hl2.
    destruct (decide (B x = B x0 /\ content x = content x0)) as [_|].
    2:{ destruct (decide (e ∈ l1 ++ e0 :: l2)) as [|Hn]; [done|].
        destruct (decide (e ∈ l1 ++ l2)); [|done]. exfalso. apply Hn. set_solver. }
    destruct (decide (e ∈ l1 ++ e0 :: l2)) as [Hin|]; [|done].
    injection Hc as Hc1 Hc2.
    destruct (decide (e ∈ l1 ++ l2)) as [_|Hn]; [|exfalso; apply Hn; set_solver].
    f_equal. f_equal.
    + rewrite (before_remove_nodup _ _ _ _ Hnd Hne). unfold g1, g2.
      rewrite <- Hnx, <- Hpv.
      destruct (decide (next x0 = Some e)); destruct (decide (prev x0 = Some e)); simpl;
        congruence.
    + rewrite (after_remove _ _ _ _ Hnd Hne). unfold g1, g2.
      rewrite <- Hnx, <- Hpv.
      destruct (decide (next x0 = Some e)); destruct (decide (prev x0 = Some e)); simpl;
        congruence.
Qed.

Lemma released_chain :
  chain_ok (deps (released e0 x0 ob s)) (B x0) (content x0)
    (match prev x0 with Some _ => hd | None => next x0 end).
Proof using He Hch.
  destruct (chain_split _ _ _ _ _ _ Hch He eq_refl eq_refl)
    as (l1 & l2 & Hnd & Hhd & Hpv & Hnx & Hcv).
  exists (l1 ++ l2). by apply released_chain_list.
Qed.

Lemma released_cv_other p k e :
  ~ (p = B x0 /\ k = content x0) ->
  cv (deps (released e0 x0 ob s)) p k e = cv (deps s) p k e.
Proof using He Hch.
  intros Hl.
  destruct (chain_split _ _ _ _ _ _ Hch He eq_refl eq_refl)
    as (l1 & l2 & Hnd & Hhd & Hpv & Hnx & Hcv).
  unfold cv. rewrite released_lookup.
  destruct (decide (e = e0)) as [->|Hne].
  { rewrite He. destruct (decide _) as [[??]|]; [|done]. exfalso. by apply Hl. }
  destruct (deps s !! e) as [x|] eqn:Hx; [|done]. simpl.
  destruct (decide (next x0 = Some e)) as [E1|].
  { assert (Hin : e ∈ l1 ++ e0 :: l2).
    { rewrite Hnx in E1. apply head_Some_elem_of in E1. set_solver. }
    destruct (chain_elem _ _ _ _ e Hcv Hin) as (x' & Hx' & Hb & Hc & _).
    rewrite Hx in Hx'. injection Hx' as <-.
    destruct (decide (prev x0 = Some e)); simpl; rewrite Hb, Hc;
      destruct (decide (B x0 = p /\ content x0 = k)) as [[??]|]; try done;
      exfalso; by apply Hl. }
  destruct (decide (prev x0 = Some e)) as [E2|]; [|done].
  assert (Hin : e ∈ l1 ++ e0 :: l2).
  { rewrite Hpv in E2. apply last_Some_elem_of in E2. set_solver. }
  destruct (chain_elem _ _ _ _ e Hcv Hin) as (x' & Hx' & Hb & Hc & _).
  rewrite Hx in Hx'. injection Hx' as <-. simpl. rewrite Hb, Hc.
  destruct (decide (B x0 = p /\ content x0 = k)) as [[??]|]; try done.
  exfalso; by apply Hl.
Qed.

Lemma released_tv p e :
  tv (deps (released e0 x0 ob s)) p e =
    if decide (e = e0) then None else tv (deps s) p e.
Proof using Type.
  unfold tv. rewrite released_lookup.
  destruct (decide (e = e0)); [done|].
  destruct (deps s !! e) as [x|]; [|done]. simpl.
  by destruct (decide (next x0 = Some e)), (decide (prev x0 = Some e)).
Qed.

Lemma released_fields e x :
  deps s !! e = Some x -> e <> e0 ->
  exists x', deps (released e0 x0 ob s) !! e = Some x' /\
    A x' = A x /\ B x' = B x /\ content x' = content x /\
    parent x' = parent x /\ left x' = left x /\ right x' = right x.
Proof using Type.
  intros Hx Hne. rewrite released_lookup, Hx. rewrite decide_False by done.
  eexists. split; [done|].
  by destruct (decide (next x0 = Some e)), (decide (prev x0 = Some e)).
Qed.

Lemma released_None e :
  deps s !! e = None -> deps (released e0 x0 ob s) !! e = None.
Proof using Type.
  intros Hx. rewrite released_lookup, Hx. by destruct (decide _).
Qed.
End Released.

(** ** Views are all the invariants see *)

Lemma chain_ok_ext dm dm' p k hd :
  (forall e, cv dm' p k e = cv dm p k e) -> chain_ok dm p k hd -> chain_ok dm' p k hd.
Proof.
  intros Hv (l & Hnd & Hhd & Hcv). exists l. repeat split; try done.
  intros e. by rewrite Hv.
Qed.

Lemma shape_ext f f' root t :
  (forall e, e ∈ nodes t -> f' e = f e) -> shape f root t -> shape f' root t.
Proof.
  revert root. induction t as [|l IHl e r IHr]; intros root Hf; simpl; [done|].
  intros (-> & a & b & He & Hl & Hr). split; [done|]. exists a, b.
  split; [rewrite Hf; [done|simpl; set_solver]|].
  split; [apply IHl|apply IHr]; try done; intros ??; apply Hf; simpl; set_solver.
Qed.

Lemma tree_ok_ext dm dm' p root :
  (forall e, tv dm' p e = tv dm p e) -> tree_ok dm p root -> tree_ok dm' p root.
Proof.
  intros Hv (t & Hnd & Hsh & Hrest). exists t. repeat split; try done.
  - eapply shape_ext; [|done]. intros e _. apply Hv.
  - intros e He. rewrite Hv. by apply Hrest.
Qed.

Lemma tv_Some dm p e v :
  tv dm p e = Some v -> exists x, dm !! e = Some x /\ A x = p /\ v = (left x, right x).
Proof.
  unfold tv. destruct (dm !! e) as [x|]; [|done].
  destruct (decide _); [|done]. intros [= <-]. eauto.
Qed.

Lemma tv_lookup dm p e x :
  dm !! e = Some x -> A x = p -> tv dm p e = Some (left x, right x).
Proof. intros H1 H2. unfold tv. rewrite H1. by destruct (decide _). Qed.

Lemma tv_other dm p e x : dm !! e = Some x -> A x <> p -> tv dm p e = None.
Proof. intros H1 H2. unfold tv. rewrite H1. by destruct (decide _). Qed.

(** A store to the tree links is invisible to the chains. *)
Lemma cv_alter_tree dm a g p k e :
  (forall y, B (g y) = B y /\ content (g y) = content y /\
             prev (g y) = prev y /\ next (g y) = next y) ->
  cv (alter g a dm) p k e = cv dm p k e.
Proof.
  intros Hg. unfold cv. rewrite lookup_alter.
  destruct (decide (a = e)) as [->|]; [|done].
  destruct (dm !! e) as [x|]; [|done]. simpl.
  destruct (Hg x) as (-> & -> & -> & ->). done.
Qed.

Lemma tv_alter dm a g p e :
  (forall y, A (g y) = A y) ->
  tv (alter g a dm) p e =
    if decide (e = a)
    then match tv dm p a with
         | Some _ => (fun x => (left (g x), right (g x))) <$> dm !! a
         | None => None
         end
    else tv dm p e.
Proof.
  intros Hg. unfold tv. rewrite lookup_alter.
  destruct (decide (e = a)) as [->|].
  - rewrite decide_True by done. destruct (dm !! a) as [x|]; [|done]. simpl.
    rewrite Hg. by destruct (decide _).
  - by rewrite decide_False by done.
Qed.

(** ** Memories that differ outside a set of objects only *)

Lemma frame_refl T s : frame T s s.
Proof.
  unfold frame. split_and!; try done.
  - intros p o Ho. exists o. done.
  - intros e x x' Hx Hx'. by simplify_eq.
  - intros e x Hx _. eauto.
Qed.

Lemma frame_mono T T' s s' : T ⊆ T' -> frame T s s' -> frame T' s s'.
Proof.
  intros Hsub (H1 & H2 & H3 & H4 & H5 & H6 & H7 & H8).
  unfold frame. split_and!; try done.
  - intros p o Ho. destruct (H5 p o Ho) as (o' & Ho' & Hv & Hk).
    exists o'. split_and!; try done. intros Hn. apply Hk. set_solver.
  - intros e x Hx HA. apply (H8 e x Hx). set_solver.
Qed.

Lemma frame_trans T s1 s2 s3 : frame T s1 s2 -> frame T s2 s3 -> frame T s1 s3.
Proof.
  intros (H1 & H2 & H3 & H4 & H5 & H6 & H7 & H8) (G1 & G2 & G3 & G4 & G5 & G6 & G7 & G8).
  unfold frame. split_and!; try congruence.
  - intros p Hp. apply G4, H4, Hp.
  - intros p o Ho. destruct (H5 p o Ho) as (o2 & Ho2 & Hv2 & Hk2).
    destruct (G5 p o2 Ho2) as (o3 & Ho3 & Hv3 & Hk3).
    exists o3. split_and!; try done.
    + intros Hv. apply Hv3, Hv2, Hv.
    + intros Hn. destruct (Hk2 Hn), (Hk3 Hn). split; congruence.
  - intros e He. apply G6, H6, He.
  - intros e x x' Hx Hx'. destruct (deps s2 !! e) as [y|] eqn:Hy.
    + destruct (H7 e x y Hx Hy) as (<- & <- & <-). by apply (G7 e).
    + rewrite (G6 e Hy) in Hx'. done.
  - intros e x Hx HA. destruct (H8 e x Hx HA) as (x2 & Hx2 & Hp & Hl & Hr).
    destruct (H7 e x x2 Hx Hx2) as (HA2 & _).
    destruct (G8 e x2 Hx2) as (x3 & Hx3 & Hp3 & Hl3 & Hr3); [by rewrite HA2|].
    exists x3. split_and!; congruence.
Qed.

Lemma dead_frame T s s' p : frame T s s' -> dead s p -> dead s' p.
Proof.
  intros (H1 & H2 & H3 & H4 & H5 & H6 & H7 & H8) [(o & Ho & Hv) Hd]. split.
  - destruct (H5 p o Ho) as (o' & Ho' & Hv' & _). exists o'. auto.
  - intros e x' Hx'. destruct (deps s !! e) as [x|] eqn:Hx.
    + destruct (H7 e x x' Hx Hx') as (-> & _). by apply (Hd e).
    + rewrite (H6 e Hx) in Hx'. done.
Qed.

Lemma same_flags_refl s : same_flags s s.
Proof. intros p o Ho. eauto. Qed.

Lemma same_flags_trans s1 s2 s3 :
  same_flags s1 s2 -> same_flags s2 s3 -> same_flags s1 s3.
Proof.
  intros H1 H2 p o Ho. destruct (H1 p o Ho) as (o2 & Ho2 & <- & <-).
  apply (H2 p o2 Ho2).
Qed.

Lemma frame_alter T s a g x :
  deps s !! a = Some x -> A x ∈ T ->
  (forall y, A (g y) = A y /\ B (g y) = B y /\ content (g y) = content y) ->
  frame T s (with_deps (alter g a (deps s)) s).
Proof.
  intros Ha HT Hg. unfold frame. simpl. split_and!; try done.
  - intros p o Ho. eauto.
  - intros e He. rewrite lookup_alter. destruct (decide (a = e)) as [->|]; [|done].
    by rewrite He.
  - intros e y y' Hy Hy'. rewrite lookup_alter in Hy'.
    destruct (decide (a = e)) as [->|]; [|by simplify_eq].
    rewrite Hy in Hy'. injection Hy' as <-. apply Hg.
  - intros e y Hy HA. rewrite lookup_alter. destruct (decide (a = e)) as [->|]; [|eauto].
    rewrite Ha in Hy. injection Hy as <-. done.
Qed.

Lemma frame_obj T s p o o' :
  objs s !! p = Some o ->
  (isValid o = false -> isValid o' = false) ->
  (p ∉ T -> isValid o' = isValid o /\ dependencies o' = dependencies o) ->
  frame T s (with_objs (<[p := o']> (objs s)) s).
Proof.
  intros Ho Hv Hk. unfold frame. simpl. split_and!; try done.
  - intros q Hq. rewrite lookup_insert_ne; [done|congruence].
  - intros q oq Hq. destruct (decide (p = q)) as [->|].
    + rewrite lookup_insert_eq. rewrite Ho in Hq. injection Hq as <-. eauto.
    + rewrite lookup_insert_ne by done. eauto.
  - intros e x x' Hx Hx'. by simplify_eq.
  - intros e x Hx _. eauto.
Qed.

Lemma alloc_ok_frame T s s' : frame T s s' -> alloc_ok s -> alloc_ok s'.
Proof.
  intros (H1 & H2 & H3 & H4 & H5 & H6 & H7 & H8) Ha p Hp.
  rewrite H2 in Hp. destruct (Ha p Hp). auto.
Qed.

Lemma frame_dep_back T s s' e x' :
  frame T s s' -> deps s' !! e = Some x' ->
  exists x, deps s !! e = Some x /\ A x' = A x /\ B x' = B x /\ content x' = content x.
Proof.
  intros (H1 & H2 & H3 & H4 & H5 & H6 & H7 & H8) Hx'.
  destruct (deps s !! e) as [x|] eqn:Hx.
  - exists x. split; [done|]. by apply (H7 e).
  - rewrite (H6 e Hx) in Hx'. done.
Qed.

Lemma frame_obj_back T s s' p o' :
  frame T s s' -> objs s' !! p = Some o' -> exists o, objs s !! p = Some o.
Proof.
  intros (H1 & H2 & H3 & H4 & H5 & H6 & H7 & H8) Ho'.
  destruct (objs s !! p) as [o|] eqn:Ho; [eauto|].
  rewrite (H4 p Ho) in Ho'. done.
Qed.

Lemma frame_obj_fwd T s s' p o :
  frame T s s' -> objs s !! p = Some o -> is_Some (objs s' !! p).
Proof.
  intros (H1 & H2 & H3 & H4 & H5 & H6 & H7 & H8) Ho.
  destruct (H5 p o Ho) as (o' & -> & _). eauto.
Qed.

Lemma wf_with_frame T r r' s s' :
  frame T s s' -> wf_with r s ->
  (forall p o o', objs s !! p = Some o -> objs s' !! p = Some o' ->
     (forall k, chain_ok (deps s) p k (incoming o k) ->
                chain_ok (deps s') p k (incoming o' k)) /\
     (tree_ok (deps s) p (r p o) -> tree_ok (deps s') p (r' p o'))) ->
  wf_with r' s'.
Proof.
  intros Hf (Ha & Hp & Ho) Hstep. split; [by eapply alloc_ok_frame|]. split.
  - intros e x' Hx'. destruct (frame_dep_back _ _ _ _ _ Hf Hx') as (x & Hx & -> & -> & _).
    destruct (Hp e x Hx) as [[oa Hoa] [ob Hob]].
    split; eapply frame_obj_fwd; eauto.
  - intros p o' Ho'. destruct (frame_obj_back _ _ _ _ _ Hf Ho') as [o Hpo].
    destruct (Ho p o Hpo) as [Hc Ht]. destruct (Hstep p o o' Hpo Ho') as [Hc' Ht'].
    split; [intros k; apply Hc', Hc|apply Ht', Ht].
Qed.

Lemma root_at_eq X d o : root_at X d X o = d.
Proof. unfold root_at. by destruct (decide (X = X)). Qed.

Lemma root_at_ne X d p o : p <> X -> root_at X d p o = dependencies o.
Proof. intros. unfold root_at. by destruct (decide (p = X)). Qed.

(** ** The loop that drops a tree *)

Lemma unlink_delete_then {T} (k : M T) s e0 x0 ob :
  deps s !! e0 = Some x0 -> objs s !! B x0 = Some ob ->
  (forall a, prev x0 = Some a -> a <> e0 /\ is_Some (deps s !! a)) ->
  (forall n, next x0 = Some n -> n <> e0 /\ is_Some (deps s !! n)) ->
  (Dependency.unlink e0;; deleteDep e0;; k) s = k (released e0 x0 ob s).
Proof.
  intros He Hb Hp Hn.
  pose proof (unlink_delete_run s e0 x0 ob He Hb Hp Hn) as H.
  unfold bind in *. destruct (Dependency.unlink e0 s) as [[] s1| |]; try done.
  by rewrite H.
Qed.

Lemma frame_released T s e0 x0 ob :
  deps s !! e0 = Some x0 -> objs s !! B x0 = Some ob -> A x0 ∈ T ->
  frame T s (released e0 x0 ob s).
Proof.
  intros He Hb HT. unfold frame. split_and!; try done.
  - intros p Hp. simpl. destruct (prev x0); [done|].
    rewrite lookup_insert_ne; [done|congruence].
  - intros p o Ho. simpl. destruct (prev x0); [eauto|].
    destruct (decide (B x0 = p)) as [<-|].
    + rewrite lookup_insert_eq. rewrite Hb in Ho. injection Ho as <-.
      eexists. split; [done|]. by destruct (content x0).
    + rewrite lookup_insert_ne by done. eauto.
  - apply released_None.
  - intros e x x' Hx Hx'. destruct (decide (e = e0)) as [->|Hne].
    + rewrite released_lookup in Hx'. by rewrite decide_True in Hx'.
    + destruct (released_fields s e0 x0 ob e x Hx Hne) as (y & Hy & ? & ? & ? & _).
      rewrite Hy in Hx'. by simplify_eq.
  - intros e x Hx HA. assert (e <> e0) as Hne by (intros ->; congruence).
    destruct (released_fields s e0 x0 ob e x Hx Hne) as (y & Hy & ? & ? & ? & ? & ? & ?).
    eauto.
Qed.

Lemma same_flags_released s e0 x0 ob :
  objs s !! B x0 = Some ob -> same_flags s (released e0 x0 ob s).
Proof.
  intros Hb p o Ho. simpl. destruct (prev x0); [eauto|].
  destruct (decide (B x0 = p)) as [<-|].
  - rewrite lookup_insert_eq. rewrite Hb in Ho. injection Ho as <-.
    eexists. split; [done|]. by destruct (content x0).
  - rewrite lookup_insert_ne by done. eauto.
Qed.

Lemma tv_rotated s dp nn x y p e :
  deps s !! dp = Some x -> deps s !! nn = Some y -> nn <> dp ->
  tv (deps (rotated dp nn y s)) p e =
    if decide (e = nn) then (if decide (A y = p) then Some (left y, Some dp) else None)
    else if decide (e = dp) then (if decide (A x = p) then Some (right y, right x) else None)
    else tv (deps s) p e.
Proof.
  intros Hx Hy Hne. unfold tv. simpl. rewrite !lookup_alter.
  destruct (decide (e = nn)) as [->|H1].
  - rewrite decide_True by done. rewrite decide_False by done. rewrite Hy. done.
  - rewrite (decide_False (P := nn = e)) by done.
    destruct (decide (e = dp)) as [->|H2].
    + rewrite decide_True by done. rewrite Hx. done.
    + by rewrite decide_False by done.
Qed.

Lemma cv_rotated s dp nn y p k e :
  cv (deps (rotated dp nn y s)) p k e = cv (deps s) p k e.
Proof. simpl. by rewrite !cv_alter_tree. Qed.

Lemma rotate_run {T} (k : M T) s dp nn x y :
  deps s !! dp = Some x -> deps s !! nn = Some y -> nn <> dp ->
  (modDep dp (set_left (right y));; modDep nn (set_right (Some dp));; k) s
  = k (rotated dp nn y s).
Proof.
  intros Hx Hy Hne. unfold bind at 1. rewrite (run_modDep_alter _ _ _ _ Hx).
  unfold bind at 1. erewrite run_modDep_alter; [done|].
  simpl. by rewrite lookup_alter_ne.
Qed.

Lemma frame_rotated T s dp nn x y :
  deps s !! dp = Some x -> deps s !! nn = Some y -> nn <> dp ->
  A x ∈ T -> A y ∈ T -> frame T s (rotated dp nn y s).
Proof.
  intros Hx Hy Hne HTx HTy.
  eapply frame_trans; [by eapply (frame_alter T s dp (set_left (right y)))|].
  eapply (frame_alter T (with_deps _ s) nn (set_right (Some dp)) y); try done.
  simpl. by rewrite lookup_alter_ne.
Qed.

Lemma drop_total X n : forall t d s,
  mu t <= n -> dropping X d t s ->
  exists s', (forall fuel, n < fuel -> Object.invalidate_drop fuel d s = Ret tt s') /\
             dropping X None Leaf s' /\ frame {[X]} s s' /\ same_flags s s'.
Proof.
  induction n as [|n IH]; intros t d s Hmu (Hwf & HX & Hnd & Hsh & Hrest).
  - destruct t as [|l dp r]; [|simpl in Hmu; lia]. simpl in Hsh. subst d.
    exists s. split; [|split; [|split]].
    + intros [|f] Hf; [lia|]. by rewrite invalidate_drop_S.
    + done.
    + apply frame_refl.
    + apply same_flags_refl.
  - destruct t as [|l dp r].
    { simpl in Hsh. subst d. exists s. split; [|split; [|split]].
      + intros [|f] Hf; [lia|]. by rewrite invalidate_drop_S.
      + done.
      + apply frame_refl.
      + apply same_flags_refl. }
    simpl in Hsh. destruct Hsh as (-> & a & b & Hdp & Hl & Hr).
    apply tv_Some in Hdp as (x & Hx & HAx & [= -> ->]).
    simpl in Hnd. pose proof Hnd as Hnd0.
    apply NoDup_app in Hnd as (Hndl & Hdisj & Hndr).
    apply NoDup_cons in Hndr as [Hdpr Hndr].
    destruct l as [|ll nn lr].
    + (* the root has no left child: unlink and delete it *)
      simpl in Hl.
      pose proof Hwf as (Ha & Hp & Ho).
      destruct (Hp dp x Hx) as [_ [ob Hob]].
      destruct (Ho _ ob Hob) as [Hch _].
      destruct (released_side s dp x _ Hx (Hch (content x))) as [Hs1 Hs2].
      assert (Hfr : frame {[X]} s (released dp x ob s)).
      { apply frame_released; [done|done|set_solver]. }
      assert (Htree : shape (tv (deps (released dp x ob s)) X) (right x) r /\
                      forall e, e ∉ nodes r -> tv (deps (released dp x ob s)) X e = None).
      { split.
        - eapply shape_ext; [|exact Hr]. intros e He. rewrite released_tv.
          rewrite decide_False; [done|]. intros ->. done.
        - intros e He. rewrite released_tv. destruct (decide (e = dp)); [done|].
          apply Hrest. simpl. set_solver. }
      assert (Hdrop : dropping X (right x) r (released dp x ob s)).
      { split; [|split; [|split; [done|done]]].
        - eapply (wf_with_frame _ _ _ _ _ Hfr Hwf).
          intros p o o' Hpo Hpo'. split.
          + intros k Hk.
            destruct (decide (p = B x /\ k = content x)) as [[-> ->]|Hlbl].
            * rewrite Hob in Hpo. injection Hpo as <-.
              pose proof (released_chain s dp x ob _ Hx Hk) as Hc.
              simpl in Hpo'. destruct (prev x); [by simplify_eq|].
              rewrite lookup_insert_eq in Hpo'. injection Hpo' as <-.
              by destruct (content x).
            * assert (incoming o' k = incoming o k) as ->.
              { simpl in Hpo'. destruct (prev x); [by simplify_eq|].
                destruct (decide (B x = p)) as [<-|].
                - rewrite lookup_insert_eq in Hpo'. injection Hpo' as <-.
                  rewrite Hob in Hpo. injection Hpo as <-.
                  destruct (content x), k; try done; exfalso; by apply Hlbl.
                - rewrite lookup_insert_ne in Hpo' by done. by simplify_eq. }
              eapply chain_ok_ext; [|exact Hk]. intros e.
              by apply (released_cv_other s dp x ob _ Hx (Hch (content x))).
          + intros Ht. destruct (decide (p = X)) as [->|HpX].
            * rewrite root_at_eq. exists r. destruct Htree. done.
            * rewrite root_at_ne by done. rewrite root_at_ne in Ht by done.
              destruct (same_flags_released s dp x ob Hob p o Hpo) as (o2 & Ho2 & Hd2 & _).
              rewrite Hpo' in Ho2. injection Ho2 as <-. rewrite Hd2.
              eapply tree_ok_ext; [|exact Ht]. intros e. rewrite released_tv.
              destruct (decide (e = dp)) as [->|]; [|done].
              symmetry. eapply tv_other; [done|congruence].
        - destruct HX as [oX HoX]. by eapply frame_obj_fwd. }
      destruct (IH r (right x) _ ltac:(simpl in Hmu; lia) Hdrop)
        as (s' & Hrun & Hd' & Hf' & Hsf').
      exists s'. split; [|split; [done|split]].
      * intros [|f] Hf; [lia|]. rewrite invalidate_drop_S. unfold bind at 1.
        rewrite (run_getDep _ _ _ Hx), Hl.
        rewrite (unlink_delete_then _ s dp x ob Hx Hob Hs1 Hs2). apply Hrun. lia.
      * eapply frame_trans; [exact Hfr|exact Hf'].
      * eapply same_flags_trans; [by apply same_flags_released|exact Hsf'].
    + (* rotate the left child up *)
      simpl in Hl. destruct Hl as (Hlx & a' & b' & Hnn & Hll & Hlr).
      apply tv_Some in Hnn as (y & Hy & HAy & [= -> ->]).
      assert (Hne : nn <> dp).
      { intros ->. apply (Hdisj dp); simpl; set_solver. }
      assert (Hfr : frame {[X]} s (rotated dp nn y s)).
      { eapply frame_rotated; try done; set_solver. }
      set (t1 := Node ll nn (Node lr dp r)).
      assert (Hnodes : forall e, e ∈ nodes t1 <-> e ∈ nodes (Node (Node ll nn lr) dp r)).
      { intros e. simpl. set_solver. }
      assert (Hnd1 : NoDup (nodes t1)).
      { simpl. simpl in Hnd0. by rewrite <- app_assoc in Hnd0. }
      assert (Htree : shape (tv (deps (rotated dp nn y s)) X) (Some nn) t1 /\
                      forall e, e ∉ nodes t1 -> tv (deps (rotated dp nn y s)) X e = None).
      { simpl in Hndl. apply NoDup_app in Hndl as (Hndll & Hdisj2 & Hndlr).
        apply NoDup_cons in Hndlr as [Hnnlr Hndlr].
        assert (Hsame : forall e, e <> nn -> e <> dp ->
                  tv (deps (rotated dp nn y s)) X e = tv (deps s) X e).
        { intros e H1 H2. rewrite (tv_rotated s dp nn x y X e Hx Hy Hne).
          by rewrite !decide_False by done. }
        split.
        - unfold t1. cbn [shape]. split; [done|]. exists (left y), (Some dp).
          split; [|split; [|split; [done|]]].
          + rewrite (tv_rotated s dp nn x y X nn Hx Hy Hne).
            by rewrite !decide_True by done.
          + eapply shape_ext; [|exact Hll]. intros e He. apply Hsame.
            * intros ->. by apply (Hdisj2 nn He); set_solver.
            * intros ->. apply (Hdisj dp); simpl; set_solver.
          + exists (right y), (right x). split; [|split].
            * rewrite (tv_rotated s dp nn x y X dp Hx Hy Hne).
              rewrite decide_False by done. by rewrite !decide_True by done.
            * eapply shape_ext; [|exact Hlr]. intros e He. apply Hsame.
              -- intros ->. done.
              -- intros ->. apply (Hdisj dp); simpl; set_solver.
            * eapply shape_ext; [|exact Hr]. intros e He. apply Hsame.
              -- intros ->. apply (Hdisj nn); simpl; set_solver.
              -- intros ->. done.
        - intros e He. rewrite Hsame.
          + apply Hrest. by rewrite <- Hnodes.
          + intros ->. apply He. simpl. set_solver.
          + intros ->. apply He. simpl. set_solver. }
      assert (Hdrop : dropping X (Some nn) t1 (rotated dp nn y s)).
      { split; [|split; [|split; [done|done]]].
        - eapply (wf_with_frame _ _ _ _ _ Hfr Hwf).
          intros p o o' Hpo Hpo'. simpl in Hpo'. rewrite Hpo in Hpo'. injection Hpo' as <-.
          split.
          + intros k Hk. eapply chain_ok_ext; [|exact Hk]. intros e. apply cv_rotated.
          + intros Ht. destruct (decide (p = X)) as [->|HpX].
            * rewrite root_at_eq. exists t1. destruct Htree. done.
            * rewrite root_at_ne by done. rewrite root_at_ne in Ht by done.
              eapply tree_ok_ext; [|exact Ht]. intros e.
              rewrite (tv_rotated s dp nn x y p e Hx Hy Hne).
              destruct (decide (e = nn)) as [->|].
              { rewrite decide_False by congruence. symmetry.
                eapply tv_other; [done|congruence]. }
              destruct (decide (e = dp)) as [->|]; [|done].
              rewrite decide_False by congruence. symmetry.
              eapply tv_other; [done|congruence].
        - destruct HX as [oX HoX]. by eapply frame_obj_fwd. }
      assert (Hmu1 : mu t1 <= n) by (simpl in *; lia).
      destruct (IH t1 (Some nn) _ Hmu1 Hdrop) as (s' & Hrun & Hd' & Hf' & Hsf').
      exists s'. split; [|split; [done|split]].
      * intros [|f] Hf; [lia|]. rewrite invalidate_drop_S. unfold bind at 1.
        rewrite (run_getDep _ _ _ Hx), Hlx. unfold bind at 1.
        rewrite (run_getDep _ _ _ Hy).
        rewrite (rotate_run _ s dp nn x y Hx Hy Hne). apply Hrun. lia.
      * eapply frame_trans; [exact Hfr|exact Hf'].
      * eapply same_flags_trans; [|exact Hsf']. intros p o Hpo. simpl. eauto.
Qed.

(** ** The cascade *)

Lemma elem_of_valid_set s p :
  p ∈ valid_set s <-> exists o, objs s !! p = Some o /\ isValid o = true.
Proof.
  unfold valid_set. rewrite elem_of_dom. split.
  - intros [o Ho]. apply map_lookup_filter_Some in Ho as [? ?]. eauto.
  - intros (o & Ho & Hv). exists o. by apply map_lookup_filter_Some.
Qed.

Lemma cedge_frame T s s' Y Z : frame T s s' -> cedge s' Y Z -> cedge s Y Z.
Proof.
  intros Hf (e & x' & o' & Hx' & HA & HB & Hc & Ho' & Hv).
  destruct (frame_dep_back _ _ _ _ _ Hf Hx') as (x & Hx & EA & EB & EC).
  destruct (frame_obj_back _ _ _ _ _ Hf Ho') as [o Ho].
  exists e, x, o. split_and!; try congruence.
  destruct Hf as (_ & _ & _ & _ & H5 & _).
  destruct (H5 Z o Ho) as (o2 & Ho2 & Hinv & _).
  rewrite Ho' in Ho2. injection Ho2 as <-.
  destruct (isValid o); [done|]. rewrite Hinv in Hv; done.
Qed.

Lemma reach_frame T s s' Y X : frame T s s' -> reach s' Y X -> reach s Y X.
Proof.
  intros Hf. unfold reach. apply rtc_subrel. intros ??. by apply (cedge_frame T).
Qed.

Lemma valid_set_frame T s s' : frame T s s' -> valid_set s' ⊆ valid_set s.
Proof.
  intros Hf p. rewrite !elem_of_valid_set. intros (o' & Ho' & Hv).
  destruct (frame_obj_back _ _ _ _ _ Hf Ho') as [o Ho].
  exists o. split; [done|].
  destruct Hf as (_ & _ & _ & _ & H5 & _).
  destruct (H5 p o Ho) as (o2 & Ho2 & Hinv & _).
  rewrite Ho' in Ho2. injection Ho2 as <-.
  destruct (isValid o); [done|]. rewrite Hinv in Hv; done.
Qed.

Lemma dom_deps_frame T s s' : frame T s s' -> dom (deps s') ⊆ dom (deps s).
Proof.
  intros Hf e. rewrite !elem_of_dom. intros [x' Hx'].
  destruct (frame_dep_back _ _ _ _ _ Hf Hx') as (x & -> & _). eauto.
Qed.

Lemma cascaded_trans s T1 s1 T2 s2 :
  cascaded s T1 s1 -> cascaded s1 T2 s2 -> cascaded s (T1 ∪ T2) s2.
Proof.
  intros (W1 & F1 & D1) (W2 & F2 & D2). split; [done|]. split.
  - eapply frame_trans; eapply frame_mono; try eassumption; set_solver.
  - intros p [Hp|Hp]%elem_of_union; [|by apply D2].
    eapply dead_frame; [exact F2|]. by apply D1.
Qed.

Lemma dead_no_edge s p e x : dead s p -> deps s !! e = Some x -> A x <> p.
Proof. intros [_ H]. apply H. Qed.

Lemma chain_head_None dm p k :
  chain_ok dm p k None -> forall e x, dm !! e = Some x -> B x = p -> content x = k -> False.
Proof.
  intros (l & Hnd & Hhd & Hcv) e x Hx HB Hk.
  destruct l as [|a l]; [|done].
  pose proof (Hcv e) as H. unfold cv in H. rewrite Hx in H.
  destruct (decide (B x = p /\ content x = k)) as [|[]]; [|done].
  destruct (decide (e ∈ [])) as [Hin|]; [by apply elem_of_nil in Hin|done].
Qed.

Lemma chain_head_Some dm p k e :
  chain_ok dm p k (Some e) ->
  exists x, dm !! e = Some x /\ B x = p /\ content x = k.
Proof.
  intros (l & Hnd & Hhd & Hcv).
  assert (Hin : e ∈ l) by (apply head_Some_elem_of; done).
  destruct (chain_elem _ _ _ _ e Hcv Hin) as (x & ? & ? & ? & _). eauto.
Qed.

Lemma while_total n k : invalidate_spec n -> while_spec n k.
Proof.
  intros Hinv.
  assert (G : forall m s X, size (dom (deps s)) <= m ->
    size (valid_set s) <= n -> wf s -> is_Some (objs s !! X) ->
    exists N s' T,
      (forall fuel, N <= fuel ->
         Object.invalidateIncoming_while fuel X k s = Ret tt s') /\
      cascaded s T s' /\
      (forall Y, Y ∈ T ->
         exists e x, deps s !! e = Some x /\ B x = X /\ content x = k /\
                     reach s Y (A x)) /\
      (forall e x, deps s !! e = Some x -> B x = X -> content x = k -> A x ∈ T) /\
      closed_under_content s T).
  2:{ intros s X. apply (G (size (dom (deps s)))). done. }
  induction m as [|m IH]; intros s X Hm Hn Hwf [o Ho].
  all: pose proof Hwf as (Ha & Hp & Hobj).
  all: destruct (Hobj X o Ho) as [Hch _]; specialize (Hch k).
  all: destruct (incoming o k) as [e|] eqn:Hhd.
  all: try (exists 1, s, ∅; split_and!;
    [ intros [|f] Hf; [lia|]; rewrite invalidateIncoming_while_S; unfold bind;
      by rewrite (run_getObj _ _ _ Ho), Hhd
    | split; [done|]; split; [apply frame_refl|set_solver]
    | set_solver
    | intros e' x' Hx' HB Hk; exfalso; by eapply chain_head_None
    | intros Z oz e' x' HZ; set_solver ]).
  - (* no edge is allocated, yet the chain has a head *)
    destruct (chain_head_Some _ _ _ _ Hch) as (x & Hx & _).
    apply elem_of_dom_2 in Hx. apply Nat.le_0_r in Hm.
    apply size_empty_inv in Hm. set_solver.
  - destruct (chain_head_Some _ _ _ _ Hch) as (x & Hx & HBx & Hkx).
    destruct (Hp e x Hx) as [HAo _].
    destruct (Hinv s (A x) Hn Hwf HAo) as (N1 & s1 & T1 & Hrun1 & Hc1 & HA1 & Hr1 & Hcl1).
    pose proof Hc1 as (Hwf1 & Hf1 & Hd1).
    assert (He1 : deps s1 !! e = None).
    { destruct (deps s1 !! e) as [x1|] eqn:Hx1; [|done].
      destruct (frame_dep_back _ _ _ _ _ Hf1 Hx1) as (x0 & Hx0 & EA & _).
      rewrite Hx in Hx0. injection Hx0 as <-.
      exfalso. by apply (dead_no_edge s1 (A x) e x1 (Hd1 _ HA1) Hx1). }
    assert (Hm1 : size (dom (deps s1)) <= m).
    { assert (dom (deps s1) ⊂ dom (deps s)) as Hsub.
      { split; [by eapply dom_deps_frame|].
        intros Hsub. apply elem_of_dom_2 in Hx. apply Hsub in Hx.
        apply elem_of_dom in Hx as [? Hx]. congruence. }
      apply subset_size in Hsub. lia. }
    assert (Hn1 : size (valid_set s1) <= n).
    { etrans; [apply subseteq_size; by eapply valid_set_frame|done]. }
    assert (HX1 : is_Some (objs s1 !! X)) by (by eapply frame_obj_fwd).
    destruct (IH s1 X Hm1 Hn1 Hwf1 HX1)
      as (N2 & s2 & T2 & Hrun2 & Hc2 & Hr2 & Hall2 & Hcl2).
    exists (S (N1 `max` N2)), s2, (T1 ∪ T2). split_and!.
    + intros [|f] Hf; [lia|]. rewrite invalidateIncoming_while_S. unfold bind at 1.
      rewrite (run_getObj _ _ _ Ho), Hhd. unfold bind at 1.
      rewrite (run_getDep _ _ _ Hx). unfold bind at 1.
      rewrite Hrun1 by lia. apply Hrun2. lia.
    + by eapply cascaded_trans.
    + intros Y [HY|HY]%elem_of_union.
      * exists e, x. split_and!; try done. by apply Hr1.
      * destruct (Hr2 Y HY) as (e2 & x2 & Hx2 & HB2 & Hk2 & Hre).
        destruct (frame_dep_back _ _ _ _ _ Hf1 Hx2) as (x0 & Hx0 & EA & EB & EC).
        exists e2, x0. split_and!; try congruence.
        rewrite <- EA. by eapply reach_frame.
    + intros e' x' Hx' HB' Hk'. apply elem_of_union.
      destruct (decide (A x' ∈ T1)) as [|HnT]; [by left|right].
      destruct Hf1 as (_ & _ & _ & _ & _ & _ & H7 & H8).
      destruct (H8 e' x' Hx' HnT) as (x1 & Hx1 & _).
      destruct (H7 e' x' x1 Hx' Hx1) as (EA & EB & EC).
      rewrite <- EA. apply (Hall2 e' x1 Hx1); congruence.
    + intros Z oz e' x' HZ Hoz Hvz Hx' HB' Hk'. apply elem_of_union.
      destruct (decide (Z ∈ T1)) as [HZ1|HZ1]; [left; by eapply (Hcl1 Z oz e' x')|].
      destruct (decide (A x' ∈ T1)) as [|HnT]; [by left|right].
      assert (HZ2 : Z ∈ T2) by set_solver.
      destruct Hf1 as (_ & _ & _ & _ & H5 & _ & H7 & H8).
      destruct (H5 Z oz Hoz) as (oz1 & Hoz1 & _ & Hkeep).
      destruct (Hkeep HZ1) as [Hv1 _].
      destruct (H8 e' x' Hx' HnT) as (x1 & Hx1 & _).
      destruct (H7 e' x' x1 Hx' Hx1) as (EA & EB & EC).
      rewrite <- EA. apply (Hcl2 Z oz1 e' x1); congruence.
Qed.

Lemma closed_reach s T X :
  closed_under_content s T -> X ∈ T -> forall Y, reach s Y X -> Y ∈ T.
Proof.
  intros Hcl HX Y Hre. induction Hre as [|Y Z X HYZ _ IH]; [done|].
  destruct HYZ as (e & x & o & Hx & HA & HB & Hk & Ho & Hv).
  rewrite <- HA. by apply (Hcl Z o e x); [apply IH|..].
Qed.

Lemma wf_with_ext r r' s :
  (forall p o, objs s !! p = Some o -> r p o = r' p o) -> wf_with r s -> wf_with r' s.
Proof.
  intros Hr Hwf. eapply (wf_with_frame ∅ _ _ _ _ (frame_refl _ _) Hwf).
  intros p o o' Ho Ho'. rewrite Ho in Ho'. injection Ho' as <-.
  split; [done|]. by rewrite (Hr p o Ho).
Qed.

(** [isValid = false] keeps the memory well formed. *)
Lemma wf_flip s X o :
  wf s -> objs s !! X = Some o ->
  wf (with_objs (<[X := set_isValid false o]> (objs s)) s) /\
  frame {[X]} s (with_objs (<[X := set_isValid false o]> (objs s)) s).
Proof.
  intros Hwf Ho.
  assert (Hf : frame {[X]} s (with_objs (<[X := set_isValid false o]> (objs s)) s)).
  { apply (frame_obj _ _ _ o); [done|done|set_solver]. }
  split; [|done].
  eapply (wf_with_frame _ _ _ _ _ Hf Hwf).
  intros p q q' Hq Hq'. simpl in Hq'.
  destruct (decide (X = p)) as [<-|].
  - rewrite lookup_insert_eq in Hq'. injection Hq' as <-.
    rewrite Ho in Hq. injection Hq as <-. split; [|done]. intros k. by destruct k.
  - rewrite lookup_insert_ne in Hq' by done. rewrite Hq in Hq'. by injection Hq' as <-.
Qed.

(** [dependencies = nullptr], the tree now hanging from the local [d]. *)
Lemma wf_detach s X o :
  wf s -> objs s !! X = Some o ->
  exists t, dropping X (dependencies o) t
              (with_objs (<[X := set_dependencies None o]> (objs s)) s) /\
            frame {[X]} s (with_objs (<[X := set_dependencies None o]> (objs s)) s).
Proof.
  intros Hwf Ho.
  assert (Hf : frame {[X]} s (with_objs (<[X := set_dependencies None o]> (objs s)) s)).
  { apply (frame_obj _ _ _ o); [done|done|set_solver]. }
  pose proof Hwf as (_ & _ & Hobj). destruct (Hobj X o Ho) as [_ (t & Hnd & Hsh & Hrest)].
  exists t. split; [|done]. split; [|split; [|done]].
  - eapply (wf_with_frame _ _ _ _ _ Hf Hwf).
    intros p q q' Hq Hq'. simpl in Hq'.
    destruct (decide (X = p)) as [<-|].
    + rewrite lookup_insert_eq in Hq'. injection Hq' as <-.
      rewrite Ho in Hq. injection Hq as <-. rewrite root_at_eq.
      split; [|done]. intros k. by destruct k.
    + rewrite lookup_insert_ne in Hq' by done. rewrite Hq in Hq'. injection Hq' as <-.
      by rewrite root_at_ne.
  - simpl. rewrite lookup_insert_eq. eauto.
Qed.

Lemma wf_attach s X o :
  wf_with (root_at X None) s -> objs s !! X = Some o -> dependencies o = None -> wf s.
Proof.
  intros Hwf Ho Hd. eapply wf_with_ext; [|exact Hwf].
  intros p q Hq. simpl. destruct (decide (p = X)) as [->|].
  - rewrite root_at_eq. rewrite Ho in Hq. by injection Hq as <-.
  - by rewrite root_at_ne.
Qed.

(** The second half of [invalidate]: drop all dependencies. *)
Lemma invalidate_tail s X o :
  wf s -> objs s !! X = Some o -> isValid o = false ->
  exists N s',
    (forall fuel, N <= fuel ->
       (o <- getObj X;;
        modObj X (set_dependencies None);;
        Object.invalidate_drop fuel (dependencies o)) s = Ret tt s') /\
    cascaded s {[X]} s'.
Proof.
  intros Hwf Ho Hv.
  destruct (wf_detach s X o Hwf Ho) as (t & Hdrop & Hf).
  destruct (drop_total X (mu t) t _ _ (le_n _) Hdrop) as (s' & Hrun & Hd' & Hf' & Hsf').
  exists (S (mu t)), s'. split.
  - intros fuel Hfuel. unfold bind at 1. rewrite (run_getObj _ _ _ Ho).
    unfold bind at 1. rewrite (run_modObj _ _ _ _ Ho). apply Hrun. lia.
  - destruct (Hsf' X (set_dependencies None o)) as (o' & Ho' & Hd1 & Hv1).
    { simpl. by rewrite lookup_insert_eq. }
    destruct Hd' as (Hwf' & _ & _ & _ & Hrest).
    split; [by eapply wf_attach|]. split; [by eapply frame_trans|].
    intros p ->%elem_of_singleton. split.
    + exists o'. split; [done|]. by rewrite Hv1.
    + intros e x Hx HA. specialize (Hrest e (not_elem_of_nil _)).
      by rewrite (tv_lookup _ _ _ _ Hx HA) in Hrest.
Qed.

Lemma invalidate_from_loop s X o :
  wf s -> objs s !! X = Some o ->
  (isValid o = true ->
   exists N s' T,
     (forall fuel, N <= fuel ->
        Object.invalidateIncoming_while fuel X true
          (with_objs (<[X := set_isValid false o]> (objs s)) s) = Ret tt s') /\
     cascaded (with_objs (<[X := set_isValid false o]> (objs s)) s) T s' /\
     (forall Y, Y ∈ T ->
        exists e x, deps s !! e = Some x /\ B x = X /\ content x = true /\
                    reach (with_objs (<[X := set_isValid false o]> (objs s)) s) Y (A x)) /\
     (forall e x, deps s !! e = Some x -> B x = X -> content x = true -> A x ∈ T) /\
     closed_under_content (with_objs (<[X := set_isValid false o]> (objs s)) s) T) ->
  exists N s' T,
    (forall fuel, N <= fuel -> Object.invalidate fuel X s = Ret tt s') /\
    cascaded s T s' /\ X ∈ T /\
    (forall Y, Y ∈ T -> reach s Y X) /\
    closed_under_content s T.
Proof.
  intros Hwf Ho Hloop. destruct (isValid o) eqn:Hv.
  - destruct (Hloop eq_refl) as (N2 & s2 & T2 & Hrun2 & Hc2 & Hr2 & Hall2 & Hcl2).
    destruct (wf_flip s X o Hwf Ho) as [Hwf1 Hf1].
    set (s1 := with_objs (<[X := set_isValid false o]> (objs s)) s) in *.
    pose proof Hc2 as (Hwf2 & Hf2 & Hd2).
    assert (Ho1 : objs s1 !! X = Some (set_isValid false o)).
    { simpl. by rewrite lookup_insert_eq. }
    pose proof Hf2 as (_ & _ & _ & _ & H5 & _).
    destruct (H5 X _ Ho1) as (o2 & Ho2 & Hv2 & _). specialize (Hv2 eq_refl).
    destruct (invalidate_tail s2 X o2 Hwf2 Ho2 Hv2) as (N3 & s3 & Hrun3 & Hc3).
    exists (S (S (N2 `max` N3))), s3, ({[X]} ∪ T2). split_and!.
    + intros [|[|f]] Hf; [lia|lia|]. rewrite invalidate_S. unfold bind at 1.
      rewrite (run_getObj _ _ _ Ho), Hv. unfold bind at 1. unfold bind at 1.
      rewrite (run_modObj _ _ _ _ Ho). fold s1.
      rewrite invalidateIncoming_S. unfold bind at 1.
      rewrite Hrun2 by lia. simpl negb. cbv iota. unfold ret at 1.
      apply Hrun3. lia.
    + destruct Hc3 as (Hwf3 & Hf3 & Hd3). split; [done|]. split.
      * eapply frame_trans; [eapply frame_mono; [|exact Hf1]; set_solver|].
        eapply frame_trans; eapply frame_mono; try eassumption; set_solver.
      * intros p [Hp|Hp]%elem_of_union; [by apply Hd3|].
        eapply dead_frame; [exact Hf3|]. by apply Hd2.
    + set_solver.
    + intros Y [->%elem_of_singleton|HY]%elem_of_union; [apply rtc_refl|].
      destruct (Hr2 Y HY) as (e & x & Hx & HB & Hk & Hre).
      eapply rtc_r; [by eapply reach_frame|].
      exists e, x, o. split_and!; done.
    + intros Z oz e x HZ Hoz Hvz Hx HB Hk. apply elem_of_union. right.
      destruct (decide (Z = X)) as [->|HZX]; [by eapply Hall2|].
      assert (HZ2 : Z ∈ T2) by set_solver.
      apply (Hcl2 Z oz e x); try done.
      simpl. by rewrite lookup_insert_ne.
  - destruct (invalidate_tail s X o Hwf Ho Hv) as (N3 & s3 & Hrun3 & Hc3).
    exists (S N3), s3, {[X]}. split_and!.
    + intros [|f] Hf; [lia|]. rewrite invalidate_S. unfold bind at 1.
      rewrite (run_getObj _ _ _ Ho), Hv. unfold bind at 1. unfold ret at 1.
      apply Hrun3. lia.
    + done.
    + set_solver.
    + intros Y ->%elem_of_singleton. apply rtc_refl.
    + intros Z oz e x ->%elem_of_singleton Hoz Hvz. congruence.
Qed.

Lemma valid_set_flip s X o :
  objs s !! X = Some o -> isValid o = true ->
  size (valid_set (with_objs (<[X := set_isValid false o]> (objs s)) s))
  < size (valid_set s).
Proof.
  intros Ho Hv. apply subset_size. split.
  - intros p. rewrite !elem_of_valid_set. simpl. intros (q & Hq & Hvq).
    destruct (decide (X = p)) as [<-|].
    + rewrite lookup_insert_eq in Hq. by injection Hq as <-.
    + rewrite lookup_insert_ne in Hq by done. eauto.
  - intros Hsub. assert (HX : X ∈ valid_set s) by (apply elem_of_valid_set; eauto).
    apply Hsub in HX. apply elem_of_valid_set in HX as (q & Hq & Hvq).
    simpl in Hq. rewrite lookup_insert_eq in Hq. by injection Hq as <-.
Qed.

Lemma invalidate_total_bounded n : invalidate_spec n.
Proof.
  induction n as [|n IH]; intros s X Hn Hwf [o Ho].
  - apply (invalidate_from_loop s X o Hwf Ho).
    intros Hv. exfalso.
    assert (HX : X ∈ valid_set s) by (apply elem_of_valid_set; eauto).
    apply Nat.le_0_r, size_empty_inv in Hn. set_solver.
  - apply (invalidate_from_loop s X o Hwf Ho).
    intros Hv. destruct (wf_flip s X o Hwf Ho) as [Hwf1 Hf1].
    destruct (while_total n true IH
                (with_objs (<[X := set_isValid false o]> (objs s)) s) X)
      as (N & s' & T & Hrun & Hc & Hr & Hall & Hcl).
    + pose proof (valid_set_flip s X o Ho Hv). lia.
    + done.
    + simpl. rewrite lookup_insert_eq. eauto.
    + exists N, s', T. split_and!; done.
Qed.

(** [invalidate] on a well-formed memory returns; the objects [T] it has
    invalidated all depend on [X] through content dependencies on valid
    objects, and nothing else has changed. *)
Lemma invalidate_total s X :
  wf s -> is_Some (objs s !! X) ->
  exists N s' T,
    (forall fuel, N <= fuel -> Object.invalidate fuel X s = Ret tt s') /\
    cascaded s T s' /\
    (forall Y, Y ∈ T <-> reach s Y X).
Proof.
  intros Hwf HX.
  destruct (invalidate_total_bounded _ s X (le_n _) Hwf HX)
    as (N & s' & T & Hrun & Hc & HXT & Hr & Hcl).
  exists N, s', T. split_and!; try done.
  intros Y. split; [apply Hr|]. by apply closed_reach.
Qed.

Lemma invalidateIncoming_while_total k s X :
  wf s -> is_Some (objs s !! X) ->
  exists N s' T,
    (forall fuel, N <= fuel -> Object.invalidateIncoming_while fuel X k s = Ret tt s') /\
    cascaded s T s' /\
    (forall Y, Y ∈ T ->
       exists e x, deps s !! e = Some x /\ B x = X /\ content x = k /\ reach s Y (A x)) /\
    (forall e x, deps s !! e = Some x -> B x = X -> content x = k -> A x ∈ T) /\
    closed_under_content s T.
Proof.
  intros. eapply (while_total _ k (invalidate_total_bounded _)); done.
Qed.

Lemma closed_union s T1 s1 T2 :
  frame T1 s s1 -> closed_under_content s T1 -> closed_under_content s1 T2 ->
  closed_under_content s (T1 ∪ T2).
Proof.
  intros Hf1 Hcl1 Hcl2 Z oz e x HZ Hoz Hvz Hx HB Hk. apply elem_of_union.
  destruct (decide (Z ∈ T1)) as [HZ1|HZ1]; [left; by eapply (Hcl1 Z oz e x)|].
  destruct (decide (A x ∈ T1)) as [|HnT]; [by left|right].
  assert (HZ2 : Z ∈ T2) by set_solver.
  destruct Hf1 as (_ & _ & _ & _ & H5 & _ & H7 & H8).
  destruct (H5 Z oz Hoz) as (oz1 & Hoz1 & _ & Hkeep).
  destruct (Hkeep HZ1) as [Hv1 _].
  destruct (H8 e x Hx HnT) as (x1 & Hx1 & _).
  destruct (H7 e x x1 Hx Hx1) as (EA & EB & EC).
  rewrite <- EA. apply (Hcl2 Z oz1 e x1); congruence.
Qed.

(** [invalidateIncoming]: the content chain, then the existence chain unless
    [contentOnly].  The objects invalidated are exactly those that reach the
    source of an edge on the chains that are walked. *)
Lemma invalidateIncoming_total contentOnly s X :
  wf s -> is_Some (objs s !! X) ->
  exists N s' T,
    (forall fuel, N <= fuel ->
       Object.invalidateIncoming fuel X contentOnly s = Ret tt s') /\
    cascaded s T s' /\
    (forall Y, Y ∈ T <->
       exists e x, deps s !! e = Some x /\ B x = X /\
                   (contentOnly = true -> content x = true) /\ reach s Y (A x)).
Proof.
  intros Hwf HX.
  destruct (invalidateIncoming_while_total true s X Hwf HX)
    as (N1 & s1 & T1 & Hrun1 & Hc1 & Hr1 & Hall1 & Hcl1).
  destruct contentOnly.
  - exists (S N1), s1, T1. split_and!; try done.
    + intros [|f] Hf; [lia|]. rewrite invalidateIncoming_S. unfold bind.
      rewrite Hrun1 by lia. done.
    + intros Y. split.
      * intros HY. destruct (Hr1 Y HY) as (e & x & ? & ? & ? & ?). exists e, x. done.
      * intros (e & x & Hx & HB & Hk & Hre).
        apply (closed_reach s T1 (A x) Hcl1); [|done]. apply (Hall1 e x Hx HB). by apply Hk.
  - pose proof Hc1 as (Hwf1 & Hf1 & Hd1).
    assert (HX1 : is_Some (objs s1 !! X)).
    { destruct HX as [o Ho]. by eapply frame_obj_fwd. }
    destruct (invalidateIncoming_while_total false s1 X Hwf1 HX1)
      as (N2 & s2 & T2 & Hrun2 & Hc2 & Hr2 & Hall2 & Hcl2).
    exists (S (N1 `max` N2)), s2, (T1 ∪ T2). split_and!.
    + intros [|f] Hf; [lia|]. rewrite invalidateIncoming_S. unfold bind.
      rewrite Hrun1 by lia. simpl. apply Hrun2. lia.
    + by eapply cascaded_trans.
    + intros Y. split.
      * intros [HY|HY]%elem_of_union.
        -- destruct (Hr1 Y HY) as (e & x & ? & ? & ? & ?). exists e, x. done.
        -- destruct (Hr2 Y HY) as (e & x1 & Hx1 & HB & Hk & Hre).
           destruct (frame_dep_back _ _ _ _ _ Hf1 Hx1) as (x & Hx & EA & EB & EC).
           exists e, x. split_and!; try congruence.
           rewrite <- EA. by eapply reach_frame.
      * intros (e & x & Hx & HB & _ & Hre).
        apply (closed_reach s (T1 ∪ T2) (A x)); [by eapply closed_union| |done].
        apply elem_of_union.
        destruct (decide (A x ∈ T1)) as [|HnT]; [by left|].
        destruct (content x) eqn:Hk; [left; by apply (Hall1 e x)|right].
        destruct Hf1 as (_ & _ & _ & _ & _ & _ & H7 & H8).
        destruct (H8 e x Hx HnT) as (x1 & Hx1 & _).
        destruct (H7 e x x1 Hx Hx1) as (EA & EB & EC).
        rewrite <- EA. apply (Hall2 e x1 Hx1); congruence.
Qed.

(** ** Empty and one-element chains and trees *)

Lemma decide_elem_nil {T} (e : positive) (a b : T) :
  (if decide (e ∈ @nil positive) then a else b) = b.
Proof. destruct (decide (e ∈ [])) as [Hin|]; [by apply elem_of_nil in Hin|done]. Qed.

Lemma chain_ok_nil dm p k :
  (forall e x, dm !! e = Some x -> B x = p -> content x = k -> False) ->
  chain_ok dm p k None.
Proof.
  intros Hno. exists []. split; [constructor|]. split; [done|].
  intros e. rewrite decide_elem_nil. unfold cv. destruct (dm !! e) as [x|] eqn:Hx; [|done].
  destruct (decide (B x = p /\ content x = k)) as [[??]|]; [by destruct (Hno e x)|done].
Qed.

Lemma chain_ok_single dm p k e x :
  dm !! e = Some x -> B x = p -> content x = k -> prev x = None -> next x = None ->
  (forall e' x', dm !! e' = Some x' -> B x' = p -> content x' = k -> e' = e) ->
  chain_ok dm p k (Some e).
Proof.
  intros Hx HB Hk Hp Hn Honly. exists [e]. split; [apply NoDup_singleton|].
  split; [done|]. intros e'. unfold cv.
  destruct (decide (e' ∈ [e])) as [->%list_elem_of_singleton|Hne].
  - rewrite Hx. destruct (decide (B x = p /\ content x = k)) as [_|[]]; [|done].
    unfold before. simpl. destruct (decide (e = e)); [|done]. by rewrite Hp, Hn.
  - destruct (dm !! e') as [x'|] eqn:Hx'; [|done].
    destruct (decide (B x' = p /\ content x' = k)) as [[??]|]; [|done].
    exfalso. apply Hne. apply list_elem_of_singleton. by eapply Honly.
Qed.

Lemma tree_ok_leaf dm p :
  (forall e x, dm !! e = Some x -> A x = p -> False) -> tree_ok dm p None.
Proof.
  intros Hno. exists Leaf. split; [constructor|]. split; [done|].
  intros e _. unfold tv. destruct (dm !! e) as [x|] eqn:Hx; [|done].
  destruct (decide (A x = p)); [by destruct (Hno e x)|done].
Qed.

Lemma tree_ok_single dm p e x :
  dm !! e = Some x -> A x = p -> left x = None -> right x = None ->
  (forall e' x', dm !! e' = Some x' -> A x' = p -> e' = e) ->
  tree_ok dm p (Some e).
Proof.
  intros Hx HA Hl Hr Honly. exists (Node Leaf e Leaf). split; [apply NoDup_singleton|].
  split.
  - simpl. split; [done|]. exists None, None. split; [|done].
    rewrite (tv_lookup _ _ _ _ Hx HA). by rewrite Hl, Hr.
  - intros e' He'. unfold tv. destruct (dm !! e') as [x'|] eqn:Hx'; [|done].
    destruct (decide (A x' = p)); [|done].
    exfalso. apply He'. simpl. apply list_elem_of_singleton. by eapply Honly.
Qed.

(** [lookup[K]] keeps the memory well formed. *)
Lemma wf_subscript s (K : Z) a s0 :
  wf s -> MemorySafety.subscript K s = Ret a s0 ->
  wf s0 /\ deps s0 = deps s /\
  (forall p o, objs s !! p = Some o -> objs s0 !! p = Some o) /\
  (forall K' p, lookup s !! K' = Some p -> lookup s0 !! K' = Some p) /\
  (lookup s !! K = None ->
     objs s0 !! a = Some Object_default /\ objs s !! a = None /\
     objs s0 = <[a := Object_default]> (objs s)).
Proof.
  intros Hwf H. unfold MemorySafety.subscript in H.
  destruct (lookup s !! K) as [p|] eqn:HK.
  { injection H as <- <-. split_and!; try done. }
  injection H as <- <-. pose proof Hwf as (Ha & Hp & Hobj).
  destruct (Ha (top s)) as [Hto Htd]; [lia|].
  split_and!; try done.
  - split; [|split].
    + intros p Hp'. simpl in *. destruct (Ha p) as [? ?]; [lia|].
      split; [|done]. rewrite lookup_insert_ne by lia. done.
    + intros e x Hx. simpl in *. destruct (Hp e x Hx) as [[oa Hoa] [ob Hob]].
      split.
      * rewrite lookup_insert_ne by congruence. eauto.
      * rewrite lookup_insert_ne by congruence. eauto.
    + intros p o Ho. simpl in *. destruct (decide (top s = p)) as [<-|Hne].
      * rewrite lookup_insert_eq in Ho. injection Ho as <-. split.
        -- intros k. assert (incoming Object_default k = None) as -> by (by destruct k).
           apply chain_ok_nil. intros e x Hx HB _.
           destruct (Hp e x Hx) as [_ [ob Hob]]. congruence.
        -- apply tree_ok_leaf. intros e x Hx HA.
           destruct (Hp e x Hx) as [[oa Hoa] _]. congruence.
      * rewrite lookup_insert_ne in Ho by done. by apply Hobj.
  - intros p o Ho. simpl. rewrite lookup_insert_ne; [done|congruence].
  - intros K' p HK'. simpl. rewrite lookup_insert_ne; [done|congruence].
  - intros _. simpl. by rewrite lookup_insert_eq.
Qed.

(** ** Consequences for the entry points *)

Lemma dead_dependencies s p o :
  wf s -> dead s p -> objs s !! p = Some o -> isValid o = false /\ dependencies o = None.
Proof.
  intros (_ & _ & Hobj) [(o' & Ho' & Hv) Hd] Ho. rewrite Ho in Ho'. injection Ho' as <-.
  split; [done|]. destruct (Hobj p o Ho) as [_ (t & _ & Hsh & _)].
  destruct t as [|l e r]; [done|]. simpl in Hsh.
  destruct Hsh as (_ & a & b & He & _). apply tv_Some in He as (x & Hx & HA & _).
  by destruct (Hd e x Hx).
Qed.

Lemma no_edge_incoming s p o k :
  wf s -> objs s !! p = Some o ->
  (forall e x, deps s !! e = Some x -> B x = p -> content x = k -> False) ->
  incoming o k = None.
Proof.
  intros (_ & _ & Hobj) Ho Hno. destruct (Hobj p o Ho) as [Hch _].
  specialize (Hch k). destruct (incoming o k) as [e|]; [|done].
  destruct (chain_head_Some _ _ _ _ Hch) as (x & Hx & HB & Hk). by destruct (Hno e x).
Qed.

Lemma frame_edge_kept T s s' e x :
  frame T s s' -> deps s !! e = Some x -> A x ∉ T -> edge_kept s s' e.
Proof.
  intros (_ & _ & _ & _ & _ & _ & H7 & H8) Hx HA.
  destruct (H8 e x Hx HA) as (x' & Hx' & ? & ? & ?).
  destruct (H7 e x x' Hx Hx') as (? & ? & ?).
  exists x, x'. split_and!; done.
Qed.

Lemma addDependency_invalid_source fuel (K1 K2 : Z) s a oa :
  lookup s !! K1 = Some a -> objs s !! a = Some oa -> isValid oa = false ->
  MemorySafety.addDependency fuel K1 K2 s = Ret tt s /\
  MemorySafety.addContentDependency fuel K1 K2 s = Ret tt s.
Proof.
  intros Ha Ho Hv. unfold MemorySafety.addDependency, MemorySafety.addContentDependency.
  unfold bind. by rewrite (run_subscript_Some _ _ _ Ha), (run_getObj _ _ _ Ho), Hv.
Qed.

Lemma cascaded_untouched s T s' p o :
  cascaded s T s' -> objs s !! p = Some o -> p ∉ T ->
  exists o', objs s' !! p = Some o' /\ isValid o' = isValid o /\
             dependencies o' = dependencies o.
Proof.
  intros (_ & Hf & _) Ho Hp. destruct Hf as (_ & _ & _ & _ & H5 & _).
  destruct (H5 p o Ho) as (o' & Ho' & _ & Hk). destruct (Hk Hp). eauto.
Qed.

(** An invalid source makes both calls return with the memory as it was.
    With an invalid target, [addContentDependency] on a well-formed memory
    returns, whether the source had a valid record or none: afterwards the
    source and every object that reached it through content dependencies are
    dead (flag false, no outgoing edge), the root of the tree and the content
    chain of the source are null, the other objects have the flag and the root
    they had, and no edge has been created.  Every memory reached from a
    fresh registry by calls that do not destroy the source of an edge is well
    formed ([safe_calls_wf]). *)
Theorem add_dependency_on_invalid (s : MemorySafety) (K1 K2 : Z) :
  (forall a oa, lookup s !! K1 = Some a -> objs s !! a = Some oa -> isValid oa = false ->
   forall fuel,
     MemorySafety.addDependency fuel K1 K2 s = Ret tt s /\
     MemorySafety.addContentDependency fuel K1 K2 s = Ret tt s) /\
  (wf s ->
   forall b ob, lookup s !! K2 = Some b -> objs s !! b = Some ob -> isValid ob = false ->
   forall a s0 oa,
     MemorySafety.subscript K1 s = Ret a s0 -> objs s0 !! a = Some oa ->
     isValid oa = true ->
   exists N s',
     (forall fuel, N <= fuel ->
        MemorySafety.addContentDependency fuel K1 K2 s = Ret tt s') /\
     wf s' /\ lookup s' = lookup s0 /\
     (exists oa', objs s' !! a = Some oa' /\ isValid oa' = false /\
                  dependencies oa' = None /\ incoming oa' true = None) /\
     (forall Y, reach s0 Y a -> dead s' Y) /\
     (forall e x, deps s !! e = Some x -> B x = a -> content x = true ->
                  dead s' (A x)) /\
     (forall Y o, objs s0 !! Y = Some o -> ~ reach s0 Y a ->
        exists o', objs s' !! Y = Some o' /\ isValid o' = isValid o /\
                   dependencies o' = dependencies o) /\
     (forall e, deps s !! e = None -> deps s' !! e = None)).
Proof.
  split.
  - intros a oa Ha Ho Hv fuel. by eapply addDependency_invalid_source.
  - intros Hwf b ob Hb Hob Hvb a s0 oa Hsub Ho Hv.
    destruct (wf_subscript s K1 a s0 Hwf Hsub) as (Hwf0 & Hd0 & Ho0 & Hl0 & _).
    destruct (invalidate_total s0 a Hwf0) as (N & s' & T & Hrun & Hc & HT); [eauto|].
    pose proof Hc as (Hwf' & Hf & Hd).
    assert (HaT : a ∈ T) by (apply HT, rtc_refl).
    exists N, s'. split_and!; try done.
    + intros fuel Hfuel. unfold MemorySafety.addContentDependency. unfold bind.
      rewrite Hsub, (run_getObj _ _ _ Ho), Hv. simpl.
      rewrite (run_subscript_Some _ _ _ (Hl0 _ _ Hb)), (run_getObj _ _ _ (Ho0 _ _ Hob)), Hvb.
      simpl. by apply Hrun.
    + apply Hf.
    + destruct (frame_obj_fwd _ _ _ _ _ Hf Ho) as [oa' Hoa'].
      destruct (dead_dependencies s' a oa' Hwf' (Hd a HaT) Hoa') as [? ?].
      exists oa'. split_and!; try done.
      eapply no_edge_incoming; [done|done|].
      intros e x' Hx' HB Hk.
      destruct (frame_dep_back _ _ _ _ _ Hf Hx') as (x & Hx & EA & EB & EC).
      assert (A x ∈ T) as HAT.
      { apply HT. apply rtc_once. exists e, x, oa. split_and!; congruence. }
      apply (dead_no_edge s' (A x) e x' (Hd _ HAT) Hx'). done.
    + intros Y HY. apply Hd. by apply HT.
    + intros e x Hx HB Hk. apply Hd, HT. apply rtc_once.
      exists e, x, oa. rewrite Hd0. split_and!; congruence.
    + intros Y o HoY HY. eapply cascaded_untouched; [done|done|]. by rewrite HT.
    + intros e He. destruct Hf as (_ & _ & _ & _ & _ & H6 & _). apply H6. by rewrite Hd0.
Qed.

(** C6, as the code has it.  On a well-formed memory [markModified] returns:
    for an address without a record nothing changes; otherwise every object
    with an edge on the content chain of [B] is dead afterwards, [B] itself
    is dead if it depends on its own content, and if it does not, the flag of
    [B], the root of its tree and its edges are as before, so that a valid
    [B] still validates. *)
Theorem mark_modified_cascade (s : MemorySafety) (K : Z) :
  wf s ->
  (lookup s !! K = None -> forall fuel, MemorySafety.markModified fuel K s = Ret tt s) /\
  (forall b ob, lookup s !! K = Some b -> objs s !! b = Some ob ->
   exists N s',
     (forall fuel, N <= fuel -> MemorySafety.markModified fuel K s = Ret tt s') /\
     wf s' /\ lookup s' = lookup s /\
     (forall e x, deps s !! e = Some x -> B x = b -> content x = true ->
                  dead s' (A x)) /\
     (self_dependent s b -> dead s' b) /\
     (~ self_dependent s b ->
        (exists ob', objs s' !! b = Some ob' /\ isValid ob' = isValid ob /\
                     dependencies ob' = dependencies ob) /\
        (forall e x, deps s !! e = Some x -> A x = b -> edge_kept s s' e) /\
        (isValid ob = true -> MemorySafety.validate K s' = Ret [] s'))).
Proof.
  intros Hwf. split.
  { intros HK fuel. by apply markModified_unregistered. }
  intros b ob Hb Hob.
  destruct (invalidateIncoming_total true s b Hwf) as (N & s' & T & Hrun & Hc & HT);
    [eauto|].
  pose proof Hc as (Hwf' & Hf & Hd).
  assert (HbT : b ∈ T <-> self_dependent s b).
  { rewrite HT. unfold self_dependent. split.
    - intros (e & x & ? & ? & Hk & ?). exists e, x. split_and!; auto.
    - intros (e & x & ? & ? & Hk & ?). exists e, x. split_and!; auto. }
  exists N, s'. split_and!; try done.
  - intros fuel Hfuel. unfold MemorySafety.markModified, bind.
    rewrite (run_find _ _ _ Hb). by apply Hrun.
  - apply Hf.
  - intros e x Hx HB Hk. apply Hd, HT. exists e, x. split_and!; try done. apply rtc_refl.
  - intros Hself. apply Hd. by apply HbT.
  - intros Hself. rewrite <- HbT in Hself.
    destruct (cascaded_untouched s T s' b ob Hc Hob Hself) as (ob' & Hob' & Hv & Hdep).
    split_and!.
    + exists ob'. done.
    + intros e x Hx HA. eapply frame_edge_kept; [exact Hf|exact Hx|]. by rewrite HA.
    + intros Hvb. destruct Hf as (Hlk & _).
      rewrite validate_eq, Hlk, Hb, Hob', Hv, Hvb. done.
Qed.

(** ** [markDestroyed] on a well-formed memory *)

(** [markDestroyed] returns; the record is gone, no edge points at it any
    more, and every object that reached the source of one of its incoming
    edges is dead.  The edges of which the destroyed record is the source are
    not released: unless the record was itself reached by the cascade, they
    stay allocated with [A] pointing at the released record. *)
Lemma markDestroyed_total s (K : Z) b ob :
  wf s -> lookup s !! K = Some b -> objs s !! b = Some ob ->
  exists N s',
    (forall fuel, N <= fuel -> MemorySafety.markDestroyed fuel K s = Ret tt s') /\
    lookup s' = delete K (lookup s) /\ objs s' !! b = None /\
    (forall e x', deps s' !! e = Some x' -> B x' <> b) /\
    (forall Y, (exists e x, deps s !! e = Some x /\ B x = b /\ reach s Y (A x)) ->
       Y <> b -> dead s' Y) /\
    (~ (exists e x, deps s !! e = Some x /\ B x = b /\ reach s b (A x)) ->
     forall e x, deps s !! e = Some x -> A x = b ->
       exists x', deps s' !! e = Some x' /\ A x' = b).
Proof.
  intros Hwf Hb Hob.
  destruct (invalidateIncoming_total false s b Hwf) as (N & s1 & T & Hrun & Hc & HT);
    [eauto|].
  pose proof Hc as (Hwf1 & Hf & Hd).
  assert (HT' : forall Y, Y ∈ T <->
            exists e x, deps s !! e = Some x /\ B x = b /\ reach s Y (A x)).
  { intros Y. rewrite HT. split.
    - intros (e & x & ? & ? & _ & ?). eauto.
    - intros (e & x & ? & ? & ?). exists e, x. split_and!; done. }
  exists N. eexists. split_and!.
  - intros fuel Hfuel. unfold MemorySafety.markDestroyed, bind.
    rewrite (run_find _ _ _ Hb), (Hrun fuel Hfuel). reflexivity.
  - simpl. destruct Hf as (-> & _). done.
  - simpl. apply lookup_delete_eq.
  - simpl. intros e x' Hx' HB.
    destruct (frame_dep_back _ _ _ _ _ Hf Hx') as (x & Hx & EA & EB & EC).
    assert (A x ∈ T) as HAT.
    { apply HT'. exists e, x. split_and!; try congruence. apply rtc_refl. }
    apply (dead_no_edge s1 (A x) e x' (Hd _ HAT) Hx'). done.
  - intros Y HY HYb. apply HT' in HY. destruct (Hd Y HY) as [(o & Ho & Hv) Hno].
    split; [|done]. exists o. simpl. by rewrite lookup_delete_ne.
  - intros Hnb e x Hx HA. rewrite <- HT' in Hnb. simpl.
    destruct Hf as (_ & _ & _ & _ & _ & _ & H7 & H8).
    destruct (H8 e x Hx) as (x' & Hx' & _); [by rewrite HA|].
    destruct (H7 e x x' Hx Hx') as (EA & _). exists x'. split; [done|congruence].
Qed.

(** When [A] has an edge to [B] and [C] depends on the content of the valid
    [A], destroying [B] makes [validate(C)] report. *)
Lemma markDestroyed_cascades s (KB KC : Z) a b c ob oa eab xab eca xca :
  wf s -> lookup s !! KB = Some b -> objs s !! b = Some ob ->
  lookup s !! KC = Some c -> KC <> KB -> c <> b ->
  objs s !! a = Some oa -> isValid oa = true ->
  deps s !! eab = Some xab -> A xab = a -> B xab = b ->
  deps s !! eca = Some xca -> A xca = c -> B xca = a -> content xca = true ->
  exists N s',
    (forall fuel, N <= fuel -> MemorySafety.markDestroyed fuel KB s = Ret tt s') /\
    MemorySafety.validate KC s' = Ret [KC] s'.
Proof.
  intros Hwf Hb Hob Hc HK Hcb Hoa Hva Hab HAab HBab Hca HAca HBca Hkca.
  destruct (markDestroyed_total s KB b ob Hwf Hb Hob)
    as (N & s' & Hrun & Hlk & _ & _ & Hdead & _).
  exists N, s'. split; [done|].
  destruct (Hdead c) as [(oc & Hoc & Hvc) _]; [|done|].
  { exists eab, xab. split_and!; try done. rewrite HAab. apply rtc_once.
    exists eca, xca, oa. split_and!; done. }
  rewrite validate_eq, Hlk, lookup_delete_ne by done. by rewrite Hc, Hoc, Hvc.
Qed.

(** ** A small well-formed memory *)

Lemma three_records_reached fuel :
  (add_dependency (5 + fuel) 200 300;;
   mark_destroyed (5 + fuel) 300;;
   add_content_dependency (5 + fuel) 400 100) logic = Ret tt three_records.
Proof. etrans; [unfold logic; run|]. by vm_compute. Qed.

Lemma three_records_wf : wf three_records.
Proof.
  assert (Hdep : forall e x, deps three_records !! e = Some x ->
            e = 6%positive /\ A x = 4%positive /\ B x = 5%positive /\ content x = true).
  { intros e x Hx. simpl in Hx. apply lookup_insert_Some in Hx as [[<- <-]|[_ Hx]]; [done|].
    by rewrite lookup_empty in Hx. }
  assert (H6 : deps three_records !! 6%positive =
               Some {| A := 4; B := 5; content := true; parent := None;
                       left := None; right := None; prev := None; next := None |}).
  { done. }
  split; [|split].
  - intros p Hp. simpl in *. split.
    + rewrite !lookup_insert_ne by lia. done.
    + rewrite !lookup_insert_ne by lia. done.
  - intros e x Hx. destruct (Hdep e x Hx) as (-> & -> & -> & _). split; by eexists.
  - intros p o Ho. simpl in Ho.
    apply lookup_insert_Some in Ho as [[<- <-]|[_ Ho]];
      [|apply lookup_insert_Some in Ho as [[<- <-]|[_ Ho]];
        [|apply lookup_insert_Some in Ho as [[<- <-]|[_ Ho]];
          [|by rewrite lookup_empty in Ho]]].
    + split.
      * intros [|]; simpl.
        -- eapply chain_ok_single; [exact H6|done..|].
           intros e' x' Hx' _ _. by destruct (Hdep e' x' Hx').
        -- apply chain_ok_nil. intros e x Hx _ Hk.
           destruct (Hdep e x Hx) as (_ & _ & _ & Hc). congruence.
      * apply tree_ok_leaf. intros e x Hx HA.
        destruct (Hdep e x Hx) as (_ & HA' & _). congruence.
    + split.
      * intros k. assert (incoming {| dependencies := Some 6%positive; incoming0 := None;
                            incoming1 := None; isValid := true |} k = None) as ->
          by (by destruct k).
        apply chain_ok_nil. intros e x Hx HB _.
        destruct (Hdep e x Hx) as (_ & _ & HB' & _). congruence.
      * eapply tree_ok_single; [exact H6|done..|].
        intros e' x' Hx' _. by destruct (Hdep e' x' Hx').
    + split.
      * intros k. assert (incoming {| dependencies := None; incoming0 := None;
                            incoming1 := None; isValid := false |} k = None) as ->
          by (by destruct k).
        apply chain_ok_nil. intros e x Hx HB _.
        destruct (Hdep e x Hx) as (_ & _ & HB' & _). congruence.
      * apply tree_ok_leaf. intros e x Hx HA.
        destruct (Hdep e x Hx) as (_ & HA' & _). congruence.
Qed.

Lemma add_dependency_on_invalid_witness :
  (forall fuel,
     MemorySafety.addDependency fuel 200 100 three_records = Ret tt three_records /\
     MemorySafety.addContentDependency fuel 200 100 three_records = Ret tt three_records) /\
  (exists N s',
     (forall fuel, N <= fuel ->
        MemorySafety.addContentDependency fuel 100 200 three_records = Ret tt s') /\
     dead s' 5 /\ dead s' 4).
Proof.
  split.
  - exact (proj1 (add_dependency_on_invalid three_records 200 100) 1%positive
             {| dependencies := None; incoming0 := None;
                incoming1 := None; isValid := false |} eq_refl eq_refl eq_refl).
  - destruct (proj2 (add_dependency_on_invalid three_records 100 200) three_records_wf
                1%positive
                {| dependencies := None; incoming0 := None;
                   incoming1 := None; isValid := false |} eq_refl eq_refl eq_refl
                5%positive three_records
                {| dependencies := None; incoming0 := None;
                   incoming1 := Some 6%positive; isValid := true |}
                eq_refl eq_refl eq_refl)
      as (N & s' & Hrun & _ & _ & _ & Hreach & Hdirect & _).
    exists N, s'. split; [exact Hrun|]. split.
    + apply Hreach. apply rtc_refl.
    + apply (Hdirect 6%positive
               {| A := 4; B := 5; content := true; parent := None;
                  left := None; right := None; prev := None; next := None |});
        reflexivity.
Defined.

Lemma three_records_not_self_dependent : ~ self_dependent three_records 5.
Proof.
  intros (e & x & Hx & HB & Hk & Hre).
  simpl in Hx. apply lookup_insert_Some in Hx as [[<- <-]|[_ Hx]];
    [|by rewrite lookup_empty in Hx].
  simpl in Hre. apply rtc_inv in Hre as [[=]|(z & Hz & _)].
  destruct Hz as (e' & x' & o' & Hx' & HA' & _).
  simpl in Hx'. apply lookup_insert_Some in Hx' as [[<- <-]|[_ Hx']];
    [done|by rewrite lookup_empty in Hx'].
Qed.

Lemma mark_modified_cascade_witness :
  exists N s',
    (forall fuel, N <= fuel -> MemorySafety.markModified fuel 100 three_records = Ret tt s') /\
    dead s' 4 /\ MemorySafety.validate 100 s' = Ret [] s'.
Proof.
  destruct (proj2 (mark_modified_cascade three_records 100 three_records_wf) 5%positive
              {| dependencies := None; incoming0 := None;
                 incoming1 := Some 6%positive; isValid := true |} eq_refl eq_refl)
    as (N & s' & Hrun & _ & _ & Hdirect & _ & Hkeep).
  exists N, s'. split; [exact Hrun|]. split.
  - apply (Hdirect 6%positive
             {| A := 4; B := 5; content := true; parent := None;
                left := None; right := None; prev := None; next := None |});
      reflexivity.
  - destruct (Hkeep three_records_not_self_dependent) as (_ & _ & Hval).
    apply Hval. reflexivity.
Defined.

(** C6 as stated fails: when 100 and 200 depend on each other's content,
    [mark_modified(200)] invalidates 200 itself and [validate(200)] reports. *)
Lemma mark_modified_invalidates_itself :
  exists s1 s2 o1 o2,
    (add_content_dependency 5 100 200;; add_content_dependency 5 200 100) logic
      = Ret tt s1 /\
    record s1 200 = Some o1 /\ isValid o1 = true /\
    mark_modified 20 200 s1 = Ret tt s2 /\
    record s2 200 = Some o2 /\ isValid o2 = false /\
    validate 200 s2 = Ret [200%Z] s2.
Proof.
  eexists _, _, _, _. split; [by vm_compute|]. split; [by vm_compute|].
  split; [by vm_compute|]. split; [by vm_compute|]. split; [by vm_compute|].
  split; by vm_compute.
Qed.

(** ** An invalid target, on a memory with an edge whose source was destroyed *)

(** C5: with an invalid target, [add_content_dependency] has to invalidate
    the source and return.  The four calls [add_content_dependency(10, 20)],
    [mark_destroyed(10)], [add_dependency(30, 40)] and [mark_destroyed(40)]
    return and leave the record of 30 invalid and the record of 20 valid.
    [add_content_dependency(20, 30)] then invalidates the record of 20, and
    the cascade over the content chain of 20 follows the edge that
    [mark_destroyed(10)] left there to its source, a released record: the
    call does not return, whatever the budget. *)
Theorem add_content_dependency_reaches_released_source :
  (forall fuel,
     (add_content_dependency (5 + fuel) 10 20;;
      mark_destroyed (5 + fuel) 10;;
      add_dependency (5 + fuel) 30 40;;
      mark_destroyed (5 + fuel) 40) logic = Ret tt after_leaked_edge) /\
  validate 20 after_leaked_edge = Ret [] after_leaked_edge /\
  validate 30 after_leaked_edge = Ret [30%Z] after_leaked_edge /\
  (exists o e x,
     record after_leaked_edge 20 = Some o /\
     incoming o true = Some e /\
     deps after_leaked_edge !! e = Some x /\
     objs after_leaked_edge !! A x = None) /\
  (forall fuel, add_content_dependency (4 + fuel) 20 30 after_leaked_edge = Undefined) /\
  (forall fuel s', add_content_dependency fuel 20 30 after_leaked_edge <> Ret tt s').
Proof.
  assert (Hund : forall fuel,
            add_content_dependency (4 + fuel) 20 30 after_leaked_edge = Undefined)
    by (intros fuel; by vm_compute).
  split_and!.
  - intros fuel. etrans; [unfold logic; run|]. by vm_compute.
  - by vm_compute.
  - by vm_compute.
  - do 3 eexists. repeat split; by vm_compute.
  - exact Hund.
  - intros fuel s'. destruct fuel as [|[|[|[|fuel]]]]; [by vm_compute..|].
    change (S (S (S (S fuel)))) with (4 + fuel). by rewrite (Hund fuel).
Qed.

(** ** Relations that every step of the engine respects *)

Lemma mild_set_prev v : mild (set_prev v).
Proof. done. Qed.
Lemma mild_set_next v : mild (set_next v).
Proof. done. Qed.
Lemma mild_set_left v : mild (set_left v).
Proof. done. Qed.
Lemma mild_set_right v : mild (set_right v).
Proof. done. Qed.
Lemma mild_set_parent v : mild (set_parent v).
Proof. done. Qed.
Lemma mild_set_content_true : mild (set_content true).
Proof. done. Qed.

Create HintDb keeps.
#[local] Hint Resolve mild_set_prev mild_set_next mild_set_left mild_set_right
  mild_set_parent mild_set_content_true : keeps.

Section Keeps.
Variable R : MemorySafety -> MemorySafety -> Prop.
Hypothesis R_refl : forall s, R s s.
Hypothesis R_trans : forall s1 s2 s3, R s1 s2 -> R s2 s3 -> R s1 s3.

(** [m] relates the memory it returns with to the memory it was run on. *)
Definition keeps {T} (m : M T) : Prop :=
  forall s x s', m s = Ret x s' -> R s s'.

Lemma keeps_ret {T} (x : T) : keeps (ret x).
Proof using R_refl. intros s y s' [= _ <-]. apply R_refl. Qed.

Lemma keeps_bind {T U} (m : M T) (k : T -> M U) :
  keeps m -> (forall x, keeps (k x)) -> keeps (bind m k).
Proof using R_trans.
  intros Hm Hk s y s' H. unfold bind in H.
  destruct (m s) as [x s1| |] eqn:E; try done.
  eapply R_trans; [by eapply Hm|by eapply Hk].
Qed.

Lemma keeps_undefined {T} : keeps (@undefined T).
Proof using Type. by intros s y s' H. Qed.

Lemma keeps_timeout {T} : keeps (@timeout T).
Proof using Type. by intros s y s' H. Qed.

Lemma keeps_getObj p : keeps (getObj p).
Proof using R_refl.
  intros s y s' H. unfold getObj in H. destruct (objs s !! p); [|done].
  injection H as _ <-. apply R_refl.
Qed.

Lemma keeps_getDep e : keeps (getDep e).
Proof using R_refl.
  intros s y s' H. unfold getDep in H. destruct (deps s !! e); [|done].
  injection H as _ <-. apply R_refl.
Qed.

Lemma keeps_nonnull p : keeps (nonnull p).
Proof using R_refl. destruct p; [apply keeps_ret|apply keeps_undefined]. Qed.

Hypothesis R_setValid : forall s p o,
  objs s !! p = Some o -> R s (with_objs (<[p := set_isValid false o]> (objs s)) s).
Hypothesis R_setDependencies : forall s p o v,
  objs s !! p = Some o -> R s (with_objs (<[p := set_dependencies v o]> (objs s)) s).
Hypothesis R_setIncoming : forall s p o c v,
  objs s !! p = Some o -> R s (with_objs (<[p := set_incoming c v o]> (objs s)) s).
Hypothesis R_modDep : forall s e f x,
  mild f -> deps s !! e = Some x -> R s (with_deps (<[e := f x]> (deps s)) s).
Hypothesis R_deleteDep : forall s e x,
  deps s !! e = Some x -> R s (with_deps (delete e (deps s)) s).

Lemma keeps_setValid p : keeps (modObj p (set_isValid false)).
Proof using R_setValid.
  intros s y s' H. unfold modObj in H. destruct (objs s !! p) as [o|] eqn:E; [|done].
  injection H as _ <-. by apply (R_setValid s p o).
Qed.

Lemma keeps_setDependencies p v : keeps (modObj p (set_dependencies v)).
Proof using R_setDependencies.
  intros s y s' H. unfold modObj in H. destruct (objs s !! p) as [o|] eqn:E; [|done].
  injection H as _ <-. by apply (R_setDependencies s p o).
Qed.

Lemma keeps_setIncoming p c v : keeps (modObj p (set_incoming c v)).
Proof using R_setIncoming.
  intros s y s' H. unfold modObj in H. destruct (objs s !! p) as [o|] eqn:E; [|done].
  injection H as _ <-. by apply (R_setIncoming s p o).
Qed.

Lemma keeps_modDep e f : mild f -> keeps (modDep e f).
Proof using R_modDep.
  intros Hf s y s' H. unfold modDep in H. destruct (deps s !! e) as [x|] eqn:E; [|done].
  injection H as _ <-. by apply (R_modDep s e f x).
Qed.

Lemma keeps_deleteDep e : keeps (deleteDep e).
Proof using R_deleteDep.
  intros s y s' H. unfold deleteDep in H. destruct (deps s !! e) as [x|] eqn:E; [|done].
  injection H as _ <-. by apply (R_deleteDep s e x).
Qed.

Ltac keeps_step :=
  first
    [ apply keeps_ret | apply keeps_undefined | apply keeps_timeout
    | apply keeps_getObj | apply keeps_getDep | apply keeps_nonnull
    | apply keeps_setValid | apply keeps_setDependencies | apply keeps_setIncoming
    | apply keeps_deleteDep
    | apply keeps_modDep; solve [ auto with keeps ]
    | apply keeps_bind; [ | intros ? ]
    | match goal with
      | |- keeps (match ?o with Some _ => _ | None => _ end) => destruct o
      | |- keeps (if ?c then _ else _) => destruct c
      end ].

Lemma keeps_unlink e : keeps (Dependency.unlink e).
Proof using R_refl R_trans R_setIncoming R_modDep.
  unfold Dependency.unlink. repeat keeps_step.
Qed.

Lemma keeps_link e : keeps (Dependency.link e).
Proof using R_refl R_trans R_setIncoming R_modDep.
  unfold Dependency.link. repeat keeps_step.
Qed.

Lemma keeps_invalidate_drop fuel d : keeps (Object.invalidate_drop fuel d).
Proof using R_refl R_trans R_setIncoming R_modDep R_deleteDep.
  revert d. induction fuel as [|fuel IH]; intros d; [apply keeps_timeout|].
  rewrite invalidate_drop_S. destruct d as [dp|]; [|apply keeps_ret].
  apply keeps_bind; [apply keeps_getDep|]. intros x.
  destruct (left x).
  - repeat keeps_step. apply IH.
  - apply keeps_bind; [apply keeps_unlink|]. intros _.
    apply keeps_bind; [apply keeps_deleteDep|]. intros _. apply IH.
Qed.

Lemma keeps_cascade fuel :
  (forall this, keeps (Object.invalidate fuel this)) /\
  (forall this c, keeps (Object.invalidateIncoming fuel this c)) /\
  (forall this k, keeps (Object.invalidateIncoming_while fuel this k)).
Proof using R_refl R_trans R_setValid R_setDependencies R_setIncoming R_modDep R_deleteDep.
  induction fuel as [|fuel (IH1 & IH2 & IH3)].
  { split_and!; intros; apply keeps_timeout. }
  split_and!.
  - intros this. rewrite invalidate_S.
    apply keeps_bind; [apply keeps_getObj|]. intros o.
    apply keeps_bind.
    { destruct (isValid o); [|apply keeps_ret].
      apply keeps_bind; [apply keeps_setValid|]. intros _. apply IH2. }
    intros _. apply keeps_bind; [apply keeps_getObj|]. intros o2.
    apply keeps_bind; [apply keeps_setDependencies|]. intros _. apply keeps_invalidate_drop.
  - intros this c. rewrite invalidateIncoming_S.
    apply keeps_bind; [apply IH3|]. intros _.
    destruct (negb c); [apply IH3|apply keeps_ret].
  - intros this k. rewrite invalidateIncoming_while_S.
    apply keeps_bind; [apply keeps_getObj|]. intros o.
    destruct (incoming o k); [|apply keeps_ret].
    apply keeps_bind; [apply keeps_getDep|]. intros d.
    apply keeps_bind; [apply IH1|]. intros _. apply IH3.
Qed.

Lemma keeps_leftRotate this dep : keeps (Object.leftRotate this dep).
Proof using R_refl R_trans R_setDependencies R_modDep.
  unfold Object.leftRotate. repeat keeps_step.
Qed.

Lemma keeps_rightRotate this dep : keeps (Object.rightRotate this dep).
Proof using R_refl R_trans R_setDependencies R_modDep.
  unfold Object.rightRotate. repeat keeps_step.
Qed.

Lemma keeps_parent_of dep : keeps (Object.parent_of dep).
Proof using R_refl R_trans. unfold Object.parent_of. repeat keeps_step. Qed.

Lemma keeps_grandparent_of dep : keeps (Object.grandparent_of dep).
Proof using R_refl R_trans.
  unfold Object.grandparent_of. apply keeps_bind; [apply keeps_parent_of|].
  intros ?. apply keeps_parent_of.
Qed.

Lemma keeps_rotate_at this (f : positive -> positive -> M unit) (g : positive -> M positive) dep :
  (forall d, keeps (f this d)) -> keeps (g dep) ->
  keeps (x <- g dep;; f this x).
Proof using R_trans. intros Hf Hg. apply keeps_bind; [done|]. intros x. apply Hf. Qed.

Lemma keeps_is_child dep :
  keeps (Object.is_left dep) /\ keeps (Object.is_right dep) /\
  keeps (Object.parent_is_left dep) /\ keeps (Object.parent_is_right dep).
Proof using R_refl R_trans.
  unfold Object.is_left, Object.is_right, Object.parent_is_left, Object.parent_is_right.
  split_and!;
    repeat first [ apply keeps_ret | apply keeps_getDep | apply keeps_parent_of
                 | apply keeps_bind; [|intros ?] ].
Qed.

Lemma keeps_and_then (a b : M bool) : keeps a -> keeps b -> keeps (Object.and_then a b).
Proof using R_refl R_trans.
  intros Ha Hb. unfold Object.and_then. apply keeps_bind; [done|].
  intros [|]; [done|apply keeps_ret].
Qed.

Lemma keeps_splay fuel this dep : keeps (Object.splay fuel this dep).
Proof using R_refl R_trans R_setDependencies R_modDep.
  induction fuel as [|fuel IH]; [apply keeps_timeout|].
  destruct (keeps_is_child dep) as (K1 & K2 & K3 & K4).
  rewrite splay_S. apply keeps_bind; [apply keeps_getDep|]. intros d.
  destruct (parent d) as [p|]; [|apply keeps_ret].
  apply keeps_bind; [apply keeps_getDep|]. intros x.
  apply keeps_bind; [|intros _; apply IH].
  destruct (parent x) as [g|].
  - repeat (apply keeps_bind; [by apply keeps_and_then|]; intros [|]);
      (apply keeps_bind; [|intros _]);
      apply keeps_rotate_at;
      auto using keeps_leftRotate, keeps_rightRotate, keeps_parent_of,
                 keeps_grandparent_of.
  - apply keeps_bind; [done|]. intros [|]; apply keeps_rotate_at;
      auto using keeps_leftRotate, keeps_rightRotate, keeps_parent_of.
Qed.

Hypothesis R_newDep : forall s x,
  R s {| lookup := lookup s; objs := objs s; deps := <[top s := x]> (deps s);
         top := Pos.succ (top s); initialized := initialized s |}.

Lemma keeps_newDep x : keeps (newDep x).
Proof using R_newDep. intros s y s' [= _ <-]. apply R_newDep. Qed.

Lemma keeps_addDependency_while fuel this target c iter par :
  keeps (Object.addDependency_while fuel this target c iter par).
Proof using R_refl R_trans R_setDependencies R_setIncoming R_modDep.
  revert par. induction fuel as [|fuel IH]; intros par; [apply keeps_timeout|].
  rewrite addDependency_while_S. destruct iter as [it|]; [|apply keeps_ret].
  apply keeps_bind; [apply keeps_getDep|]. intros x.
  destruct (target <? B x)%positive; [apply IH|].
  destruct (B x <? target)%positive; [apply IH|].
  apply keeps_bind.
  { destruct (c && negb (content x)); [|apply keeps_ret].
    apply keeps_bind; [apply keeps_unlink|]. intros _.
    apply keeps_bind; [apply keeps_modDep; auto with keeps|]. intros _.
    apply keeps_link. }
  intros _. apply keeps_bind; [apply keeps_splay|]. intros _. apply keeps_ret.
Qed.

Lemma keeps_Object_addDependency fuel this target c :
  keeps (Object.addDependency fuel this target c).
Proof using R_refl R_trans R_setDependencies R_setIncoming R_modDep R_newDep.
  unfold Object.addDependency.
  apply keeps_bind; [apply keeps_getObj|]. intros o.
  apply keeps_bind; [apply keeps_addDependency_while|]. intros [|par]; [apply keeps_ret|].
  apply keeps_bind; [apply keeps_newDep|]. intros d.
  apply keeps_bind.
  { destruct par; [|apply keeps_setDependencies]. repeat keeps_step. }
  intros _. apply keeps_bind; [apply keeps_link|]. intros _. apply keeps_splay.
Qed.

Hypothesis R_subscript : forall s (K : Z),
  lookup s !! K = None ->
  R s {| lookup := <[K := top s]> (lookup s);
         objs := <[top s := Object_default]> (objs s);
         deps := deps s; top := Pos.succ (top s); initialized := initialized s |}.
Hypothesis R_erase : forall s (K : Z) p,
  R s {| lookup := delete K (lookup s); objs := delete p (objs s);
         deps := deps s; top := top s; initialized := initialized s |}.

Lemma keeps_subscript K : keeps (MemorySafety.subscript K).
Proof using R_refl R_subscript.
  intros s y s' H. unfold MemorySafety.subscript in H.
  destruct (lookup s !! K) eqn:HK; injection H as _ <-; [apply R_refl|by apply R_subscript].
Qed.

Lemma keeps_erase K p : keeps (MemorySafety.erase K p).
Proof using R_erase. intros s [] s' H. injection H as <-. apply R_erase. Qed.

Lemma keeps_find K : keeps (MemorySafety.find K).
Proof using R_refl. intros s y s' [= _ <-]. apply R_refl. Qed.

Lemma keeps_isAvailable : keeps isAvailable.
Proof using R_refl. intros s y s' [= _ <-]. apply R_refl. Qed.

Lemma keeps_validate (K : Z) : keeps (MemorySafety.validate K).
Proof using R_refl R_trans.
  unfold MemorySafety.validate. apply keeps_bind; [apply keeps_find|].
  intros [p|]; [|apply keeps_ret]. repeat keeps_step.
Qed.

Lemma keeps_addDependency fuel (K1 K2 : Z) :
  keeps (MemorySafety.addDependency fuel K1 K2).
Proof using R_refl R_trans R_setDependencies R_setIncoming R_modDep R_newDep R_subscript.
  unfold MemorySafety.addDependency. apply keeps_bind; [apply keeps_subscript|].
  intros a. apply keeps_bind; [apply keeps_getObj|]. intros o.
  destruct (negb (isValid o)); [apply keeps_ret|].
  apply keeps_bind; [apply keeps_subscript|]. intros b.
  apply keeps_Object_addDependency.
Qed.

Lemma keeps_addContentDependency fuel (K1 K2 : Z) :
  keeps (MemorySafety.addContentDependency fuel K1 K2).
Proof using R_refl R_trans R_setValid R_setDependencies R_setIncoming R_modDep
            R_deleteDep R_newDep R_subscript.
  destruct (keeps_cascade fuel) as (C1 & C2 & C3).
  unfold MemorySafety.addContentDependency.
  apply keeps_bind; [apply keeps_subscript|].
  intros a. apply keeps_bind; [apply keeps_getObj|]. intros o.
  destruct (negb (isValid o)); [apply keeps_ret|].
  apply keeps_bind; [apply keeps_subscript|]. intros b.
  apply keeps_bind; [apply keeps_getObj|]. intros ob.
  destruct (negb (isValid ob)); [apply C1|apply keeps_Object_addDependency].
Qed.

Lemma keeps_markModified fuel (K : Z) : keeps (MemorySafety.markModified fuel K).
Proof using R_refl R_trans R_setValid R_setDependencies R_setIncoming R_modDep
            R_deleteDep.
  destruct (keeps_cascade fuel) as (C1 & C2 & C3).
  unfold MemorySafety.markModified. apply keeps_bind; [apply keeps_find|].
  intros [p|]; [apply C2|apply keeps_ret].
Qed.

Lemma keeps_markDestroyed fuel (K : Z) : keeps (MemorySafety.markDestroyed fuel K).
Proof using R_refl R_trans R_setValid R_setDependencies R_setIncoming R_modDep
            R_deleteDep R_erase.
  destruct (keeps_cascade fuel) as (C1 & C2 & C3).
  unfold MemorySafety.markDestroyed. apply keeps_bind; [apply keeps_find|].
  intros [p|]; [|apply keeps_ret].
  apply keeps_bind; [apply C2|]. intros _. apply keeps_erase.
Qed.

Lemma keeps_methods fuel (K1 K2 : Z) :
  keeps (MemorySafety.validate K1) /\
  keeps (MemorySafety.addDependency fuel K1 K2) /\
  keeps (MemorySafety.addContentDependency fuel K1 K2) /\
  keeps (MemorySafety.markModified fuel K1) /\
  keeps (MemorySafety.markDestroyed fuel K1).
Proof using R_refl R_trans R_setValid R_setDependencies R_setIncoming R_modDep
            R_deleteDep R_newDep R_subscript R_erase.
  split_and!.
  - apply keeps_validate.
  - apply keeps_addDependency.
  - apply keeps_addContentDependency.
  - apply keeps_markModified.
  - apply keeps_markDestroyed.
Qed.
End Keeps.

(** ** The cascade does not touch the map *)

Lemma invalidateIncoming_lookup fuel p c s s' :
  Object.invalidateIncoming fuel p c s = Ret tt s' -> lookup s' = lookup s.
Proof.
  intros H.
  destruct (keeps_cascade same_lookup) with (fuel := fuel) as (_ & C2 & _);
    try (unfold same_lookup; simpl; intros; congruence).
  by apply (C2 p c s tt s').
Qed.

Lemma markDestroyed_lookup fuel (K : Z) s s' :
  MemorySafety.markDestroyed fuel K s = Ret tt s' -> lookup s' !! K = None.
Proof.
  unfold MemorySafety.markDestroyed, bind, MemorySafety.find.
  destruct (lookup s !! K) as [p|] eqn:Hp.
  - destruct (Object.invalidateIncoming fuel p false s) as [[] s1| |] eqn:E; try done.
    intros [= <-]. simpl. apply lookup_delete_eq.
  - by intros [= <-].
Qed.

(** ** An address after [markDestroyed] *)

(** C9, as the code has it: once [markDestroyed] has returned the address has
    no record; [validate], [markModified] and [markDestroyed] on it do
    nothing, and an edge operation naming it together with another address
    without a record gives it a record again. *)
Theorem destroyed_address_is_unregistered (s s' : MemorySafety) (K : Z) (fuel : nat) :
  MemorySafety.markDestroyed fuel K s = Ret tt s' ->
  lookup s' !! K = None /\
  MemorySafety.validate K s' = Ret [] s' /\
  (forall f, MemorySafety.markModified f K s' = Ret tt s') /\
  (forall f, MemorySafety.markDestroyed f K s' = Ret tt s') /\
  (forall (K2 : Z) f, lookup s' !! K2 = None ->
     (exists s2, MemorySafety.addDependency (S f) K K2 s' = Ret tt s2 /\ registered s2 K) /\
     (exists s2, MemorySafety.addDependency (S f) K2 K s' = Ret tt s2 /\ registered s2 K) /\
     (exists s2, MemorySafety.addContentDependency (S f) K K2 s' = Ret tt s2 /\
                 registered s2 K) /\
     (exists s2, MemorySafety.addContentDependency (S f) K2 K s' = Ret tt s2 /\
                 registered s2 K)).
Proof.
  intros H. pose proof (markDestroyed_lookup _ _ _ _ H) as HK.
  split_and!; try done.
  - by rewrite validate_eq, HK.
  - intros f. by apply markModified_unregistered.
  - intros f. by apply markDestroyed_unregistered.
  - intros K2 f HK2. split_and!.
    + destruct (addDependency_unregistered f K K2 false s' HK HK2) as (s2 & ? & ? & ?); eauto.
    + destruct (addDependency_unregistered f K2 K false s' HK2 HK) as (s2 & ? & ? & ?); eauto.
    + destruct (addDependency_unregistered f K K2 true s' HK HK2) as (s2 & ? & ? & ?); eauto.
    + destruct (addDependency_unregistered f K2 K true s' HK2 HK) as (s2 & ? & ? & ?); eauto.
Qed.

Lemma mark_destroyed_target fuel :
  MemorySafety.markDestroyed (5 + fuel) 200 after_first_edge = Ret tt after_target_destroyed.
Proof. etrans; [unfold after_first_edge; run|]. by vm_compute. Qed.

Lemma destroyed_address_is_unregistered_witness :
  lookup after_target_destroyed !! 200%Z = None /\
  MemorySafety.validate 200 after_target_destroyed = Ret [] after_target_destroyed.
Proof.
  destruct (destroyed_address_is_unregistered after_first_edge after_target_destroyed
              200 5 (mark_destroyed_target 0)) as (H1 & H2 & _).
  split; [exact H1|exact H2].
Defined.

(** C9 as stated fails: after [mark_destroyed(200)], [add_dependency(300, 200)]
    gives 200 a record again, with the new edge on its existence chain. *)
Lemma add_dependency_after_destroy_registers :
  exists s1 s2 o e,
    mark_destroyed 5 200 after_first_edge = Ret tt s1 /\
    record s1 200 = None /\
    add_dependency 5 300 200 s1 = Ret tt s2 /\
    record s2 200 = Some o /\ incoming o false = Some e /\
    exists x, deps s2 !! e = Some x /\ deps s1 !! e = None.
Proof.
  eexists _, _, _, _. split; [by vm_compute|]. split; [by vm_compute|].
  split; [by vm_compute|]. split; [by vm_compute|]. split; [by vm_compute|].
  eexists. split; by vm_compute.
Qed.

(** ** Destroying the target of a chain of content dependencies *)

(** C8: on a fresh registry, after [add_content_dependency(A, B)],
    [add_content_dependency(C, A)] and [mark_destroyed(B)], the record of [C]
    is invalid and [validate(C)] calls the handler with [C]. *)
Theorem destroy_cascades_through_content (KA KB KC : Z) (fuel : nat) :
  KC <> KA -> KC <> KB ->
  exists s' o,
    (add_content_dependency (9 + fuel) KA KB;;
     add_content_dependency (9 + fuel) KC KA;;
     mark_destroyed (9 + fuel) KB) logic = Ret tt s' /\
    record s' KC = Some o /\ isValid o = false /\
    validate KC s' = Ret [KC] s'.
Proof.
  intros H1 H2. destruct (decide (KA = KB)) as [->|H3].
  - eexists _, _. split; [unfold logic; run|].
    split; [unfold record; ms_norm;
            rewrite lookup_delete_ne by done; rewrite lookup_insert_eq; ms_lookup|].
    split; [done|]. run.
  - eexists _, _. split; [unfold logic; run|].
    split; [unfold record; ms_norm;
            rewrite lookup_delete_ne by done; rewrite lookup_insert_eq; ms_lookup|].
    split; [done|]. run.
Qed.

Lemma destroy_cascades_through_content_witness :
  exists s' o,
    (add_content_dependency 9 100 200;;
     add_content_dependency 9 300 100;;
     mark_destroyed 9 200) logic = Ret tt s' /\
    record s' 300 = Some o /\ isValid o = false /\
    validate 300 s' = Ret [300%Z] s'.
Proof.
  apply (destroy_cascades_through_content 100 200 300 0); discriminate.
Defined.

(** ** No store turns a content edge into an existence edge *)












(** ** The chains after [link] *)

Lemma before_from_head pv a l : before_from pv (a :: l) a = pv.
Proof. simpl. by destruct (decide (a = a)). Qed.

Lemma before_from_tail pv pv' l e :
  head l <> Some e -> before_from pv l e = before_from pv' l e.
Proof.
  destruct l as [|a l]; [done|]. simpl. intros Hne.
  destruct (decide (a = e)) as [->|]; [done|done].
Qed.

Lemma before_cons d l e :
  d <> e -> before (d :: l) e = if decide (head l = Some e) then Some d else before l e.
Proof.
  intros Hne. unfold before. simpl. rewrite decide_False by done.
  destruct (decide (head l = Some e)) as [Hh|Hh].
  - destruct l as [|a l]; [done|]. injection Hh as ->. apply before_from_head.
  - by apply before_from_tail.
Qed.

Lemma after_cons d l e : d <> e -> after (d :: l) e = after l e.
Proof. intros Hne. simpl. by rewrite decide_False by done. Qed.

Lemma link_run s d x ob :
  deps s !! d = Some x -> objs s !! B x = Some ob ->
  (forall h, incoming ob (content x) = Some h -> h <> d /\ is_Some (deps s !! h)) ->
  Dependency.link d s = Ret tt (linked d x ob s).
Proof.
  intros Hd Hb Hh. unfold Dependency.link.
  eapply run_bind; [by eapply run_modDep_alter|].
  eapply run_bind; [apply run_getDep; simpl; by rewrite lookup_alter_eq, Hd|].
  cbn [B content set_prev].
  eapply run_bind; [by apply run_getObj|].
  eapply run_bind; [eapply run_modDep_alter; simpl; by rewrite lookup_alter_eq, Hd|].
  eapply run_bind; [apply run_getDep; simpl; by rewrite !lookup_alter_eq, Hd|].
  cbn [next set_next option_map].
  set (hd := incoming ob (content x)) in *.
  set (dm1 := alter (set_next hd) d (alter (set_prev None) d (deps s))).
  eapply (run_bind _ _ _ tt (with_deps (alt hd (set_prev (Some d)) dm1) s)).
  { destruct hd as [h|] eqn:E.
    - destruct (Hh h eq_refl) as [Hne [y Hy]].
      erewrite run_modDep_alter; [done|]. simpl.
      rewrite !lookup_alter_ne by done. exact Hy.
    - done. }
  assert (Hd1 : alt hd (set_prev (Some d)) dm1 !! d = Some (set_next hd (set_prev None x))).
  { rewrite lookup_alt. destruct (decide (hd = Some d)) as [E|].
    - by destruct (Hh d E).
    - unfold dm1. by rewrite !lookup_alter_eq, Hd. }
  eapply run_bind; [apply run_getDep; exact Hd1|].
  cbn [B content set_next set_prev].
  by erewrite run_modObj by exact Hb.
Qed.

Section Linked.
Context (s : MemorySafety) (d : positive) (x : Dependency) (ob : Object).
Hypothesis Hd : deps s !! d = Some x.
Hypothesis Hch :
  chain_ok (delete d (deps s)) (B x) (content x) (incoming ob (content x)).

Lemma linked_side h :
  incoming ob (content x) = Some h -> h <> d /\ is_Some (deps s !! h).
Proof using Hch.
  destruct Hch as (l & Hnd & Hhd & Hcv). intros Hh. rewrite Hhd in Hh.
  apply head_Some_elem_of in Hh.
  destruct (chain_elem _ _ _ _ h Hcv Hh) as (y & Hy & _).
  apply lookup_delete_Some in Hy as [? ?]. split; [done|eauto].
Qed.

Lemma linked_lookup e :
  deps (linked d x ob s) !! e =
    if decide (e = d)
    then Some (set_next (incoming ob (content x)) (set_prev None x))
    else (if decide (incoming ob (content x) = Some e)
          then set_prev (Some d) else id) <$> deps s !! e.
Proof using Hd Hch.
  simpl. rewrite lookup_alt. destruct (decide (e = d)) as [->|Hne].
  - destruct (decide (incoming ob (content x) = Some d)) as [E|].
    { by destruct (linked_side _ E). }
    by rewrite !lookup_alter_eq, Hd.
  - rewrite !lookup_alter_ne by done.
    destruct (decide (incoming ob (content x) = Some e)); [done|].
    by destruct (deps s !! e).
Qed.

Lemma linked_chain_list l :
  chain_is (delete d (deps s)) (B x) (content x) (incoming ob (content x)) l ->
  chain_is (deps (linked d x ob s)) (B x) (content x) (Some d) (d :: l).
Proof using Hd Hch.
  intros (Hnd & Hhd & Hcv).
  assert (Hdl : d ∉ l).
  { intros Hin. destruct (chain_elem _ _ _ _ d Hcv Hin) as (y & Hy & _).
    by rewrite lookup_delete_eq in Hy. }
  split; [by apply NoDup_cons|]. split; [done|].
  intros e. unfold cv. rewrite linked_lookup.
  destruct (decide (e = d)) as [->|Hne].
  { cbn [B content set_next set_prev prev next].
    destruct (decide (B x = B x /\ content x = content x)) as [_|[]]; [|done].
    destruct (decide (d ∈ d :: l)) as [_|[]]; [|set_solver].
    unfold before. simpl. destruct (decide (d = d)); [|done]. by rewrite Hhd. }
  pose proof (Hcv e) as Hc. unfold cv in Hc. rewrite lookup_delete_ne in Hc by done.
  destruct (deps s !! e) as [y|] eqn:Hy.
  2:{ simpl. destruct (decide (e ∈ l)); [done|].
      destruct (decide (e ∈ d :: l)) as [Hin|]; [|done]. set_solver. }
  simpl.
  assert (Hl : forall g : Dependency -> Dependency,
            g = set_prev (Some d) \/ g = id ->
            B (g y) = B y /\ content (g y) = content y /\ next (g y) = next y).
  { intros g [->| ->]; done. }
  set (g := if decide (incoming ob (content x) = Some e) then set_prev (Some d) else id).
  assert (Hg : g = set_prev (Some d) \/ g = id).
  { unfold g. destruct (decide (incoming ob (content x) = Some e)); [by left|by right]. }
  destruct (Hl g Hg) as (HB & HC & Hn). rewrite HB, HC.
  destruct (decide (B y = B x /\ content y = content x)) as [_|].
  2:{ destruct (decide (e ∈ l)); [done|].
      destruct (decide (e ∈ d :: l)) as [Hin|]; [|done]. set_solver. }
  destruct (decide (e ∈ l)) as [Hin|]; [|done].
  destruct (decide (e ∈ d :: l)) as [_|[]]; [|set_solver].
  injection Hc as Hc1 Hc2. f_equal. f_equal.
  - rewrite before_cons by done. rewrite <- Hhd. unfold g.
    destruct (decide (incoming ob (content x) = Some e)); [done|]. by simpl.
  - rewrite Hn, Hc2. cbn [after]. destruct (decide (d = e)); [congruence|done].
Qed.

Lemma linked_chain :
  chain_ok (deps (linked d x ob s)) (B x) (content x) (Some d).
Proof using Hd Hch.
  pose proof Hch as (l & Hl). exists (d :: l). by apply linked_chain_list.
Qed.

Lemma linked_cv_other p k e :
  ~ (p = B x /\ k = content x) ->
  cv (deps (linked d x ob s)) p k e = cv (delete d (deps s)) p k e.
Proof using Hd Hch.
  intros Hl. pose proof Hch as (l & Hnd & Hhd & Hcv).
  unfold cv. rewrite linked_lookup.
  destruct (decide (e = d)) as [->|Hne].
  { rewrite lookup_delete_eq. cbn [B content set_next set_prev].
    destruct (decide _) as [[??]|]; [|done]. exfalso. by apply Hl. }
  rewrite lookup_delete_ne by done.
  destruct (deps s !! e) as [y|] eqn:Hy; [|done]. simpl.
  destruct (decide (incoming ob (content x) = Some e)) as [E|]; [|done].
  rewrite Hhd in E. apply head_Some_elem_of in E.
  destruct (chain_elem _ _ _ _ e Hcv E) as (y' & Hy' & Hb & Hc & _).
  rewrite lookup_delete_ne in Hy' by done. rewrite Hy in Hy'. injection Hy' as <-.
  cbn [B content set_prev]. rewrite Hb, Hc.
  destruct (decide (B x = p /\ content x = k)) as [[??]|]; [|done].
  exfalso. by apply Hl.
Qed.

Lemma linked_tv p e : tv (deps (linked d x ob s)) p e = tv (deps s) p e.
Proof using Hd Hch.
  unfold tv. rewrite linked_lookup. destruct (decide (e = d)) as [->|].
  - by rewrite Hd.
  - destruct (deps s !! e) as [y|]; [|done]. simpl.
    by destruct (decide (incoming ob (content x) = Some e)).
Qed.

Lemma linked_fields e y :
  deps s !! e = Some y ->
  exists y', deps (linked d x ob s) !! e = Some y' /\
    A y' = A y /\ B y' = B y /\ content y' = content y /\
    parent y' = parent y /\ left y' = left y /\ right y' = right y.
Proof using Hd Hch.
  intros Hy. rewrite linked_lookup. destruct (decide (e = d)) as [->|].
  - rewrite Hd in Hy. injection Hy as <-. eexists. split; [done|]. done.
  - rewrite Hy. simpl. eexists. split; [done|].
    by destruct (decide (incoming ob (content x) = Some e)).
Qed.

Lemma linked_back e y' :
  deps (linked d x ob s) !! e = Some y' ->
  exists y, deps s !! e = Some y /\
    A y' = A y /\ B y' = B y /\ content y' = content y /\
    parent y' = parent y /\ left y' = left y /\ right y' = right y.
Proof using Hd Hch.
  intros Hy'. destruct (deps s !! e) as [y|] eqn:Hy.
  - destruct (linked_fields e y Hy) as (y2 & Hy2 & ?). rewrite Hy' in Hy2.
    injection Hy2 as <-. eauto.
  - rewrite linked_lookup in Hy'. destruct (decide (e = d)) as [->|]; [congruence|].
    by rewrite Hy in Hy'.
Qed.
End Linked.

(** [link] makes a memory well formed in which only the node [d] is not yet
    on its chain. *)
Lemma wf_linked s d x ob :
  deps s !! d = Some x -> objs s !! B x = Some ob ->
  alloc_ok s ->
  (forall e y, deps s !! e = Some y ->
     is_Some (objs s !! A y) /\ is_Some (objs s !! B y)) ->
  (forall p o, objs s !! p = Some o ->
     (forall k, chain_ok (delete d (deps s)) p k (incoming o k)) /\
     tree_ok (deps s) p (dependencies o)) ->
  wf (linked d x ob s).
Proof.
  intros Hd Hb Ha Hp Ho.
  destruct (Ho _ _ Hb) as [Hchb _]. pose proof (Hchb (content x)) as Hch.
  split; [|split].
  - intros p Hle. destruct (Ha p Hle) as [H1 H2]. split.
    + simpl. rewrite lookup_insert_ne; [done|]. intros <-. congruence.
    + destruct (deps (linked d x ob s) !! p) as [y'|] eqn:Hy'; [|done].
      destruct (linked_back s d x ob Hd Hch p y' Hy') as (y & Hy & _). congruence.
  - intros e y' Hy'.
    destruct (linked_back s d x ob Hd Hch e y' Hy') as (y & Hy & -> & -> & _).
    destruct (Hp e y Hy) as [[oa Hoa] [ob' Hob']]. simpl. split.
    + destruct (decide (B x = A y)) as [<-|]; [rewrite lookup_insert_eq; eauto|].
      rewrite lookup_insert_ne by done. eauto.
    + destruct (decide (B x = B y)) as [<-|]; [rewrite lookup_insert_eq; eauto|].
      rewrite lookup_insert_ne by done. eauto.
  - intros p o' Ho'. simpl in Ho'.
    destruct (decide (B x = p)) as [<-|Hne].
    + rewrite lookup_insert_eq in Ho'. injection Ho' as <-.
      destruct (Ho _ _ Hb) as [Hc Ht]. split.
      * intros k. destruct (decide (k = content x)) as [->|Hk].
        { replace (incoming (set_incoming (content x) (Some d) ob) (content x))
            with (Some d) by (by destruct (content x)).
          by apply linked_chain. }
        replace (incoming (set_incoming (content x) (Some d) ob) k)
          with (incoming ob k) by (by destruct (content x), k).
        eapply chain_ok_ext; [|exact (Hc k)]. intros e.
        apply linked_cv_other; [done|done|]. intros [_ ?]. done.
      * replace (dependencies (set_incoming (content x) (Some d) ob))
          with (dependencies ob) by (by destruct (content x)).
        eapply tree_ok_ext; [|exact Ht]. intros e. by apply linked_tv.
    + rewrite lookup_insert_ne in Ho' by done.
      destruct (Ho _ _ Ho') as [Hc Ht]. split.
      * intros k. eapply chain_ok_ext; [|exact (Hc k)]. intros e.
        apply linked_cv_other; [done|done|]. intros [? _]. done.
      * eapply tree_ok_ext; [|exact Ht]. intros e. by apply linked_tv.
Qed.

(** ** What every memory the entry points leave satisfies *)

Lemma same_trees_consistent s s' :
  same_trees s s' -> roots_ok s -> lookup_ok s -> invalid_ok s ->
  roots_ok s' /\ lookup_ok s' /\ invalid_ok s'.
Proof.
  intros (Hl & Ho & Ho' & Hd) Hr [Hl1 Hl2] Hi. split; [|split].
  - intros p o' r x' Hp Hdep Hx'.
    destruct (Ho _ _ Hp) as (o & Hpo & Hd1 & _).
    destruct (Hd _ _ Hx') as (x & Hx & ->).
    eapply (Hr p o r); [exact Hpo|congruence|exact Hx].
  - split.
    + intros K p HK. rewrite Hl in HK. destruct (Hl1 _ _ HK) as [o Hpo]. eauto.
    + intros K K' p. rewrite Hl. apply Hl2.
  - intros p o' Hp Hv. destruct (Ho _ _ Hp) as (o & Hpo & -> & Hv').
    eapply Hi; [exact Hpo|congruence].
Qed.

Lemma same_trees_linked s d x ob :
  deps s !! d = Some x -> objs s !! B x = Some ob ->
  chain_ok (delete d (deps s)) (B x) (content x) (incoming ob (content x)) ->
  same_trees s (linked d x ob s).
Proof.
  intros Hd Hb Hch. split; [done|]. split; [|split].
  - intros p o' Hp. simpl in Hp. destruct (decide (B x = p)) as [<-|].
    + rewrite lookup_insert_eq in Hp. injection Hp as <-. exists ob.
      split; [done|]. by destruct (content x).
    + rewrite lookup_insert_ne in Hp by done. eauto.
  - intros p o Hp. simpl. destruct (decide (B x = p)) as [<-|].
    + rewrite lookup_insert_eq. eauto.
    + rewrite lookup_insert_ne by done. eauto.
  - intros e x' Hx'.
    destruct (linked_back s d x ob Hd Hch e x' Hx') as (y & Hy & _ & _ & _ & ? & _).
    eauto.
Qed.

(** ** [Object::addDependency] on an empty tree *)

Lemma tree_ok_root dm p r :
  tree_ok dm p (Some r) -> exists x, dm !! r = Some x /\ A x = p.
Proof.
  intros (t & _ & Hsh & _). destruct t as [|l e rr]; [done|].
  simpl in Hsh. destruct Hsh as ([= ->] & a & b & Hv & _).
  apply tv_Some in Hv as (x & ? & ? & _). eauto.
Qed.

Lemma tree_ok_empty dm p e x :
  tree_ok dm p None -> dm !! e = Some x -> A x <> p.
Proof.
  intros (t & _ & Hsh & Hrest) Hx HA. destruct t as [|l e' rr]; [|by destruct Hsh].
  specialize (Hrest e (not_elem_of_nil _)). by rewrite (tv_lookup _ _ _ _ Hx HA) in Hrest.
Qed.

Lemma wf_roots s p o r :
  wf s -> objs s !! p = Some o -> dependencies o = Some r -> is_Some (deps s !! r).
Proof.
  intros (_ & _ & Ho) Hp Hd. destruct (Ho _ _ Hp) as [_ Ht]. rewrite Hd in Ht.
  destruct (tree_ok_root _ _ _ Ht) as (x & -> & _). eauto.
Qed.

Section Created.
Context (s : MemorySafety) (a b : positive) (c : bool) (oa ob0 : Object).
Hypothesis Hwf : wf s.
Hypothesis Hoa : objs s !! a = Some oa.
Hypothesis Hda : dependencies oa = None.
Hypothesis Hob : objs s !! b = Some ob0.

Lemma created_fresh : objs s !! top s = None /\ deps s !! top s = None.
Proof using Hwf. destruct Hwf as (Ha & _). apply Ha. lia. Qed.

Lemma created_alloc : alloc_ok (created a b c oa s).
Proof using Hwf Hoa.
  destruct Hwf as (Ha & _). intros p Hp. simpl in Hp.
  destruct (Ha p) as [H1 H2]; [lia|]. simpl. split.
  - rewrite lookup_insert_ne; [done|]. intros <-. congruence.
  - rewrite lookup_insert_ne; [done|]. lia.
Qed.

Lemma created_objs p o :
  objs s !! p = Some o -> is_Some (objs (created a b c oa s) !! p).
Proof using Type.
  intros Hp. simpl. destruct (decide (a = p)) as [<-|].
  - rewrite lookup_insert_eq. eauto.
  - rewrite lookup_insert_ne by done. eauto.
Qed.

Lemma created_pointers e y :
  deps (created a b c oa s) !! e = Some y ->
  is_Some (objs (created a b c oa s) !! A y) /\
  is_Some (objs (created a b c oa s) !! B y).
Proof using Hwf Hoa Hob.
  destruct Hwf as (_ & Hp & _). simpl. intros Hy.
  destruct (decide (top s = e)) as [<-|Hne].
  - rewrite lookup_insert_eq in Hy. injection Hy as <-. simpl.
    split; by eapply created_objs.
  - rewrite lookup_insert_ne in Hy by done.
    destruct (Hp _ _ Hy) as [[? H1] [? H2]].
    split; by eapply created_objs.
Qed.

Lemma created_shape p o :
  objs (created a b c oa s) !! p = Some o ->
  (forall k, chain_ok (delete (top s) (deps (created a b c oa s))) p k (incoming o k)) /\
  tree_ok (deps (created a b c oa s)) p (dependencies o).
Proof using Hwf Hoa Hda.
  destruct created_fresh as [_ Hfd].
  pose proof Hwf as (_ & _ & Ho). simpl. rewrite (delete_insert_id _ _ _ Hfd).
  intros Hp. destruct (decide (a = p)) as [<-|Hne].
  - rewrite lookup_insert_eq in Hp. injection Hp as <-.
    destruct (Ho _ _ Hoa) as [Hc Ht]. split.
    + intros k. specialize (Hc k). by destruct k.
    + simpl. eapply tree_ok_single; [apply lookup_insert_eq|done..|].
      intros e' x' Hx' HA. destruct (decide (top s = e')) as [|Hne]; [done|].
      rewrite lookup_insert_ne in Hx' by done. rewrite Hda in Ht.
      by destruct (tree_ok_empty _ _ _ _ Ht Hx').
  - rewrite lookup_insert_ne in Hp by done.
    destruct (Ho _ _ Hp) as [Hc Ht]. split; [done|].
    eapply tree_ok_ext; [|exact Ht]. intros e. unfold tv.
    destruct (decide (top s = e)) as [<-|].
    + rewrite lookup_insert_eq, Hfd. simpl. by destruct (decide (a = p)).
    + by rewrite lookup_insert_ne by done.
Qed.

Lemma created_consistent :
  roots_ok s -> lookup_ok s -> invalid_ok s -> isValid oa = true ->
  roots_ok (created a b c oa s) /\ lookup_ok (created a b c oa s) /\
  invalid_ok (created a b c oa s).
Proof using Hwf Hoa.
  intros Hr [Hl1 Hl2] Hi Hv. destruct created_fresh as [_ Hfd]. split; [|split].
  - intros p o r x Hp Hd Hx. simpl in Hp, Hx.
    destruct (decide (a = p)) as [<-|Hne].
    + rewrite lookup_insert_eq in Hp. injection Hp as <-. simpl in Hd.
      injection Hd as <-. rewrite lookup_insert_eq in Hx. by injection Hx as <-.
    + rewrite lookup_insert_ne in Hp by done.
      destruct (wf_roots _ _ _ _ Hwf Hp Hd) as [y Hy].
      rewrite lookup_insert_ne in Hx by congruence. by eapply Hr.
  - split; [|done]. intros K p HK. destruct (Hl1 _ _ HK) as [o Hp].
    by eapply created_objs.
  - intros p o Hp Hvo. simpl in Hp. destruct (decide (a = p)) as [<-|Hne].
    + rewrite lookup_insert_eq in Hp. injection Hp as <-. simpl in Hvo. congruence.
    + rewrite lookup_insert_ne in Hp by done. by eapply Hi.
Qed.
End Created.

(** With no dependency yet, [addDependency] allocates the node, makes it the
    root and links it. *)
Lemma addDependency_fresh s a b (c : bool) oa :
  consistent s -> objs s !! a = Some oa -> isValid oa = true ->
  dependencies oa = None -> is_Some (objs s !! b) ->
  exists s',
    (forall fuel, Object.addDependency (S fuel) a b c s = Ret tt s') /\
    consistent s' /\ kept s s' /\
    (exists y, deps s' !! top s = Some y /\ A y = a /\ B y = b /\ content y = c) /\
    (exists oa', objs s' !! a = Some oa' /\ dependencies oa' = Some (top s)).
Proof.
  intros (Hwf & Hr & Hl & Hi) Hoa Hv Hda [ob0 Hob0].
  set (d := top s).
  set (x := {| A := a; B := b; content := c; parent := None; left := None;
               right := None; prev := None; next := None |}).
  set (s1 := created a b c oa s).
  destruct (created_objs s a b c oa b ob0 Hob0) as [ob Hob]. fold s1 in Hob.
  assert (Hd : deps s1 !! d = Some x) by apply lookup_insert_eq.
  assert (Hsh := created_shape s a b c oa Hwf Hoa Hda). fold s1 d in Hsh.
  assert (Hch : chain_ok (delete d (deps s1)) (B x) (content x) (incoming ob (content x))).
  { by destruct (Hsh b ob Hob) as [Hc _]. }
  assert (Hwf' : wf (linked d x ob s1)).
  { apply wf_linked; try done.
    - by apply created_alloc.
    - by eapply created_pointers. }
  destruct (created_consistent s a b c oa Hwf Hoa Hr Hl Hi Hv) as (Hr1 & Hl1 & Hi1).
  destruct (same_trees_consistent s1 (linked d x ob s1)
              (same_trees_linked s1 d x ob Hd Hob Hch) Hr1 Hl1 Hi1) as (Hr2 & Hl2 & Hi2).
  destruct (created_fresh s Hwf) as [Hfo Hfd].
  exists (linked d x ob s1). split; [|split; [done|split; [|split]]].
  - intros fuel. unfold Object.addDependency.
    eapply run_bind; [by apply run_getObj|]. rewrite Hda.
    eapply run_bind; [reflexivity|]. cbv beta iota.
    eapply run_bind; [reflexivity|].
    eapply (run_bind _ _ _ tt s1).
    { unfold modObj. simpl. by rewrite Hoa. }
    eapply run_bind.
    { apply (link_run s1 d x ob Hd Hob). by apply linked_side. }
    destruct (linked_fields s1 d x ob Hd Hch d x Hd) as (y & Hy & _ & _ & _ & Hp & _).
    by apply (splay_root _ _ _ _ y).
  - split; [done|]. split; [done|]. split.
    + intros p o Hp.
      assert (exists o1, objs s1 !! p = Some o1 /\ isValid o1 = isValid o) as (o1 & Ho1 & Hv1).
      { simpl. destruct (decide (a = p)) as [<-|].
        - rewrite lookup_insert_eq. rewrite Hoa in Hp. injection Hp as <-. eauto.
        - rewrite lookup_insert_ne by done. eauto. }
      simpl. destruct (decide (b = p)) as [<-|].
      * rewrite lookup_insert_eq. eexists. split; [done|].
        rewrite Hob in Ho1. injection Ho1 as <-. by destruct c.
      * rewrite lookup_insert_ne by done. eauto.
    + intros e y Hy.
      assert (Hy1 : deps s1 !! e = Some y).
      { simpl. rewrite lookup_insert_ne; [done|]. intros E. rewrite <- E in Hy. congruence. }
      destruct (linked_fields s1 d x ob Hd Hch e y Hy1) as (y' & Hy' & ? & ? & Hc & _).
      exists y'. split; [done|]. split; [done|]. split; [done|]. congruence.
  - destruct (linked_fields s1 d x ob Hd Hch d x Hd) as (y & Hy & ? & ? & ? & _).
    eauto.
  - destruct (same_trees_linked s1 d x ob Hd Hob Hch) as (_ & _ & Hfw & _).
    destruct (Hfw a (set_dependencies (Some d) oa)) as [oa' Hoa'].
    { apply lookup_insert_eq. }
    destruct (same_trees_linked s1 d x ob Hd Hob Hch) as (_ & Hbk & _).
    destruct (Hbk a oa' Hoa') as (o1 & Ho1 & Hd1 & _).
    simpl in Ho1. rewrite lookup_insert_eq in Ho1. injection Ho1 as <-. eauto.
Qed.

(** ** [Object::addDependency] on an edge that is there *)

(** Every chain is in order after [unlink] and [delete]. *)
Lemma released_chains s e0 x0 ob :
  wf s -> deps s !! e0 = Some x0 -> objs s !! B x0 = Some ob ->
  forall p o', objs (released e0 x0 ob s) !! p = Some o' ->
  forall k, chain_ok (deps (released e0 x0 ob s)) p k (incoming o' k).
Proof.
  intros Hwf Hx Hob p o' Hpo' k. pose proof Hwf as (_ & _ & Ho).
  destruct (Ho _ _ Hob) as [Hch _].
  assert (exists o, objs s !! p = Some o) as [o Hpo].
  { simpl in Hpo'. destruct (prev x0); [eauto|].
    destruct (decide (B x0 = p)) as [<-|]; [eauto|].
    rewrite lookup_insert_ne in Hpo' by done. eauto. }
  destruct (Ho _ _ Hpo) as [Hk _]. specialize (Hk k).
  destruct (decide (p = B x0 /\ k = content x0)) as [[-> ->]|Hlbl].
  - rewrite Hob in Hpo. injection Hpo as <-.
    pose proof (released_chain s e0 x0 ob _ Hx Hk) as Hc.
    simpl in Hpo'. destruct (prev x0); [by simplify_eq|].
    rewrite lookup_insert_eq in Hpo'. injection Hpo' as <-.
    by destruct (content x0).
  - assert (incoming o' k = incoming o k) as ->.
    { simpl in Hpo'. destruct (prev x0); [by simplify_eq|].
      destruct (decide (B x0 = p)) as [<-|].
      - rewrite lookup_insert_eq in Hpo'. injection Hpo' as <-.
        rewrite Hob in Hpo. injection Hpo as <-.
        destruct (content x0), k; try done; exfalso; by apply Hlbl.
      - rewrite lookup_insert_ne in Hpo' by done. by simplify_eq. }
    eapply chain_ok_ext; [|exact Hk]. intros e.
    by apply (released_cv_other s e0 x0 ob _ Hx (Hch (content x0))).
Qed.

Lemma relabel_run {T} (k : M T) s r x ob :
  deps s !! r = Some x -> objs s !! B x = Some ob ->
  (forall a, prev x = Some a -> a <> r /\ is_Some (deps s !! a)) ->
  (forall n, next x = Some n -> n <> r /\ is_Some (deps s !! n)) ->
  (Dependency.unlink r;; modDep r (set_content true);; k) s = k (relabelled r x ob s).
Proof.
  intros Hx Hb Hp Hn. unfold bind at 1. rewrite (unlink_run s r x ob Hx Hb Hp Hn).
  assert (Hu : deps (unlinked r x ob s) !! r = Some (set_next None (set_prev None x))).
  { simpl. rewrite !lookup_alter_eq, !lookup_alt.
    destruct (decide _) as [E|]; [by destruct (Hn _ E)|].
    destruct (decide _) as [E|]; [by destruct (Hp _ E)|].
    by rewrite Hx. }
  unfold bind at 1. rewrite (run_modDep _ _ _ _ Hu). f_equal.
  unfold relabelled, with_deps. simpl. f_equal.
  apply map_eq. intros e. destruct (decide (r = e)) as [<-|Hne].
  - by rewrite !lookup_insert_eq.
  - rewrite !lookup_insert_ne by done. rewrite lookup_delete_ne by done.
    by rewrite !lookup_alter_ne by done.
Qed.

Lemma same_trees_trans s1 s2 s3 :
  same_trees s1 s2 -> same_trees s2 s3 -> same_trees s1 s3.
Proof.
  intros (Hl & Ho & Hf & Hd) (Hl' & Ho' & Hf' & Hd'). split; [congruence|].
  split; [|split].
  - intros p o3 Hp. destruct (Ho' _ _ Hp) as (o2 & Hp2 & -> & ->).
    destruct (Ho _ _ Hp2) as (o1 & Hp1 & -> & ->). eauto.
  - intros p o Hp. destruct (Hf _ _ Hp) as [o2 Hp2]. eauto.
  - intros e x3 Hx. destruct (Hd' _ _ Hx) as (x2 & Hx2 & ->).
    destruct (Hd _ _ Hx2) as (x1 & Hx1 & ->). eauto.
Qed.

Section Relabelled.
Context (s : MemorySafety) (r : positive) (x : Dependency) (ob : Object).
Hypothesis Hwf : wf s.
Hypothesis Hx : deps s !! r = Some x.
Hypothesis Hob : objs s !! B x = Some ob.

Lemma relabelled_lookup e :
  deps (relabelled r x ob s) !! e =
    if decide (e = r) then Some (set_content true (set_next None (set_prev None x)))
    else deps (released r x ob s) !! e.
Proof using Type.
  unfold relabelled, with_deps. cbn [deps].
  destruct (decide (e = r)) as [->|].
  - by rewrite lookup_insert_eq.
  - by rewrite lookup_insert_ne by done.
Qed.

Lemma relabelled_delete :
  delete r (deps (relabelled r x ob s)) = deps (released r x ob s).
Proof using Type.
  unfold relabelled, with_deps. cbn [deps]. apply delete_insert_id.
  rewrite released_lookup. by destruct (decide (r = r)).
Qed.

Lemma relabelled_frame : frame {[A x]} s (released r x ob s).
Proof using Hx Hob. apply frame_released; [done|done|by apply elem_of_singleton]. Qed.

Lemma relabelled_alloc : alloc_ok (relabelled r x ob s).
Proof using Hwf Hx Hob.
  pose proof Hwf as (Ha & _).
  pose proof (alloc_ok_frame _ _ _ relabelled_frame Ha) as Ha'.
  intros p Hp. destruct (Ha' p Hp) as [H1 H2]. split; [done|].
  rewrite relabelled_lookup. destruct (decide (p = r)) as [->|]; [|done].
  destruct (Ha r Hp) as [_ H]. congruence.
Qed.

Lemma relabelled_back e y' :
  deps (relabelled r x ob s) !! e = Some y' ->
  exists y, deps s !! e = Some y /\ A y' = A y /\ B y' = B y /\
    (content y = true -> content y' = true) /\
    parent y' = parent y /\ left y' = left y /\ right y' = right y.
Proof using Hx.
  rewrite relabelled_lookup. destruct (decide (e = r)) as [->|Hne].
  - intros [= <-]. exists x. by split_and!.
  - intros Hy'. destruct (deps s !! e) as [y|] eqn:Hy.
    + destruct (released_fields s r x ob e y Hy Hne) as (y2 & Hy2 & ? & ? & ? & ? & ? & ?).
      rewrite Hy' in Hy2. injection Hy2 as <-. exists y. split_and!; try done. congruence.
    + by rewrite (released_None s r x ob e Hy) in Hy'.
Qed.

Lemma relabelled_fwd e y :
  deps s !! e = Some y ->
  exists y', deps (relabelled r x ob s) !! e = Some y' /\ A y' = A y /\ B y' = B y /\
    (content y = true -> content y' = true).
Proof using Hx.
  intros Hy. rewrite relabelled_lookup. destruct (decide (e = r)) as [->|Hne].
  - rewrite Hx in Hy. injection Hy as <-. eexists. split; [done|]. by split_and!.
  - destruct (released_fields s r x ob e y Hy Hne) as (y2 & Hy2 & ? & ? & ? & _).
    exists y2. split_and!; try done. congruence.
Qed.

Lemma relabelled_pointers e y :
  deps (relabelled r x ob s) !! e = Some y ->
  is_Some (objs (relabelled r x ob s) !! A y) /\
  is_Some (objs (relabelled r x ob s) !! B y).
Proof using Hwf Hx Hob.
  intros Hy. destruct (relabelled_back e y Hy) as (y0 & Hy0 & -> & -> & _).
  pose proof Hwf as (_ & Hp & _). destruct (Hp _ _ Hy0) as [[? H1] [? H2]].
  split.
  - exact (frame_obj_fwd _ _ (released r x ob s) _ _ relabelled_frame H1).
  - exact (frame_obj_fwd _ _ (released r x ob s) _ _ relabelled_frame H2).
Qed.

Lemma relabelled_same_trees : same_trees s (relabelled r x ob s).
Proof using Hx Hob.
  split; [done|]. split; [|split].
  - intros p o' Hp.
    destruct (frame_obj_back _ _ _ _ _ relabelled_frame Hp) as [o Ho].
    destruct (same_flags_released s r x ob Hob p o Ho) as (o2 & Ho2 & ? & ?).
    change (objs (released r x ob s) !! p = Some o') in Hp.
    rewrite Hp in Ho2. injection Ho2 as <-. eauto.
  - intros p o Ho. exact (frame_obj_fwd _ _ (released r x ob s) _ _ relabelled_frame Ho).
  - intros e y' Hy'. destruct (relabelled_back e y' Hy') as (y & ? & _ & _ & _ & ? & _).
    eauto.
Qed.

Lemma relabelled_shape p o :
  objs (relabelled r x ob s) !! p = Some o ->
  (forall k, chain_ok (delete r (deps (relabelled r x ob s))) p k (incoming o k)) /\
  tree_ok (deps (relabelled r x ob s)) p (dependencies o).
Proof using Hwf Hx Hob.
  intros Hp. rewrite relabelled_delete. split.
  - by apply released_chains.
  - destruct relabelled_same_trees as (_ & Hbk & _).
    destruct (Hbk p o Hp) as (o0 & Ho0 & -> & _).
    pose proof Hwf as (_ & _ & Ho). destruct (Ho _ _ Ho0) as [_ Ht].
    eapply tree_ok_ext; [|exact Ht]. intros e. unfold tv at 1.
    rewrite relabelled_lookup. destruct (decide (e = r)) as [->|Hne].
    + unfold tv. by rewrite Hx.
    + fold (tv (deps (released r x ob s)) p e). rewrite released_tv.
      by destruct (decide (e = r)).
Qed.
End Relabelled.

Lemma kept_refl s : kept s s.
Proof. split; [done|]. split; [done|]. split; eauto 10. Qed.

Lemma kept_trans s1 s2 s3 : kept s1 s2 -> kept s2 s3 -> kept s1 s3.
Proof.
  intros (Hi & Hl & Ho & Hd) (Hi' & Hl' & Ho' & Hd'). split; [congruence|]. split; [auto|]. split.
  - intros p o Hp. destruct (Ho _ _ Hp) as (o2 & Hp2 & <-).
    destruct (Ho' _ _ Hp2) as (o3 & Hp3 & <-). eauto.
  - intros e x Hx. destruct (Hd _ _ Hx) as (x2 & Hx2 & <- & <- & Hc).
    destruct (Hd' _ _ Hx2) as (x3 & Hx3 & <- & <- & Hc'). eauto 10.
Qed.

(** When the root of the tree is the edge to [target], [addDependency]
    upgrades it if needed and returns. *)
Lemma addDependency_found s a b (c : bool) oa r x :
  consistent s -> objs s !! a = Some oa -> dependencies oa = Some r ->
  deps s !! r = Some x -> B x = b ->
  exists s',
    (forall fuel, Object.addDependency (S (S fuel)) a b c s = Ret tt s') /\
    consistent s' /\ kept s s' /\ top s' = top s /\
    (forall e, deps s !! e = None -> deps s' !! e = None) /\
    (exists y, deps s' !! r = Some y /\ A y = A x /\ B y = b /\
               content y = c || content x) /\
    (c && negb (content x) = false -> s' = s) /\
    (c && negb (content x) = true ->
     exists ob', objs s' !! b = Some ob' /\ incoming ob' true = Some r) /\
    (exists oa', objs s' !! a = Some oa' /\ dependencies oa' = Some r).
Proof.
  intros (Hwf & Hr & Hl & Hi) Hoa Hda Hx HB.
  assert (Hpar : parent x = None) by (by eapply Hr).
  assert (Hcmp : (b <? B x)%positive = false /\ (B x <? b)%positive = false).
  { rewrite HB. by rewrite Pos.ltb_irrefl. }
  destruct Hcmp as [Hc1 Hc2].
  destruct (c && negb (content x)) eqn:Hup.
  - (* the edge becomes a content edge *)
    apply andb_true_iff in Hup as [-> Hcx]. apply negb_true_iff in Hcx.
    pose proof Hwf as (_ & Hp & Ho).
    destruct (Hp _ _ Hx) as [_ [ob Hob]].
    destruct (Ho _ _ Hob) as [Hch _].
    destruct (released_side s r x _ Hx (Hch (content x))) as [Hs1 Hs2].
    set (s1 := relabelled r x ob s).
    set (x1 := set_content true (set_next None (set_prev None x))).
    assert (Hx1 : deps s1 !! r = Some x1).
    { unfold s1. rewrite relabelled_lookup. by destruct (decide (r = r)). }
    assert (is_Some (objs s1 !! B x1)) as [ob1 Hob1].
    { exact (frame_obj_fwd _ _ (released r x ob s) _ _ (relabelled_frame s r x ob Hx Hob) Hob). }
    assert (Hsh := relabelled_shape s r x ob Hwf Hx Hob). fold s1 in Hsh.
    assert (Hch1 : chain_ok (delete r (deps s1)) (B x1) (content x1)
                     (incoming ob1 (content x1))).
    { by destruct (Hsh _ _ Hob1) as [Hc _]. }
    assert (Hwf' : wf (linked r x1 ob1 s1)).
    { apply wf_linked; try done.
      - by apply relabelled_alloc.
      - by apply relabelled_pointers. }
    pose proof (same_trees_trans _ _ _ (relabelled_same_trees s r x ob Hx Hob)
                  (same_trees_linked s1 r x1 ob1 Hx1 Hob1 Hch1)) as Hst.
    destruct (same_trees_consistent _ _ Hst Hr Hl Hi) as (Hr2 & Hl2 & Hi2).
    exists (linked r x1 ob1 s1).
    split; [|split; [done|split; [|split; [done|split; [|split; [|split; [done|split]]]]]]].
    + intros fuel. unfold Object.addDependency.
      eapply run_bind; [by apply run_getObj|]. rewrite Hda.
      eapply run_bind.
      { rewrite addDependency_while_S.
        eapply run_bind; [by apply run_getDep|]. rewrite Hc1, Hc2, Hcx. simpl.
        eapply run_bind.
        { rewrite (relabel_run _ s r x ob Hx Hob Hs1 Hs2).
          apply (link_run s1 r x1 ob1 Hx1 Hob1). by apply linked_side. }
        eapply run_bind; [|reflexivity].
        destruct (linked_fields s1 r x1 ob1 Hx1 Hch1 r x1 Hx1) as (y & Hy & _ & _ & _ & Hp' & _).
        apply (splay_root _ _ _ _ y Hy). by rewrite Hp'. }
      done.
    + destruct Hst as (Hlk & Hbk & Hfw & _). split; [done|]. split; [done|]. split.
      * intros p o Hpo. destruct (Hfw _ _ Hpo) as [o' Ho'].
        destruct (Hbk _ _ Ho') as (o2 & Ho2 & _ & ?). exists o'. split; [done|]. congruence.
      * intros e y Hy.
        destruct (relabelled_fwd s r x ob Hx e y Hy) as (y1 & Hy1 & EA1 & EB1 & EC1).
        fold s1 in Hy1.
        destruct (linked_fields s1 r x1 ob1 Hx1 Hch1 e y1 Hy1)
          as (y2 & Hy2 & EA2 & EB2 & EC2 & _).
        exists y2. split; [done|]. split; [congruence|]. split; [congruence|].
        intros Hc. rewrite EC2. by apply EC1.
    + intros e He. destruct (deps (linked r x1 ob1 s1) !! e) as [y|] eqn:Hy; [|done].
      destruct (linked_back s1 r x1 ob1 Hx1 Hch1 e y Hy) as (y1 & Hy1 & _).
      destruct (relabelled_back s r x ob Hx e y1 Hy1) as (y0 & ? & _). congruence.
    + destruct (linked_fields s1 r x1 ob1 Hx1 Hch1 r x1 Hx1) as (y & Hy & ? & ? & ? & _).
      exists y. split; [done|]. split; [done|]. split; [by rewrite <- HB|done].
    + intros _. exists (set_incoming true (Some r) ob1). rewrite <- HB. split; [|done].
      apply lookup_insert_eq.
    + destruct Hst as (_ & Hbk & Hfw & _). destruct (Hfw _ _ Hoa) as [oa' Hoa'].
      destruct (Hbk _ _ Hoa') as (o & Hao & Hd' & _). exists oa'. split; [done|]. congruence.
  - (* nothing to do *)
    exists s.
    split; [|split; [done|split; [apply kept_refl|split; [done|split; [done|split;
      [|split; [done|split; [done|eauto]]]]]]]].
    + intros fuel. unfold Object.addDependency.
      eapply run_bind; [by apply run_getObj|]. rewrite Hda.
      eapply run_bind.
      { rewrite addDependency_while_S.
        eapply run_bind; [by apply run_getDep|]. rewrite Hc1, Hc2, Hup.
        eapply run_bind; [reflexivity|].
        eapply run_bind; [by apply (splay_root _ _ _ _ x)|]. reflexivity. }
      done.
    + exists x. split; [done|]. split; [done|]. split; [done|].
      destruct c, (content x); done.
Qed.

(** ** A larger budget does not change a result *)

Lemma below_refl {T} (m : M T) : below m m.
Proof. by intros s x s'. Qed.

Lemma below_timeout {T} (m : M T) : below timeout m.
Proof. by intros s x s'. Qed.

Lemma below_bind {T U} (m m' : M T) (k k' : T -> M U) :
  below m m' -> (forall x, below (k x) (k' x)) -> below (bind m k) (bind m' k').
Proof.
  intros Hm Hk s y s'. unfold bind. destruct (m s) as [x s1| |] eqn:E; [|done..].
  rewrite (Hm _ _ _ E). apply Hk.
Qed.

Lemma bind_Ret_inv {T U} (m : M T) (k : T -> M U) s y s' :
  bind m k s = Ret y s' -> exists x s1, m s = Ret x s1 /\ k x s1 = Ret y s'.
Proof. unfold bind. destruct (m s) as [x s1| |]; [eauto|done..]. Qed.

Ltac below_step IH :=
  first
    [ apply below_refl
    | apply IH
    | apply below_bind; [|intros ?]
    | match goal with
      | |- below (match ?x with _ => _ end) _ => destruct x
      end ].

Lemma cascade_mono fuel :
  (forall d, below (Object.invalidate_drop fuel d) (Object.invalidate_drop (S fuel) d)) /\
  (forall X, below (Object.invalidate fuel X) (Object.invalidate (S fuel) X)) /\
  (forall X c, below (Object.invalidateIncoming fuel X c)
                     (Object.invalidateIncoming (S fuel) X c)) /\
  (forall X k, below (Object.invalidateIncoming_while fuel X k)
                     (Object.invalidateIncoming_while (S fuel) X k)).
Proof.
  induction fuel as [|fuel (IH1 & IH2 & IH3 & IH4)].
  { split_and!; intros; apply below_timeout. }
  split_and!.
  - intros d. rewrite (invalidate_drop_S (S fuel)), (invalidate_drop_S fuel).
    repeat below_step IH1.
  - intros X. rewrite (invalidate_S (S fuel)), (invalidate_S fuel).
    apply below_bind; [apply below_refl|intros o].
    apply below_bind.
    + destruct (isValid o); [|apply below_refl].
      apply below_bind; [apply below_refl|intros _]. apply IH3.
    + intros _. repeat below_step IH1.
  - intros X c. rewrite (invalidateIncoming_S (S fuel)), (invalidateIncoming_S fuel).
    apply below_bind; [apply IH4|intros _].
    destruct (negb c); [apply IH4|apply below_refl].
  - intros X k. rewrite (invalidateIncoming_while_S (S fuel)), (invalidateIncoming_while_S fuel).
    apply below_bind; [apply below_refl|intros o].
    destruct (incoming o k); [|apply below_refl].
    apply below_bind; [apply below_refl|intros d].
    apply below_bind; [apply IH2|intros _]. apply IH4.
Qed.

Lemma invalidate_mono fuel fuel' X :
  fuel <= fuel' -> below (Object.invalidate fuel X) (Object.invalidate fuel' X).
Proof.
  induction 1 as [|n _ IH]; [apply below_refl|].
  intros s x s' H. apply (proj1 (proj2 (cascade_mono n))). by apply IH.
Qed.

Lemma invalidateIncoming_mono fuel fuel' X c :
  fuel <= fuel' ->
  below (Object.invalidateIncoming fuel X c) (Object.invalidateIncoming fuel' X c).
Proof.
  induction 1 as [|n _ IH]; [apply below_refl|].
  intros s x s' H. apply (proj1 (proj2 (proj2 (cascade_mono n)))). by apply IH.
Qed.

(** Hence whatever the budget with which the cascade returns, it returns the
    memory described by [invalidate_total] and [invalidateIncoming_total]. *)
Lemma invalidate_returns fuel s X s' :
  wf s -> is_Some (objs s !! X) -> Object.invalidate fuel X s = Ret tt s' ->
  exists T, cascaded s T s' /\ (forall Y, Y ∈ T <-> reach s Y X).
Proof.
  intros Hwf HX Hrun.
  destruct (invalidate_total s X Hwf HX) as (N & s2 & T & Hrun2 & Hc & HT).
  pose proof (invalidate_mono fuel (max fuel N) X ltac:(lia) _ _ _ Hrun) as H1.
  rewrite (Hrun2 (max fuel N)) in H1 by lia. injection H1 as <-. eauto.
Qed.

Lemma invalidateIncoming_returns fuel contentOnly s X s' :
  wf s -> is_Some (objs s !! X) ->
  Object.invalidateIncoming fuel X contentOnly s = Ret tt s' ->
  exists T, cascaded s T s' /\
    (forall Y, Y ∈ T <->
       exists e x, deps s !! e = Some x /\ B x = X /\
                   (contentOnly = true -> content x = true) /\ reach s Y (A x)).
Proof.
  intros Hwf HX Hrun.
  destruct (invalidateIncoming_total contentOnly s X Hwf HX) as (N & s2 & T & Hrun2 & Hc & HT).
  pose proof (invalidateIncoming_mono fuel (max fuel N) X contentOnly ltac:(lia) _ _ _ Hrun) as H1.
  rewrite (Hrun2 (max fuel N)) in H1 by lia. injection H1 as <-. eauto.
Qed.

(** ** The entry points keep the memory consistent *)

Lemma cascaded_consistent s T s' :
  consistent s -> cascaded s T s' -> consistent s'.
Proof.
  intros (Hwf & Hr & [Hl1 Hl2] & Hi) (Hwf' & Hf & Hd).
  pose proof Hf as (Hlk & _ & _ & H4 & H5 & H6 & H7 & H8).
  split; [done|]. split; [|split].
  - intros p o' r x' Hp Hdep Hx'.
    destruct (decide (p ∈ T)) as [HT|HT].
    { destruct (dead_dependencies _ _ _ Hwf' (Hd _ HT) Hp) as [_ E]. congruence. }
    destruct (frame_obj_back _ _ _ _ _ Hf Hp) as [o Ho].
    destruct (H5 _ _ Ho) as (o2 & Ho2 & _ & Hsame). rewrite Hp in Ho2. injection Ho2 as <-.
    destruct (Hsame HT) as [_ Hdd]. rewrite Hdep in Hdd. symmetry in Hdd.
    destruct (wf_roots _ _ _ _ Hwf Ho Hdd) as [x Hx].
    pose proof Hwf as (_ & _ & Hobj). destruct (Hobj _ _ Ho) as [_ Ht]. rewrite Hdd in Ht.
    destruct (tree_ok_root _ _ _ Ht) as (x0 & Hx0 & HA). rewrite Hx in Hx0. injection Hx0 as <-.
    destruct (H8 _ _ Hx) as (x2 & Hx2 & Hpar & _); [by rewrite HA|].
    rewrite Hx' in Hx2. injection Hx2 as <-. rewrite Hpar. by eapply Hr.
  - split.
    + intros K p HK. rewrite Hlk in HK. destruct (Hl1 _ _ HK) as [o Ho].
      by eapply frame_obj_fwd.
    + intros K K' p. rewrite Hlk. apply Hl2.
  - intros p o' Hp Hv.
    destruct (decide (p ∈ T)) as [HT|HT].
    { by destruct (dead_dependencies _ _ _ Hwf' (Hd _ HT) Hp). }
    destruct (frame_obj_back _ _ _ _ _ Hf Hp) as [o Ho].
    destruct (H5 _ _ Ho) as (o2 & Ho2 & _ & Hsame). rewrite Hp in Ho2. injection Ho2 as <-.
    destruct (Hsame HT) as [Hvv ->]. eapply Hi; [done|congruence].
Qed.

Lemma subscript_consistent s (K : Z) a s0 :
  consistent s -> MemorySafety.subscript K s = Ret a s0 ->
  consistent s0 /\ lookup s0 !! K = Some a /\ kept s s0 /\ deps s0 = deps s /\
  (forall p o, objs s !! p = Some o -> objs s0 !! p = Some o).
Proof.
  intros (Hwf & Hr & [Hl1 Hl2] & Hi) Hsub.
  destruct (wf_subscript s K a s0 Hwf Hsub) as (Hwf0 & Hdeps & Hobjs & Hlks & Hnew).
  unfold MemorySafety.subscript in Hsub.
  destruct (lookup s !! K) as [p|] eqn:HK.
  { injection Hsub as <- <-. split; [done|]. split; [done|]. split; [apply kept_refl|done]. }
  destruct (Hnew eq_refl) as (Ha0 & Ha & Heq).
  injection Hsub as <- <-.
  split; [|split; [apply lookup_insert_eq|split; [|done]]].
  - split; [done|]. split; [|split].
    + intros p o r x Hp Hd Hx. simpl in *.
      destruct (decide (top s = p)) as [<-|].
      * rewrite lookup_insert_eq in Hp. by injection Hp as <-.
      * rewrite lookup_insert_ne in Hp by done. by eapply Hr.
    + split.
      * intros K' p. simpl. destruct (decide (K = K')) as [<-|].
        -- rewrite lookup_insert_eq. intros [= <-]. rewrite lookup_insert_eq. eauto.
        -- rewrite lookup_insert_ne by done. intros HK'. destruct (Hl1 _ _ HK') as [o Ho].
           rewrite lookup_insert_ne; [eauto|]. intros <-. congruence.
      * intros K1 K2 p. simpl.
        destruct (decide (K = K1)) as [<-|H1], (decide (K = K2)) as [<-|H2]; try done.
        -- rewrite lookup_insert_eq, lookup_insert_ne by done. intros [= <-] HK2.
           destruct (Hl1 _ _ HK2). congruence.
        -- rewrite lookup_insert_eq, lookup_insert_ne by done. intros HK1 [= <-].
           destruct (Hl1 _ _ HK1). congruence.
        -- rewrite !lookup_insert_ne by done. apply Hl2.
    + intros p o Hp Hv. simpl in Hp. destruct (decide (top s = p)) as [<-|].
      * rewrite lookup_insert_eq in Hp. by injection Hp as <-.
      * rewrite lookup_insert_ne in Hp by done. by eapply Hi.
  - split; [done|]. split; [done|]. split.
    + intros p o Hp. exists o. split; [|done]. by apply Hobjs.
    + intros e x Hx. exists x. by split_and!.
Qed.

(** [Object::addDependency] returns only when the tree is empty or its root
    is the edge looked for, and then as described above. *)
Lemma Object_addDependency_returns fuel s a b (c : bool) oa s' :
  consistent s -> objs s !! a = Some oa -> isValid oa = true ->
  is_Some (objs s !! b) ->
  Object.addDependency fuel a b c s = Ret tt s' ->
  consistent s' /\ kept s s' /\
  exists r x oa', objs s' !! a = Some oa' /\ dependencies oa' = Some r /\
    deps s' !! r = Some x /\ A x = a /\ B x = b /\ (c = true -> content x = true).
Proof.
  intros Hc Hoa Hv Hb Hrun. pose proof Hc as (Hwf & Hr & Hl & Hi).
  destruct (dependencies oa) as [r|] eqn:Hda.
  - pose proof Hwf as (_ & _ & Ho). destruct (Ho _ _ Hoa) as [_ Ht]. rewrite Hda in Ht.
    destruct (tree_ok_root _ _ _ Ht) as (x & Hx & HA).
    destruct (decide (B x = b)) as [HB|HB].
    + destruct (addDependency_found s a b c oa r x Hc Hoa Hda Hx HB)
        as (s2 & Hrun2 & Hc2 & Hk2 & _ & _ & (y & Hy & HAy & HBy & Hcy) & _ & _ & (oa' & Hoa' & Hd')).
      destruct fuel as [|[|fuel]].
      * unfold Object.addDependency, bind in Hrun. by rewrite (run_getObj _ _ _ Hoa), Hda in Hrun.
      * exfalso. unfold Object.addDependency in Hrun.
        apply bind_Ret_inv in Hrun as (o & s1 & Hg & Hrun).
        rewrite (run_getObj _ _ _ Hoa) in Hg. injection Hg as <- <-. rewrite Hda in Hrun.
        apply bind_Ret_inv in Hrun as (res & s1 & Hrun & _).
        rewrite addDependency_while_S in Hrun.
        apply bind_Ret_inv in Hrun as (x' & s2' & Hg & Hrun).
        rewrite (run_getDep _ _ _ Hx) in Hg. injection Hg as <- <-.
        rewrite HB, Pos.ltb_irrefl in Hrun.
        apply bind_Ret_inv in Hrun as (u & s3 & _ & Hrun).
        by apply bind_Ret_inv in Hrun as (u' & s4 & Hsp & _).
      * rewrite Hrun2 in Hrun. injection Hrun as <-. split; [done|]. split; [done|].
        exists r, y, oa'. split_and!; try done; [congruence|].
        intros ->. by rewrite Hcy.
    + by rewrite (Object_addDependency_diverges fuel a b c s oa r x Hoa Hda Hx HB) in Hrun.
  - destruct (addDependency_fresh s a b c oa Hc Hoa Hv Hda Hb)
      as (s2 & Hrun2 & Hc2 & Hk2 & (y & Hy & HAy & HBy & Hcy) & (oa' & Hoa' & Hd')).
    destruct fuel as [|fuel].
    + unfold Object.addDependency, bind in Hrun. by rewrite (run_getObj _ _ _ Hoa), Hda in Hrun.
    + rewrite Hrun2 in Hrun. injection Hrun as <-. split; [done|]. split; [done|].
      exists (top s), y, oa'. split_and!; try done. intros ->. done.
Qed.

(** Hence the search returns exactly when there is nothing to search: the
    tree is empty, or its root is the edge looked for. *)
Lemma Object_addDependency_returns_iff s a b (c : bool) oa :
  consistent s -> objs s !! a = Some oa -> isValid oa = true ->
  is_Some (objs s !! b) ->
  (exists fuel s', Object.addDependency fuel a b c s = Ret tt s') <->
  (dependencies oa = None \/
   exists r x, dependencies oa = Some r /\ deps s !! r = Some x /\ B x = b).
Proof.
  intros Hc Hoa Hv Hb. pose proof Hc as (Hwf & _). split.
  - intros (fuel & s' & Hrun). destruct (dependencies oa) as [r|] eqn:Hda; [|by left].
    right. destruct (wf_roots _ _ _ _ Hwf Hoa Hda) as [x Hx]. exists r, x.
    split; [done|]. split; [done|].
    destruct (decide (B x = b)) as [|HB]; [done|].
    by rewrite (Object_addDependency_diverges fuel a b c s oa r x Hoa Hda Hx HB) in Hrun.
  - intros [Hda|(r & x & Hda & Hx & HB)].
    + destruct (addDependency_fresh s a b c oa Hc Hoa Hv Hda Hb) as (s' & Hrun & _).
      exists 1, s'. apply Hrun.
    + destruct (addDependency_found s a b c oa r x Hc Hoa Hda Hx HB) as (s' & Hrun & _).
      exists 2, s'. apply Hrun.
Qed.

Lemma kept_valid s s' p o :
  kept s s' -> objs s !! p = Some o -> exists o', objs s' !! p = Some o' /\ isValid o' = isValid o.
Proof. intros (_ & _ & Ho & _). apply Ho. Qed.

Lemma addDependency_consistent fuel (K1 K2 : Z) s s' :
  consistent s -> MemorySafety.addDependency fuel K1 K2 s = Ret tt s' -> consistent s'.
Proof.
  intros Hc Hrun. unfold MemorySafety.addDependency in Hrun.
  apply bind_Ret_inv in Hrun as (a & s0 & Hsub & Hrun).
  destruct (subscript_consistent s K1 a s0 Hc Hsub) as (Hc0 & Hla & _).
  pose proof Hc0 as (_ & _ & [Hl1 _] & _). destruct (Hl1 _ _ Hla) as [oa Hoa].
  apply bind_Ret_inv in Hrun as (o & s0' & Hg & Hrun).
  rewrite (run_getObj _ _ _ Hoa) in Hg. injection Hg as <- <-.
  destruct (isValid oa) eqn:Hv; simpl in Hrun; [|by injection Hrun as <-].
  apply bind_Ret_inv in Hrun as (b & s1 & Hsub1 & Hrun).
  destruct (subscript_consistent s0 K2 b s1 Hc0 Hsub1) as (Hc1 & Hlb & _ & _ & Hobjs).
  pose proof Hc1 as (_ & _ & [Hl1' _] & _).
  by destruct (Object_addDependency_returns fuel s1 a b false oa s' Hc1 (Hobjs _ _ Hoa) Hv
                 (Hl1' _ _ Hlb) Hrun) as (? & _).
Qed.

Lemma addContentDependency_consistent fuel (K1 K2 : Z) s s' :
  consistent s -> MemorySafety.addContentDependency fuel K1 K2 s = Ret tt s' ->
  consistent s'.
Proof.
  intros Hc Hrun. unfold MemorySafety.addContentDependency in Hrun.
  apply bind_Ret_inv in Hrun as (a & s0 & Hsub & Hrun).
  destruct (subscript_consistent s K1 a s0 Hc Hsub) as (Hc0 & Hla & _).
  pose proof Hc0 as (_ & _ & [Hl1 _] & _). destruct (Hl1 _ _ Hla) as [oa Hoa].
  apply bind_Ret_inv in Hrun as (o & s0' & Hg & Hrun).
  rewrite (run_getObj _ _ _ Hoa) in Hg. injection Hg as <- <-.
  destruct (isValid oa) eqn:Hv; simpl in Hrun; [|by injection Hrun as <-].
  apply bind_Ret_inv in Hrun as (b & s1 & Hsub1 & Hrun).
  destruct (subscript_consistent s0 K2 b s1 Hc0 Hsub1) as (Hc1 & Hlb & _ & _ & Hobjs).
  pose proof Hc1 as (Hwf1 & _ & [Hl1' _] & _).
  destruct (Hl1' _ _ Hlb) as [ob Hob].
  apply bind_Ret_inv in Hrun as (o & s1' & Hg & Hrun).
  rewrite (run_getObj _ _ _ Hob) in Hg. injection Hg as <- <-.
  destruct (isValid ob) eqn:Hvb; simpl in Hrun.
  - by destruct (Object_addDependency_returns fuel s1 a b true oa s' Hc1 (Hobjs _ _ Hoa) Hv
                   (Hl1' _ _ Hlb) Hrun) as (? & _).
  - destruct (invalidate_returns fuel s1 a s' Hwf1) as (T & Hcas & _); [eauto|done|].
    by eapply cascaded_consistent.
Qed.

Lemma markModified_consistent fuel (K : Z) s s' :
  consistent s -> MemorySafety.markModified fuel K s = Ret tt s' -> consistent s'.
Proof.
  intros Hc Hrun. unfold MemorySafety.markModified, bind, MemorySafety.find in Hrun.
  destruct (lookup s !! K) as [p|] eqn:HK; [|by injection Hrun as <-].
  pose proof Hc as (Hwf & _ & [Hl1 _] & _).
  destruct (invalidateIncoming_returns fuel true s p s' Hwf (Hl1 _ _ HK) Hrun) as (T & Hcas & _).
  by eapply cascaded_consistent.
Qed.

(** [markDestroyed] keeps the memory consistent when the record destroyed is
    the source of no edge. *)
Lemma markDestroyed_consistent fuel (K : Z) s s' :
  consistent s ->
  (forall p o, lookup s !! K = Some p -> objs s !! p = Some o -> dependencies o = None) ->
  MemorySafety.markDestroyed fuel K s = Ret tt s' -> consistent s'.
Proof.
  intros Hc Hsafe Hrun. unfold MemorySafety.markDestroyed in Hrun.
  apply bind_Ret_inv in Hrun as (it & s0 & Hf & Hrun).
  unfold MemorySafety.find in Hf. injection Hf as <- <-.
  destruct (lookup s !! K) as [p|] eqn:HK; [|by injection Hrun as <-].
  pose proof Hc as (Hwf & _ & [Hl1 _] & _). destruct (Hl1 _ _ HK) as [o Ho].
  apply bind_Ret_inv in Hrun as ([] & s1 & Hrun & Her).
  destruct (invalidateIncoming_returns fuel false s p s1 Hwf (Hl1 _ _ HK) Hrun)
    as (T & Hcas & HT).
  pose proof (cascaded_consistent s T s1 Hc Hcas) as (Hwf1 & Hr1 & [Hl1' Hl2'] & Hi1).
  pose proof Hcas as (_ & Hfr & Hdead).
  unfold MemorySafety.erase in Her. injection Her as <-.
  assert (Hlk : lookup s1 !! K = Some p).
  { destruct Hfr as (-> & _). done. }
  destruct (Hl1' _ _ Hlk) as [o1 Ho1].
  (* no edge starts or ends at the record *)
  assert (Hout : forall e x, deps s1 !! e = Some x -> A x <> p).
  { intros e x Hx HA. pose proof Hwf1 as (_ & _ & Hobj).
    destruct (Hobj _ _ Ho1) as [_ Ht].
    assert (dependencies o1 = None) as Hd1.
    { destruct (decide (p ∈ T)) as [HT'|HT'].
      - by destruct (dead_dependencies _ _ _ Hwf1 (Hdead _ HT') Ho1).
      - destruct Hfr as (_ & _ & _ & _ & H5 & _).
        destruct (H5 _ _ Ho) as (o2 & Ho2 & _ & Hsame). rewrite Ho1 in Ho2.
        injection Ho2 as <-. destruct (Hsame HT') as [_ ->]. by eapply Hsafe. }
    rewrite Hd1 in Ht. by apply (tree_ok_empty _ _ _ _ Ht Hx). }
  assert (Hin : forall e x, deps s1 !! e = Some x -> B x <> p).
  { intros e x' Hx' HB.
    destruct (frame_dep_back _ _ _ _ _ Hfr Hx') as (x & Hx & EA & EB & EC).
    assert (A x ∈ T) as HAT.
    { apply HT. exists e, x. split_and!; try congruence. apply rtc_refl. }
    apply (dead_no_edge s1 (A x) e x' (Hdead _ HAT) Hx'). done. }
  split; [|split; [|split]].
  - pose proof Hwf1 as (Ha & Hp & Hobj). split; [|split].
    + intros q Hq. destruct (Ha q Hq) as [H1 H2]. simpl. split; [|done].
      destruct (decide (p = q)) as [<-|]; [apply lookup_delete_eq|].
      by rewrite lookup_delete_ne.
    + intros e x Hx. simpl in *. destruct (Hp _ _ Hx) as [HA HB].
      rewrite !lookup_delete_ne; [done|..].
      * intros E. by apply (Hin e x Hx).
      * intros E. by apply (Hout e x Hx).
    + intros q oq Hq. simpl in *. apply lookup_delete_Some in Hq as [Hne Hq].
      by apply Hobj.
  - intros q oq r x Hq Hd Hx. simpl in *. apply lookup_delete_Some in Hq as [Hne Hq].
    by eapply Hr1.
  - split.
    + intros K' q HK'. simpl in *. apply lookup_delete_Some in HK' as [Hne HK'].
      destruct (Hl1' _ _ HK') as [oq Hq]. exists oq.
      rewrite lookup_delete_ne; [done|]. intros <-. apply Hne. by eapply Hl2'.
    + intros K1 K2 q H1 H2. simpl in *.
      apply lookup_delete_Some in H1 as [_ H1]. apply lookup_delete_Some in H2 as [_ H2].
      by eapply Hl2'.
  - intros q oq Hq Hv. simpl in *. apply lookup_delete_Some in Hq as [Hne Hq].
    by eapply Hi1.
Qed.

(** ** Memories reached without destroying the source of an edge *)

Lemma logic_consistent : consistent logic.
Proof.
  split; [|split; [|split]].
  - split; [|split]; [by intros p _|by intros e x Hx|by intros p o Hp].
  - by intros p o r x Hp.
  - split; [by intros K p HK|by intros K K' p HK].
  - by intros p o Hp.
Qed.

Lemma perform_consistent fuel c s s' :
  consistent s -> safe c s -> perform fuel c s = Ret tt s' -> consistent s'.
Proof.
  intros Hc Hs Hrun. destruct c as [K|K1 K2|K1 K2|K|K]; simpl in Hrun.
  - unfold bind, validate, isAvailable, bind in Hrun.
    destruct (initialized s); [|by injection Hrun as <-].
    rewrite validate_eq in Hrun. destruct (lookup s !! K) as [p|]; [|by injection Hrun as <-].
    destruct (objs s !! p) as [o|]; [|done].
    destruct (isValid o); by injection Hrun as <-.
  - unfold add_dependency, bind, isAvailable in Hrun.
    destruct (initialized s); [|by injection Hrun as <-].
    by eapply addDependency_consistent.
  - unfold add_content_dependency, bind, isAvailable in Hrun.
    destruct (initialized s); [|by injection Hrun as <-].
    by eapply addContentDependency_consistent.
  - unfold mark_modified, bind, isAvailable in Hrun.
    destruct (initialized s); [|by injection Hrun as <-].
    by eapply markModified_consistent.
  - unfold mark_destroyed, bind, isAvailable in Hrun.
    destruct (initialized s); [|by injection Hrun as <-].
    by eapply markDestroyed_consistent.
Qed.

(** Every memory reached from a consistent one by safe calls is consistent,
    and in particular well formed. *)
Lemma safe_calls_consistent s s' :
  safe_calls s s' -> consistent s -> consistent s'.
Proof.
  induction 1 as [|s c fuel s1 s2 Hs Hrun _ IH]; [done|].
  intros Hc. apply IH. by eapply perform_consistent.
Qed.

Lemma safe_calls_wf s : safe_calls logic s -> wf s.
Proof. intros H. by destruct (safe_calls_consistent _ _ H logic_consistent). Qed.

(** ** The nodes of a chain carry its label *)





(** ** The edge after [add_dependency], and its upgrade *)

(** When [add_dependency] or [add_content_dependency] has returned and the
    source is valid, the edge is the root of the tree of the source. *)
Lemma addDependency_edge fuel (K1 K2 : Z) s s' :
  consistent s -> MemorySafety.addDependency fuel K1 K2 s = Ret tt s' ->
  consistent s' /\
  exists a oa, lookup s' !! K1 = Some a /\ objs s' !! a = Some oa /\
    (isValid oa = true ->
     exists b ob r x, lookup s' !! K2 = Some b /\ objs s' !! b = Some ob /\
       dependencies oa = Some r /\ deps s' !! r = Some x /\ A x = a /\ B x = b).
Proof.
  intros Hc Hrun. split; [by eapply addDependency_consistent|].
  unfold MemorySafety.addDependency in Hrun.
  apply bind_Ret_inv in Hrun as (a & s0 & Hsub & Hrun).
  destruct (subscript_consistent s K1 a s0 Hc Hsub) as (Hc0 & Hla & _).
  pose proof Hc0 as (_ & _ & [Hl1 _] & _). destruct (Hl1 _ _ Hla) as [oa Hoa].
  apply bind_Ret_inv in Hrun as (o & s0' & Hg & Hrun).
  rewrite (run_getObj _ _ _ Hoa) in Hg. injection Hg as <- <-.
  destruct (isValid oa) eqn:Hv; simpl in Hrun.
  2:{ injection Hrun as <-. exists a, oa. split; [done|]. split; [done|]. congruence. }
  apply bind_Ret_inv in Hrun as (b & s1 & Hsub1 & Hrun).
  destruct (subscript_consistent s0 K2 b s1 Hc0 Hsub1) as (Hc1 & Hlb & Hk1 & _ & Hobjs).
  pose proof Hc1 as (_ & _ & [Hl1' _] & _).
  destruct (Object_addDependency_returns fuel s1 a b false oa s' Hc1 (Hobjs _ _ Hoa) Hv
              (Hl1' _ _ Hlb) Hrun) as (Hc' & Hk' & r & x & oa' & Hoa' & Hd' & Hx & HA & HB & _).
  pose proof Hk1 as (_ & Hlk1 & _). pose proof Hk' as (_ & Hlk' & _).
  pose proof Hc' as (_ & _ & [Hl1'' _] & _).
  exists a, oa'. split; [exact (Hlk' _ _ (Hlk1 _ _ Hla))|]. split; [done|]. intros _.
  destruct (Hl1'' K2 b (Hlk' _ _ Hlb)) as [ob Hob].
  exists b, ob, r, x. split_and!; try done. exact (Hlk' _ _ Hlb).
Qed.


(** ** Kinds only upgrade *)




(** ** [validate] on a memory with an invalid record *)

Lemma three_records_consistent : consistent three_records.
Proof.
  pose proof (three_records_reached 0) as H.
  apply bind_Ret_inv in H as ([] & s1 & H1 & H).
  apply bind_Ret_inv in H as ([] & s2 & H2 & H3).
  apply (safe_calls_consistent logic); [|apply logic_consistent].
  apply (safe_calls_cons _ (AddDependency 200 300) _ s1 _ I H1).
  assert (Hsafe : safe (MarkDestroyed 300) s1).
  { vm_compute in H1. injection H1 as <-. intros p o Hp Ho.
    vm_compute in Hp. injection Hp as <-. vm_compute in Ho. by injection Ho as <-. }
  apply (safe_calls_cons _ (MarkDestroyed 300) _ s2 _ Hsafe H2).
  apply (safe_calls_cons _ (AddContentDependency 400 100) _ _ _ I H3).
  apply safe_calls_nil.
Qed.

Lemma validate_reports_iff_invalid_witness :
  MemorySafety.validate 200 three_records = Ret [200%Z] three_records /\
  MemorySafety.validate 100 three_records = Ret [] three_records.
Proof.
  split.
  - apply (proj2 (proj1 (validate_reports_iff_invalid three_records 200))).
    exists 1%positive, {| dependencies := None; incoming0 := None;
                          incoming1 := None; isValid := false |}.
    repeat split; reflexivity.
  - apply (proj2 (proj1 (proj2 (validate_reports_iff_invalid three_records 100)))).
    right.
    exists 5%positive, {| dependencies := None; incoming0 := None;
                          incoming1 := Some 6%positive; isValid := true |}.
    repeat split; reflexivity.
Defined.

Lemma validate_leaves_state_witness :
  exists r, MemorySafety.validate 200 three_records = Ret r three_records /\
            validate 200 three_records
            = Ret (if initialized three_records then r else []) three_records.
Proof.
  apply (proj2 (proj2 (validate_leaves_state three_records 200))).
  exact (proj1 (proj2 (proj2 three_records_consistent))).
Defined.

(** ** The map and its objects along any sequence of calls *)

Lemma registry_kept_refl s : registry_kept s s.
Proof. split; [done|]. split; [lia|done]. Qed.

Lemma registry_kept_trans s1 s2 s3 :
  registry_kept s1 s2 -> registry_kept s2 s3 -> registry_kept s1 s3.
Proof.
  intros (H1 & H2 & H3) (H1' & H2' & H3'). split; [congruence|]. split; [lia|].
  intros p. by rewrite H3', H3.
Qed.

Lemma registry_kept_store s p o o' :
  objs s !! p = Some o -> registry_kept s (with_objs (<[p := o']> (objs s)) s).
Proof.
  intros Ho. split; [done|]. split; [simpl; lia|]. intros q. simpl.
  destruct (decide (p = q)) as [<-|].
  - rewrite lookup_insert_eq, Ho. done.
  - by rewrite lookup_insert_ne.
Qed.

Lemma registry_kept_cascade fuel p c s s' :
  Object.invalidateIncoming fuel p c s = Ret tt s' -> registry_kept s s'.
Proof.
  intros H.
  destruct (keeps_cascade registry_kept) with (fuel := fuel) as (_ & C2 & _);
    eauto using registry_kept_refl, registry_kept_trans, registry_kept_store;
    try (intros; split; [done|]; split; [simpl; lia|done]).
  by apply (C2 p c s tt s').
Qed.

Lemma registry_kept_invalidate fuel p s s' :
  Object.invalidate fuel p s = Ret tt s' -> registry_kept s s'.
Proof.
  intros H.
  destruct (keeps_cascade registry_kept) with (fuel := fuel) as (C1 & _);
    eauto using registry_kept_refl, registry_kept_trans, registry_kept_store;
    try (intros; split; [done|]; split; [simpl; lia|done]).
  by apply (C1 p s tt s').
Qed.

Lemma registry_kept_addDependency fuel a b c s s' :
  Object.addDependency fuel a b c s = Ret tt s' -> registry_kept s s'.
Proof.
  intros H.
  apply (keeps_Object_addDependency registry_kept) with (fuel := fuel) (this := a)
    (target := b) (c := c) (x := tt);
    eauto using registry_kept_refl, registry_kept_trans, registry_kept_store;
    try (intros; split; [done|]; split; [simpl; lia|done]).
Qed.

Lemma registry_ok_kept s s' : registry_kept s s' -> registry_ok s -> registry_ok s'.
Proof.
  intros (Hl & Ht & Ho) ([Hl1 Hl2] & Hh & Ha). split; [split|split].
  - intros K p HK. rewrite Hl in HK. destruct (Hl1 _ _ HK) as [o Hp].
    destruct (objs s' !! p) eqn:E; [eauto|]. apply Ho in E. congruence.
  - intros K K' p. rewrite Hl. apply Hl2.
  - intros p [o Hp]. rewrite Hl. apply Hh.
    destruct (objs s !! p) eqn:E; [eauto|]. apply Ho in E. congruence.
  - intros p Hp. apply Ho, Ha. lia.
Qed.

Lemma registry_ok_subscript s (K : Z) a s0 :
  registry_ok s -> MemorySafety.subscript K s = Ret a s0 ->
  registry_ok s0 /\ lookup s0 !! K = Some a.
Proof.
  intros ([Hl1 Hl2] & Hh & Ha) H. unfold MemorySafety.subscript in H.
  destruct (lookup s !! K) as [p|] eqn:HK.
  { injection H as <- <-. done. }
  injection H as <- <-. split; [|apply lookup_insert_eq].
  assert (Hfresh : forall K' p, lookup s !! K' = Some p -> p <> top s).
  { intros K' p HK' ->. destruct (Hl1 _ _ HK') as [o Ho]. rewrite Ha in Ho; [done|lia]. }
  split; [split|split]; unfold held, alloc_objs; simpl.
  - intros K' p. destruct (decide (K = K')) as [<-|].
    + rewrite lookup_insert_eq. intros [= <-]. rewrite lookup_insert_eq. eauto.
    + rewrite lookup_insert_ne by done. intros HK'. destruct (Hl1 _ _ HK') as [o Ho].
      rewrite lookup_insert_ne; [eauto|]. intros E. by apply (Hfresh _ _ HK').
  - intros K1 K2 p.
    destruct (decide (K = K1)) as [<-|H1], (decide (K = K2)) as [<-|H2]; try done.
    + rewrite lookup_insert_eq, lookup_insert_ne by done. intros [= <-] HK2.
      by destruct (Hfresh _ _ HK2).
    + rewrite lookup_insert_eq, lookup_insert_ne by done. intros HK1 [= <-].
      by destruct (Hfresh _ _ HK1).
    + rewrite !lookup_insert_ne by done. apply Hl2.
  - intros p. destruct (decide (top s = p)) as [<-|].
    + intros _. exists K. apply lookup_insert_eq.
    + rewrite lookup_insert_ne by done. intros Hp. destruct (Hh _ Hp) as [K' HK'].
      exists K'. rewrite lookup_insert_ne; [done|]. intros <-. congruence.
  - intros p Hp. rewrite lookup_insert_ne by lia. apply Ha. lia.
Qed.

Lemma registry_ok_erase s (K : Z) p :
  registry_ok s -> lookup s !! K = Some p ->
  registry_ok {| lookup := delete K (lookup s); objs := delete p (objs s);
                 deps := deps s; top := top s; initialized := initialized s |}.
Proof.
  intros ([Hl1 Hl2] & Hh & Ha) HK. split; [split|split]; unfold held, alloc_objs; simpl.
  - intros K' q HK'. apply lookup_delete_Some in HK' as [Hne HK'].
    destruct (Hl1 _ _ HK') as [o Ho]. exists o. rewrite lookup_delete_ne; [done|].
    intros <-. apply Hne. by eapply Hl2.
  - intros K1 K2 q H1 H2. apply lookup_delete_Some in H1 as [_ H1].
    apply lookup_delete_Some in H2 as [_ H2]. by eapply Hl2.
  - intros q [o Hq]. apply lookup_delete_Some in Hq as [Hne Hq].
    destruct (Hh q) as [K' HK']; [eauto|]. exists K'.
    rewrite lookup_delete_ne; [done|]. intros <-. congruence.
  - intros q Hq. destruct (decide (p = q)) as [<-|]; [apply lookup_delete_eq|].
    rewrite lookup_delete_ne by done. by apply Ha.
Qed.

Lemma registry_ok_getObj s (K : Z) a :
  registry_ok s -> lookup s !! K = Some a -> exists o, objs s !! a = Some o.
Proof. intros ([Hl1 _] & _) HK. by destruct (Hl1 _ _ HK) as [o Ho]; eauto. Qed.

Lemma addDependency_registry fuel (K1 K2 : Z) s s' :
  registry_ok s -> MemorySafety.addDependency fuel K1 K2 s = Ret tt s' -> registry_ok s'.
Proof.
  intros Hok Hrun. unfold MemorySafety.addDependency in Hrun.
  apply bind_Ret_inv in Hrun as (a & s0 & Hsub & Hrun).
  destruct (registry_ok_subscript s K1 a s0 Hok Hsub) as [Hok0 Hla].
  apply bind_Ret_inv in Hrun as (o & s0' & Hg & Hrun).
  unfold getObj in Hg. destruct (objs s0 !! a) as [oa|]; [|done]. injection Hg as <- <-.
  destruct (negb (isValid oa)); [by injection Hrun as <-|].
  apply bind_Ret_inv in Hrun as (b & s1 & Hsub1 & Hrun).
  destruct (registry_ok_subscript s0 K2 b s1 Hok0 Hsub1) as [Hok1 Hlb].
  eapply registry_ok_kept; [by eapply registry_kept_addDependency|done].
Qed.

Lemma addContentDependency_registry fuel (K1 K2 : Z) s s' :
  registry_ok s -> MemorySafety.addContentDependency fuel K1 K2 s = Ret tt s' ->
  registry_ok s'.
Proof.
  intros Hok Hrun. unfold MemorySafety.addContentDependency in Hrun.
  apply bind_Ret_inv in Hrun as (a & s0 & Hsub & Hrun).
  destruct (registry_ok_subscript s K1 a s0 Hok Hsub) as [Hok0 Hla].
  apply bind_Ret_inv in Hrun as (o & s0' & Hg & Hrun).
  unfold getObj in Hg. destruct (objs s0 !! a) as [oa|]; [|done]. injection Hg as <- <-.
  destruct (negb (isValid oa)); [by injection Hrun as <-|].
  apply bind_Ret_inv in Hrun as (b & s1 & Hsub1 & Hrun).
  destruct (registry_ok_subscript s0 K2 b s1 Hok0 Hsub1) as [Hok1 Hlb].
  apply bind_Ret_inv in Hrun as (o & s1' & Hg & Hrun).
  unfold getObj in Hg. destruct (objs s1 !! b) as [ob|]; [|done]. injection Hg as <- <-.
  destruct (negb (isValid ob)).
  - eapply registry_ok_kept; [by eapply registry_kept_invalidate|done].
  - eapply registry_ok_kept; [by eapply registry_kept_addDependency|done].
Qed.

Lemma markModified_registry fuel (K : Z) s s' :
  registry_ok s -> MemorySafety.markModified fuel K s = Ret tt s' -> registry_ok s'.
Proof.
  intros Hok Hrun. unfold MemorySafety.markModified, bind, MemorySafety.find in Hrun.
  destruct (lookup s !! K) as [p|]; [|by injection Hrun as <-].
  eapply registry_ok_kept; [by eapply registry_kept_cascade|done].
Qed.

Lemma markDestroyed_registry fuel (K : Z) s s' :
  registry_ok s -> MemorySafety.markDestroyed fuel K s = Ret tt s' -> registry_ok s'.
Proof.
  intros Hok Hrun. unfold MemorySafety.markDestroyed, bind, MemorySafety.find in Hrun.
  destruct (lookup s !! K) as [p|] eqn:HK; [|by injection Hrun as <-].
  destruct (Object.invalidateIncoming fuel p false s) as [[] s1| |] eqn:E; [|done..].
  pose proof (registry_kept_cascade _ _ _ _ _ E) as Hk.
  unfold MemorySafety.erase in Hrun. injection Hrun as <-.
  apply registry_ok_erase; [by eapply registry_ok_kept|].
  destruct Hk as (-> & _). done.
Qed.

Lemma perform_registry fuel c s s' :
  registry_ok s -> perform fuel c s = Ret tt s' -> registry_ok s'.
Proof.
  intros Hok Hrun. destruct c as [K|K1 K2|K1 K2|K|K]; simpl in Hrun.
  - unfold bind, validate, isAvailable, bind in Hrun.
    destruct (initialized s); [|by injection Hrun as <-].
    rewrite validate_eq in Hrun. destruct (lookup s !! K) as [p|]; [|by injection Hrun as <-].
    destruct (objs s !! p) as [o|]; [|done].
    destruct (isValid o); by injection Hrun as <-.
  - unfold add_dependency, bind, isAvailable in Hrun.
    destruct (initialized s); [|by injection Hrun as <-].
    by eapply addDependency_registry.
  - unfold add_content_dependency, bind, isAvailable in Hrun.
    destruct (initialized s); [|by injection Hrun as <-].
    by eapply addContentDependency_registry.
  - unfold mark_modified, bind, isAvailable in Hrun.
    destruct (initialized s); [|by injection Hrun as <-].
    by eapply markModified_registry.
  - unfold mark_destroyed, bind, isAvailable in Hrun.
    destruct (initialized s); [|by injection Hrun as <-].
    by eapply markDestroyed_registry.
Qed.

Lemma calls_registry s s' : calls s s' -> registry_ok s -> registry_ok s'.
Proof.
  induction 1 as [|s c fuel s1 s2 Hrun _ IH]; [done|].
  intros Hok. apply IH. by eapply perform_registry.
Qed.

Lemma logic_registry : registry_ok logic.
Proof.
  split; [split|split].
  - by intros K p HK.
  - by intros K K' p HK.
  - by intros p [o Hp].
  - by intros p _.
Qed.

(** X1: whatever calls have returned since the registry was constructed,
    every node of the map holds an allocated [Object], two nodes never hold
    the same one, and every [Object] is held by a node: an address has at most
    one record, and a record belongs to exactly one address. *)
Theorem one_record_per_address (s : MemorySafety) :
  calls logic s ->
  (forall K p, lookup s !! K = Some p -> is_Some (objs s !! p)) /\
  (forall K K' p, lookup s !! K = Some p -> lookup s !! K' = Some p -> K = K') /\
  (forall p, is_Some (objs s !! p) -> exists K, lookup s !! K = Some p).
Proof.
  intros H. destruct (calls_registry _ _ H logic_registry) as ([H1 H2] & H3 & _).
  done.
Qed.

Lemma calls_first_edge : calls logic after_first_edge.
Proof.
  apply (calls_cons logic (AddDependency 100%Z 200%Z) 1 after_first_edge);
    [apply add_dependency_first_edge|apply calls_nil].
Qed.

Lemma one_record_per_address_witness :
  (forall K p, lookup after_first_edge !! K = Some p -> is_Some (objs after_first_edge !! p)) /\
  (forall K K' p, lookup after_first_edge !! K = Some p ->
     lookup after_first_edge !! K' = Some p -> K = K') /\
  (forall p, is_Some (objs after_first_edge !! p) ->
     exists K, lookup after_first_edge !! K = Some p).
Proof. exact (one_record_per_address after_first_edge calls_first_edge). Defined.

(** ** What [validate] answers before and after a call *)

Lemma flags_kept_refl s : flags_kept s s.
Proof.
  intros Ha. split_and!; [done|lia|done|done|auto|eauto|].
  intros p o' Ho' Hn. congruence.
Qed.

Lemma flags_kept_trans s1 s2 s3 :
  flags_kept s1 s2 -> flags_kept s2 s3 -> flags_kept s1 s3.
Proof.
  intros H12 H23 Ha1. destruct (H12 Ha1) as (Ha2 & Ht12 & Hi12 & Hl12 & Hn12 & Hf12 & Hv12).
  destruct (H23 Ha2) as (Ha3 & Ht23 & Hi23 & Hl23 & Hn23 & Hf23 & Hv23).
  split_and!; try done.
  - lia.
  - congruence.
  - auto.
  - intros K p HK. destruct (Hn23 _ _ HK) as [HK2|[HK2 Hp]].
    + apply (Hn12 _ _ HK2).
    + right. split; [|lia]. destruct (lookup s1 !! K) as [q|] eqn:E; [|done].
      rewrite (Hl12 _ _ E) in HK2. done.
  - intros p o Ho. destruct (Hf12 _ _ Ho) as (o2 & Ho2 & <-). apply (Hf23 _ _ Ho2).
  - intros p o' Ho' Hn. destruct (objs s2 !! p) as [o2|] eqn:Ho2.
    + destruct (Hf23 _ _ Ho2) as (o3 & Ho3 & Hv). rewrite Ho' in Ho3. injection Ho3 as <-.
      rewrite Hv. by apply (Hv12 p).
    + by apply (Hv23 p).
Qed.

Lemma flags_kept_store s p o o' :
  objs s !! p = Some o -> isValid o' = isValid o ->
  flags_kept s (with_objs (<[p := o']> (objs s)) s).
Proof.
  intros Ho Hv Ha. unfold alloc_objs. simpl. split_and!.
  - intros q Hq. rewrite lookup_insert_ne; [by apply Ha|].
    intros <-. rewrite Ha in Ho; done.
  - lia.
  - done.
  - done.
  - auto.
  - intros q oq Hq. destruct (decide (p = q)) as [<-|].
    + rewrite lookup_insert_eq. exists o'. split; [done|]. congruence.
    + rewrite lookup_insert_ne by done. eauto.
  - intros q oq Hq Hn. destruct (decide (p = q)) as [<-|]; [congruence|].
    rewrite lookup_insert_ne in Hq by done. congruence.
Qed.

Lemma flags_kept_nodes s s' :
  lookup s' = lookup s -> objs s' = objs s -> (top s <= top s')%positive ->
  initialized s' = initialized s ->
  flags_kept s s'.
Proof.
  intros Hl Ho Ht Hi Ha. unfold alloc_objs. rewrite Hl, Ho. split_and!; try done.
  - intros q Hq. apply Ha. lia.
  - auto.
  - eauto.
  - intros p o' Ho' Hn. congruence.
Qed.

Lemma flags_kept_subscript s (K : Z) :
  lookup s !! K = None ->
  flags_kept s {| lookup := <[K := top s]> (lookup s);
                  objs := <[top s := Object_default]> (objs s);
                  deps := deps s; top := Pos.succ (top s);
                  initialized := initialized s |}.
Proof.
  intros HK Ha. unfold alloc_objs. simpl. split_and!.
  - intros q Hq. rewrite lookup_insert_ne by lia. apply Ha. lia.
  - lia.
  - done.
  - intros K' p HK'. rewrite lookup_insert_ne; [done|]. intros <-. congruence.
  - intros K' p. destruct (decide (K = K')) as [<-|].
    + rewrite lookup_insert_eq. intros [= <-]. right. split; [done|lia].
    + rewrite lookup_insert_ne by done. auto.
  - intros p o Ho. rewrite lookup_insert_ne; [eauto|].
    intros <-. rewrite Ha in Ho; [done|lia].
  - intros p o'. destruct (decide (top s = p)) as [<-|].
    + rewrite lookup_insert_eq. by intros [= <-].
    + rewrite lookup_insert_ne by done. congruence.
Qed.

Lemma flags_kept_Object_addDependency fuel a b c s s' :
  Object.addDependency fuel a b c s = Ret tt s' -> flags_kept s s'.
Proof.
  intros H.
  apply (keeps_Object_addDependency flags_kept) with (fuel := fuel) (this := a)
    (target := b) (c := c) (x := tt);
    eauto using flags_kept_refl, flags_kept_trans.
  - intros s0 p o v Ho. apply (flags_kept_store s0 p o); [done|by destruct o].
  - intros s0 p o k v Ho. apply (flags_kept_store s0 p o); [done|by destruct o, k].
  - intros s0 e f x _ _. apply flags_kept_nodes; simpl; [done|done|lia|done].
  - intros s0 x. apply flags_kept_nodes; simpl; [done|done|lia|done].
Qed.

Lemma flags_kept_subscript_run s (K : Z) a s0 :
  MemorySafety.subscript K s = Ret a s0 -> flags_kept s s0.
Proof.
  intros H. unfold MemorySafety.subscript in H.
  destruct (lookup s !! K) as [p|] eqn:HK; injection H as <- <-.
  - apply flags_kept_refl.
  - by apply flags_kept_subscript.
Qed.

(** What [validate] passes to the handler is fixed by the flag of the record. *)
Lemma flags_kept_validate s s' (K : Z) :
  registry_ok s -> registry_ok s' -> flags_kept s s' ->
  exists r, MemorySafety.validate K s = Ret r s /\ MemorySafety.validate K s' = Ret r s'.
Proof.
  intros ([Hl1 _] & _ & Ha) ([Hl1' _] & _ & _) Hk.
  destruct (Hk Ha) as (_ & _ & _ & Hl & Hn & Hf & Hv).
  rewrite !validate_eq.
  destruct (lookup s !! K) as [p|] eqn:HK.
  - rewrite (Hl _ _ HK). destruct (Hl1 _ _ HK) as [o Ho].
    destruct (Hf _ _ Ho) as (o' & Ho' & Hvo). rewrite Ho, Ho', Hvo. eauto.
  - destruct (lookup s' !! K) as [p|] eqn:HK'; [|eauto].
    destruct (Hn _ _ HK') as [?|[_ Hp]]; [congruence|].
    destruct (Hl1' _ _ HK') as [o' Ho']. rewrite Ho'.
    rewrite (Hv p o' Ho' (Ha p Hp)). eauto.
Qed.

Lemma addDependency_flags fuel (K1 K2 : Z) s s' :
  MemorySafety.addDependency fuel K1 K2 s = Ret tt s' -> flags_kept s s'.
Proof.
  intros Hrun. unfold MemorySafety.addDependency in Hrun.
  apply bind_Ret_inv in Hrun as (a & s0 & Hsub & Hrun).
  eapply flags_kept_trans; [by eapply flags_kept_subscript_run|].
  apply bind_Ret_inv in Hrun as (o & s0' & Hg & Hrun).
  unfold getObj in Hg. destruct (objs s0 !! a) as [oa|]; [|done]. injection Hg as <- <-.
  destruct (negb (isValid oa)); [injection Hrun as <-; apply flags_kept_refl|].
  apply bind_Ret_inv in Hrun as (b & s1 & Hsub1 & Hrun).
  eapply flags_kept_trans; [by eapply flags_kept_subscript_run|].
  by eapply flags_kept_Object_addDependency.
Qed.

Lemma calls_three_records : calls logic three_records.
Proof.
  pose proof (three_records_reached 0) as H.
  apply bind_Ret_inv in H as ([] & s1 & H1 & H).
  apply bind_Ret_inv in H as ([] & s2 & H2 & H3).
  apply (calls_cons _ (AddDependency 200 300) _ s1 _ H1).
  apply (calls_cons _ (MarkDestroyed 300) _ s2 _ H2).
  apply (calls_cons _ (AddContentDependency 400 100) _ _ _ H3).
  apply calls_nil.
Qed.

(** X2: [add_dependency] changes no answer of [validate]: whatever calls have
    returned since the registry was constructed, when [add_dependency(A, B)]
    returns, [validate] reports for the same addresses as before the call. *)
Theorem add_dependency_changes_no_answer (s s' : MemorySafety) (fuel : nat) (K1 K2 K : Z) :
  calls logic s ->
  add_dependency fuel K1 K2 s = Ret tt s' ->
  exists r, validate K s = Ret r s /\ validate K s' = Ret r s'.
Proof.
  intros Hc Hrun. pose proof (calls_registry _ _ Hc logic_registry) as Hok.
  unfold add_dependency, isAvailable, bind in Hrun. unfold validate, isAvailable, bind.
  destruct (initialized s) eqn:Hi.
  - pose proof (addDependency_flags _ _ _ _ _ Hrun) as Hk.
    destruct (Hk (proj2 (proj2 Hok))) as (_ & _ & Hi' & _). rewrite Hi', Hi.
    apply flags_kept_validate; [done|by eapply addDependency_registry|done].
  - injection Hrun as <-. rewrite Hi. eauto.
Qed.

Lemma add_dependency_changes_no_answer_witness :
  exists r, validate 100 logic = Ret r logic /\
            validate 100 after_first_edge = Ret r after_first_edge.
Proof.
  exact (add_dependency_changes_no_answer logic after_first_edge 1 100 200 100
           (calls_nil logic) (add_dependency_first_edge 0)).
Defined.

(** ** [add_content_dependency] on a target that validates *)

Lemma addContentDependency_flags fuel (K1 K2 : Z) s s' :
  registry_ok s ->
  MemorySafety.validate K2 s = Ret [] s ->
  MemorySafety.addContentDependency fuel K1 K2 s = Ret tt s' -> flags_kept s s'.
Proof.
  intros Hok Hval Hrun. unfold MemorySafety.addContentDependency in Hrun.
  apply bind_Ret_inv in Hrun as (a & s0 & Hsub & Hrun).
  pose proof (flags_kept_subscript_run _ _ _ _ Hsub) as Hk0.
  destruct (registry_ok_subscript s K1 a s0 Hok Hsub) as [Hok0 Hla].
  eapply flags_kept_trans; [exact Hk0|].
  apply bind_Ret_inv in Hrun as (o & s0' & Hg & Hrun).
  unfold getObj in Hg. destruct (objs s0 !! a) as [oa|]; [|done]. injection Hg as <- <-.
  destruct (negb (isValid oa)); [injection Hrun as <-; apply flags_kept_refl|].
  apply bind_Ret_inv in Hrun as (b & s1 & Hsub1 & Hrun).
  pose proof (flags_kept_subscript_run _ _ _ _ Hsub1) as Hk1.
  destruct (registry_ok_subscript s0 K2 b s1 Hok0 Hsub1) as [Hok1 Hlb].
  eapply flags_kept_trans; [exact Hk1|].
  apply bind_Ret_inv in Hrun as (o & s1' & Hg & Hrun).
  unfold getObj in Hg. destruct (objs s1 !! b) as [ob|] eqn:Hob; [|done].
  injection Hg as <- <-.
  assert (Hv : isValid ob = true).
  { destruct (flags_kept_validate s s1 K2 Hok Hok1 (flags_kept_trans _ _ _ Hk0 Hk1))
      as (r & Hr & Hr1).
    rewrite Hval in Hr. injection Hr as <-.
    rewrite validate_eq, Hlb, Hob in Hr1. by destruct (isValid ob). }
  rewrite Hv in Hrun. simpl in Hrun.
  by eapply flags_kept_Object_addDependency.
Qed.

(** X3: when [validate(B)] does not report, [add_content_dependency(A, B)]
    changes no answer of [validate] either: the call invalidates nothing. *)
Theorem add_content_dependency_changes_no_answer
    (s s' : MemorySafety) (fuel : nat) (K1 K2 K : Z) :
  calls logic s ->
  validate K2 s = Ret [] s ->
  add_content_dependency fuel K1 K2 s = Ret tt s' ->
  exists r, validate K s = Ret r s /\ validate K s' = Ret r s'.
Proof.
  intros Hc Hval Hrun. pose proof (calls_registry _ _ Hc logic_registry) as Hok.
  unfold add_content_dependency, isAvailable, bind in Hrun.
  unfold validate, isAvailable, bind in *.
  destruct (initialized s) eqn:Hi.
  - pose proof (addContentDependency_flags _ _ _ _ _ Hok Hval Hrun) as Hk.
    destruct (Hk (proj2 (proj2 Hok))) as (_ & _ & Hi' & _). rewrite Hi', Hi.
    apply flags_kept_validate; [done|by eapply addContentDependency_registry|done].
  - injection Hrun as <-. rewrite Hi. eauto.
Qed.

Lemma add_content_dependency_changes_no_answer_witness :
  exists s' r,
    add_content_dependency 1 100 200 logic = Ret tt s' /\
    validate 100 logic = Ret r logic /\ validate 100 s' = Ret r s'.
Proof.
  assert (H : exists s', add_content_dependency 1 100 200 logic = Ret tt s').
  { eexists. unfold logic. run. }
  destruct H as [s' H]. exists s'.
  destruct (add_content_dependency_changes_no_answer logic s' 1 100 200 100
              (calls_nil logic) eq_refl H) as [r Hr].
  exists r. split; [exact H|exact Hr].
Defined.

(** ** A record that has become invalid *)

Lemma flags_fall_refl s : flags_fall s s.
Proof.
  intros Ha. split_and!; [done|lia|done|].
  intros p o o' Ho Ho'. congruence.
Qed.

Lemma flags_fall_trans s1 s2 s3 :
  flags_fall s1 s2 -> flags_fall s2 s3 -> flags_fall s1 s3.
Proof.
  intros H12 H23 Ha1. destruct (H12 Ha1) as (Ha2 & Ht12 & Hn12 & Hf12).
  destruct (H23 Ha2) as (Ha3 & Ht23 & Hn23 & Hf23).
  split_and!; [done|lia| |].
  - intros p Hp Hn. apply Hn23; [lia|]. by apply Hn12.
  - intros p o o' Ho Ho' Hv. destruct (objs s2 !! p) as [o2|] eqn:Ho2.
    + apply (Hf23 p o2 o' Ho2 Ho'). by apply (Hf12 p o o2).
    + assert (p < top s1)%positive as Hlt.
      { destruct (decide (top s1 <= p)%positive) as [Hle|]; [|lia].
        rewrite (Ha1 p Hle) in Ho. done. }
      rewrite (Hn23 p) in Ho'; [done|lia|done].
Qed.

Lemma flags_fall_store s p o o' :
  objs s !! p = Some o -> (isValid o = false -> isValid o' = false) ->
  flags_fall s (with_objs (<[p := o']> (objs s)) s).
Proof.
  intros Ho Hv Ha. unfold alloc_objs. simpl. split_and!.
  - intros q Hq. rewrite lookup_insert_ne; [by apply Ha|].
    intros <-. rewrite Ha in Ho; done.
  - lia.
  - intros q Hq Hn. rewrite lookup_insert_ne; [done|]. intros <-. congruence.
  - intros q oq oq' Hq Hq'. destruct (decide (p = q)) as [<-|].
    + rewrite lookup_insert_eq in Hq'. injection Hq' as <-.
      rewrite Ho in Hq. by injection Hq as <-.
    + rewrite lookup_insert_ne in Hq' by done. congruence.
Qed.

Lemma flags_fall_nodes s s' :
  objs s' = objs s -> (top s <= top s')%positive -> flags_fall s s'.
Proof.
  intros Ho Ht Ha. unfold alloc_objs. rewrite Ho. split_and!; try done.
  - intros q Hq. apply Ha. lia.
  - intros p o o' H1 H2. congruence.
Qed.

Lemma flags_fall_subscript s (K : Z) :
  flags_fall s {| lookup := <[K := top s]> (lookup s);
                  objs := <[top s := Object_default]> (objs s);
                  deps := deps s; top := Pos.succ (top s);
                  initialized := initialized s |}.
Proof.
  intros Ha. unfold alloc_objs. simpl. split_and!.
  - intros q Hq. rewrite lookup_insert_ne by lia. apply Ha. lia.
  - lia.
  - intros p Hp Hn. rewrite lookup_insert_ne by lia. done.
  - intros p o o' Ho. rewrite lookup_insert_ne; [congruence|].
    intros <-. rewrite Ha in Ho; [done|lia].
Qed.

Lemma flags_fall_erase s (K : Z) p :
  flags_fall s {| lookup := delete K (lookup s); objs := delete p (objs s);
                  deps := deps s; top := top s; initialized := initialized s |}.
Proof.
  intros Ha. unfold alloc_objs. simpl. split_and!.
  - intros q Hq. destruct (decide (p = q)) as [<-|]; [apply lookup_delete_eq|].
    rewrite lookup_delete_ne by done. by apply Ha.
  - lia.
  - intros q Hq Hn. destruct (decide (p = q)) as [<-|]; [apply lookup_delete_eq|].
    by rewrite lookup_delete_ne.
  - intros q o o' Ho Ho'. apply lookup_delete_Some in Ho' as [_ Ho']. congruence.
Qed.

Lemma methods_flags_fall fuel (K1 K2 : Z) :
  keeps flags_fall (MemorySafety.validate K1) /\
  keeps flags_fall (MemorySafety.addDependency fuel K1 K2) /\
  keeps flags_fall (MemorySafety.addContentDependency fuel K1 K2) /\
  keeps flags_fall (MemorySafety.markModified fuel K1) /\
  keeps flags_fall (MemorySafety.markDestroyed fuel K1).
Proof.
  apply keeps_methods;
    eauto using flags_fall_refl, flags_fall_trans, flags_fall_subscript, flags_fall_erase.
  - intros s p o Ho. by apply (flags_fall_store s p o).
  - intros s p o v Ho. apply (flags_fall_store s p o); [done|by destruct o].
  - intros s p o k v Ho. apply (flags_fall_store s p o); [done|by destruct o, k].
  - intros s e f x _ _. apply flags_fall_nodes; simpl; [done|lia].
  - intros s e x _. apply flags_fall_nodes; simpl; [done|lia].
  - intros s x. apply flags_fall_nodes; simpl; [done|lia].
Qed.

Lemma perform_flags_fall fuel c s s' : perform fuel c s = Ret tt s' -> flags_fall s s'.
Proof.
  intros H. destruct c as [K|K1 K2|K1 K2|K|K]; simpl in H.
  - destruct (methods_flags_fall fuel K K) as (G1 & _).
    unfold bind, validate, isAvailable, bind in H. destruct (initialized s).
    + destruct (MemorySafety.validate K s) as [r s1| |] eqn:E; try done.
      injection H as <-. by apply (G1 s r s1).
    + injection H as <-. apply flags_fall_refl.
  - destruct (methods_flags_fall fuel K1 K2) as (_ & G2 & _).
    unfold add_dependency, isAvailable, bind in H. destruct (initialized s).
    + by apply (G2 s tt s').
    + injection H as <-. apply flags_fall_refl.
  - destruct (methods_flags_fall fuel K1 K2) as (_ & _ & G3 & _).
    unfold add_content_dependency, isAvailable, bind in H. destruct (initialized s).
    + by apply (G3 s tt s').
    + injection H as <-. apply flags_fall_refl.
  - destruct (methods_flags_fall fuel K K) as (_ & _ & _ & G4 & _).
    unfold mark_modified, isAvailable, bind in H. destruct (initialized s).
    + by apply (G4 s tt s').
    + injection H as <-. apply flags_fall_refl.
  - destruct (methods_flags_fall fuel K K) as (_ & _ & _ & _ & G5).
    unfold mark_destroyed, isAvailable, bind in H. destruct (initialized s).
    + by apply (G5 s tt s').
    + injection H as <-. apply flags_fall_refl.
Qed.

(** No call touches [initialized]. *)
Lemma perform_initialized fuel c s s' :
  perform fuel c s = Ret tt s' -> initialized s' = initialized s.
Proof.
  intros H.
  assert (G : forall K1 K2,
    keeps (fun s s' => initialized s' = initialized s) (MemorySafety.validate K1) /\
    keeps (fun s s' => initialized s' = initialized s) (MemorySafety.addDependency fuel K1 K2) /\
    keeps (fun s s' => initialized s' = initialized s)
      (MemorySafety.addContentDependency fuel K1 K2) /\
    keeps (fun s s' => initialized s' = initialized s) (MemorySafety.markModified fuel K1) /\
    keeps (fun s s' => initialized s' = initialized s) (MemorySafety.markDestroyed fuel K1)).
  { intros K1 K2. apply keeps_methods; simpl; intros; congruence. }
  destruct c as [K|K1 K2|K1 K2|K|K]; simpl in H.
  - destruct (G K K) as (G1 & _).
    unfold bind, validate, isAvailable, bind in H. destruct (initialized s) eqn:Hi.
    + destruct (MemorySafety.validate K s) as [r s1| |] eqn:E; try done.
      injection H as <-. rewrite <- Hi. by apply (G1 s r s1).
    + by injection H as <-.
  - destruct (G K1 K2) as (_ & G2 & _).
    unfold add_dependency, isAvailable, bind in H. destruct (initialized s) eqn:Hi.
    + rewrite <- Hi. by apply (G2 s tt s').
    + by injection H as <-.
  - destruct (G K1 K2) as (_ & _ & G3 & _).
    unfold add_content_dependency, isAvailable, bind in H. destruct (initialized s) eqn:Hi.
    + rewrite <- Hi. by apply (G3 s tt s').
    + by injection H as <-.
  - destruct (G K K) as (_ & _ & _ & G4 & _).
    unfold mark_modified, isAvailable, bind in H. destruct (initialized s) eqn:Hi.
    + rewrite <- Hi. by apply (G4 s tt s').
    + by injection H as <-.
  - destruct (G K K) as (_ & _ & _ & _ & G5).
    unfold mark_destroyed, isAvailable, bind in H. destruct (initialized s) eqn:Hi.
    + rewrite <- Hi. by apply (G5 s tt s').
    + by injection H as <-.
Qed.

Lemma nodes_stay_same s s' : lookup s' = lookup s -> nodes_stay s s'.
Proof. intros H K p. by rewrite H. Qed.

Lemma perform_nodes_stay fuel c s s' (K : Z) p :
  c <> MarkDestroyed K -> perform fuel c s = Ret tt s' ->
  lookup s !! K = Some p -> lookup s' !! K = Some p.
Proof.
  intros Hc H.
  assert (Hrefl : forall s, nodes_stay s s) by (by intros ? ? ?).
  assert (Htrans : forall s1 s2 s3, nodes_stay s1 s2 -> nodes_stay s2 s3 -> nodes_stay s1 s3).
  { intros s1 s2 s3 H1 H2 K' p' HK. by apply H2, H1. }
  assert (Hsub : forall s (K : Z), lookup s !! K = None ->
            nodes_stay s {| lookup := <[K := top s]> (lookup s);
                            objs := <[top s := Object_default]> (objs s);
                            deps := deps s; top := Pos.succ (top s);
                            initialized := initialized s |}).
  { intros s0 K0 H0 K' p' HK. simpl. rewrite lookup_insert_ne; [done|]. intros <-. congruence. }
  destruct c as [K'|K1 K2|K1 K2|K'|K']; simpl in H.
  - unfold bind, validate, isAvailable, bind in H. destruct (initialized s).
    + rewrite validate_eq in H. destruct (lookup s !! K') as [q|]; [|by injection H as <-].
      destruct (objs s !! q) as [o|]; [|done]. by injection H as <-.
    + by injection H as <-.
  - unfold add_dependency, isAvailable, bind in H.
    destruct (initialized s); [|by injection H as <-].
    apply (keeps_addDependency nodes_stay) with (fuel := fuel) (K1 := K1) (K2 := K2)
      (x := tt) (s := s); try done; intros; by apply nodes_stay_same.
  - unfold add_content_dependency, isAvailable, bind in H.
    destruct (initialized s); [|by injection H as <-].
    apply (keeps_addContentDependency nodes_stay) with (fuel := fuel) (K1 := K1) (K2 := K2)
      (x := tt) (s := s); try done; intros; by apply nodes_stay_same.
  - unfold mark_modified, isAvailable, bind in H.
    destruct (initialized s); [|by injection H as <-].
    apply (keeps_markModified nodes_stay) with (fuel := fuel) (K := K')
      (x := tt) (s := s); try done; intros; by apply nodes_stay_same.
  - unfold mark_destroyed, isAvailable, bind in H.
    destruct (initialized s); [|by injection H as <-].
    unfold MemorySafety.markDestroyed, bind, MemorySafety.find in H.
    destruct (lookup s !! K') as [q|] eqn:HK'; [|by injection H as <-].
    destruct (Object.invalidateIncoming fuel q false s) as [[] s1| |] eqn:E; [|done..].
    injection H as <-. simpl. intros HK.
    rewrite lookup_delete_ne by congruence.
    by rewrite (invalidateIncoming_lookup _ _ _ _ _ E).
Qed.

Lemma perform_all_invalid l : forall s s' (K : Z) p o,
  registry_ok s ->
  Forall (fun fc => fc.2 <> MarkDestroyed K) l ->
  perform_all l s = Ret tt s' ->
  lookup s !! K = Some p -> objs s !! p = Some o -> isValid o = false ->
  exists o', lookup s' !! K = Some p /\ objs s' !! p = Some o' /\ isValid o' = false.
Proof.
  induction l as [|[fuel c] l IH]; intros s s' K p o Hok Hl Hrun HK Ho Hv.
  - injection Hrun as <-. eauto.
  - simpl in Hrun. apply bind_Ret_inv in Hrun as ([] & s1 & H1 & Hrun).
    apply Forall_cons in Hl as [Hc Hl]. simpl in Hc.
    pose proof (perform_registry _ _ _ _ Hok H1) as Hok1.
    pose proof (perform_nodes_stay _ _ _ _ K p Hc H1 HK) as HK1.
    destruct (registry_ok_getObj _ _ _ Hok1 HK1) as [o1 Ho1].
    destruct (perform_flags_fall _ _ _ _ H1 (proj2 (proj2 Hok))) as (_ & _ & _ & Hf).
    apply (IH s1 s' K p o1); try done. by apply (Hf p o o1).
Qed.

(** X4: a violation stays.  Whatever calls have returned since the registry
    was constructed, once [validate(A)] reports it reports after every
    further sequence of calls that return, as long as none of them is
    [mark_destroyed(A)]. *)
Theorem violation_stays (s s' : MemorySafety) (K : Z) (l : list (nat * call)) :
  calls logic s ->
  Forall (fun fc => fc.2 <> MarkDestroyed K) l ->
  perform_all l s = Ret tt s' ->
  validate K s = Ret [K] s ->
  validate K s' = Ret [K] s'.
Proof.
  intros Hc Hl Hrun Hval. pose proof (calls_registry _ _ Hc logic_registry) as Hok.
  unfold validate, isAvailable, bind in *.
  destruct (initialized s) eqn:Hi; [|done].
  rewrite validate_eq in Hval.
  destruct (lookup s !! K) as [p|] eqn:HK; [|done].
  destruct (objs s !! p) as [o|] eqn:Ho; [|done].
  destruct (isValid o) eqn:Hv; [done|].
  destruct (perform_all_invalid l s s' K p o Hok Hl Hrun HK Ho Hv) as (o' & HK' & Ho' & Hv').
  assert (Hi' : initialized s' = true).
  { clear -Hrun Hi. revert s Hrun Hi. induction l as [|[fuel c] l IH]; intros s Hrun Hi.
    - by injection Hrun as <-.
    - simpl in Hrun. apply bind_Ret_inv in Hrun as ([] & s1 & H1 & Hrun).
      apply (IH s1 Hrun). by rewrite (perform_initialized _ _ _ _ H1). }
  by rewrite Hi', validate_eq, HK', Ho', Hv'.
Qed.

Lemma violation_stays_witness :
  exists s',
    perform_all [(5, MarkModified 100); (5, AddContentDependency 200 400);
                 (5, MarkDestroyed 400)] three_records = Ret tt s' /\
    validate 200 s' = Ret [200%Z] s'.
Proof.
  assert (H : exists s',
    perform_all [(5, MarkModified 100); (5, AddContentDependency 200 400);
                 (5, MarkDestroyed 400)] three_records = Ret tt s').
  { eexists. vm_compute. reflexivity. }
  destruct H as [s' H]. exists s'. split; [exact H|].
  apply (violation_stays three_records s' 200 _ calls_three_records) in H.
  - exact H.
  - repeat (apply Forall_cons; split; [discriminate|]). apply Forall_nil_2.
  - reflexivity.
Defined.

(** ** The addresses that report after a cascade *)

Lemma calls_initialized s s' : calls s s' -> initialized s' = initialized s.
Proof.
  induction 1 as [|s c fuel s1 s2 H _ IH]; [done|].
  rewrite IH. by eapply perform_initialized.
Qed.

Lemma safe_calls_calls s s' : safe_calls s s' -> calls s s'.
Proof.
  induction 1 as [|s c fuel s1 s2 _ H _ IH]; [apply calls_nil|].
  by eapply calls_cons.
Qed.

Lemma safe_calls_initialized s : safe_calls logic s -> initialized s = true.
Proof. intros H. by rewrite (calls_initialized _ _ (safe_calls_calls _ _ H)). Qed.

(** The flag of an object after a cascade over [T]. *)
Lemma cascaded_flag s T s' p o :
  cascaded s T s' -> objs s !! p = Some o ->
  exists o', objs s' !! p = Some o' /\
    (isValid o' = false <-> isValid o = false \/ p ∈ T).
Proof.
  intros (_ & Hf & Hd) Ho.
  pose proof Hf as (_ & _ & _ & _ & H5 & _).
  destruct (H5 p o Ho) as (o' & Ho' & Hinv & Hout).
  exists o'. split; [done|]. split.
  - intros Hv. destruct (decide (p ∈ T)) as [|Hn]; [by right|left].
    destruct (Hout Hn) as [<- _]. done.
  - intros [Hv|Hp]; [by apply Hinv|].
    destruct (Hd p Hp) as [(o2 & Ho2 & Hv2) _]. congruence.
Qed.

(** X5: on a memory reached by safe calls, [mark_modified(B)] returns, and
    afterwards [validate] reports for exactly the addresses for which it
    reported before and those whose record reaches, through content
    dependencies on valid records, the source of a content edge into the
    record of [B]. *)
Theorem mark_modified_reports (s : MemorySafety) (K : Z) :
  safe_calls logic s ->
  exists N s',
    (forall fuel, N <= fuel -> mark_modified fuel K s = Ret tt s') /\
    forall K',
      validate K' s' = Ret [K'] s' <->
      validate K' s = Ret [K'] s \/
      exists b p e x, lookup s !! K = Some b /\ lookup s !! K' = Some p /\
        deps s !! e = Some x /\ B x = b /\ content x = true /\ reach s p (A x).
Proof.
  intros Hs. pose proof (safe_calls_initialized _ Hs) as Hi.
  destruct (safe_calls_consistent _ _ Hs logic_consistent) as (Hwf & _ & [Hl1 Hl2] & _).
  unfold mark_modified, validate, isAvailable, bind. rewrite Hi.
  destruct (lookup s !! K) as [b|] eqn:HK.
  - destruct (Hl1 _ _ HK) as [ob Hob].
    destruct (invalidateIncoming_total true s b Hwf) as (N & s' & T & Hrun & Hc & HT);
      [eauto|].
    pose proof Hc as (_ & (Hlk & _ & Hi' & _) & _).
    exists N, s'. split.
    { intros fuel Hfuel. unfold MemorySafety.markModified, bind.
      rewrite (run_find _ _ _ HK). by apply Hrun. }
    intros K'. rewrite Hi', Hi, !validate_eq, Hlk.
    destruct (lookup s !! K') as [p|] eqn:HK'.
    + destruct (Hl1 _ _ HK') as [o Ho].
      destruct (cascaded_flag s T s' p o Hc Ho) as (o' & Ho' & Hv).
      rewrite Ho, Ho'. split.
      * intros H. assert (isValid o' = false) as Hv' by (by destruct (isValid o')).
        apply Hv in Hv' as [Hv'|Hp]; [left; by rewrite Hv'|right].
        apply HT in Hp as (e & x & Hx & HB & Hk & Hre).
        exists b, p, e, x. split_and!; auto.
      * intros [H|(b' & p' & e & x & [= <-] & [= <-] & Hx & HB & Hk & Hre)].
        -- assert (isValid o = false) as Hv0 by (by destruct (isValid o)).
           rewrite (proj2 Hv (or_introl Hv0)). done.
        -- assert (p ∈ T) as Hp. { apply HT. exists e, x. split_and!; auto. }
           rewrite (proj2 Hv (or_intror Hp)). done.
    + split; [done|]. intros [?|(b' & p' & e & x & _ & ? & _)]; done.
  - exists 0, s. split.
    { intros fuel _. unfold MemorySafety.markModified, bind.
      by rewrite (run_find _ _ _ HK). }
    intros K'. rewrite Hi. split; [by left|].
    intros [?|(b' & p' & e & x & ? & _)]; done.
Qed.

(** X6: on a memory reached by safe calls, [mark_destroyed(B)] returns;
    afterwards [validate(B)] does not report, and for every other address
    [validate] reports exactly when it reported before or the record of the
    address reaches, through content dependencies on valid records, the
    source of an edge of either kind into the record of [B]. *)
Theorem mark_destroyed_reports (s : MemorySafety) (K : Z) :
  safe_calls logic s ->
  exists N s',
    (forall fuel, N <= fuel -> mark_destroyed fuel K s = Ret tt s') /\
    validate K s' = Ret [] s' /\
    forall K', K' <> K ->
      validate K' s' = Ret [K'] s' <->
      validate K' s = Ret [K'] s \/
      exists b p e x, lookup s !! K = Some b /\ lookup s !! K' = Some p /\
        deps s !! e = Some x /\ B x = b /\ reach s p (A x).
Proof.
  intros Hs. pose proof (safe_calls_initialized _ Hs) as Hi.
  destruct (safe_calls_consistent _ _ Hs logic_consistent) as (Hwf & _ & [Hl1 Hl2] & _).
  unfold mark_destroyed, validate, isAvailable, bind. rewrite Hi.
  destruct (lookup s !! K) as [b|] eqn:HK.
  - destruct (Hl1 _ _ HK) as [ob Hob].
    destruct (invalidateIncoming_total false s b Hwf) as (N & s1 & T & Hrun & Hc & HT);
      [eauto|].
    pose proof Hc as (_ & (Hlk & _ & Hi' & _) & _).
    exists N. eexists. split; [|split].
    { intros fuel Hfuel. unfold MemorySafety.markDestroyed, bind.
      rewrite (run_find _ _ _ HK), (Hrun fuel Hfuel). reflexivity. }
    { simpl. rewrite Hi', Hi, validate_eq. simpl. by rewrite lookup_delete_eq. }
    intros K' Hne. simpl. rewrite Hi', Hi, !validate_eq. simpl.
    rewrite lookup_delete_ne, Hlk by done.
    destruct (lookup s !! K') as [p|] eqn:HK'.
    + destruct (Hl1 _ _ HK') as [o Ho].
      destruct (cascaded_flag s T s1 p o Hc Ho) as (o' & Ho' & Hv).
      assert (b <> p) as Hbp. { intros <-. apply Hne. by eapply Hl2. }
      rewrite lookup_delete_ne by done. rewrite Ho, Ho'. split.
      * intros H. assert (isValid o' = false) as Hv'.
        { destruct (isValid o'); [done|done]. }
        apply Hv in Hv' as [Hv'|Hp]; [left; by rewrite Hv'|right].
        apply HT in Hp as (e & x & Hx & HB & Hk & Hre).
        exists b, p, e, x. split_and!; auto.
      * intros [H|(b' & p' & e & x & [= <-] & [= <-] & Hx & HB & Hre)].
        -- assert (isValid o = false) as Hv0 by (by destruct (isValid o)).
           rewrite (proj2 Hv (or_introl Hv0)). done.
        -- assert (p ∈ T) as Hp. { apply HT. exists e, x. split_and!; auto. done. }
           rewrite (proj2 Hv (or_intror Hp)). done.
    + split; [done|]. intros [?|(b' & p' & e & x & _ & ? & _)]; done.
  - exists 0, s. split; [|split].
    { intros fuel _. unfold MemorySafety.markDestroyed, bind.
      by rewrite (run_find _ _ _ HK). }
    { by rewrite Hi, validate_eq, HK. }
    intros K' _. rewrite Hi. split; [by left|].
    intros [?|(b' & p' & e & x & ? & _)]; done.
Qed.

Lemma safe_calls_three_records : safe_calls logic three_records.
Proof.
  pose proof (three_records_reached 0) as H.
  apply bind_Ret_inv in H as ([] & s1 & H1 & H).
  apply bind_Ret_inv in H as ([] & s2 & H2 & H3).
  apply (safe_calls_cons _ (AddDependency 200 300) _ s1 _ I H1).
  assert (Hsafe : safe (MarkDestroyed 300) s1).
  { vm_compute in H1. injection H1 as <-. intros p o Hp Ho.
    vm_compute in Hp. injection Hp as <-. vm_compute in Ho. by injection Ho as <-. }
  apply (safe_calls_cons _ (MarkDestroyed 300) _ s2 _ Hsafe H2).
  apply (safe_calls_cons _ (AddContentDependency 400 100) _ _ _ I H3).
  apply safe_calls_nil.
Qed.

Lemma mark_modified_reports_witness :
  exists N s',
    (forall fuel, N <= fuel -> mark_modified fuel 100 three_records = Ret tt s') /\
    validate 400 s' = Ret [400%Z] s'.
Proof.
  destruct (mark_modified_reports three_records 100 safe_calls_three_records)
    as (N & s' & Hrun & Hiff).
  exists N, s'. split; [exact Hrun|]. apply Hiff. right.
  exists 5%positive, 4%positive, 6%positive,
    {| A := 4; B := 5; content := true; parent := None;
       left := None; right := None; prev := None; next := None |}.
  repeat split. apply rtc_refl.
Defined.

Lemma mark_destroyed_reports_witness :
  exists N s',
    (forall fuel, N <= fuel -> mark_destroyed fuel 100 three_records = Ret tt s') /\
    validate 100 s' = Ret [] s' /\ validate 400 s' = Ret [400%Z] s'.
Proof.
  destruct (mark_destroyed_reports three_records 100 safe_calls_three_records)
    as (N & s' & Hrun & Hgone & Hiff).
  exists N, s'. split; [exact Hrun|]. split; [exact Hgone|].
  apply Hiff; [discriminate|]. right.
  exists 5%positive, 4%positive, 6%positive,
    {| A := 4; B := 5; content := true; parent := None;
       left := None; right := None; prev := None; next := None |}.
  repeat split. apply rtc_refl.
Defined.

(** ** The trees that the entry points build *)

Lemma single_edges_same_trees s s' :
  same_trees s s' ->
  (forall e x', deps s' !! e = Some x' -> exists x, deps s !! e = Some x /\ A x' = A x) ->
  single_edges s -> single_edges s'.
Proof.
  intros (_ & Hbk & _) Hd HJ p o' e x' Ho' Hx' HA.
  destruct (Hbk _ _ Ho') as (o & Ho & -> & _).
  destruct (Hd _ _ Hx') as (x & Hx & EA).
  apply (HJ p o e x Ho Hx). congruence.
Qed.

Lemma single_edges_cascaded s T s' :
  cascaded s T s' -> single_edges s -> single_edges s'.
Proof.
  intros (_ & Hf & Hd) HJ p o' e x' Ho' Hx' HA.
  destruct (frame_dep_back _ _ _ _ _ Hf Hx') as (x & Hx & EA & _).
  destruct (frame_obj_back _ _ _ _ _ Hf Ho') as [o Ho].
  destruct (decide (p ∈ T)) as [Hp|Hp].
  - by destruct (dead_no_edge s' p e x' (Hd p Hp) Hx').
  - destruct Hf as (_ & _ & _ & _ & H5 & _).
    destruct (H5 p o Ho) as (o2 & Ho2 & _ & Hk). rewrite Ho' in Ho2. injection Ho2 as <-.
    destruct (Hk Hp) as [_ ->]. apply (HJ p o e x Ho Hx). congruence.
Qed.

Lemma single_edges_subscript s (K : Z) a s0 :
  wf s -> MemorySafety.subscript K s = Ret a s0 -> single_edges s -> single_edges s0.
Proof.
  intros Hwf Hsub HJ. unfold MemorySafety.subscript in Hsub.
  destruct (lookup s !! K) as [q|]; injection Hsub as <- <-; [done|].
  intros p o e x Ho Hx HA. simpl in *.
  destruct (decide (top s = p)) as [<-|Hne].
  - pose proof Hwf as (Ha & Hp & _). destruct (Hp _ _ Hx) as [[oa Hoa] _].
    rewrite HA in Hoa. destruct (Ha (top s)) as [Hn _]; [lia|]. congruence.
  - rewrite lookup_insert_ne in Ho by done. by apply (HJ p o e x).
Qed.

Lemma single_edges_erase s (K : Z) p :
  single_edges s ->
  single_edges {| lookup := delete K (lookup s); objs := delete p (objs s);
                  deps := deps s; top := top s; initialized := initialized s |}.
Proof.
  intros HJ q o e x Ho Hx HA. simpl in *.
  apply lookup_delete_Some in Ho as [_ Ho]. by apply (HJ q o e x).
Qed.

(** [Object::addDependency] on an empty tree: the new node is the only one
    with that source. *)
Lemma addDependency_fresh_single s a b (c : bool) oa fuel s' :
  consistent s -> objs s !! a = Some oa -> isValid oa = true ->
  dependencies oa = None -> is_Some (objs s !! b) -> single_edges s ->
  Object.addDependency fuel a b c s = Ret tt s' -> single_edges s'.
Proof.
  intros (Hwf & Hr & Hl & Hi) Hoa Hv Hda [ob0 Hob0] HJ Hrun.
  set (d := top s).
  set (x := {| A := a; B := b; content := c; parent := None; left := None;
               right := None; prev := None; next := None |}).
  set (s1 := created a b c oa s).
  destruct (created_objs s a b c oa b ob0 Hob0) as [ob Hob]. fold s1 in Hob.
  assert (Hd : deps s1 !! d = Some x) by apply lookup_insert_eq.
  assert (Hsh := created_shape s a b c oa Hwf Hoa Hda). fold s1 d in Hsh.
  assert (Hch : chain_ok (delete d (deps s1)) (B x) (content x) (incoming ob (content x))).
  { by destruct (Hsh b ob Hob) as [Hc _]. }
  destruct (created_fresh s Hwf) as [Hfo Hfd].
  assert (Hrun2 : forall fuel, Object.addDependency (S fuel) a b c s
                               = Ret tt (linked d x ob s1)).
  { intros fuel'. unfold Object.addDependency.
    eapply run_bind; [by apply run_getObj|]. rewrite Hda.
    eapply run_bind; [reflexivity|]. cbv beta iota.
    eapply run_bind; [reflexivity|].
    eapply (run_bind _ _ _ tt s1).
    { unfold modObj. simpl. by rewrite Hoa. }
    eapply run_bind.
    { apply (link_run s1 d x ob Hd Hob). by apply linked_side. }
    destruct (linked_fields s1 d x ob Hd Hch d x Hd) as (y & Hy & _ & _ & _ & Hp & _).
    by apply (splay_root _ _ _ _ y). }
  destruct fuel as [|fuel].
  { unfold Object.addDependency, bind in Hrun. by rewrite (run_getObj _ _ _ Hoa), Hda in Hrun. }
  rewrite Hrun2 in Hrun. injection Hrun as <-.
  apply (single_edges_same_trees s1); [by apply same_trees_linked| |].
  - intros e y' Hy'. destruct (linked_back s1 d x ob Hd Hch e y' Hy') as (y & Hy & ? & _).
    eauto.
  - intros p o e y Ho Hy HA. simpl in Ho, Hy.
    destruct (decide (d = e)) as [<-|Hne].
    + rewrite lookup_insert_eq in Hy. injection Hy as <-. simpl in HA. subst p.
      rewrite lookup_insert_eq in Ho. by injection Ho as <-.
    + rewrite lookup_insert_ne in Hy by done.
      destruct (decide (a = p)) as [<-|Hna].
      * pose proof (HJ a oa e y Hoa Hy HA). congruence.
      * rewrite lookup_insert_ne in Ho by done. by apply (HJ p o e y).
Qed.

(** [Object::addDependency] on the edge at the root. *)
Lemma addDependency_found_single s a b (c : bool) oa r x fuel s' :
  consistent s -> objs s !! a = Some oa -> dependencies oa = Some r ->
  deps s !! r = Some x -> B x = b -> single_edges s ->
  Object.addDependency fuel a b c s = Ret tt s' -> single_edges s'.
Proof.
  intros (Hwf & Hr & Hl & Hi) Hoa Hda Hx HB HJ Hrun.
  assert (Hpar : parent x = None) by (by eapply Hr).
  assert (Hcmp : (b <? B x)%positive = false /\ (B x <? b)%positive = false).
  { rewrite HB. by rewrite Pos.ltb_irrefl. }
  destruct Hcmp as [Hc1 Hc2].
  destruct fuel as [|[|fuel]].
  { unfold Object.addDependency, bind in Hrun. by rewrite (run_getObj _ _ _ Hoa), Hda in Hrun. }
  { exfalso. unfold Object.addDependency in Hrun.
    apply bind_Ret_inv in Hrun as (o & s1 & Hg & Hrun).
    rewrite (run_getObj _ _ _ Hoa) in Hg. injection Hg as <- <-. rewrite Hda in Hrun.
    apply bind_Ret_inv in Hrun as (res & s1 & Hrun & _).
    rewrite addDependency_while_S in Hrun.
    apply bind_Ret_inv in Hrun as (x' & s2' & Hg & Hrun).
    rewrite (run_getDep _ _ _ Hx) in Hg. injection Hg as <- <-.
    rewrite HB, Pos.ltb_irrefl in Hrun.
    apply bind_Ret_inv in Hrun as (u & s3 & _ & Hrun).
    by apply bind_Ret_inv in Hrun as (u' & s4 & Hsp & _). }
  destruct (c && negb (content x)) eqn:Hup.
  - apply andb_true_iff in Hup as [-> Hcx]. apply negb_true_iff in Hcx.
    pose proof Hwf as (_ & Hp & Ho).
    destruct (Hp _ _ Hx) as [_ [ob Hob]].
    destruct (Ho _ _ Hob) as [Hch _].
    destruct (released_side s r x _ Hx (Hch (content x))) as [Hs1 Hs2].
    set (s1 := relabelled r x ob s).
    set (x1 := set_content true (set_next None (set_prev None x))).
    assert (Hx1 : deps s1 !! r = Some x1).
    { unfold s1. rewrite relabelled_lookup. by destruct (decide (r = r)). }
    assert (is_Some (objs s1 !! B x1)) as [ob1 Hob1].
    { exact (frame_obj_fwd _ _ (released r x ob s) _ _ (relabelled_frame s r x ob Hx Hob) Hob). }
    assert (Hsh := relabelled_shape s r x ob Hwf Hx Hob). fold s1 in Hsh.
    assert (Hch1 : chain_ok (delete r (deps s1)) (B x1) (content x1)
                     (incoming ob1 (content x1))).
    { by destruct (Hsh _ _ Hob1) as [Hc _]. }
    pose proof (same_trees_trans _ _ _ (relabelled_same_trees s r x ob Hx Hob)
                  (same_trees_linked s1 r x1 ob1 Hx1 Hob1 Hch1)) as Hst.
    assert (Hrun2 : Object.addDependency (S (S fuel)) a b true s
                    = Ret tt (linked r x1 ob1 s1)).
    { unfold Object.addDependency.
      eapply run_bind; [by apply run_getObj|]. rewrite Hda.
      eapply run_bind.
      { rewrite addDependency_while_S.
        eapply run_bind; [by apply run_getDep|]. rewrite Hc1, Hc2, Hcx. simpl.
        eapply run_bind.
        { rewrite (relabel_run _ s r x ob Hx Hob Hs1 Hs2).
          apply (link_run s1 r x1 ob1 Hx1 Hob1). by apply linked_side. }
        eapply run_bind; [|reflexivity].
        destruct (linked_fields s1 r x1 ob1 Hx1 Hch1 r x1 Hx1) as (y & Hy & _ & _ & _ & Hp' & _).
        apply (splay_root _ _ _ _ y Hy). by rewrite Hp'. }
      done. }
    rewrite Hrun2 in Hrun. injection Hrun as <-.
    apply (single_edges_same_trees s); [done| |done].
    intros e y' Hy'.
    destruct (linked_back s1 r x1 ob1 Hx1 Hch1 e y' Hy') as (y1 & Hy1 & EA & _).
    destruct (relabelled_back s r x ob Hx e y1 Hy1) as (y0 & Hy0 & EA0 & _).
    exists y0. split; [done|congruence].
  - assert (Hrun2 : Object.addDependency (S (S fuel)) a b c s = Ret tt s).
    { unfold Object.addDependency.
      eapply run_bind; [by apply run_getObj|]. rewrite Hda.
      eapply run_bind.
      { rewrite addDependency_while_S.
        eapply run_bind; [by apply run_getDep|]. rewrite Hc1, Hc2, Hup.
        eapply run_bind; [reflexivity|].
        eapply run_bind; [by apply (splay_root _ _ _ _ x)|]. reflexivity. }
      done. }
    rewrite Hrun2 in Hrun. by injection Hrun as <-.
Qed.

Lemma Object_addDependency_single fuel s a b (c : bool) oa s' :
  consistent s -> objs s !! a = Some oa -> isValid oa = true ->
  is_Some (objs s !! b) -> single_edges s ->
  Object.addDependency fuel a b c s = Ret tt s' -> single_edges s'.
Proof.
  intros Hc Hoa Hv Hb HJ Hrun. pose proof Hc as (Hwf & _).
  destruct (dependencies oa) as [r|] eqn:Hda.
  - destruct (wf_roots _ _ _ _ Hwf Hoa Hda) as [x Hx].
    destruct (decide (B x = b)) as [HB|HB].
    + by eapply addDependency_found_single.
    + by rewrite (Object_addDependency_diverges fuel a b c s oa r x Hoa Hda Hx HB) in Hrun.
  - by eapply addDependency_fresh_single.
Qed.

Lemma perform_single fuel c s s' :
  consistent s -> single_edges s -> perform fuel c s = Ret tt s' -> single_edges s'.
Proof.
  intros Hc HJ Hrun. pose proof Hc as (Hwf & _ & [Hl1 _] & _).
  destruct c as [K|K1 K2|K1 K2|K|K]; simpl in Hrun.
  - unfold bind, validate, isAvailable, bind in Hrun.
    destruct (initialized s); [|by injection Hrun as <-].
    rewrite validate_eq in Hrun. destruct (lookup s !! K) as [p|]; [|by injection Hrun as <-].
    destruct (objs s !! p) as [o|]; [|done].
    destruct (isValid o); by injection Hrun as <-.
  - unfold add_dependency, bind, isAvailable in Hrun.
    destruct (initialized s); [|by injection Hrun as <-].
    unfold MemorySafety.addDependency in Hrun.
    apply bind_Ret_inv in Hrun as (a & s0 & Hsub & Hrun).
    pose proof (single_edges_subscript _ _ _ _ Hwf Hsub HJ) as HJ0.
    destruct (subscript_consistent s K1 a s0 Hc Hsub) as (Hc0 & Hla & _).
    pose proof Hc0 as (Hwf0 & _ & [Hl0 _] & _). destruct (Hl0 _ _ Hla) as [oa Hoa].
    apply bind_Ret_inv in Hrun as (o & s0' & Hg & Hrun).
    rewrite (run_getObj _ _ _ Hoa) in Hg. injection Hg as <- <-.
    destruct (isValid oa) eqn:Hv; simpl in Hrun; [|by injection Hrun as <-].
    apply bind_Ret_inv in Hrun as (b & s1 & Hsub1 & Hrun).
    pose proof (single_edges_subscript _ _ _ _ Hwf0 Hsub1 HJ0) as HJ1.
    destruct (subscript_consistent s0 K2 b s1 Hc0 Hsub1) as (Hc1 & Hlb & _ & _ & Hobjs).
    pose proof Hc1 as (_ & _ & [Hl1' _] & _).
    by apply (Object_addDependency_single fuel s1 a b false oa s' Hc1 (Hobjs _ _ Hoa) Hv
                (Hl1' _ _ Hlb) HJ1).
  - unfold add_content_dependency, bind, isAvailable in Hrun.
    destruct (initialized s); [|by injection Hrun as <-].
    unfold MemorySafety.addContentDependency in Hrun.
    apply bind_Ret_inv in Hrun as (a & s0 & Hsub & Hrun).
    pose proof (single_edges_subscript _ _ _ _ Hwf Hsub HJ) as HJ0.
    destruct (subscript_consistent s K1 a s0 Hc Hsub) as (Hc0 & Hla & _).
    pose proof Hc0 as (Hwf0 & _ & [Hl0 _] & _). destruct (Hl0 _ _ Hla) as [oa Hoa].
    apply bind_Ret_inv in Hrun as (o & s0' & Hg & Hrun).
    rewrite (run_getObj _ _ _ Hoa) in Hg. injection Hg as <- <-.
    destruct (isValid oa) eqn:Hv; simpl in Hrun; [|by injection Hrun as <-].
    apply bind_Ret_inv in Hrun as (b & s1 & Hsub1 & Hrun).
    pose proof (single_edges_subscript _ _ _ _ Hwf0 Hsub1 HJ0) as HJ1.
    destruct (subscript_consistent s0 K2 b s1 Hc0 Hsub1) as (Hc1 & Hlb & _ & _ & Hobjs).
    pose proof Hc1 as (Hwf1 & _ & [Hl1' _] & _).
    destruct (Hl1' _ _ Hlb) as [ob Hob].
    apply bind_Ret_inv in Hrun as (o & s1' & Hg & Hrun).
    rewrite (run_getObj _ _ _ Hob) in Hg. injection Hg as <- <-.
    destruct (isValid ob) eqn:Hvb; simpl in Hrun.
    + by apply (Object_addDependency_single fuel s1 a b true oa s' Hc1 (Hobjs _ _ Hoa) Hv
                  (Hl1' _ _ Hlb) HJ1).
    + destruct (invalidate_returns fuel s1 a s' Hwf1) as (T & Hcas & _); [eauto|done|].
      by eapply single_edges_cascaded.
  - unfold mark_modified, bind, isAvailable in Hrun.
    destruct (initialized s); [|by injection Hrun as <-].
    unfold MemorySafety.markModified, bind, MemorySafety.find in Hrun.
    destruct (lookup s !! K) as [p|] eqn:HK; [|by injection Hrun as <-].
    destruct (invalidateIncoming_returns fuel true s p s' Hwf (Hl1 _ _ HK) Hrun)
      as (T & Hcas & _).
    by eapply single_edges_cascaded.
  - unfold mark_destroyed, bind, isAvailable in Hrun.
    destruct (initialized s); [|by injection Hrun as <-].
    unfold MemorySafety.markDestroyed, bind, MemorySafety.find in Hrun.
    destruct (lookup s !! K) as [p|] eqn:HK; [|by injection Hrun as <-].
    destruct (Object.invalidateIncoming fuel p false s) as [[] s1| |] eqn:E; [|done..].
    destruct (invalidateIncoming_returns fuel false s p s1 Hwf (Hl1 _ _ HK) E)
      as (T & Hcas & _).
    unfold MemorySafety.erase in Hrun. injection Hrun as <-.
    apply single_edges_erase. by eapply single_edges_cascaded.
Qed.

Lemma safe_calls_single s s' :
  safe_calls s s' -> consistent s -> single_edges s -> single_edges s'.
Proof.
  induction 1 as [|s c fuel s1 s2 Hs Hrun _ IH]; [done|].
  intros Hc HJ. apply IH; [by eapply perform_consistent|by eapply perform_single].
Qed.

(** X7: a record never has two outgoing edges.  In every memory reached by
    safe calls, two [Dependency] nodes with the same source are the same
    node: the search loop of [Object::addDependency] returns only on an
    empty tree or on the edge at its root, so that no second node is ever
    attached. *)
Theorem one_edge_per_source (s : MemorySafety) (e1 e2 : positive) (x1 x2 : Dependency) :
  safe_calls logic s ->
  deps s !! e1 = Some x1 -> deps s !! e2 = Some x2 -> A x1 = A x2 ->
  e1 = e2 /\ left x1 = None /\ right x1 = None /\ parent x1 = None.
Proof.
  intros Hs H1 H2 HA.
  pose proof (safe_calls_consistent _ _ Hs logic_consistent) as (Hwf & Hr & _).
  assert (HJ : single_edges s).
  { apply (safe_calls_single logic s Hs logic_consistent). by intros p o e x Hp. }
  pose proof Hwf as (_ & Hp & Ho).
  destruct (Hp _ _ H1) as [[o Hoa] _].
  pose proof (HJ _ _ _ _ Hoa H1 eq_refl) as Hd1.
  pose proof (HJ _ _ _ _ Hoa H2 (eq_sym HA)) as Hd2.
  split; [congruence|].
  destruct (Ho _ _ Hoa) as [_ (t & Hnd & Hsh & Hout)]. rewrite Hd1 in Hsh.
  destruct t as [|l e r]; [done|]. destruct Hsh as ([= <-] & a & b & Htv & Hl & Hr').
  unfold tv in Htv. rewrite H1 in Htv. destruct (decide (A x1 = A x1)); [|done].
  injection Htv as <- <-.
  assert (Hleaf : forall t' c, shape (tv (deps s) (A x1)) c t' ->
            (forall e', e' ∈ nodes t' -> e' <> e1) -> c = None).
  { intros [|l' e' r'] c' Hs' Hne; [done|]. destruct Hs' as (-> & a' & b' & Htv' & _).
    exfalso. unfold tv in Htv'. destruct (deps s !! e') as [x'|] eqn:Hx'; [|done].
    destruct (decide (A x' = A x1)) as [HA'|]; [|done].
    pose proof (HJ _ _ _ _ Hoa Hx' HA') as Hd'.
    apply (Hne e'); [|congruence]. simpl. set_solver. }
  simpl in Hnd. apply NoDup_app in Hnd as (_ & Hlr & Hnd').
  apply NoDup_cons in Hnd' as [Hnr _].
  split; [|split].
  - apply (Hleaf l (left x1) Hl). intros e' He' ->. apply (Hlr e1 He'). set_solver.
  - apply (Hleaf r (right x1) Hr'). intros e' He' ->. done.
  - exact (Hr _ _ _ _ Hoa Hd1 H1).
Qed.

Lemma one_edge_per_source_witness :
  6%positive = 6%positive /\
  left {| A := 4; B := 5; content := true; parent := None;
          left := None; right := None; prev := None; next := None |} = None /\
  right {| A := 4; B := 5; content := true; parent := None;
           left := None; right := None; prev := None; next := None |} = None /\
  parent {| A := 4; B := 5; content := true; parent := None;
            left := None; right := None; prev := None; next := None |} = None.
Proof.
  exact (one_edge_per_source three_records 6 6 _ _ safe_calls_three_records
           eq_refl eq_refl eq_refl).
Defined.

(** ** When the edge operations return *)

(** [lookup[K]] finds the record of [K] or makes a new one. *)
Lemma subscript_cases s (K : Z) :
  consistent s ->
  exists a s0 o,
    MemorySafety.subscript K s = Ret a s0 /\ consistent s0 /\ deps s0 = deps s /\
    (forall p o, objs s !! p = Some o -> objs s0 !! p = Some o) /\
    (forall K' p, lookup s !! K' = Some p -> lookup s0 !! K' = Some p) /\
    objs s0 !! a = Some o /\ lookup s0 !! K = Some a /\
    ((lookup s !! K = Some a /\ objs s !! a = Some o /\ s0 = s) \/
     (lookup s !! K = None /\ objs s !! a = None /\ o = Object_default)).
Proof.
  intros Hc. pose proof Hc as (Hwf & _ & [Hl1 _] & _).
  destruct (MemorySafety.subscript K s) as [a s0| |] eqn:Hsub;
    [|unfold MemorySafety.subscript in Hsub; destruct (lookup s !! K); done..].
  destruct (subscript_consistent s K a s0 Hc Hsub) as (Hc0 & Hla & Hk & Hdeps & Hobjs).
  destruct (wf_subscript s K a s0 Hwf Hsub) as (_ & _ & _ & Hlk & Hnew).
  destruct (lookup s !! K) as [p|] eqn:HK.
  - unfold MemorySafety.subscript in Hsub. rewrite HK in Hsub. injection Hsub as <- <-.
    destruct (Hl1 _ _ HK) as [o Ho]. exists p, s, o. split_and!; try done. by left.
  - destruct (Hnew eq_refl) as (H1 & H2 & _).
    exists a, s0, Object_default. split_and!; try done. by right.
Qed.

(** X8: [add_dependency(A, B)] returns exactly when the record of [A] has no
    edge, or its edge goes to the record of [B]; [add_content_dependency(A, B)]
    returns in these cases and when the record of [B] is invalid.  In the
    other cases the search loop of [Object::addDependency] does not end. *)
Theorem edge_calls_return_iff (s : MemorySafety) (K1 K2 : Z) :
  safe_calls logic s ->
  ((exists fuel s', add_dependency fuel K1 K2 s = Ret tt s') <->
   (forall a oa r x, lookup s !! K1 = Some a -> objs s !! a = Some oa ->
      dependencies oa = Some r -> deps s !! r = Some x ->
      lookup s !! K2 = Some (B x))) /\
  ((exists fuel s', add_content_dependency fuel K1 K2 s = Ret tt s') <->
   (forall a oa r x, lookup s !! K1 = Some a -> objs s !! a = Some oa ->
      dependencies oa = Some r -> deps s !! r = Some x ->
      lookup s !! K2 = Some (B x) \/
      exists b ob, lookup s !! K2 = Some b /\ objs s !! b = Some ob /\
                   isValid ob = false)).
Proof.
  intros Hs. pose proof (safe_calls_initialized _ Hs) as Hi.
  pose proof (safe_calls_consistent _ _ Hs logic_consistent) as Hc.
  pose proof Hc as (Hwf & _ & _ & Hinv).
  unfold add_dependency, add_content_dependency, isAvailable, bind. rewrite Hi.
  unfold MemorySafety.addDependency, MemorySafety.addContentDependency, bind.
  destruct (subscript_cases s K1 Hc)
    as (a & s0 & oa & Hsub & Hc0 & Hd0 & Ho0 & Hl0 & Hoa & Hla & Hcase).
  rewrite Hsub, (run_getObj _ _ _ Hoa).
  destruct (isValid oa) eqn:Hv; simpl.
  2:{ assert (Hnone : forall a' oa' r, lookup s !! K1 = Some a' -> objs s !! a' = Some oa' ->
                        dependencies oa' = Some r -> False).
      { intros a' oa' r Ha' Hoa' Hd'.
        destruct Hcase as [(H1 & H2 & _)|(H1 & _)]; [|congruence].
        rewrite H1 in Ha'. injection Ha' as <-. rewrite H2 in Hoa'. injection Hoa' as <-.
        rewrite (Hinv _ _ H2 Hv) in Hd'. done. }
      split; (split; [intros _ a' oa' r x H1 H2 H3; by destruct (Hnone a' oa' r)|]);
        intros _; by exists 0, s0. }
  destruct (subscript_cases s0 K2 Hc0)
    as (b & s1 & ob & Hsub1 & Hc1 & Hd1 & Ho1 & Hl1 & Hob & Hlb & Hcase1).
  rewrite Hsub1. pose proof (Ho1 _ _ Hoa) as Hoa1.
  pose proof Hc1 as (Hwf1 & _).
  (* the record of [K2] in [s] *)
  assert (Hb : lookup s !! K2 = Some b /\ objs s !! b = Some ob \/
               objs s !! b = None /\ isValid ob = true).
  { destruct Hcase1 as [(H1 & H2 & ->)|(H1 & H2 & ->)].
    - destruct Hcase as [(_ & _ & ->)|(G1 & G2 & ->)]; [by left|].
      destruct (decide (K1 = K2)) as [<-|Hne].
      + rewrite Hla in H1. injection H1 as <-. rewrite Hoa in H2. injection H2 as <-.
        by right.
      + left. unfold MemorySafety.subscript in Hsub. rewrite G1 in Hsub.
        injection Hsub as <- <-. simpl in *.
        rewrite lookup_insert_ne in H1 by done. split; [done|].
        rewrite lookup_insert_ne in H2; [done|]. intros <-.
        destruct Hc as (_ & _ & [Hll _] & _). destruct (Hll _ _ H1) as [? E].
        destruct Hwf as (Ha & _). destruct (Ha (top s)) as [E' _]; [lia|]. congruence.
    - right. split; [|done]. destruct (objs s !! b) as [o|] eqn:E; [|done].
      rewrite (Ho0 _ _ E) in H2. done. }
  (* the root of the tree of [K1] *)
  assert (Hroot : forall r, dependencies oa = Some r ->
            lookup s !! K1 = Some a /\ objs s !! a = Some oa /\
            exists x, deps s !! r = Some x).
  { intros r Hr. destruct Hcase as [(H1 & H2 & _)|(_ & _ & ->)]; [|done].
    split; [done|]. split; [done|]. by eapply wf_roots. }
  assert (Hdeps : deps s1 = deps s) by congruence.
  assert (Hiff : forall c,
    (exists fuel s', Object.addDependency fuel a b c s1 = Ret tt s') <->
    (forall a' oa' r x, lookup s !! K1 = Some a' -> objs s !! a' = Some oa' ->
       dependencies oa' = Some r -> deps s !! r = Some x -> lookup s !! K2 = Some (B x))).
  { intros c.
    rewrite (Object_addDependency_returns_iff s1 a b c oa Hc1 Hoa1 Hv); [|eauto].
    rewrite Hdeps. split.
    - intros Hcond a' oa' r x Ha' Hoa' Hr Hx.
      destruct Hcase as [(H1 & H2 & _)|(H1 & _)]; [|congruence].
      rewrite H1 in Ha'. injection Ha' as <-. rewrite H2 in Hoa'. injection Hoa' as <-.
      destruct Hcond as [?|(r' & x' & Hr' & Hx' & HB)]; [congruence|].
      rewrite Hr in Hr'. injection Hr' as <-. rewrite Hx in Hx'. injection Hx' as <-.
      destruct Hb as [[? _]|[Hn _]]; [congruence|].
      destruct Hwf as (_ & Hp & _). destruct (Hp _ _ Hx) as [_ [? E]]. congruence.
    - intros HP. destruct (dependencies oa) as [r|] eqn:Hr; [right|by left].
      destruct (Hroot r eq_refl) as (H1 & H2 & x & Hx).
      exists r, x. split; [done|]. split; [done|].
      pose proof (HP a oa r x H1 H2 Hr Hx) as HK2.
      destruct Hb as [[E _]|[Hn _]]; [congruence|].
      destruct Hc as (_ & _ & [Hll _] & _). destruct (Hll _ _ HK2) as [? E].
      destruct Hwf as (_ & Hp & _). destruct (Hp _ _ Hx) as [_ [? E']].
      destruct Hcase1 as [(G1 & _)|(G1 & _)].
      + destruct Hcase as [(_ & _ & ->)|(F1 & _ & _)]; [congruence|].
        destruct (decide (K1 = K2)) as [<-|Hne]; [congruence|].
        unfold MemorySafety.subscript in Hsub. rewrite F1 in Hsub.
        injection Hsub as <- <-. simpl in G1. rewrite lookup_insert_ne in G1 by done.
        congruence.
      + rewrite (Hl0 _ _ HK2) in G1. done. }
  split.
  - apply Hiff.
  - rewrite (run_getObj _ _ _ Hob). destruct (isValid ob) eqn:Hvb; simpl.
    + rewrite Hiff. split.
      * intros HP a' oa' r x H1 H2 H3 H4. left. by eapply HP.
      * intros HP a' oa' r x H1 H2 H3 H4.
        destruct (HP a' oa' r x H1 H2 H3 H4) as [?|(b' & ob' & G1 & G2 & G3)]; [done|].
        exfalso. destruct Hb as [[E1 E2]|[E1 _]].
        -- rewrite E1 in G1. injection G1 as <-. congruence.
        -- destruct Hcase1 as [(F1 & _)|(F1 & _)].
           ++ destruct Hcase as [(_ & _ & ->)|(F0 & F2 & _)].
              ** rewrite F1 in G1. injection G1 as <-. congruence.
              ** destruct (decide (K1 = K2)) as [<-|Hne]; [congruence|].
                 unfold MemorySafety.subscript in Hsub. rewrite F0 in Hsub.
                 injection Hsub as <- <-. simpl in F1.
                 rewrite lookup_insert_ne in F1 by done.
                 rewrite F1 in G1. injection G1 as <-. congruence.
           ++ rewrite (Hl0 _ _ G1) in F1. done.
    + destruct (invalidate_total s1 a Hwf1) as (N & s' & T & Hrun & _); [eauto|].
      split.
      * intros _ a' oa' r x H1 H2 H3 H4. right.
        destruct Hb as [[E1 E2]|[_ E]]; [|congruence]. eauto.
      * intros _. exists N, s'. by apply Hrun.
Qed.

Lemma edge_calls_return_iff_witness :
  (exists fuel s', add_dependency fuel 400 100 three_records = Ret tt s') /\
  ~ (exists fuel s', add_dependency fuel 400 200 three_records = Ret tt s').
Proof.
  split.
  - apply (proj2 (proj1 (edge_calls_return_iff three_records 400 100
                            safe_calls_three_records))).
    intros a oa r x Ha Hoa Hr Hx. vm_compute in Ha. injection Ha as <-.
    vm_compute in Hoa. injection Hoa as <-. injection Hr as <-.
    vm_compute in Hx. injection Hx as <-. reflexivity.
  - intros H.
    pose proof (proj1 (proj1 (edge_calls_return_iff three_records 400 200
                                safe_calls_three_records)) H
                  4%positive _ 6%positive _ eq_refl eq_refl eq_refl eq_refl) as H'.
    vm_compute in H'. discriminate H'.
Defined.

(** ** Repeating an edge operation *)

(** On the edge at the root that needs no upgrade, [Object::addDependency]
    returns with the memory as it was. *)
Lemma Object_addDependency_again s a b (c : bool) oa r x :
  consistent s -> objs s !! a = Some oa -> dependencies oa = Some r ->
  deps s !! r = Some x -> B x = b -> c && negb (content x) = false ->
  forall fuel, Object.addDependency (S (S fuel)) a b c s = Ret tt s.
Proof.
  intros Hc Hoa Hr Hx HB Hup fuel.
  destruct (addDependency_found s a b c oa r x Hc Hoa Hr Hx HB)
    as (s' & Hrun & _ & _ & _ & _ & _ & Hsame & _).
  rewrite (Hrun fuel). by rewrite (Hsame Hup).
Qed.

(** X9: the edge operations are idempotent.  On a memory reached by safe
    calls, when [add_dependency(A, B)] or [add_content_dependency(A, B)] has
    returned, the same call made again returns with the memory unchanged. *)
Theorem edge_calls_idempotent (s s' : MemorySafety) (K1 K2 : Z) (fuel : nat) :
  safe_calls logic s ->
  (add_dependency fuel K1 K2 s = Ret tt s' ->
   forall fuel', add_dependency (2 + fuel') K1 K2 s' = Ret tt s') /\
  (add_content_dependency fuel K1 K2 s = Ret tt s' ->
   forall fuel', add_content_dependency (2 + fuel') K1 K2 s' = Ret tt s').
Proof.
  intros Hs. pose proof (safe_calls_initialized _ Hs) as Hi.
  pose proof (safe_calls_consistent _ _ Hs logic_consistent) as Hc.
  split.
  - intros Hrun fuel'.
    assert (Hi' : initialized s' = true).
    { rewrite <- Hi. apply (perform_initialized fuel (AddDependency K1 K2)). exact Hrun. }
    unfold add_dependency, isAvailable, bind in *. rewrite Hi in Hrun. rewrite Hi'.
    destruct (addDependency_edge fuel K1 K2 s s' Hc Hrun) as (Hc' & a & oa & Ha & Hoa & Hedge).
    unfold MemorySafety.addDependency, bind.
    rewrite (run_subscript_Some _ _ _ Ha), (run_getObj _ _ _ Hoa).
    destruct (isValid oa) eqn:Hv; [|done]. simpl.
    destruct (Hedge eq_refl) as (b & ob & r & x & Hb & Hob & Hr & Hx & HA & HB).
    rewrite (run_subscript_Some _ _ _ Hb).
    by apply (Object_addDependency_again s' a b false oa r x).
  - intros Hrun fuel'.
    assert (Hi' : initialized s' = true).
    { rewrite <- Hi. apply (perform_initialized fuel (AddContentDependency K1 K2)). exact Hrun. }
    unfold add_content_dependency, isAvailable, bind in *. rewrite Hi in Hrun. rewrite Hi'.
    unfold MemorySafety.addContentDependency in Hrun.
    apply bind_Ret_inv in Hrun as (a & s0 & Hsub & Hrun).
    destruct (subscript_consistent s K1 a s0 Hc Hsub) as (Hc0 & Hla & _).
    pose proof Hc0 as (_ & _ & [Hl0 _] & _). destruct (Hl0 _ _ Hla) as [oa Hoa].
    apply bind_Ret_inv in Hrun as (o & s0' & Hg & Hrun).
    rewrite (run_getObj _ _ _ Hoa) in Hg. injection Hg as <- <-.
    destruct (isValid oa) eqn:Hv; simpl in Hrun.
    2:{ injection Hrun as <-. unfold MemorySafety.addContentDependency, bind.
        by rewrite (run_subscript_Some _ _ _ Hla), (run_getObj _ _ _ Hoa), Hv. }
    apply bind_Ret_inv in Hrun as (b & s1 & Hsub1 & Hrun).
    destruct (subscript_consistent s0 K2 b s1 Hc0 Hsub1) as (Hc1 & Hlb & Hk1 & _ & Hobjs).
    pose proof Hc1 as (Hwf1 & _ & [Hl1' _] & _).
    destruct (Hl1' _ _ Hlb) as [ob Hob].
    pose proof Hk1 as (_ & Hlk1 & _). pose proof (Hlk1 _ _ Hla) as Hla1.
    apply bind_Ret_inv in Hrun as (o & s1' & Hg & Hrun).
    rewrite (run_getObj _ _ _ Hob) in Hg. injection Hg as <- <-.
    destruct (isValid ob) eqn:Hvb; simpl in Hrun.
    + destruct (Object_addDependency_returns fuel s1 a b true oa s' Hc1 (Hobjs _ _ Hoa) Hv
                  (Hl1' _ _ Hlb) Hrun)
        as (Hc' & Hk' & r & x & oa' & Hoa' & Hd' & Hx & HA & HB & Hcx).
      pose proof Hk' as (_ & Hlk' & Hfl' & _).
      destruct (Hfl' _ _ (Hobjs _ _ Hoa)) as (oa2 & Hoa2 & Hva).
      rewrite Hoa' in Hoa2. injection Hoa2 as <-.
      destruct (Hfl' _ _ Hob) as (ob' & Hob' & Hvb').
      unfold MemorySafety.addContentDependency, bind.
      rewrite (run_subscript_Some _ _ _ (Hlk' _ _ Hla1)), (run_getObj _ _ _ Hoa'), Hva, Hv.
      simpl. rewrite (run_subscript_Some _ _ _ (Hlk' _ _ Hlb)), (run_getObj _ _ _ Hob').
      rewrite Hvb', Hvb. simpl.
      apply (Object_addDependency_again s' a b true oa' r x); try done.
      by rewrite (Hcx eq_refl).
    + destruct (invalidate_returns fuel s1 a s' Hwf1) as (T & Hcas & HT); [eauto|done|].
      pose proof Hcas as (_ & (Hlk & _) & Hdead).
      destruct (Hdead a) as [(oa' & Hoa' & Hva') _]; [apply HT, rtc_refl|].
      unfold MemorySafety.addContentDependency, bind.
      rewrite run_subscript_Some with (p := a) by (by rewrite Hlk).
      by rewrite (run_getObj _ _ _ Hoa'), Hva'.
Qed.

Lemma edge_calls_idempotent_witness :
  add_dependency 2 100 200 after_first_edge = Ret tt after_first_edge.
Proof.
  exact (proj1 (edge_calls_idempotent logic after_first_edge 100 200 1
                  (safe_calls_nil logic))
           (add_dependency_first_edge 0) 0).
Defined.

(** ** The destructor *)

(** Invalidating the objects of a list one after the other leaves them all
    dead, together with those that were dead. *)
Lemma invalidate_each_total order : forall s (D : positive -> Prop),
  wf s -> (forall e, e ∈ order -> is_Some (objs s !! e.2)) ->
  (forall p, D p -> dead s p) ->
  exists N s',
    (forall fuel, N <= fuel -> MemorySafety.invalidate_each fuel order s = Ret tt s') /\
    wf s' /\ lookup s' = lookup s /\ top s' = top s /\ initialized s' = initialized s /\
    (forall p, objs s !! p = None -> objs s' !! p = None) /\
    (forall p, D p -> dead s' p) /\
    (forall e, e ∈ order -> dead s' e.2).
Proof.
  induction order as [|e order IH]; intros s D Hwf Hall HD.
  - exists 0, s. split_and!; try done. intros e He. by apply elem_of_nil in He.
  - destruct (invalidate_total s e.2 Hwf) as (N1 & s1 & T & Hrun1 & Hc & HT).
    { apply Hall. by left. }
    pose proof Hc as (Hwf1 & Hf & Hd).
    destruct (IH s1 (fun p => D p \/ p = e.2) Hwf1)
      as (N2 & s2 & Hrun2 & Hwf2 & Hl2 & Ht2 & Hi2 & Hn2 & HD2 & Hd2).
    { intros e' He'. destruct (Hall e') as [o Ho]; [by right|].
      by eapply frame_obj_fwd. }
    { intros p [Hp| ->].
      - eapply dead_frame; [exact Hf|]. by apply HD.
      - apply Hd, HT, rtc_refl. }
    pose proof Hf as (Hl1 & Ht1 & Hi1 & Hn1 & _).
    exists (N1 `max` N2), s2. split_and!; try congruence.
    + intros fuel Hfuel. simpl. unfold bind. rewrite Hrun1 by lia. apply Hrun2. lia.
    + intros p Hp. by apply Hn2, Hn1.
    + intros p Hp. apply HD2. by left.
    + intros e' [->|He']%elem_of_cons; [|by apply Hd2]. apply HD2. by right.
Qed.

(** X10: the destructor releases everything.  On a memory reached by safe
    calls, whatever the order in which the map is traversed, the destructor
    returns and leaves no node in the map, no [Object] and no [Dependency];
    [initialized] is false, so that every later call of an entry point
    returns at once with the memory unchanged. *)
Theorem destructor_releases_all (s : MemorySafety) (order : list (Z * positive)) :
  safe_calls logic s ->
  order ≡ₚ map_to_list (lookup s) ->
  exists N s',
    (forall fuel, N <= fuel -> MemorySafety.destructor fuel order s = Ret tt s') /\
    lookup s' = ∅ /\ objs s' = ∅ /\ deps s' = ∅ /\ initialized s' = false /\
    (forall fuel c, perform fuel c s' = Ret tt s') /\
    (forall K, validate K s' = Ret [] s').
Proof.
  intros Hs Hperm.
  pose proof (safe_calls_consistent _ _ Hs logic_consistent) as (Hwf & _ & [Hl1 _] & _).
  destruct (calls_registry _ _ (safe_calls_calls _ _ Hs) logic_registry) as (_ & Hheld & _).
  assert (Hin : forall K p, (K, p) ∈ order <-> lookup s !! K = Some p).
  { intros K p. rewrite Hperm. apply elem_of_map_to_list. }
  destruct (invalidate_each_total order s (fun _ => False) Hwf)
    as (N & s1 & Hrun & Hwf1 & Hlk & Ht & Hi & Hn & _ & Hd).
  { intros [K p] He. apply Hin in He. by eapply Hl1. }
  { done. }
  assert (Hdeps : deps s1 = ∅).
  { apply map_empty. intros e. destruct (deps s1 !! e) as [x|] eqn:Hx; [exfalso|done].
    pose proof Hwf1 as (_ & Hp & _). destruct (Hp _ _ Hx) as [[oa Hoa] _].
    destruct (objs s !! A x) as [o|] eqn:Ho; [|by rewrite (Hn _ Ho) in Hoa].
    destruct (Hheld (A x)) as [K HK]; [eauto|].
    apply Hin in HK. by destruct (dead_no_edge s1 (A x) e x (Hd _ HK) Hx). }
  assert (Hobjs : filter (fun po => po.1 ∉ (map_img (lookup s1) : gset positive)) (objs s1)
                  = ∅).
  { apply map_empty. intros p. apply map_lookup_filter_None. right. intros o Ho Hnot.
    apply Hnot. simpl. apply elem_of_map_img.
    destruct (objs s !! p) as [o0|] eqn:Ho0; [|by rewrite (Hn _ Ho0) in Ho].
    destruct (Hheld p) as [K HK]; [eauto|]. exists K. by rewrite Hlk. }
  exists N. eexists. split.
  { intros fuel Hfuel. unfold MemorySafety.destructor, bind. rewrite (Hrun fuel Hfuel).
    unfold MemorySafety.clear, MemorySafety.set_initialized. rewrite Hobjs, Hdeps.
    reflexivity. }
  simpl. split_and!; try done.
  intros fuel [K|K1 K2|K1 K2|K|K]; reflexivity.
Qed.

Lemma destructor_releases_all_witness :
  exists N s',
    (forall fuel, N <= fuel ->
       MemorySafety.destructor fuel [(400%Z, 4%positive); (100%Z, 5%positive);
                                     (200%Z, 1%positive)] three_records = Ret tt s') /\
    objs s' = ∅ /\ deps s' = ∅ /\ validate 200 s' = Ret [] s'.
Proof.
  destruct (destructor_releases_all three_records
              [(400%Z, 4%positive); (100%Z, 5%positive); (200%Z, 1%positive)]
              safe_calls_three_records)
    as (N & s' & Hrun & _ & Ho & Hd & _ & _ & Hv).
  { vm_compute.
    apply perm_trans with [(100%Z, 5%positive); (400%Z, 4%positive); (200%Z, 1%positive)];
      [apply perm_swap|apply perm_skip, perm_swap]. }
  exists N, s'. split; [exact Hrun|]. split; [exact Ho|]. split; [exact Hd|]. apply Hv.
Defined.

(** ** [link] and [unlink] on the list of a chain *)

Lemma chain_is_ok dm p k hd l : chain_is dm p k hd l -> chain_ok dm p k hd.
Proof. intros H. by exists l. Qed.

Lemma incoming_set_incoming c v o : incoming (set_incoming c v o) c = v.
Proof. by destruct c. Qed.

Lemma set_incoming_back c v o : set_incoming c (incoming o c) (set_incoming c v o) = o.
Proof. by destruct o, c. Qed.

(** X11: [Dependency::unlink] takes the node out of the incoming list of its
    target and kind.  When that list is [l1 ++ e :: l2], from the head on,
    [unlink(e)] returns; the list is then [l1 ++ l2], the node is still
    allocated with [prev] and [next] null and its other fields as they were,
    and the lists of the other targets and kinds and all trees are as
    before. *)
Theorem unlink_removes (s : MemorySafety) (e : positive) (x : Dependency) (ob : Object)
    (l1 l2 : list positive) :
  deps s !! e = Some x -> objs s !! B x = Some ob ->
  chain_is (deps s) (B x) (content x) (incoming ob (content x)) (l1 ++ e :: l2) ->
  exists s' ob',
    Dependency.unlink e s = Ret tt s' /\
    objs s' !! B x = Some ob' /\
    chain_is (delete e (deps s')) (B x) (content x) (incoming ob' (content x)) (l1 ++ l2) /\
    deps s' !! e = Some (set_next None (set_prev None x)) /\
    (forall p k e', ~ (p = B x /\ k = content x) ->
       cv (deps s') p k e' = cv (deps s) p k e') /\
    (forall p e', tv (deps s') p e' = tv (deps s) p e').
Proof.
  intros He Hob Hch. pose proof (chain_is_ok _ _ _ _ _ Hch) as Hok.
  destruct (released_side s e x _ He Hok) as [Hs1 Hs2].
  destruct (released_chain_list s e x ob _ He l1 l2 Hch) as (Hpv & Hnx & Hl).
  assert (Hdel : delete e (deps (unlinked e x ob s)) = deps (released e x ob s)).
  { simpl. by rewrite !delete_alter_eq. }
  assert (He' : deps (unlinked e x ob s) !! e = Some (set_next None (set_prev None x))).
  { simpl. rewrite !lookup_alter_eq, !lookup_alt.
    destruct (decide _) as [E|]; [by destruct (Hs2 _ E)|].
    destruct (decide _) as [E|]; [by destruct (Hs1 _ E)|].
    by rewrite He. }
  assert (Hne : forall e', e' <> e ->
            deps (unlinked e x ob s) !! e' = deps (released e x ob s) !! e').
  { intros e' Hn. by rewrite <- Hdel, lookup_delete_ne. }
  exists (unlinked e x ob s),
         (match prev x with
          | Some _ => ob
          | None => set_incoming (content x) (next x) ob
          end).
  split_and!.
  - by apply unlink_run.
  - simpl. destruct (prev x); [done|]. apply lookup_insert_eq.
  - rewrite Hdel. destruct (prev x); [done|]. by rewrite incoming_set_incoming.
  - done.
  - intros p k e' Hlab. destruct (decide (e' = e)) as [->|Hn].
    + unfold cv. rewrite He', He. cbn [B content set_next set_prev].
      by destruct (decide (B x = p /\ content x = k)) as [[? ?]|]; [destruct Hlab|].
    + unfold cv at 1. rewrite (Hne e' Hn).
      by apply (released_cv_other s e x ob _ He Hok).
  - intros p e'. destruct (decide (e' = e)) as [->|Hn].
    + unfold tv. by rewrite He', He.
    + unfold tv at 1. rewrite (Hne e' Hn).
      fold (tv (deps (released e x ob s)) p e'). rewrite released_tv.
      by destruct (decide (e' = e)).
Qed.

(** X12: [Dependency::link] puts the node at the head of the incoming list
    of its target and kind.  When the other nodes of that list are [l], from
    the head on, [link(d)] returns; the head is then [d], the list is
    [d :: l], and the lists of the other targets and kinds and all trees are
    as before. *)
Theorem link_prepends (s : MemorySafety) (d : positive) (x : Dependency) (ob : Object)
    (l : list positive) :
  deps s !! d = Some x -> objs s !! B x = Some ob ->
  chain_is (delete d (deps s)) (B x) (content x) (incoming ob (content x)) l ->
  exists s' ob',
    Dependency.link d s = Ret tt s' /\
    objs s' !! B x = Some ob' /\ incoming ob' (content x) = Some d /\
    chain_is (deps s') (B x) (content x) (Some d) (d :: l) /\
    (forall p k e, ~ (p = B x /\ k = content x) ->
       cv (deps s') p k e = cv (delete d (deps s)) p k e) /\
    (forall p e, tv (deps s') p e = tv (deps s) p e).
Proof.
  intros Hd Hob Hch. pose proof (chain_is_ok _ _ _ _ _ Hch) as Hok.
  exists (linked d x ob s), (set_incoming (content x) (Some d) ob). split_and!.
  - apply link_run; try done. by apply linked_side.
  - simpl. apply lookup_insert_eq.
  - apply incoming_set_incoming.
  - by apply linked_chain_list.
  - intros p k e Hlab. by apply linked_cv_other.
  - intros p e. by apply linked_tv.
Qed.

(** X13: [unlink] undoes [link].  For a node whose [prev] and [next] are
    null and that is on no list, [link] followed by [unlink] returns with
    the memory exactly as it was. *)
Theorem link_unlink_round_trip (s : MemorySafety) (d : positive) (x : Dependency)
    (ob : Object) :
  deps s !! d = Some x -> prev x = None -> next x = None ->
  objs s !! B x = Some ob ->
  chain_ok (delete d (deps s)) (B x) (content x) (incoming ob (content x)) ->
  (Dependency.link d;; Dependency.unlink d) s = Ret tt s.
Proof.
  intros Hd Hpv Hnx Hob Hch.
  set (hd := incoming ob (content x)).
  set (x1 := set_next hd (set_prev None x)).
  set (ob1 := set_incoming (content x) (Some d) ob).
  set (s1 := linked d x ob s).
  assert (Hx1 : deps s1 !! d = Some x1).
  { unfold s1. rewrite linked_lookup by done. by destruct (decide (d = d)). }
  assert (Hob1 : objs s1 !! B x1 = Some ob1) by apply lookup_insert_eq.
  eapply run_bind.
  { apply (link_run s d x ob Hd Hob). by apply linked_side. }
  fold s1. rewrite (unlink_run s1 d x1 ob1 Hx1 Hob1).
  2:{ intros a Ha. done. }
  2:{ intros n Hn. cbn [next x1 set_next set_prev] in Hn.
      destruct (linked_side s d x ob Hch n Hn) as [Hne [y Hy]]. split; [done|].
      destruct (linked_fields s d x ob Hd Hch n y Hy) as (y' & Hy' & _). eauto. }
  assert (Hnd : hd <> Some d).
  { intros E. by destruct (linked_side s d x ob Hch d E). }
  assert (Hhead : forall e y, hd = Some e -> deps s !! e = Some y -> prev y = None).
  { intros e y E Hy. pose proof Hch as (l & _ & Hhd & Hcv). fold hd in Hhd.
    assert (Hin : e ∈ l) by (rewrite Hhd in E; by apply head_Some_elem_of in E).
    destruct (chain_elem _ _ _ _ e Hcv Hin) as (y' & Hy' & _ & _ & Hp & _).
    apply lookup_delete_Some in Hy' as [_ Hy']. rewrite Hy in Hy'. injection Hy' as <-.
    rewrite Hp. destruct l as [|a l']; [done|]. simpl in Hhd. rewrite Hhd in E.
    injection E as ->. unfold before. simpl. by destruct (decide (e = e)). }
  clear Hch Hx1 Hob1.
  f_equal. destruct s as [lk om dm tp ini]. unfold unlinked, s1, linked. simpl in *.
  f_equal.
  - fold hd. rewrite insert_insert_eq. unfold ob1. fold hd.
    assert (set_incoming (content x) hd (set_incoming (content x) (Some d) ob) = ob) as ->.
    { apply set_incoming_back. }
    by apply insert_id.
  - apply map_eq. intros e. fold hd.
    destruct (decide (d = e)) as [<-|Hne].
    + rewrite !lookup_alter_eq, !lookup_alt.
      destruct (decide (hd = Some d)) as [|_]; [done|].
      rewrite !lookup_alter_eq, Hd. simpl. f_equal. destruct x. simpl in *. by subst.
    + rewrite !lookup_alter_ne by done. rewrite !lookup_alt.
      destruct (decide (hd = Some e)) as [E|]; rewrite !lookup_alter_ne by done; [|done].
      destruct (dm !! e) as [y|] eqn:Hy; [|done]. simpl. f_equal.
      pose proof (Hhead e y E Hy) as Hp0.
      destruct y. simpl in *. by subst.
Qed.

(** The content chain of 100 in [three_records] is the single edge 6; with
    the edge unlinked, [three_records] becomes [edge_unlinked]. *)
Lemma three_records_chain :
  chain_is (deps three_records) 5 true (Some 6%positive) ([] ++ [6%positive]).
Proof.
  split; [apply NoDup_singleton|]. split; [done|].
  intros e. unfold cv. simpl. destruct (decide (e = 6%positive)) as [->|Hne].
  - by destruct (decide (6%positive ∈ [6%positive])) as [|[]]; [|set_solver].
  - rewrite lookup_insert_ne by done. rewrite lookup_empty.
    by destruct (decide (e ∈ [6%positive])) as [H|]; [apply list_elem_of_singleton in H|].
Qed.

Lemma unlink_removes_witness :
  exists s' ob',
    Dependency.unlink 6 three_records = Ret tt s' /\
    objs s' !! 5%positive = Some ob' /\
    chain_is (delete 6%positive (deps s')) 5 true (incoming ob' true) [] /\
    incoming ob' true = None.
Proof.
  destruct (unlink_removes three_records 6
              {| A := 4; B := 5; content := true; parent := None;
                 left := None; right := None; prev := None; next := None |}
              {| dependencies := None; incoming0 := None;
                 incoming1 := Some 6%positive; isValid := true |}
              [] [] eq_refl eq_refl three_records_chain)
    as (s' & ob' & Hrun & Hob & Hch & _).
  exists s', ob'. split; [exact Hrun|]. split; [exact Hob|]. split; [exact Hch|].
  destruct Hch as (_ & Hhd & _). exact Hhd.
Defined.

Lemma edge_unlinked_chain :
  chain_is (delete 6%positive (deps (unlinked 6
              {| A := 4; B := 5; content := true; parent := None;
                 left := None; right := None; prev := None; next := None |}
              {| dependencies := None; incoming0 := None;
                 incoming1 := Some 6%positive; isValid := true |} three_records)))
           5 true None [].
Proof.
  split; [apply NoDup_nil_2|]. split; [done|].
  intros e. unfold cv.
  assert (delete 6%positive (deps (unlinked 6
              {| A := 4; B := 5; content := true; parent := None;
                 left := None; right := None; prev := None; next := None |}
              {| dependencies := None; incoming0 := None;
                 incoming1 := Some 6%positive; isValid := true |} three_records)) = ∅) as ->.
  { by vm_compute. }
  rewrite lookup_empty. destruct (decide (e ∈ [])) as [H|]; [by apply elem_of_nil in H|done].
Qed.

Lemma link_prepends_witness :
  exists s' ob',
    Dependency.link 6 (unlinked 6
              {| A := 4; B := 5; content := true; parent := None;
                 left := None; right := None; prev := None; next := None |}
              {| dependencies := None; incoming0 := None;
                 incoming1 := Some 6%positive; isValid := true |} three_records)
      = Ret tt s' /\
    objs s' !! 5%positive = Some ob' /\ incoming ob' true = Some 6%positive /\
    chain_is (deps s') 5 true (Some 6%positive) [6%positive].
Proof.
  destruct (link_prepends (unlinked 6
              {| A := 4; B := 5; content := true; parent := None;
                 left := None; right := None; prev := None; next := None |}
              {| dependencies := None; incoming0 := None;
                 incoming1 := Some 6%positive; isValid := true |} three_records) 6
              {| A := 4; B := 5; content := true; parent := None;
                 left := None; right := None; prev := None; next := None |}
              {| dependencies := None; incoming0 := None;
                 incoming1 := None; isValid := true |}
              [] eq_refl eq_refl edge_unlinked_chain)
    as (s' & ob' & Hrun & Hob & Hhd & Hch & _).
  exists s', ob'. split; [exact Hrun|]. split; [exact Hob|]. split; [exact Hhd|exact Hch].
Defined.

Lemma link_unlink_round_trip_witness :
  (Dependency.link 6;; Dependency.unlink 6)
    (unlinked 6
       {| A := 4; B := 5; content := true; parent := None;
          left := None; right := None; prev := None; next := None |}
       {| dependencies := None; incoming0 := None;
          incoming1 := Some 6%positive; isValid := true |} three_records)
  = Ret tt
    (unlinked 6
       {| A := 4; B := 5; content := true; parent := None;
          left := None; right := None; prev := None; next := None |}
       {| dependencies := None; incoming0 := None;
          incoming1 := Some 6%positive; isValid := true |} three_records).
Proof.
  apply (link_unlink_round_trip _ 6
           {| A := 4; B := 5; content := true; parent := None;
              left := None; right := None; prev := None; next := None |}
           {| dependencies := None; incoming0 := None;
              incoming1 := None; isValid := true |}); try reflexivity.
  exact (chain_is_ok _ _ _ _ _ edge_unlinked_chain).
Defined.

(** * The rotations and [splay] *)

(** ** The memory after a rotation *)

Lemma relink_run dep o p s xp :
  deps s !! p = Some xp ->
  (if bool_decide (Some dep = left xp)
   then modDep p (set_left o) else modDep p (set_right o)) s
  = Ret tt {| lookup := lookup s; objs := objs s;
              deps := <[p := relink dep o xp]> (deps s); top := top s;
              initialized := initialized s |}.
Proof.
  intros Hp. unfold relink. destruct (bool_decide (Some dep = left xp)); by apply run_modDep.
Qed.

Ltac rot_run :=
  ms_norm;
  lazymatch goal with
  | |- bind _ _ _ = _ => eapply run_bind; [ rot_run | rot_run ]
  | |- ret _ _ = _ => reflexivity
  | |- getObj _ _ = _ => eapply run_getObj; ms_lookup
  | |- getDep _ _ = _ => eapply run_getDep; ms_lookup
  | |- modObj _ _ _ = _ => eapply run_modObj; ms_lookup
  | |- modDep _ _ _ = _ => eapply run_modDep; ms_lookup
  | |- (if bool_decide _ then _ else _) _ = _ => eapply relink_run; ms_lookup
  | |- (match ?o with Some _ => _ | None => _ end) _ = _ =>
      match goal with H : o = _ |- _ => rewrite H end; rot_run
  end.

Lemma leftRotate_run s this dep xd o xo ot :
  objs s !! this = Some ot ->
  deps s !! dep = Some xd -> right xd = Some o -> deps s !! o = Some xo -> o <> dep ->
  (forall l, left xo = Some l -> l <> dep /\ l <> o /\ is_Some (deps s !! l)) ->
  (forall p, parent xd = Some p ->
     p <> dep /\ p <> o /\ left xo <> Some p /\ is_Some (deps s !! p)) ->
  exists s',
    Object.leftRotate this dep s = Ret tt s' /\
    lookup s' = lookup s /\ top s' = top s /\ initialized s' = initialized s /\
    objs s' = match parent xd with
              | None => <[this := set_dependencies (Some o) ot]> (objs s)
              | Some _ => objs s
              end /\
    forall e, deps s' !! e =
      if decide (e = dep) then Some (set_parent (Some o) (set_right (left xo) xd))
      else if decide (e = o) then Some (set_left (Some dep) (set_parent (parent xd) xo))
      else if decide (left xo = Some e) then set_parent (Some dep) <$> deps s !! e
      else if decide (parent xd = Some e) then relink dep (Some o) <$> deps s !! e
      else deps s !! e.
Proof.
  intros Hot Hd Hr Ho Hne Hl Hp. destruct s as [lk om dm tp ini]. simpl in *.
  unfold Object.leftRotate.
  destruct (left xo) as [l|] eqn:El; destruct (parent xd) as [p|] eqn:Ep.
  - destruct (Hl l eq_refl) as (Hl1 & Hl2 & [xl Hxl]).
    destruct (Hp p eq_refl) as (Hp1 & Hp2 & Hp3 & [xp Hxp]).
    assert (p <> l) by congruence.
    eexists. split; [rot_run|]. simpl. rewrite Hr. split_and!; try done.
    intros e. repeat case_decide; simplify_eq;
      rewrite ?lookup_insert_eq, ?lookup_insert_ne by congruence;
      rewrite ?lookup_insert_eq, ?lookup_insert_ne by congruence;
      rewrite ?lookup_insert_eq, ?lookup_insert_ne by congruence;
      rewrite ?lookup_insert_eq, ?lookup_insert_ne by congruence;
      rewrite ?lookup_insert_eq, ?lookup_insert_ne by congruence;
      rewrite ?Hxl, ?Hxp; done.
  - destruct (Hl l eq_refl) as (Hl1 & Hl2 & [xl Hxl]).
    eexists. split; [rot_run|]. simpl. rewrite Hr. split_and!; try done.
    intros e. repeat case_decide; simplify_eq;
      rewrite ?lookup_insert_eq, ?lookup_insert_ne by congruence;
      rewrite ?lookup_insert_eq, ?lookup_insert_ne by congruence;
      rewrite ?lookup_insert_eq, ?lookup_insert_ne by congruence;
      rewrite ?lookup_insert_eq, ?lookup_insert_ne by congruence;
      rewrite ?Hxl; done.
  - destruct (Hp p eq_refl) as (Hp1 & Hp2 & Hp3 & [xp Hxp]).
    eexists. split; [rot_run|]. simpl. rewrite Hr. split_and!; try done.
    intros e. repeat case_decide; simplify_eq;
      rewrite ?lookup_insert_eq, ?lookup_insert_ne by congruence;
      rewrite ?lookup_insert_eq, ?lookup_insert_ne by congruence;
      rewrite ?lookup_insert_eq, ?lookup_insert_ne by congruence;
      rewrite ?lookup_insert_eq, ?lookup_insert_ne by congruence;
      rewrite ?Hxp; done.
  - eexists. split; [rot_run|]. simpl. rewrite Hr. split_and!; try done.
    intros e. repeat case_decide; simplify_eq;
      rewrite ?lookup_insert_eq, ?lookup_insert_ne by congruence;
      rewrite ?lookup_insert_eq, ?lookup_insert_ne by congruence;
      rewrite ?lookup_insert_eq, ?lookup_insert_ne by congruence;
      done.
Qed.

Lemma rightRotate_run s this dep xd o xo ot :
  objs s !! this = Some ot ->
  deps s !! dep = Some xd -> left xd = Some o -> deps s !! o = Some xo -> o <> dep ->
  (forall r, right xo = Some r -> r <> dep /\ r <> o /\ is_Some (deps s !! r)) ->
  (forall p, parent xd = Some p ->
     p <> dep /\ p <> o /\ right xo <> Some p /\ is_Some (deps s !! p)) ->
  exists s',
    Object.rightRotate this dep s = Ret tt s' /\
    lookup s' = lookup s /\ top s' = top s /\ initialized s' = initialized s /\
    objs s' = match parent xd with
              | None => <[this := set_dependencies (Some o) ot]> (objs s)
              | Some _ => objs s
              end /\
    forall e, deps s' !! e =
      if decide (e = dep) then Some (set_parent (Some o) (set_left (right xo) xd))
      else if decide (e = o) then Some (set_right (Some dep) (set_parent (parent xd) xo))
      else if decide (right xo = Some e) then set_parent (Some dep) <$> deps s !! e
      else if decide (parent xd = Some e) then relink dep (Some o) <$> deps s !! e
      else deps s !! e.
Proof.
  intros Hot Hd Hr Ho Hne Hl Hp. destruct s as [lk om dm tp ini]. simpl in *.
  unfold Object.rightRotate.
  destruct (right xo) as [l|] eqn:El; destruct (parent xd) as [p|] eqn:Ep.
  - destruct (Hl l eq_refl) as (Hl1 & Hl2 & [xl Hxl]).
    destruct (Hp p eq_refl) as (Hp1 & Hp2 & Hp3 & [xp Hxp]).
    assert (p <> l) by congruence.
    eexists. split; [rot_run|]. simpl. rewrite Hr. split_and!; try done.
    intros e. repeat case_decide; simplify_eq;
      rewrite ?lookup_insert_eq, ?lookup_insert_ne by congruence;
      rewrite ?lookup_insert_eq, ?lookup_insert_ne by congruence;
      rewrite ?lookup_insert_eq, ?lookup_insert_ne by congruence;
      rewrite ?lookup_insert_eq, ?lookup_insert_ne by congruence;
      rewrite ?lookup_insert_eq, ?lookup_insert_ne by congruence;
      rewrite ?Hxl, ?Hxp; done.
  - destruct (Hl l eq_refl) as (Hl1 & Hl2 & [xl Hxl]).
    eexists. split; [rot_run|]. simpl. rewrite Hr. split_and!; try done.
    intros e. repeat case_decide; simplify_eq;
      rewrite ?lookup_insert_eq, ?lookup_insert_ne by congruence;
      rewrite ?lookup_insert_eq, ?lookup_insert_ne by congruence;
      rewrite ?lookup_insert_eq, ?lookup_insert_ne by congruence;
      rewrite ?lookup_insert_eq, ?lookup_insert_ne by congruence;
      rewrite ?Hxl; done.
  - destruct (Hp p eq_refl) as (Hp1 & Hp2 & Hp3 & [xp Hxp]).
    eexists. split; [rot_run|]. simpl. rewrite Hr. split_and!; try done.
    intros e. repeat case_decide; simplify_eq;
      rewrite ?lookup_insert_eq, ?lookup_insert_ne by congruence;
      rewrite ?lookup_insert_eq, ?lookup_insert_ne by congruence;
      rewrite ?lookup_insert_eq, ?lookup_insert_ne by congruence;
      rewrite ?lookup_insert_eq, ?lookup_insert_ne by congruence;
      rewrite ?Hxp; done.
  - eexists. split; [rot_run|]. simpl. rewrite Hr. split_and!; try done.
    intros e. repeat case_decide; simplify_eq;
      rewrite ?lookup_insert_eq, ?lookup_insert_ne by congruence;
      rewrite ?lookup_insert_eq, ?lookup_insert_ne by congruence;
      rewrite ?lookup_insert_eq, ?lookup_insert_ne by congruence;
      done.
Qed.

(** ** Trees with parent pointers *)

Lemma plug_app C C' t : plug (C ++ C') t = plug C (plug C' t).
Proof. induction C as [|f C IH]; [done|]. simpl. by rewrite IH. Qed.

Lemma nodes_fill f t : nodes (fill f t) =
  match f with
  | InLeft p r => nodes t ++ p :: nodes r
  | InRight l p => nodes l ++ p :: nodes t
  end.
Proof. by destruct f. Qed.

Lemma nodes_plug_in C t e : e ∈ nodes t -> e ∈ nodes (plug C t).
Proof.
  induction C as [|f C IH]; [done|]. intros He. simpl. rewrite nodes_fill.
  destruct f; set_solver.
Qed.

Lemma nodes_plug_eq C t t' : nodes t = nodes t' -> nodes (plug C t) = nodes (plug C t').
Proof.
  intros H. induction C as [|f C IH]; [done|]. simpl. rewrite !nodes_fill.
  destruct f; by rewrite IH.
Qed.

Lemma ptree_ext dm dm' t : forall par root,
  (forall e, e ∈ nodes t -> dm' !! e = dm !! e) ->
  ptree dm par root t -> ptree dm' par root t.
Proof.
  induction t as [|l IHl e r IHr]; intros par root Hext Ht; [done|].
  destruct Ht as (-> & x & Hx & Hp & Hl & Hr). split; [done|].
  exists x. split; [rewrite Hext; [done|simpl; set_solver]|]. split; [done|]. split.
  - apply IHl; [|done]. intros e' He'. apply Hext. simpl. set_solver.
  - apply IHr; [|done]. intros e' He'. apply Hext. simpl. set_solver.
Qed.

Lemma ptree_alloc dm t : forall par root e,
  ptree dm par root t -> e ∈ nodes t -> is_Some (dm !! e).
Proof.
  induction t as [|l IHl e0 r IHr]; intros par root e Ht He.
  - by apply elem_of_nil in He.
  - destruct Ht as (-> & x & Hx & Hp & Hl & Hr). simpl in He.
    apply elem_of_app in He as [He|He]; [by eapply IHl|].
    apply elem_of_cons in He as [->|He]; [eauto|by eapply IHr].
Qed.

(** The root of a tree is one of its nodes. *)
Lemma ptree_root_in dm par root t e : ptree dm par root t -> root = Some e -> e ∈ nodes t.
Proof.
  destruct t as [|l e0 r]; simpl; [congruence|].
  intros (-> & _) [= ->]. set_solver.
Qed.

Lemma ptree_focus dm C t : forall par root,
  ptree dm par root (plug C t) -> exists hr, ptree dm (holepar C par) hr t.
Proof.
  induction C as [|f C IH]; intros par root Ht; [eauto|].
  simpl in *. destruct f as [p r|l p]; simpl in Ht;
    destruct Ht as (-> & x & Hx & Hp & Hl & Hr); by eapply IH.
Qed.

Lemma holepar_node f C t par :
  exists q, holepar (f :: C) par = Some q /\ q ∈ nodes (plug (f :: C) t).
Proof.
  revert f par. induction C as [|g C IH]; intros f par.
  - exists (hole_node f). split; [done|]. simpl. rewrite nodes_fill. destruct f; set_solver.
  - destruct (IH g (Some (hole_node f))) as (q & Hq & Hin). exists q. split; [done|].
    change (plug (f :: g :: C) t) with (fill f (plug (g :: C) t)).
    rewrite nodes_fill. destruct f; set_solver.
Qed.

(** ** The tree after [leftRotate] *)

Section RotL.
Context (dm dm' : gmap positive Dependency) (dep o : positive) (xd xo : Dependency).
Context (a b c : tree).
Hypothesis Hd : dm !! dep = Some xd.
Hypothesis Ho : dm !! o = Some xo.
Hypothesis HF : forall e, dm' !! e =
  if decide (e = dep) then Some (set_parent (Some o) (set_right (left xo) xd))
  else if decide (e = o) then Some (set_left (Some dep) (set_parent (parent xd) xo))
  else if decide (left xo = Some e) then set_parent (Some dep) <$> dm !! e
  else if decide (parent xd = Some e) then relink dep (Some o) <$> dm !! e
  else dm !! e.

Lemma rotL_other e :
  e <> dep -> e <> o -> left xo <> Some e -> parent xd <> Some e -> dm' !! e = dm !! e.
Proof using HF.
  intros H1 H2 H3 H4. rewrite HF. by repeat case_decide.
Qed.

Lemma rotL_here par root :
  NoDup (nodes (Node a dep (Node b o c))) ->
  (forall p, par = Some p -> p ∉ nodes (Node a dep (Node b o c))) ->
  ptree dm par root (Node a dep (Node b o c)) ->
  ptree dm' par (Some o) (Node (Node a dep b) o c).
Proof using All.
  intros Hnd Hpar (-> & x & Hx & Hp & Ha & (Hr & y & Hy & Hpy & Hb & Hc)).
  rewrite Hd in Hx. injection Hx as <-. rewrite Ho in Hy. injection Hy as <-.
  simpl in Hnd, Hpar.
  apply NoDup_app in Hnd as (Hna & Hda & Hnd). apply NoDup_cons in Hnd as (Hdn & Hnd).
  apply NoDup_app in Hnd as (Hnb & Hdb & Hnd). apply NoDup_cons in Hnd as (Hon & Hnc).
  assert (Hdo : dep <> o) by set_solver.
  assert (Hpe : forall e, e ∈ nodes a ++ dep :: nodes b ++ o :: nodes c ->
                  parent xd <> Some e).
  { intros e He Hpe. rewrite Hp in Hpe. by apply (Hpar e Hpe). }
  assert (Hle : forall e, left xo = Some e -> e ∈ nodes b).
  { intros e He. by eapply ptree_root_in. }
  split; [done|]. exists (set_left (Some dep) (set_parent (parent xd) xo)).
  split; [rewrite HF; by repeat case_decide|]. split; [done|]. split.
  - split; [done|]. exists (set_parent (Some o) (set_right (left xo) xd)).
    split; [rewrite HF; by repeat case_decide|]. split; [done|]. split.
    + apply (ptree_ext dm); [|done]. intros e He. apply rotL_other.
      * set_solver.
      * set_solver.
      * intros E. apply Hle in E. set_solver.
      * apply Hpe. set_solver.
    + cbn [right set_parent set_right].
      destruct b as [|bl l br]; [done|].
      destruct Hb as (Hl & xl & Hxl & Hpl & Hbl & Hbr).
      simpl in Hnb, Hdb, Hda, Hdn. 
      apply NoDup_app in Hnb as (Hnbl & Hdbl & Hnb). apply NoDup_cons in Hnb as (Hln & Hnbr).
      split; [done|]. exists (set_parent (Some dep) xl).
      assert (l <> dep) by set_solver. assert (l <> o) by set_solver.
      split; [rewrite HF; repeat case_decide; try done; by rewrite Hxl|].
      split; [done|]. split.
      * apply (ptree_ext dm); [|done]. intros e He. apply rotL_other.
        -- set_solver.
        -- set_solver.
        -- rewrite Hl. intros [= <-]. apply (Hdbl l He). set_solver.
        -- apply Hpe. set_solver.
      * apply (ptree_ext dm); [|done]. intros e He. apply rotL_other.
        -- set_solver.
        -- set_solver.
        -- rewrite Hl. intros [= <-]. done.
        -- apply Hpe. set_solver.
  - apply (ptree_ext dm); [|done]. intros e He. apply rotL_other.
    + set_solver.
    + set_solver.
    + intros E. apply Hle in E. set_solver.
    + apply Hpe. set_solver.
Qed.

Lemma rotL_plug C : forall par root,
  NoDup (nodes (plug C (Node a dep (Node b o c)))) ->
  (forall p, par = Some p -> p ∉ nodes (plug C (Node a dep (Node b o c)))) ->
  ptree dm par root (plug C (Node a dep (Node b o c))) ->
  ptree dm' par (match C with [] => Some o | _ => root end)
    (plug C (Node (Node a dep b) o c)).
Proof using All.
  set (t0 := Node a dep (Node b o c)). set (t1 := Node (Node a dep b) o c).
  induction C as [|f C IH]; intros par root Hnd Hpar Ht.
  { by eapply rotL_here. }
  assert (Hin0 : forall e, e ∈ nodes t0 -> e ∈ nodes (plug C t0)).
  { intros e. apply nodes_plug_in. }
  assert (Hdep : dep ∈ nodes t0) by (simpl; set_solver).
  assert (Ho' : o ∈ nodes t0) by (simpl; set_solver).
  assert (Hfoc : forall par' root', ptree dm par' root' (plug C t0) ->
            parent xd = holepar C par' /\ forall e, left xo = Some e -> e ∈ nodes t0).
  { intros par' root' H. destruct (ptree_focus _ _ _ _ _ H) as (hr & Hh).
    destruct Hh as (_ & x & Hx & Hp & _ & (_ & y & Hy & _ & Hb & _)).
    rewrite Hd in Hx. injection Hx as <-. rewrite Ho in Hy. injection Hy as <-.
    split; [done|]. intros e He. pose proof (ptree_root_in _ _ _ _ _ Hb He).
    simpl. set_solver. }
  assert (Hpar' : forall q root', q ∉ nodes (plug C t0) ->
            ptree dm (Some q) root' (plug C t0) ->
            forall e, e <> q -> e ∉ nodes (plug C t0) -> parent xd <> Some e).
  { intros q root' Hq H e Hne He. destruct (Hfoc _ _ H) as [E _]. destruct C as [|g C'].
    - simpl in E. rewrite E. congruence.
    - destruct (holepar_node g C' t0 (Some q)) as (q' & Hq' & Hin').
      rewrite E, Hq'. intros [= ->]. done. }
  assert (Hcell : forall q xq root', dm !! q = Some xq -> q ∉ nodes (plug C t0) ->
            ptree dm (Some q) root' (plug C t0) ->
            dm' !! q = Some (match C with
                             | [] => relink dep (Some o) xq
                             | _ => xq
                             end)).
  { intros q xq root' Hxq Hq H. destruct (Hfoc _ _ H) as [Hp Hl].
    rewrite HF. rewrite decide_False by (intros ->; by apply Hq, Hin0).
    rewrite decide_False by (intros ->; by apply Hq, Hin0).
    rewrite decide_False by (intros E; by apply Hq, Hin0, Hl).
    destruct C as [|g C'].
    - simpl in Hp. rewrite decide_True by done. by rewrite Hxq.
    - destruct (holepar_node g C' t0 (Some q)) as (q' & Hq' & Hin').
      rewrite decide_False; [done|]. rewrite Hp, Hq'. intros [= ->]. done. }
  destruct f as [q r|l q]; simpl in Hnd, Hpar, Ht.
  - destruct Ht as (-> & xq & Hxq & Hpq & Hl & Hr).
    apply NoDup_app in Hnd as (Hn1 & Hdisj & Hnd). apply NoDup_cons in Hnd as (Hqr & Hn2).
    assert (Hq : q ∉ nodes (plug C t0)).
    { intros Hq. apply (Hdisj q Hq). set_solver. }
    destruct (Hfoc _ _ Hl) as [Hp Hlo].
    pose proof (Hcell q xq _ Hxq Hq Hl) as Hq'.
    assert (IH' := IH (Some q) (left xq) Hn1 ltac:(by intros p [= <-]) Hl).
    assert (Hext : forall e, e ∈ nodes r -> dm' !! e = dm !! e).
    { intros e He. assert (e ∉ nodes (plug C t0)) as Hn.
      { intros Hin. apply (Hdisj e Hin). set_solver. }
      apply rotL_other.
      - intros ->. by apply Hn, Hin0.
      - intros ->. by apply Hn, Hin0.
      - intros E. by apply Hn, Hin0, Hlo.
      - apply (Hpar' q _ Hq Hl); [|done]. intros ->. done. }
    simpl. split; [done|]. destruct C as [|g C'].
    + exists (relink dep (Some o) xq). split; [done|].
      assert (left xq = Some dep) as Hlq by (by destruct Hl as (-> & _)).
      unfold relink. rewrite bool_decide_eq_true_2 by done.
      split; [done|]. split; [exact IH'|]. by apply (ptree_ext dm).
    + exists xq. split; [done|]. split; [done|]. split; [exact IH'|].
      by apply (ptree_ext dm).
  - destruct Ht as (-> & xq & Hxq & Hpq & Hl & Hr).
    apply NoDup_app in Hnd as (Hn1 & Hdisj & Hnd). apply NoDup_cons in Hnd as (Hqr & Hn2).
    assert (Hq : q ∉ nodes (plug C t0)) by done.
    destruct (Hfoc _ _ Hr) as [Hp Hlo].
    pose proof (Hcell q xq _ Hxq Hq Hr) as Hq'.
    assert (IH' := IH (Some q) (right xq) Hn2 ltac:(by intros p [= <-]) Hr).
    assert (Hext : forall e, e ∈ nodes l -> dm' !! e = dm !! e).
    { intros e He. assert (e ∉ nodes (plug C t0)) as Hn.
      { intros Hin. apply (Hdisj e He). set_solver. }
      apply rotL_other.
      - intros ->. by apply Hn, Hin0.
      - intros ->. by apply Hn, Hin0.
      - intros E. by apply Hn, Hin0, Hlo.
      - apply (Hpar' q _ Hq Hr); [|done]. intros ->. apply (Hdisj q He). set_solver. }
    simpl. split; [done|]. destruct C as [|g C'].
    + exists (relink dep (Some o) xq). split; [done|].
      assert (right xq = Some dep) as Hrq by (by destruct Hr as (-> & _)).
      assert (left xq <> Some dep) as Hlq.
      { intros E. pose proof (ptree_root_in _ _ _ _ _ Hl E) as Hin.
        apply (Hdisj dep Hin). right. by apply Hin0. }
      unfold relink. rewrite bool_decide_eq_false_2 by congruence.
      split; [done|]. split; [by apply (ptree_ext dm)|exact IH'].
    + exists xq. split; [done|]. split; [done|]. split; [by apply (ptree_ext dm)|exact IH'].
Qed.
End RotL.

(** ** The tree after [rightRotate] *)

Section RotR.
Context (dm dm' : gmap positive Dependency) (dep o : positive) (xd xo : Dependency).
Context (a b c : tree).
Hypothesis Hd : dm !! dep = Some xd.
Hypothesis Ho : dm !! o = Some xo.
Hypothesis HF : forall e, dm' !! e =
  if decide (e = dep) then Some (set_parent (Some o) (set_left (right xo) xd))
  else if decide (e = o) then Some (set_right (Some dep) (set_parent (parent xd) xo))
  else if decide (right xo = Some e) then set_parent (Some dep) <$> dm !! e
  else if decide (parent xd = Some e) then relink dep (Some o) <$> dm !! e
  else dm !! e.

Lemma rotR_other e :
  e <> dep -> e <> o -> right xo <> Some e -> parent xd <> Some e -> dm' !! e = dm !! e.
Proof using HF.
  intros H1 H2 H3 H4. rewrite HF. by repeat case_decide.
Qed.

Lemma rotR_here par root :
  NoDup (nodes (Node (Node a o b) dep c)) ->
  (forall p, par = Some p -> p ∉ nodes (Node (Node a o b) dep c)) ->
  ptree dm par root (Node (Node a o b) dep c) ->
  ptree dm' par (Some o) (Node a o (Node b dep c)).
Proof using All.
  intros Hnd Hpar (-> & x & Hx & Hp & (Hl & y & Hy & Hpy & Ha & Hb) & Hc).
  rewrite Hd in Hx. injection Hx as <-. rewrite Ho in Hy. injection Hy as <-.
  simpl in Hnd, Hpar.
  assert (Hpe : forall e, e ∈ (nodes a ++ o :: nodes b) ++ dep :: nodes c ->
                  parent xd <> Some e).
  { intros e He Hpe. rewrite Hp in Hpe. by apply (Hpar e Hpe). }
  assert (Hre : forall e, right xo = Some e -> e ∈ nodes b).
  { intros e He. by eapply ptree_root_in. }
  apply NoDup_app in Hnd as (Hnd & Hdc & Hnc'). apply NoDup_cons in Hnc' as (Hdn & Hnc).
  apply NoDup_app in Hnd as (Hna & Hda & Hnd). apply NoDup_cons in Hnd as (Hon & Hnb).
  assert (Hdo : dep <> o).
  { intros <-. apply (Hdc dep); [apply elem_of_app; right; by left|by left]. }
  assert (Fa : forall e, e ∈ nodes a -> e <> dep /\ e <> o /\ e ∉ nodes b).
  { intros e He. split; [|split].
    - intros ->. apply (Hdc dep); [apply elem_of_app; by left|by left].
    - intros ->. apply (Hda o He). by left.
    - intros Hb'. apply (Hda e He). by right. }
  assert (Fb : forall e, e ∈ nodes b -> e <> dep /\ e <> o).
  { intros e He. split.
    - intros ->. apply (Hdc dep); [apply elem_of_app; right; by right|by left].
    - intros ->. done. }
  assert (Fc : forall e, e ∈ nodes c -> e <> dep /\ e <> o /\ e ∉ nodes b).
  { intros e He. split; [|split].
    - intros ->. done.
    - intros ->. apply (Hdc o); [apply elem_of_app; right; by left|by right].
    - intros Hb'. apply (Hdc e); [apply elem_of_app; right; by right|by right]. }
  assert (Ia : forall e, e ∈ nodes a -> e ∈ (nodes a ++ o :: nodes b) ++ dep :: nodes c).
  { intros e He. apply elem_of_app. left. apply elem_of_app. by left. }
  assert (Ib : forall e, e ∈ nodes b -> e ∈ (nodes a ++ o :: nodes b) ++ dep :: nodes c).
  { intros e He. apply elem_of_app. left. apply elem_of_app. right. by right. }
  assert (Ic : forall e, e ∈ nodes c -> e ∈ (nodes a ++ o :: nodes b) ++ dep :: nodes c).
  { intros e He. apply elem_of_app. right. by right. }
  split; [done|]. exists (set_right (Some dep) (set_parent (parent xd) xo)).
  split; [rewrite HF; by repeat case_decide|]. split; [done|]. split.
  - apply (ptree_ext dm); [|done]. intros e He. destruct (Fa e He) as (? & ? & ?).
    apply rotR_other; [done|done| |by apply Hpe, Ia].
    intros E. by apply Hre in E.
  - split; [done|]. exists (set_parent (Some o) (set_left (right xo) xd)).
    split; [rewrite HF; by repeat case_decide|]. split; [done|]. split.
    + cbn [left set_parent set_left].
      destruct b as [|bl l br]; [done|].
      destruct Hb as (Hr & xl & Hxl & Hpl & Hbl & Hbr).
      simpl in Hnb.
      apply NoDup_app in Hnb as (Hnbl & Hdbl & Hnb). apply NoDup_cons in Hnb as (Hln & Hnbr).
      split; [done|]. exists (set_parent (Some dep) xl).
      assert (Hlb : l ∈ nodes (Node bl l br)) by (simpl; apply elem_of_app; right; by left).
      destruct (Fb l Hlb) as [? ?].
      split; [rewrite HF; repeat case_decide; try done; by rewrite Hxl|].
      split; [done|]. split.
      * apply (ptree_ext dm); [|done]. intros e He.
        assert (Heb : e ∈ nodes (Node bl l br)) by (simpl; apply elem_of_app; by left).
        destruct (Fb e Heb) as [? ?].
        apply rotR_other; [done|done| |by apply Hpe, Ib].
        rewrite Hr. intros [= <-]. apply (Hdbl l He). by left.
      * apply (ptree_ext dm); [|done]. intros e He.
        assert (Heb : e ∈ nodes (Node bl l br))
          by (simpl; apply elem_of_app; right; by right).
        destruct (Fb e Heb) as [? ?].
        apply rotR_other; [done|done| |by apply Hpe, Ib].
        rewrite Hr. intros [= <-]. done.
    + apply (ptree_ext dm); [|done]. intros e He. destruct (Fc e He) as (? & ? & ?).
      apply rotR_other; [done|done| |by apply Hpe, Ic].
      intros E. by apply Hre in E.
Qed.

Lemma rotR_plug C : forall par root,
  NoDup (nodes (plug C (Node (Node a o b) dep c))) ->
  (forall p, par = Some p -> p ∉ nodes (plug C (Node (Node a o b) dep c))) ->
  ptree dm par root (plug C (Node (Node a o b) dep c)) ->
  ptree dm' par (match C with [] => Some o | _ => root end)
    (plug C (Node a o (Node b dep c))).
Proof using All.
  set (t0 := Node (Node a o b) dep c). set (t1 := Node a o (Node b dep c)).
  induction C as [|f C IH]; intros par root Hnd Hpar Ht.
  { by eapply rotR_here. }
  assert (Hin0 : forall e, e ∈ nodes t0 -> e ∈ nodes (plug C t0)).
  { intros e. apply nodes_plug_in. }
  assert (Hdep : dep ∈ nodes t0) by (simpl; set_solver).
  assert (Ho' : o ∈ nodes t0) by (simpl; set_solver).
  assert (Hfoc : forall par' root', ptree dm par' root' (plug C t0) ->
            parent xd = holepar C par' /\ forall e, right xo = Some e -> e ∈ nodes t0).
  { intros par' root' H. destruct (ptree_focus _ _ _ _ _ H) as (hr & Hh).
    destruct Hh as (_ & x & Hx & Hp & (_ & y & Hy & _ & _ & Hb) & _).
    rewrite Hd in Hx. injection Hx as <-. rewrite Ho in Hy. injection Hy as <-.
    split; [done|]. intros e He. pose proof (ptree_root_in _ _ _ _ _ Hb He).
    simpl. set_solver. }
  assert (Hpar' : forall q root', q ∉ nodes (plug C t0) ->
            ptree dm (Some q) root' (plug C t0) ->
            forall e, e <> q -> e ∉ nodes (plug C t0) -> parent xd <> Some e).
  { intros q root' Hq H e Hne He. destruct (Hfoc _ _ H) as [E _]. destruct C as [|g C'].
    - simpl in E. rewrite E. congruence.
    - destruct (holepar_node g C' t0 (Some q)) as (q' & Hq' & Hin').
      rewrite E, Hq'. intros [= ->]. done. }
  assert (Hcell : forall q xq root', dm !! q = Some xq -> q ∉ nodes (plug C t0) ->
            ptree dm (Some q) root' (plug C t0) ->
            dm' !! q = Some (match C with
                             | [] => relink dep (Some o) xq
                             | _ => xq
                             end)).
  { intros q xq root' Hxq Hq H. destruct (Hfoc _ _ H) as [Hp Hl].
    rewrite HF. rewrite decide_False by (intros ->; by apply Hq, Hin0).
    rewrite decide_False by (intros ->; by apply Hq, Hin0).
    rewrite decide_False by (intros E; by apply Hq, Hin0, Hl).
    destruct C as [|g C'].
    - simpl in Hp. rewrite decide_True by done. by rewrite Hxq.
    - destruct (holepar_node g C' t0 (Some q)) as (q' & Hq' & Hin').
      rewrite decide_False; [done|]. rewrite Hp, Hq'. intros [= ->]. done. }
  destruct f as [q r|l q]; simpl in Hnd, Hpar, Ht.
  - destruct Ht as (-> & xq & Hxq & Hpq & Hl & Hr).
    apply NoDup_app in Hnd as (Hn1 & Hdisj & Hnd). apply NoDup_cons in Hnd as (Hqr & Hn2).
    assert (Hq : q ∉ nodes (plug C t0)).
    { intros Hq. apply (Hdisj q Hq). set_solver. }
    destruct (Hfoc _ _ Hl) as [Hp Hlo].
    pose proof (Hcell q xq _ Hxq Hq Hl) as Hq'.
    assert (IH' := IH (Some q) (left xq) Hn1 ltac:(by intros p [= <-]) Hl).
    assert (Hext : forall e, e ∈ nodes r -> dm' !! e = dm !! e).
    { intros e He. assert (e ∉ nodes (plug C t0)) as Hn.
      { intros Hin. apply (Hdisj e Hin). set_solver. }
      apply rotR_other.
      - intros ->. by apply Hn, Hin0.
      - intros ->. by apply Hn, Hin0.
      - intros E. by apply Hn, Hin0, Hlo.
      - apply (Hpar' q _ Hq Hl); [|done]. intros ->. done. }
    simpl. split; [done|]. destruct C as [|g C'].
    + exists (relink dep (Some o) xq). split; [done|].
      assert (left xq = Some dep) as Hlq by (by destruct Hl as (-> & _)).
      unfold relink. rewrite bool_decide_eq_true_2 by done.
      split; [done|]. split; [exact IH'|]. by apply (ptree_ext dm).
    + exists xq. split; [done|]. split; [done|]. split; [exact IH'|].
      by apply (ptree_ext dm).
  - destruct Ht as (-> & xq & Hxq & Hpq & Hl & Hr).
    apply NoDup_app in Hnd as (Hn1 & Hdisj & Hnd). apply NoDup_cons in Hnd as (Hqr & Hn2).
    assert (Hq : q ∉ nodes (plug C t0)) by done.
    destruct (Hfoc _ _ Hr) as [Hp Hlo].
    pose proof (Hcell q xq _ Hxq Hq Hr) as Hq'.
    assert (IH' := IH (Some q) (right xq) Hn2 ltac:(by intros p [= <-]) Hr).
    assert (Hext : forall e, e ∈ nodes l -> dm' !! e = dm !! e).
    { intros e He. assert (e ∉ nodes (plug C t0)) as Hn.
      { intros Hin. apply (Hdisj e He). set_solver. }
      apply rotR_other.
      - intros ->. by apply Hn, Hin0.
      - intros ->. by apply Hn, Hin0.
      - intros E. by apply Hn, Hin0, Hlo.
      - apply (Hpar' q _ Hq Hr); [|done]. intros ->. apply (Hdisj q He). set_solver. }
    simpl. split; [done|]. destruct C as [|g C'].
    + exists (relink dep (Some o) xq). split; [done|].
      assert (right xq = Some dep) as Hrq by (by destruct Hr as (-> & _)).
      assert (left xq <> Some dep) as Hlq.
      { intros E. pose proof (ptree_root_in _ _ _ _ _ Hl E) as Hin.
        apply (Hdisj dep Hin). right. by apply Hin0. }
      unfold relink. rewrite bool_decide_eq_false_2 by congruence.
      split; [done|]. split; [by apply (ptree_ext dm)|exact IH'].
    + exists xq. split; [done|]. split; [done|]. split; [by apply (ptree_ext dm)|exact IH'].
Qed.
End RotR.

(** ** The rotations on the tree of an object *)

Lemma NoDup_plug C t : NoDup (nodes (plug C t)) -> NoDup (nodes t).
Proof.
  induction C as [|f C IH]; [done|]. simpl. rewrite nodes_fill. intros H. apply IH.
  destruct f.
  - by apply NoDup_app in H as (? & _).
  - apply NoDup_app in H as (_ & _ & H). by apply NoDup_cons in H as (_ & ?).
Qed.

Lemma holepar_fresh C t : forall par q,
  C <> [] -> NoDup (nodes (plug C t)) -> holepar C par = Some q ->
  (q ∉ nodes t) /\ (q ∈ nodes (plug C t)).
Proof.
  induction C as [|f C IH]; intros par q Hne Hnd Hq; [done|].
  assert (Hnd' : NoDup (nodes (plug C t))).
  { simpl in Hnd. rewrite nodes_fill in Hnd. destruct f.
    - by apply NoDup_app in Hnd as (? & _).
    - apply NoDup_app in Hnd as (_ & _ & H). by apply NoDup_cons in H as (_ & ?). }
  destruct C as [|g C'].
  - simpl in Hq. injection Hq as <-. simpl in *. destruct f; simpl in *.
    + apply NoDup_app in Hnd as (_ & Hd & _). split; [|set_solver].
      intros Hin. apply (Hd _ Hin). set_solver.
    + apply NoDup_app in Hnd as (_ & _ & H). apply NoDup_cons in H as (? & _).
      split; [done|set_solver].
  - destruct (IH (Some (hole_node f)) q (ltac:(done)) Hnd' Hq) as [H1 H2].
    split; [done|]. change (plug (f :: g :: C') t) with (fill f (plug (g :: C') t)).
    rewrite nodes_fill. destruct f; set_solver.
Qed.

Lemma links_only_refl this s : is_Some (objs s !! this) -> links_only this s s.
Proof.
  intros [ot Hot]. split_and!; try done.
  - intros o Ho. exists (dependencies o). rewrite Ho. by destruct o.
  - intros e x Hx. exists x. done.
Qed.

Lemma links_only_trans this s1 s2 s3 :
  links_only this s1 s2 -> links_only this s2 s3 -> links_only this s1 s3.
Proof.
  intros (H1 & H2 & H3 & H4 & H5 & H6 & H7) (G1 & G2 & G3 & G4 & G5 & G6 & G7).
  split_and!; try congruence.
  - intros q Hq. rewrite G4, H4; done.
  - intros o Ho. destruct (H5 o Ho) as [r Hr]. destruct (G5 _ Hr) as [r' Hr'].
    exists r'. rewrite Hr'. by destruct o.
  - intros e He. apply G6, H6, He.
  - intros e x Hx. destruct (H7 e x Hx) as (x2 & Hx2 & ? & ? & ? & ? & ?).
    destruct (G7 e x2 Hx2) as (x3 & Hx3 & ? & ? & ? & ? & ?).
    exists x3. split_and!; congruence.
Qed.

(** [leftRotate] at a node with a right child, anywhere in the tree. *)
Lemma leftRotate_tree s this ot C a dep b o c :
  objs s !! this = Some ot ->
  NoDup (nodes (plug C (Node a dep (Node b o c)))) ->
  ptree (deps s) None (dependencies ot) (plug C (Node a dep (Node b o c))) ->
  exists s' ot',
    Object.leftRotate this dep s = Ret tt s' /\
    links_only this s s' /\
    objs s' !! this = Some ot' /\
    ptree (deps s') None (dependencies ot') (plug C (Node (Node a dep b) o c)) /\
    (forall e, e ∉ nodes (plug C (Node a dep (Node b o c))) -> deps s' !! e = deps s !! e).
Proof.
  intros Hot Hnd Ht.
  destruct (ptree_focus _ _ _ _ _ Ht) as (hr & Hfoc).
  pose proof Hfoc as (_ & xd & Hd & Hpd & Ha & (Hr & xo & Ho & Hpo & Hb & Hc)).
  pose proof (NoDup_plug _ _ Hnd) as Hnd0. simpl in Hnd0.
  assert (Hdo : o <> dep).
  { apply NoDup_app in Hnd0 as (_ & _ & H). apply NoDup_cons in H as (H & _). set_solver. }
  assert (Hl : forall l, left xo = Some l ->
            l <> dep /\ l <> o /\ is_Some (deps s !! l) /\ l ∈ nodes (Node a dep (Node b o c))).
  { intros l El. pose proof (ptree_root_in _ _ _ _ _ Hb El) as Hin.
    apply NoDup_app in Hnd0 as (_ & _ & H). apply NoDup_cons in H as (H1 & H).
    apply NoDup_app in H as (_ & H2 & _).
    split; [set_solver|]. split; [intros ->; apply (H2 o Hin); set_solver|].
    split; [exact (ptree_alloc _ _ _ _ _ Hb Hin)|]. simpl. set_solver. }
  assert (Hp : forall p, parent xd = Some p ->
            p <> dep /\ p <> o /\ left xo <> Some p /\ is_Some (deps s !! p) /\
            p ∈ nodes (plug C (Node a dep (Node b o c))) /\ C <> []).
  { intros p Ep. rewrite Hpd in Ep. destruct C as [|f C']; [done|].
    destruct (holepar_fresh (f :: C') (Node a dep (Node b o c)) None p (ltac:(done)) Hnd Ep) as [H1 H2].
    split; [intros ->; apply H1; simpl; set_solver|].
    split; [intros ->; apply H1; simpl; set_solver|].
    split; [intros E; by destruct (Hl p E) as (_ & _ & _ & ?)|].
    split; [exact (ptree_alloc _ _ _ _ _ Ht H2)|done]. }
  destruct (leftRotate_run s this dep xd o xo ot Hot Hd Hr Ho Hdo)
    as (s' & Hrun & Hlk & Htop & Hini & Hobjs & HF).
  { intros l El. destruct (Hl l El) as (? & ? & ? & _). done. }
  { intros p Ep. destruct (Hp p Ep) as (? & ? & ? & ? & _). done. }
  assert (Hroot : ptree (deps s') None
                    (match C with [] => Some o | _ => dependencies ot end)
                    (plug C (Node (Node a dep b) o c))).
  { by apply (rotL_plug (deps s) (deps s') dep o xd xo a b c Hd Ho HF C None). }
  exists s'.
  exists (match C with [] => set_dependencies (Some o) ot | _ => ot end).
  split; [done|]. split; [|split; [|split]].
  - split_and!; try done.
    + intros q Hq. rewrite Hobjs. destruct (parent xd); [done|].
      by rewrite lookup_insert_ne.
    + intros o' Ho'. rewrite Hot in Ho'. injection Ho' as <-. rewrite Hobjs.
      destruct (parent xd).
      * exists (dependencies ot). rewrite Hot. by destruct ot.
      * exists (Some o). by rewrite lookup_insert_eq.
    + intros e He. rewrite HF. repeat case_decide; simplify_eq; by rewrite ?He.
    + intros e x Hx. rewrite HF. repeat case_decide; simplify_eq; rewrite ?Hx; simpl;
        try (eexists; split; [done|]; done).
      eexists; split; [done|]. unfold relink. by destruct (bool_decide _).
  - rewrite Hobjs. destruct C as [|f C'].
    + simpl in Hpd. rewrite Hpd. apply lookup_insert_eq.
    + destruct (parent xd) as [p|] eqn:Ep; [done|].
      rewrite Hpd in Ep. by destruct (holepar_node f C' (Node a dep (Node b o c)) None) as (q & Hq & _); congruence.
  - by destruct C.
  - intros e He. apply (rotL_other (deps s) (deps s') dep o xd xo HF).
    + intros ->. apply He, nodes_plug_in. simpl. set_solver.
    + intros ->. apply He, nodes_plug_in. simpl. set_solver.
    + intros E. destruct (Hl e E) as (_ & _ & _ & Hin). by apply He, nodes_plug_in.
    + intros E. by destruct (Hp e E) as (_ & _ & _ & _ & Hin & _).
Qed.

(** [rightRotate] at a node with a left child, anywhere in the tree. *)
Lemma rightRotate_tree s this ot C a dep b o c :
  objs s !! this = Some ot ->
  NoDup (nodes (plug C (Node (Node a o b) dep c))) ->
  ptree (deps s) None (dependencies ot) (plug C (Node (Node a o b) dep c)) ->
  exists s' ot',
    Object.rightRotate this dep s = Ret tt s' /\
    links_only this s s' /\
    objs s' !! this = Some ot' /\
    ptree (deps s') None (dependencies ot') (plug C (Node a o (Node b dep c))) /\
    (forall e, e ∉ nodes (plug C (Node (Node a o b) dep c)) -> deps s' !! e = deps s !! e).
Proof.
  intros Hot Hnd Ht.
  destruct (ptree_focus _ _ _ _ _ Ht) as (hr & Hfoc).
  pose proof Hfoc as (_ & xd & Hd & Hpd & (Hr & xo & Ho & Hpo & Ha & Hb) & Hc).
  pose proof (NoDup_plug _ _ Hnd) as Hnd0. simpl in Hnd0.
  assert (Hdo : o <> dep).
  { apply NoDup_app in Hnd0 as (_ & H & _). intros ->. apply (H dep); set_solver. }
  assert (Hl : forall l, right xo = Some l ->
            l <> dep /\ l <> o /\ is_Some (deps s !! l) /\
            l ∈ nodes (Node (Node a o b) dep c)).
  { intros l El. pose proof (ptree_root_in _ _ _ _ _ Hb El) as Hin.
    apply NoDup_app in Hnd0 as (H0 & H & _).
    apply NoDup_app in H0 as (_ & _ & H0). apply NoDup_cons in H0 as (H1 & _).
    split; [intros ->; apply (H dep); set_solver|]. split; [intros ->; done|].
    split; [exact (ptree_alloc _ _ _ _ _ Hb Hin)|]. simpl. set_solver. }
  assert (Hp : forall p, parent xd = Some p ->
            p <> dep /\ p <> o /\ right xo <> Some p /\ is_Some (deps s !! p) /\
            p ∈ nodes (plug C (Node (Node a o b) dep c)) /\ C <> []).
  { intros p Ep. rewrite Hpd in Ep. destruct C as [|f C']; [done|].
    destruct (holepar_fresh (f :: C') (Node (Node a o b) dep c) None p (ltac:(done)) Hnd Ep)
      as [H1 H2].
    split; [intros ->; apply H1; simpl; set_solver|].
    split; [intros ->; apply H1; simpl; set_solver|].
    split; [intros E; by destruct (Hl p E) as (_ & _ & _ & ?)|].
    split; [exact (ptree_alloc _ _ _ _ _ Ht H2)|done]. }
  destruct (rightRotate_run s this dep xd o xo ot Hot Hd Hr Ho Hdo)
    as (s' & Hrun & Hlk & Htop & Hini & Hobjs & HF).
  { intros l El. destruct (Hl l El) as (? & ? & ? & _). done. }
  { intros p Ep. destruct (Hp p Ep) as (? & ? & ? & ? & _). done. }
  assert (Hroot : ptree (deps s') None
                    (match C with [] => Some o | _ => dependencies ot end)
                    (plug C (Node a o (Node b dep c)))).
  { by apply (rotR_plug (deps s) (deps s') dep o xd xo a b c Hd Ho HF C None). }
  exists s'.
  exists (match C with [] => set_dependencies (Some o) ot | _ => ot end).
  split; [done|]. split; [|split; [|split]].
  - split_and!; try done.
    + intros q Hq. rewrite Hobjs. destruct (parent xd); [done|].
      by rewrite lookup_insert_ne.
    + intros o' Ho'. rewrite Hot in Ho'. injection Ho' as <-. rewrite Hobjs.
      destruct (parent xd).
      * exists (dependencies ot). rewrite Hot. by destruct ot.
      * exists (Some o). by rewrite lookup_insert_eq.
    + intros e He. rewrite HF. repeat case_decide; simplify_eq; by rewrite ?He.
    + intros e x Hx. rewrite HF. repeat case_decide; simplify_eq; rewrite ?Hx; simpl;
        try (eexists; split; [done|]; done).
      eexists; split; [done|]. unfold relink. by destruct (bool_decide _).
  - rewrite Hobjs. destruct C as [|f C'].
    + simpl in Hpd. rewrite Hpd. apply lookup_insert_eq.
    + destruct (parent xd) as [p|] eqn:Ep; [done|].
      rewrite Hpd in Ep.
      by destruct (holepar_node f C' (Node (Node a o b) dep c) None) as (q & Hq & _); congruence.
  - by destruct C.
  - intros e He. apply (rotR_other (deps s) (deps s') dep o xd xo HF).
    + intros ->. apply He, nodes_plug_in. simpl. set_solver.
    + intros ->. apply He, nodes_plug_in. simpl. set_solver.
    + intros E. destruct (Hl e E) as (_ & _ & _ & Hin). by apply He, nodes_plug_in.
    + intros E. by destruct (Hp e E) as (_ & _ & _ & _ & Hin & _).
Qed.

(** ** The steps of [splay] *)

Ltac splay_reads :=
  rewrite splay_S;
  unfold Object.and_then, Object.is_left, Object.is_right, Object.parent_is_left,
    Object.parent_is_right, Object.grandparent_of, Object.parent_of, bind, getDep,
    nonnull, ret;
  repeat match goal with
         | H : deps ?s !! ?e = Some _ |- context [deps ?s !! ?e] => rewrite H
         | H : parent ?x = _ |- context [parent ?x] => rewrite H
         | H : left ?x = Some _ |- context [left ?x] => rewrite H
         | H : right ?x = Some _ |- context [right ?x] => rewrite H
         | H : ?a <> ?b |- context [bool_decide (?a = ?b)] =>
             rewrite (bool_decide_eq_false_2 (a = b) H)
         | |- context [bool_decide (?a = ?a)] =>
             rewrite (bool_decide_eq_true_2 (a = a) eq_refl)
         end.

Lemma splay_zig_L fuel this dep s xd p xp :
  deps s !! dep = Some xd -> parent xd = Some p ->
  deps s !! p = Some xp -> parent xp = None -> left xp = Some dep ->
  Object.splay (S fuel) this dep s
  = (Object.rightRotate this p;; Object.splay fuel this dep) s.
Proof. intros Hd Hpd Hp Hpp Hl. by splay_reads. Qed.

Lemma splay_zig_R fuel this dep s xd p xp :
  deps s !! dep = Some xd -> parent xd = Some p ->
  deps s !! p = Some xp -> parent xp = None -> left xp <> Some dep ->
  Object.splay (S fuel) this dep s
  = (Object.leftRotate this p;; Object.splay fuel this dep) s.
Proof. intros Hd Hpd Hp Hpp Hl. by splay_reads. Qed.

Lemma splay_zig_zig_L fuel this dep s xd p xp g xg :
  deps s !! dep = Some xd -> parent xd = Some p ->
  deps s !! p = Some xp -> parent xp = Some g -> deps s !! g = Some xg ->
  left xp = Some dep -> left xg = Some p ->
  Object.splay (S fuel) this dep s
  = (Object.rightRotate this g;;
     (pp <- Object.parent_of dep;; Object.rightRotate this pp);;
     Object.splay fuel this dep) s.
Proof.
  intros Hd Hpd Hp Hpp Hg Hl Hlg. splay_reads.
  by destruct (Object.rightRotate this g s).
Qed.

Lemma splay_zig_zig_R fuel this dep s xd p xp g xg :
  deps s !! dep = Some xd -> parent xd = Some p ->
  deps s !! p = Some xp -> parent xp = Some g -> deps s !! g = Some xg ->
  left xp <> Some dep -> right xp = Some dep -> right xg = Some p ->
  Object.splay (S fuel) this dep s
  = (Object.leftRotate this g;;
     (pp <- Object.parent_of dep;; Object.leftRotate this pp);;
     Object.splay fuel this dep) s.
Proof.
  intros Hd Hpd Hp Hpp Hg Hl Hr Hrg. splay_reads.
  by destruct (Object.leftRotate this g s).
Qed.

Lemma splay_zig_zag_L fuel this dep s xd p xp g xg :
  deps s !! dep = Some xd -> parent xd = Some p ->
  deps s !! p = Some xp -> parent xp = Some g -> deps s !! g = Some xg ->
  left xp = Some dep -> right xp <> Some dep -> left xg <> Some p -> right xg = Some p ->
  Object.splay (S fuel) this dep s
  = (Object.rightRotate this p;;
     (pp <- Object.parent_of dep;; Object.leftRotate this pp);;
     Object.splay fuel this dep) s.
Proof.
  intros Hd Hpd Hp Hpp Hg Hl Hr Hlg Hrg. splay_reads.
  by destruct (Object.rightRotate this p s).
Qed.

Lemma splay_zig_zag_R fuel this dep s xd p xp g xg :
  deps s !! dep = Some xd -> parent xd = Some p ->
  deps s !! p = Some xp -> parent xp = Some g -> deps s !! g = Some xg ->
  left xp <> Some dep -> right xp = Some dep -> right xg <> Some p ->
  Object.splay (S fuel) this dep s
  = (Object.leftRotate this p;;
     (pp <- Object.parent_of dep;; Object.rightRotate this pp);;
     Object.splay fuel this dep) s.
Proof.
  intros Hd Hpd Hp Hpp Hg Hl Hr Hrg. splay_reads.
  by destruct (Object.leftRotate this p s).
Qed.

(** ** [splay] on the tree of an object *)

Lemma rotated_to_trans this s T s1 T1 s2 T2 :
  rotated_to this s T s1 T1 -> rotated_to this s1 T1 s2 T2 -> rotated_to this s T s2 T2.
Proof.
  intros (H1 & H2 & H3 & H4) (G1 & G2 & G3 & G4). split; [by eapply links_only_trans|].
  split; [done|]. split; [congruence|].
  intros e He. rewrite G4, H4; [done|done|]. by rewrite H3.
Qed.

Lemma rotated_to_refl this s T : tree_at this s T -> rotated_to this s T s T.
Proof.
  intros H. split; [|done]. destruct H as (ot & Hot & _). apply links_only_refl. eauto.
Qed.

Lemma ptree_root_of dm par root t : ptree dm par root t -> root = root_of t.
Proof. destruct t; simpl; [done|]. by intros (-> & _). Qed.

Lemma root_of_in t e : root_of t = Some e -> e ∈ nodes t.
Proof. destruct t; simpl; [done|]. intros [= ->]. set_solver. Qed.

Lemma holepar_snoc C f par : holepar (C ++ [f]) par = Some (hole_node f).
Proof. revert par. induction C as [|g C IH]; intros par; [done|]. simpl. apply IH. Qed.

Lemma plug_snoc C f t : plug (C ++ [f]) t = plug C (fill f t).
Proof. by rewrite plug_app. Qed.

(** The cell of a node, read off the tree. *)
Lemma tree_cell this s C l e r :
  tree_at this s (plug C (Node l e r)) ->
  exists x, deps s !! e = Some x /\ parent x = holepar C None /\
            left x = root_of l /\ right x = root_of r.
Proof.
  intros (ot & Hot & Hnd & Ht). destruct (ptree_focus _ _ _ _ _ Ht) as (hr & Hf).
  destruct Hf as (_ & x & Hx & Hp & Hl & Hr). exists x. split_and!; try done.
  - by eapply ptree_root_of.
  - by eapply ptree_root_of.
Qed.

Lemma snoc_cases {T} (l : list T) : l = [] \/ exists l' x, l = l' ++ [x].
Proof.
  induction l as [|a l IH]; [by left|right].
  destruct IH as [->|(l' & x & ->)]; [by exists [], a|by exists (a :: l'), x].
Qed.

Lemma leftRotate_at this s C a dep b o c :
  tree_at this s (plug C (Node a dep (Node b o c))) ->
  exists s', Object.leftRotate this dep s = Ret tt s' /\
    rotated_to this s (plug C (Node a dep (Node b o c)))
               s' (plug C (Node (Node a dep b) o c)).
Proof.
  intros (ot & Hot & Hnd & Ht).
  destruct (leftRotate_tree s this ot C a dep b o c Hot Hnd Ht)
    as (s' & ot' & Hrun & Hl & Hot' & Ht' & Hout).
  assert (Hn : nodes (plug C (Node (Node a dep b) o c))
               = nodes (plug C (Node a dep (Node b o c)))).
  { apply nodes_plug_eq. simpl. by rewrite <- app_assoc. }
  exists s'. split; [done|]. split; [done|]. split; [|done].
  exists ot'. split; [done|]. split; [by rewrite Hn|done].
Qed.

Lemma rightRotate_at this s C a dep b o c :
  tree_at this s (plug C (Node (Node a o b) dep c)) ->
  exists s', Object.rightRotate this dep s = Ret tt s' /\
    rotated_to this s (plug C (Node (Node a o b) dep c))
               s' (plug C (Node a o (Node b dep c))).
Proof.
  intros (ot & Hot & Hnd & Ht).
  destruct (rightRotate_tree s this ot C a dep b o c Hot Hnd Ht)
    as (s' & ot' & Hrun & Hl & Hot' & Ht' & Hout).
  assert (Hn : nodes (plug C (Node a o (Node b dep c)))
               = nodes (plug C (Node (Node a o b) dep c))).
  { apply nodes_plug_eq. simpl. by rewrite <- app_assoc. }
  exists s'. split; [done|]. split; [done|]. split; [|done].
  exists ot'. split; [done|]. split; [by rewrite Hn|done].
Qed.

Lemma parent_of_at this s C f l e r :
  tree_at this s (plug (C ++ [f]) (Node l e r)) ->
  Object.parent_of e s = Ret (hole_node f) s.
Proof.
  intros H. destruct (tree_cell _ _ _ _ _ _ H) as (x & Hx & Hp & _).
  rewrite holepar_snoc in Hp.
  unfold Object.parent_of, bind. by rewrite (run_getDep _ _ _ Hx), Hp.
Qed.

Lemma root_ne_left l p r e :
  NoDup (nodes (Node l p r)) -> e ∈ nodes r -> root_of l <> Some e.
Proof.
  simpl. intros Hnd He E. apply root_of_in in E.
  apply NoDup_app in Hnd as (_ & H & _). apply (H e E). by right.
Qed.

Lemma root_ne_right l p r e :
  NoDup (nodes (Node l p r)) -> e ∈ nodes l -> root_of r <> Some e.
Proof.
  simpl. intros Hnd He E. apply root_of_in in E.
  apply NoDup_app in Hnd as (_ & H & _). apply (H e He). by right.
Qed.

Lemma tree_at_NoDup this s C t : tree_at this s (plug C t) -> NoDup (nodes t).
Proof. intros (ot & _ & Hnd & _). by eapply NoDup_plug. Qed.

Lemma node_in a e b : e ∈ nodes (Node a e b).
Proof. simpl. apply elem_of_app. right. by left. Qed.

(** [splay] returns with the node at the root; the tree has the same nodes
    in the same order. *)
Lemma splay_total this dep n : forall C a b s,
  length C <= n -> tree_at this s (plug C (Node a dep b)) ->
  exists s' a' b',
    (forall fuel, n < fuel -> Object.splay fuel this dep s = Ret tt s') /\
    rotated_to this s (plug C (Node a dep b)) s' (Node a' dep b').
Proof.
  induction n as [n IH] using lt_wf_ind. intros C a b s Hlen Ht.
  destruct (snoc_cases C) as [->|(C1 & f & ->)].
  { (* the node is the root *)
    destruct (tree_cell this s [] a dep b Ht) as (xd & Hd & Hpd & _).
    exists s, a, b. split; [|by apply rotated_to_refl].
    intros [|fuel] Hf; [lia|]. by apply (splay_root _ _ _ _ xd). }
  rewrite length_app in Hlen. simpl in Hlen.
  destruct (tree_cell this s _ a dep b Ht) as (xd & Hd & Hpd & _).
  rewrite holepar_snoc in Hpd.
  pose proof Ht as V2. rewrite plug_snoc in V2.
  destruct (snoc_cases C1) as [->|(C' & g & ->)].
  { (* zig: the parent is the root *)
    destruct f as [p r|l p]; simpl in *.
    - destruct (tree_cell this s [] _ p r V2) as (xp & Hp & Hpp & Hlp & _).
      simpl in Hpp, Hlp.
      destruct (rightRotate_at this s [] a p b dep r V2) as (s1 & Hrun1 & Hrot1).
      pose proof Hrot1 as (_ & Ht1 & _).
      destruct (IH (n - 1) (ltac:(lia)) [] a (Node b p r) s1 (ltac:(simpl; lia)) Ht1)
        as (s2 & a' & b' & Hrun2 & Hrot2).
      exists s2, a', b'. split; [|by eapply rotated_to_trans].
      intros [|fuel] Hf; [lia|].
      rewrite (splay_zig_L fuel this dep s xd p xp Hd Hpd Hp Hpp Hlp).
      unfold bind. rewrite Hrun1. apply Hrun2. lia.
    - destruct (tree_cell this s [] l p _ V2) as (xp & Hp & Hpp & Hlp & _).
      simpl in Hpp.
      assert (left xp <> Some dep) as Hne.
      { rewrite Hlp. eapply root_ne_left; [by eapply (tree_at_NoDup this s [])|].
        apply node_in. }
      destruct (leftRotate_at this s [] l p a dep b V2) as (s1 & Hrun1 & Hrot1).
      pose proof Hrot1 as (_ & Ht1 & _).
      destruct (IH (n - 1) (ltac:(lia)) [] (Node l p a) b s1 (ltac:(simpl; lia)) Ht1)
        as (s2 & a' & b' & Hrun2 & Hrot2).
      exists s2, a', b'. split; [|by eapply rotated_to_trans].
      intros [|fuel] Hf; [lia|].
      rewrite (splay_zig_R fuel this dep s xd p xp Hd Hpd Hp Hpp Hne).
      unfold bind. rewrite Hrun1. apply Hrun2. lia. }
  (* the node has a grandparent *)
  rewrite length_app in Hlen. simpl in Hlen.
  pose proof V2 as V3. rewrite plug_snoc in V3.
  rewrite !plug_snoc.
  assert (Hnd2 := tree_at_NoDup _ _ _ _ V2). assert (Hnd3 := tree_at_NoDup _ _ _ _ V3).
  destruct g as [gq gd|gl gq]; destruct f as [p c|l p]; simpl in *.
  - (* zig-zig: left child of a left child *)
    destruct (tree_cell this s _ _ p c V2) as (xp & Hp & Hpp & Hlp & _).
    rewrite holepar_snoc in Hpp. simpl in Hpp, Hlp.
    destruct (tree_cell this s _ _ gq gd V3) as (xg & Hg & _ & Hlg & _). simpl in Hlg.
    destruct (rightRotate_at this s C' (Node a dep b) gq c p gd V3) as (s1 & Hrun1 & Hrot1).
    pose proof Hrot1 as (_ & Ht1 & _).
    assert (Hpar1 : Object.parent_of dep s1 = Ret p s1).
    { apply (parent_of_at this s1 C' (InLeft p (Node c gq gd)) a dep b).
      by rewrite plug_snoc. }
    destruct (rightRotate_at this s1 C' a p b dep (Node c gq gd) Ht1) as (s2 & Hrun2 & Hrot2).
    pose proof Hrot2 as (_ & Ht2 & _).
    destruct (IH (n - 2) (ltac:(lia)) C' a (Node b p (Node c gq gd)) s2 (ltac:(lia)) Ht2)
      as (s3 & a' & b' & Hrun3 & Hrot3).
    exists s3, a', b'. split.
    + intros [|fuel] Hf; [lia|].
      rewrite (splay_zig_zig_L fuel this dep s xd p xp gq xg Hd Hpd Hp Hpp Hg Hlp Hlg).
      unfold bind. rewrite Hrun1, Hpar1, Hrun2. apply Hrun3. lia.
    + eapply rotated_to_trans; [exact Hrot1|]. by eapply rotated_to_trans.
  - (* zig-zag: right child of a left child *)
    destruct (tree_cell this s _ l p _ V2) as (xp & Hp & Hpp & Hlp & Hrp).
    rewrite holepar_snoc in Hpp. simpl in Hpp, Hrp.
    destruct (tree_cell this s _ _ gq gd V3) as (xg & Hg & _ & Hlg & Hrg). simpl in Hlg.
    assert (left xp <> Some dep) as Hne.
    { rewrite Hlp. apply (root_ne_left l p (Node a dep b)); [exact Hnd2|]. apply node_in. }
    assert (right xg <> Some p) as Hneg.
    { rewrite Hrg. apply (root_ne_right (Node l p (Node a dep b)) gq gd); [exact Hnd3|].
      apply node_in. }
    destruct (leftRotate_at this s (C' ++ [InLeft gq gd]) l p a dep b V2)
      as (s1 & Hrun1 & Hrot1).
    rewrite !plug_snoc in Hrot1. simpl in Hrot1.
    pose proof Hrot1 as (_ & Ht1 & _).
    assert (Hpar1 : Object.parent_of dep s1 = Ret gq s1).
    { apply (parent_of_at this s1 C' (InLeft gq gd) (Node l p a) dep b).
      by rewrite plug_snoc. }
    destruct (rightRotate_at this s1 C' (Node l p a) gq b dep gd Ht1)
      as (s2 & Hrun2 & Hrot2).
    pose proof Hrot2 as (_ & Ht2 & _).
    destruct (IH (n - 2) (ltac:(lia)) C' (Node l p a) (Node b gq gd) s2 (ltac:(lia)) Ht2)
      as (s3 & a' & b' & Hrun3 & Hrot3).
    exists s3, a', b'. split.
    + intros [|fuel] Hf; [lia|].
      rewrite (splay_zig_zag_R fuel this dep s xd p xp gq xg Hd Hpd Hp Hpp Hg Hne Hrp Hneg).
      unfold bind. rewrite Hrun1, Hpar1, Hrun2. apply Hrun3. lia.
    + eapply rotated_to_trans; [exact Hrot1|]. by eapply rotated_to_trans.
  - (* zig-zag: left child of a right child *)
    destruct (tree_cell this s _ _ p c V2) as (xp & Hp & Hpp & Hlp & Hrp).
    rewrite holepar_snoc in Hpp. simpl in Hpp, Hlp.
    destruct (tree_cell this s _ gl gq _ V3) as (xg & Hg & _ & Hlg & Hrg). simpl in Hrg.
    assert (right xp <> Some dep) as Hne.
    { rewrite Hrp. apply (root_ne_right (Node a dep b) p c); [exact Hnd2|]. apply node_in. }
    assert (left xg <> Some p) as Hneg.
    { rewrite Hlg. apply (root_ne_left gl gq (Node (Node a dep b) p c)); [exact Hnd3|].
      apply node_in. }
    destruct (rightRotate_at this s (C' ++ [InRight gl gq]) a p b dep c V2)
      as (s1 & Hrun1 & Hrot1).
    rewrite !plug_snoc in Hrot1. simpl in Hrot1.
    pose proof Hrot1 as (_ & Ht1 & _).
    assert (Hpar1 : Object.parent_of dep s1 = Ret gq s1).
    { apply (parent_of_at this s1 C' (InRight gl gq) a dep (Node b p c)).
      by rewrite plug_snoc. }
    destruct (leftRotate_at this s1 C' gl gq a dep (Node b p c) Ht1)
      as (s2 & Hrun2 & Hrot2).
    pose proof Hrot2 as (_ & Ht2 & _).
    destruct (IH (n - 2) (ltac:(lia)) C' (Node gl gq a) (Node b p c) s2 (ltac:(lia)) Ht2)
      as (s3 & a' & b' & Hrun3 & Hrot3).
    exists s3, a', b'. split.
    + intros [|fuel] Hf; [lia|].
      rewrite (splay_zig_zag_L fuel this dep s xd p xp gq xg Hd Hpd Hp Hpp Hg Hlp Hne
                 Hneg Hrg).
      unfold bind. rewrite Hrun1, Hpar1, Hrun2. apply Hrun3. lia.
    + eapply rotated_to_trans; [exact Hrot1|]. by eapply rotated_to_trans.
  - (* zig-zig: right child of a right child *)
    destruct (tree_cell this s _ l p _ V2) as (xp & Hp & Hpp & Hlp & Hrp).
    rewrite holepar_snoc in Hpp. simpl in Hpp, Hrp.
    destruct (tree_cell this s _ gl gq _ V3) as (xg & Hg & _ & _ & Hrg). simpl in Hrg.
    assert (left xp <> Some dep) as Hne.
    { rewrite Hlp. apply (root_ne_left l p (Node a dep b)); [exact Hnd2|]. apply node_in. }
    destruct (leftRotate_at this s C' gl gq l p (Node a dep b) V3) as (s1 & Hrun1 & Hrot1).
    pose proof Hrot1 as (_ & Ht1 & _).
    assert (Hpar1 : Object.parent_of dep s1 = Ret p s1).
    { apply (parent_of_at this s1 C' (InRight (Node gl gq l) p) a dep b).
      by rewrite plug_snoc. }
    destruct (leftRotate_at this s1 C' (Node gl gq l) p a dep b Ht1) as (s2 & Hrun2 & Hrot2).
    pose proof Hrot2 as (_ & Ht2 & _).
    destruct (IH (n - 2) (ltac:(lia)) C' (Node (Node gl gq l) p a) b s2 (ltac:(lia)) Ht2)
      as (s3 & a' & b' & Hrun3 & Hrot3).
    exists s3, a', b'. split.
    + intros [|fuel] Hf; [lia|].
      rewrite (splay_zig_zig_R fuel this dep s xd p xp gq xg Hd Hpd Hp Hpp Hg Hne Hrp Hrg).
      unfold bind. rewrite Hrun1, Hpar1, Hrun2. apply Hrun3. lia.
    + eapply rotated_to_trans; [exact Hrot1|]. by eapply rotated_to_trans.
Qed.

(** ** Rotations and [splay] on any tree *)

(** The tree pointers of a node are determined by the tree. *)
Lemma ptree_links dm dm' t e x x' : forall par root root',
  ptree dm par root t -> ptree dm' par root' t -> e ∈ nodes t ->
  dm !! e = Some x -> dm' !! e = Some x' ->
  parent x = parent x' /\ left x = left x' /\ right x = right x'.
Proof.
  induction t as [|l IHl n r IHr]; intros par root root'; simpl.
  - intros _ _ He. by apply elem_of_nil in He.
  - intros (-> & y & Hy & Hp & Hl & Hr) (-> & y' & Hy' & Hp' & Hl' & Hr') He Hx Hx'.
    apply elem_of_app in He as [He|He]; [by eapply IHl|].
    apply elem_of_cons in He as [->|He]; [|by eapply IHr].
    simplify_eq.
    rewrite (ptree_root_of _ _ _ _ Hl), (ptree_root_of _ _ _ _ Hl').
    rewrite (ptree_root_of _ _ _ _ Hr), (ptree_root_of _ _ _ _ Hr').
    by rewrite Hp'.
Qed.

(** Two memories with the same tree that differ in tree pointers only are the
    same memory. *)
Lemma same_tree_same_memory this s s' T :
  tree_at this s T -> tree_at this s' T -> links_only this s s' ->
  (forall e, e ∉ nodes T -> deps s' !! e = deps s !! e) -> s' = s.
Proof.
  intros (ot & Hot & _ & Ht) (ot' & Hot' & _ & Ht')
         (Hl & Htop & Hi & Hq & Hthis & Hnone & Hsome) Hout.
  destruct s as [lk ob dp tp ini], s' as [lk' ob' dp' tp' ini']; simpl in *. subst.
  f_equal.
  - apply map_eq. intros q. destruct (decide (q = this)) as [->|Hne]; [|by apply Hq].
    destruct (Hthis _ Hot) as (r & Hr). rewrite Hot, Hr. rewrite Hot' in Hr.
    injection Hr as ->.
    apply ptree_root_of in Ht, Ht'. f_equal.
    destruct ot; simpl in *. by subst.
  - apply map_eq. intros e. destruct (decide (e ∈ nodes T)) as [He|He]; [|by apply Hout].
    destruct (dp !! e) as [x|] eqn:Hx; [|by apply Hnone].
    destruct (Hsome _ _ Hx) as (x' & Hx' & HA & HB & Hc & Hpr & Hnx). rewrite Hx'. f_equal.
    destruct (ptree_links _ _ _ _ _ _ _ _ _ Ht' Ht He Hx' Hx) as (? & ? & ?).
    destruct x, x'; simpl in *. by subst.
Qed.

(** Every node of a tree is the root of a subtree in some context. *)
Lemma in_plug t e : e ∈ nodes t -> exists C a b, t = plug C (Node a e b).
Proof.
  induction t as [|l IHl n r IHr]; simpl; intros He.
  - by apply elem_of_nil in He.
  - apply elem_of_app in He as [He|He].
    { destruct (IHl He) as (C & a & b & ->). by exists (InLeft n r :: C), a, b. }
    apply elem_of_cons in He as [->|He]; [by exists [], l, r|].
    destruct (IHr He) as (C & a & b & ->). by exists (InRight l n :: C), a, b.
Qed.

Lemma length_plug C t : length C + length (nodes t) <= length (nodes (plug C t)).
Proof.
  induction C as [|f C IH]; simpl; [lia|]. rewrite nodes_fill.
  destruct f; rewrite length_app; simpl; lia.
Qed.

Lemma three_edges_tree :
  tree_at 1 three_edges (Node (Node (Node Leaf 10 Leaf) 11 Leaf) 12 Leaf)%positive.
Proof.
  eexists. split; [reflexivity|]. split.
  { apply (bool_decide_unpack _). reflexivity. }
  simpl. split; [reflexivity|]. eexists. split; [reflexivity|]. split; [reflexivity|].
  split; [|reflexivity].
  split; [reflexivity|]. eexists. split; [reflexivity|]. split; [reflexivity|].
  split; [|reflexivity].
  split; [reflexivity|]. eexists. split; [reflexivity|]. split; [reflexivity|].
  split; reflexivity.
Defined.

Lemma three_edges_balanced_tree :
  tree_at 1 three_edges_balanced
    (Node (Node Leaf 10 Leaf) 11 (Node Leaf 12 Leaf))%positive.
Proof.
  eexists. split; [reflexivity|]. split.
  { apply (bool_decide_unpack _). reflexivity. }
  simpl. split; [reflexivity|]. eexists. split; [reflexivity|]. split; [reflexivity|].
  split.
  - split; [reflexivity|]. eexists. split; [reflexivity|]. split; [reflexivity|].
    split; reflexivity.
  - split; [reflexivity|]. eexists. split; [reflexivity|]. split; [reflexivity|].
    split; reflexivity.
Defined.

(** X14: in a record whose tree has the node [dep] with a right child [o],
    [leftRotate(dep)] returns and puts [o] in the place of [dep], with [dep]
    as its left child and the former left subtree of [o] as the right
    subtree of [dep].  The nodes are the same in the same order from left to
    right, and nothing but tree pointers has changed in the memory. *)
Theorem left_rotate_keeps_order this s C a dep b o c :
  tree_at this s (plug C (Node a dep (Node b o c))) ->
  exists s',
    Object.leftRotate this dep s = Ret tt s' /\
    tree_at this s' (plug C (Node (Node a dep b) o c)) /\
    nodes (plug C (Node (Node a dep b) o c)) = nodes (plug C (Node a dep (Node b o c))) /\
    links_only this s s' /\
    (forall e, e ∉ nodes (plug C (Node a dep (Node b o c))) -> deps s' !! e = deps s !! e).
Proof.
  intros Ht. destruct (leftRotate_at this s C a dep b o c Ht) as (s' & Hrun & Hl & Ht' & Hn & Ho).
  by exists s'.
Qed.

Lemma left_rotate_keeps_order_witness :
  exists s',
    Object.leftRotate 1 11 three_edges_balanced = Ret tt s' /\
    tree_at 1 s' (Node (Node (Node Leaf 10 Leaf) 11 Leaf) 12 Leaf)%positive /\
    links_only 1 three_edges_balanced s'.
Proof.
  destruct (left_rotate_keeps_order 1 three_edges_balanced []
              (Node Leaf 10 Leaf) 11 Leaf 12 Leaf three_edges_balanced_tree)%positive
    as (s' & Hrun & Ht & _ & Hl & _).
  exists s'. split; [exact Hrun|]. split; [exact Ht|exact Hl].
Defined.

(** X15: in a record whose tree has the node [dep] with a left child [o],
    [rightRotate(dep)] returns and puts [o] in the place of [dep], with
    [dep] as its right child and the former right subtree of [o] as the left
    subtree of [dep].  The nodes are the same in the same order from left to
    right, and nothing but tree pointers has changed in the memory. *)
Theorem right_rotate_keeps_order this s C a dep b o c :
  tree_at this s (plug C (Node (Node a o b) dep c)) ->
  exists s',
    Object.rightRotate this dep s = Ret tt s' /\
    tree_at this s' (plug C (Node a o (Node b dep c))) /\
    nodes (plug C (Node a o (Node b dep c))) = nodes (plug C (Node (Node a o b) dep c)) /\
    links_only this s s' /\
    (forall e, e ∉ nodes (plug C (Node (Node a o b) dep c)) -> deps s' !! e = deps s !! e).
Proof.
  intros Ht. destruct (rightRotate_at this s C a dep b o c Ht) as (s' & Hrun & Hl & Ht' & Hn & Ho).
  by exists s'.
Qed.

Lemma right_rotate_keeps_order_witness :
  exists s',
    Object.rightRotate 1 12 three_edges = Ret tt s' /\
    tree_at 1 s' (Node (Node Leaf 10 Leaf) 11 (Node Leaf 12 Leaf))%positive /\
    links_only 1 three_edges s'.
Proof.
  destruct (right_rotate_keeps_order 1 three_edges []
              (Node Leaf 10 Leaf) 12 Leaf 11 Leaf three_edges_tree)%positive
    as (s' & Hrun & Ht & _ & Hl & _).
  exists s'. split; [exact Hrun|]. split; [exact Ht|exact Hl].
Defined.

(** X16: the two rotations undo each other.  After [leftRotate(dep)] on a
    node [dep] with the right child [o], [rightRotate(o)] gives back the
    memory as it was; and after [rightRotate(o)] on a node [o] with the left
    child [dep], [leftRotate(dep)] gives back the memory as it was. *)
Theorem rotations_inverse this s s' C a dep b o c :
  tree_at this s (plug C (Node a dep (Node b o c))) ->
  tree_at this s' (plug C (Node (Node a dep b) o c)) ->
  (Object.leftRotate this dep;; Object.rightRotate this o) s = Ret tt s /\
  (Object.rightRotate this o;; Object.leftRotate this dep) s' = Ret tt s'.
Proof.
  intros Ht Ht'. split.
  - destruct (leftRotate_at this s C a dep b o c Ht) as (s1 & Hrun1 & Hrot1).
    pose proof Hrot1 as (_ & Ht1 & _).
    destruct (rightRotate_at this s1 C a o b dep c Ht1) as (s2 & Hrun2 & Hrot2).
    destruct (rotated_to_trans _ _ _ _ _ _ _ Hrot1 Hrot2) as (Hl & Ht2 & _ & Hout).
    unfold bind. rewrite Hrun1, Hrun2. f_equal.
    by apply (same_tree_same_memory this s s2 _ Ht Ht2 Hl).
  - destruct (rightRotate_at this s' C a o b dep c Ht') as (s1 & Hrun1 & Hrot1).
    pose proof Hrot1 as (_ & Ht1 & _).
    destruct (leftRotate_at this s1 C a dep b o c Ht1) as (s2 & Hrun2 & Hrot2).
    destruct (rotated_to_trans _ _ _ _ _ _ _ Hrot1 Hrot2) as (Hl & Ht2 & _ & Hout).
    unfold bind. rewrite Hrun1, Hrun2. f_equal.
    by apply (same_tree_same_memory this s' s2 _ Ht' Ht2 Hl).
Qed.

Lemma rotations_inverse_witness :
  (Object.leftRotate 1 11;; Object.rightRotate 1 12) three_edges_balanced
    = Ret tt three_edges_balanced /\
  (Object.rightRotate 1 12;; Object.leftRotate 1 11) three_edges
    = Ret tt three_edges.
Proof.
  exact (rotations_inverse 1 three_edges_balanced three_edges []
           (Node Leaf 10 Leaf) 11 Leaf 12 Leaf
           three_edges_balanced_tree three_edges_tree)%positive.
Defined.

(** X17: in a record with any tree, [splay(dep)] on a node [dep] of the tree
    returns (a step budget of the number of nodes is enough) with [dep] at
    the root.  The tree has the same nodes in the same order from left to
    right as before, and nothing but tree pointers has changed in the
    memory. *)
Theorem splay_to_root this s T dep :
  tree_at this s T -> dep ∈ nodes T ->
  exists s' a b,
    (forall fuel, length (nodes T) <= fuel -> Object.splay fuel this dep s = Ret tt s') /\
    tree_at this s' (Node a dep b) /\
    nodes (Node a dep b) = nodes T /\
    links_only this s s' /\
    (forall e, e ∉ nodes T -> deps s' !! e = deps s !! e).
Proof.
  intros Ht Hin. destruct (in_plug T dep Hin) as (C & a & b & ->).
  destruct (splay_total this dep (length C) C a b s (le_n _) Ht)
    as (s' & a' & b' & Hrun & Hl & Ht' & Hn & Ho).
  exists s', a', b'. split_and!; try done.
  intros fuel Hf. apply Hrun.
  pose proof (length_plug C (Node a dep b)) as Hlen. simpl in Hlen.
  rewrite length_app in Hlen. simpl in Hlen. lia.
Qed.

Lemma splay_to_root_witness :
  exists s' a b,
    Object.splay 3 1 10 three_edges = Ret tt s' /\
    tree_at 1 s' (Node a 10%positive b) /\
    nodes (Node a 10%positive b) = [10; 11; 12]%positive.
Proof.
  destruct (splay_to_root 1 three_edges
              (Node (Node (Node Leaf 10 Leaf) 11 Leaf) 12 Leaf) 10 three_edges_tree)%positive
    as (s' & a & b & Hrun & Ht & Hn & _).
  { simpl. constructor. }
  exists s', a, b. split; [apply Hrun; apply le_n|]. split; [exact Ht|exact Hn].
Defined.
